(* ===== verification/_CoqProject ===== *)
-Q . S2P
Prelude.v
Float64.v
IntDouble.v
Rounding.v
SortedMap.v
StdSort.v
Str.v
Stod.v
Fmt.v
Json.v
JsonText.v
Queues.v
Types.v
FixParser.v
FixBuilder.v
FeedSimulator.v
OrderBook.v
ArbEngine.v
Wakeup.v
EngineThreads.v
ThreadAffinity.v
FeedClients.v
LivePrices.v
Scenario.v
QueryProtocol.v
CommandLine.v
Reports.v
RemoteSources.v
ReportLoader.v
EnvLoader.v
CoinbaseAuth.v
ClientLifecycle.v
FeedTransport.v
Dashboard.v
Metrics.v
QueryServers.v
ServerLoops.v
EpollLoop.v
ServerLifecycle.v
ServerSetup.v
Federation.v
EndToEnd.v
BenchClient.v
MainProgram.v
SpscRing.v
MpscRing.v
ItchMessages.v
ItchReplay.v
ReplayTests.v
Timing.v
HdrHistogram.v
QueueTracker.v
ExchangeQueue.v
LatencyMonitor.v
MonitorThread.v
LatencyIntegration.v
LatencyReports.v
TickLogger.v
