(* ===== verification/Prelude.v ===== *)
(** * TickPlant: a verification library for the market data platform

    TickPlant reads the order books of crypto exchanges over WebSockets and a
    synthetic FIX feed, keeps one order book per exchange and symbol, looks for
    arbitrage between them, shows them on a terminal, answers queries over TCP
    and writes ticks to a database.  This library models that program, file by
    file, as Rocq functions and step machines translated from the C++, and
    proves what makes each part correct.

    ** How the program's parts interact, and where each is modelled

    Data:
    - [Types]: [TickerData] and [ArbitrageOpportunity] (types.hpp).
    - [FixParser], [FixBuilder]: FIX 4.4 text in both directions
      (fix_parser.hpp, fix_parser.cpp).
    - [OrderBook]: the level 2 book, over the ordered maps of [SortedMap]
      (order_book.hpp, order_book.cpp).

    Producers, each ending in a callback with an [OrderBookSnapshot] or a FIX
    message:
    - [FeedClients]: the message handling of the Binance, Kraken, Bybit and
      Coinbase clients (the four *_client.cpp); [ClientLifecycle]: their
      [connect], [disconnect], reading thread and subscriptions, on the flags
      and the thread; [FeedTransport]: the four client classes as whole
      objects, from the credentials to the messages handled; [CoinbaseAuth]:
      the signed token of one of them.
    - [FeedSimulator]: the FIX simulator and its thread
      (fix_feed_simulator.hpp, fix_feed_simulator.cpp); [LivePrices]: the
      price map that anchors it to the other feeds, and the callbacks that
      main.cpp wires; [Scenario]: the chaos-test thread of main.cpp, which
      drives it.

    The engine:
    - [ArbEngine]: books, detection, queries (arbitrage_engine.hpp,
      arbitrage_engine.cpp); [Wakeup]: the condition-variable protocol between
      the producers, its calculation thread and [stop]; [EngineThreads]: the
      engine run by its threads, a refinement of that protocol.

    Consumers of the engine:
    - [QueryProtocol], [QueryServers]: the line protocol and the connections
      of its three servers (query_server.cpp, simple_query_server.cpp,
      query_server_epoll.cpp, query_server_uring.cpp); [EpollLoop],
      [ServerLoops]: the loops of the epoll and io_uring servers over all
      connections, with the kernel's side of a registration; [ServerLifecycle],
      [ServerSetup]: [start], [stop] and the opening of the listening socket
      of the three.
    - [Reports], [ReportLoader]: the report pipeline, its registry, its
      exchange source and its configuration (report_pipeline.cpp,
      report_types.hpp, data_source.hpp, data_source_registry.cpp,
      exchange_data_source.cpp); [RemoteSources]: the sources that ask another
      instance or QuestDB (remote_data_source.cpp, questdb_data_source.cpp);
      [Federation]: a remote source and the server it asks, composed.
    - [Dashboard]: the terminal screen (dashboard.hpp, dashboard.cpp).
    - [TickLogger]: the writer to QuestDB (tick_logger.hpp, tick_logger.cpp).
    - [Metrics]: the Prometheus series (metrics.hpp, metrics.cpp).

    Infrastructure:
    - [SpscRing], [MpscRing]: the lock-free rings (ring_buffer.hpp,
      mpsc_ring_buffer.hpp); [Queues]: the interface their users are verified
      against, of which they and [std::queue] are instances.
    - [ExchangeQueue], [QueueTracker]: the shared ticker queues and the tracker
      of their latency (exchange_queue.hpp, queue_latency_tracker.hpp).
    - [Timing], [HdrHistogram], [LatencyMonitor], [MonitorThread]: counters,
      histograms, message latency and the thread that collects it (timing.hpp,
      hdr_histogram.hpp, latency_measurement.hpp, latency_monitor.hpp);
      [LatencyIntegration]: the calls latency_integration_example.hpp
      documents; [LatencyReports]: what the tracker and the monitor print.
    - [CommandLine], [EnvLoader]: options, the report client and the
      environment file (main.cpp, env_loader.hpp).
    - [ThreadAffinity]: which core each thread asks for (thread_affinity.hpp).

    The whole:
    - [EndToEnd]: an exchange's messages, the client, the callback of main.cpp,
      the engine and a SNAPSHOT request, composed.
    - [MainProgram]: what each mode of [main] creates, wires, connects, starts
      and stops, with signal handlers on any thread and failures between the
      flag, the launch and the join of each call (main.cpp).
    - [BenchClient]: the query benchmark's client, composed with a server's
      answers (benchmarks/bench_query_client.cpp).

    Regression tests of the repository:
    - [ItchMessages], [ItchReplay], [ReplayTests]: NASDAQ ITCH messages, their
      replay into an [OrderBook], and the tests (tests/replay/).

    Language and library: this file (bytes, machine integers, undefined
    behaviour, exceptions, iteration order), [Float64] (binary64), [IntDouble] and
    [Rounding] (doubles that are integers; bounds kept by rounding), [Str],
    [Fmt] and [Stod] (strings, printing and reading numbers), [StdSort]
    ([std::sort]), [Json] (the interface to nlohmann::json) and [JsonText] (the
    texts the program writes, and a reader of them).

    ** How state and operations correspond to the code

    A class is a record with the fields of the class, under their names; a
    method is a function from the record to the record, guards and early
    returns included.  [None] of the type [ub] is undefined behaviour or a
    terminated process; an exception is a value ([res] where JSON is read).
    Locks make a method's critical section one step.  Where the code's threads
    meet without a lock, or with one released in between ([SpscRing],
    [MpscRing], [Wakeup], [EngineThreads], [TickLogger], [FeedSimulator], [Scenario],
    [ClientLifecycle], [FeedTransport], [ServerLifecycle], [EpollLoop],
    [ServerLoops], [MonitorThread], [MainProgram]), the model is a step
    relation and its theorems hold of every interleaving.  Integers have their width: signed overflow is [None],
    unsigned arithmetic wraps.  Doubles are binary64, with NaN and both zeros;
    text is bytes.

    Clock and counter readings, random draws, and what the kernel, the network
    and the files return are arguments.  nlohmann::json, OpenSSL, the
    [unordered_map] order and [std::sort] are classes whose laws are their
    documented behaviour; [Json], [JsonText], [CoinbaseAuth] and [StdSort] have
    concrete instances, with which the examples are evaluated.

    ** What the theorems show

    - Text in and out.  Parsing a FIX message never leaves its arrays, always
      ends, and fills a well-typed message; a message that was built is read
      back field for field.  The exchanges' JSON messages give the levels they
      list, whatever their number.  Chunked HTTP bodies, percent encoding,
      base64url tokens, report configurations, the environment file and the
      command line are read back as they were written, and what malformed
      input does is stated.
    - Books.  Both sides of every reachable book are sorted without duplicate
      prices; snapshots replace and updates fold; pruning leaves the book
      uncrossed.  As long as every message of a feed lists numeric prices, no
      quantity 0 in a snapshot and no empty snapshot where the client clears
      its book first, the engine's copy follows the client's own book,
      and a SNAPSHOT request of the instrument, in any spelling, is answered
      with that book.  A replay of individual orders keeps every level the sum
      of the orders resting at it.
    - Detection.  A calculation reports exactly the opportunities that fresh
      books of one symbol on two exchanges offer.  Run by its threads, the
      engine holds the opportunities of the current books, at the clock of its
      last calculation, whenever it is at rest, and reaches that state in a
      bounded number of steps, except through the lost notification that [Wakeup.lost_wakeup] and
      [EngineThreads.missed_opportunity] exhibit.  A calculation and a query
      read the WebSocket books first and the FIX books at the same or a later
      moment; [EngineThreads.skewed_opportunity] shows what that allows.
      Uninterrupted, the threads' steps are the operations of [ArbEngine]
      ([EngineThreads.threads_refine_engine]).
    - Queues.  Both rings are linearised to bounded queues under all
      interleavings and with wrapping counters; the shared queues deliver in
      order what was pushed, minus counted refusals.
    - Serving.  The three servers are line servers: the responses, in order,
      of the lines received, whatever way the kernel splits them and in
      whatever order it completes what is in flight; every response is one
      line, and those of SNAPSHOT and HEALTH are JSON.  The epoll loop closes
      what it opened, loses no edge-triggered event, and comes to rest with
      every complete line that it has read answered, but for the pipelined
      requests that [EpollLoop.second_request_waits] exhibits.  For a symbol that
      a request line carries unchanged, a remote source sees what the exchange
      sources of the server it asks would see ([Federation.lower_case_differs]
      is one that it does not).  The
      pipeline's report follows its configuration.  The benchmark's client
      reads every response whole and reports on exactly what it measured.
      Servers stop.
    - The program as a whole.  Whatever the mode, the signals, the network and
      the order of the threads, nothing uses a null pointer, starts before it
      is wired or launches a thread over another; a thread joins itself, or two
      join the same one, only where a signal handler is one of them, which
      [MainProgram.engine_joins_itself], [MainProgram.engine_joined_twice] and
      [MainProgram.scenario_and_handler] show to happen.  Once asked to stop,
      [main] returns after a bounded number of steps, unless such a join, or a
      thread that waits for something else, is in the way
      ([MainProgram.main_waits_for_ever]).
      A client that reads is the abstract client and its message handler; a
      [connect] subscribes or leaves the client as it was; opening a server's
      socket closes it again on every error.
    - Simulation and observation.  Each tick emits the message that is due,
      around a price that follows the market; the threads end when they are
      stopped, and the scenario's windows see the rate they announce.  The
      dashboard, histograms, trackers and metrics show what was recorded.

    ** Fuel and bounds

    The loops that are not structural take fuel: [FixParser.parse] the length
    of the message plus one (each field consumes a byte; to run out would be
    [None], and the parser's theorem shows that it does not happen); [decode_chunked] the
    caller's (one unit per chunk and one for the end suffice, and a malformed
    size for which no fuel suffices is exhibited); [bybit_batches] the number
    of symbols plus one; [ItchReplay.replay_loop] the length of the file plus
    one; the [recv] and [send] loops of [EpollLoop] the bytes waiting or to be
    sent plus one.  Theorems about them say that the result is reached.
    The lock-free rings are verified for fewer than [2^62] claimed positions,
    the simulator for sequence numbers and level counts within [int].

    ** Not modelled

    Sockets, TLS, WebSocket framing and the inside of [io_uring] and of threads
    (operating system and Boost.Beast; their results are inputs); the
    Prometheus HTTP exposer; printed banners and progress messages (no state);
    latency_test.cpp and the other benchmarks, which only time the modelled
    parts; the locks of the C++ library a signal handler may find taken.  Relaxed and acquire/release atomics are sequentially consistent in
    the models. *)

From Stdlib Require Export ZArith Lia Ascii.
From Stdlib Require Import String.
From stdpp Require Export base tactics option list gmap sets strings relations.

#[global] Open Scope Z_scope.

(** ** Bytes *)

(** [std::string] and [std::string_view] are sequences of bytes. *)
Abbreviation bytes := (list ascii).

(** Byte literals: [$"SNAPSHOT "] is the byte sequence of the literal. *)
Notation "$ s" := (list_ascii_of_string s%string)
  (at level 1, s at level 0, format "$ s") : list_scope.

Definition byte_val (c : ascii) : Z := Z.of_N (N_of_ascii c).
Definition byte_of (z : Z) : ascii := ascii_of_N (Z.to_N z).

(** ** Machine integers

    Unsigned arithmetic of C++ wraps around; the wrap is written where the
    source computes in the type.  Signed overflow is undefined behaviour and
    is an outcome of its own (see [ub] below). *)

Definition two64 : Z := 2 ^ 64.
Definition UINT64_MAX : Z := two64 - 1.
Definition INT_MAX : Z := 2 ^ 31 - 1.
Definition INT_MIN : Z := - 2 ^ 31.

Definition wrap64 (z : Z) : Z := z mod two64.
Definition wrap32 (z : Z) : Z := z mod 2 ^ 32.

Definition in_u64 (z : Z) : Prop := 0 <= z < two64.
Definition in_u32 (z : Z) : Prop := 0 <= z < 2 ^ 32.
Definition in_int (z : Z) : bool := (INT_MIN <=? z) && (z <=? INT_MAX).

Lemma wrap64_small z : in_u64 z -> wrap64 z = z.
Proof. unfold in_u64, wrap64. apply Z.mod_small. Qed.

Lemma wrap64_range z : in_u64 (wrap64 z).
Proof. unfold in_u64, wrap64, two64. apply Z.mod_pos_bound. lia. Qed.

(** ** Undefined behaviour

    [None] is an execution the language gives no meaning to (signed overflow,
    an access out of bounds); stdpp's option monad threads it. *)
Abbreviation ub A := (option A).

Definition ub_int (z : Z) : ub Z := if in_int z then Some z else None.

Lemma ub_int_val z n : ub_int z = Some n -> n = z.
Proof. unfold ub_int. destruct (in_int z); [by intros [= ->]|done]. Qed.

Lemma ub_int_some z : INT_MIN <= z <= INT_MAX -> ub_int z = Some z.
Proof.
  intros H. unfold ub_int, in_int.
  by rewrite (proj2 (Z.leb_le _ _) (proj1 H)), (proj2 (Z.leb_le _ _) (proj2 H)).
Qed.

(** ** Exceptions

    The outcome of code that may throw: a value, an exception, or undefined
    behaviour.  [>>=] stops at the first of the last two. *)
Inductive res (A : Type) :=
  | Ret (a : A)
  | Throw
  | Undef.
Arguments Ret {A} a.
Arguments Throw {A}.
Arguments Undef {A}.

#[export] Instance res_ret : MRet res := fun A a => Ret a.
#[export] Instance res_bind : MBind res := fun A B f r =>
  match r with Ret a => f a | Throw => Throw | Undef => Undef end.
#[export] Instance res_fmap : FMap res := fun A B f r =>
  match r with Ret a => Ret (f a) | Throw => Throw | Undef => Undef end.

(** A library call that returns or throws. *)
Definition or_throw {A} (o : option A) : res A :=
  match o with Some a => Ret a | None => Throw end.

(** A loop that computes a list, stopping at the first element that does not
    return. *)
Fixpoint map_res {A B} (f : A -> res B) (l : list A) : res (list B) :=
  match l with
  | [] => Ret []
  | x :: l' => y ← f x; ys ← map_res f l'; Ret (y :: ys)
  end.

Lemma bind_ret {A B} (f : A -> res B) (r : res A) b :
  r ≫= f = Ret b <-> exists a, r = Ret a /\ f a = Ret b.
Proof.
  split.
  - destruct r as [a| |]; simpl; [by exists a|done|done].
  - by intros (a & -> & Ha).
Qed.

Lemma map_res_ret {A B} (f : A -> res B) l ys :
  map_res f l = Ret ys <-> Forall2 (fun x y => f x = Ret y) l ys.
Proof.
  revert ys. induction l as [|x l IH]; intros ys; simpl.
  { split; [by intros [= <-]|by intros ->%Forall2_nil_inv_l]. }
  rewrite bind_ret. setoid_rewrite bind_ret. split.
  - intros (y & Hy & zs & Hzs%IH & [= <-]). by constructor.
  - intros (y & zs & Hy & Hzs & ->)%Forall2_cons_inv_l. exists y. split; [done|]. exists zs. by rewrite IH.
Qed.

(** ** Record update

    [r <| f := v |>] is the record [r] with field [f] replaced, for records
    whose [Settable] instance is the eta-expansion of their constructor. *)
Class Settable (R : Type) := eta_record : R -> R.
Class Setter {R T : Type} (proj : R -> T) := set_field : (T -> T) -> R -> R.
Arguments set_field {R T} proj {_} f r /.

#[export] Hint Extern 0 (@Setter ?R ?T ?proj) =>
  (let e := constr:(_ : Settable R) in
   let b := eval red in e in
   match eval pattern proj in b with
   | ?setter _ => exact (fun f => setter (fun r => f (proj r)))
   end) : typeclass_instances.

Notation "r <| f := v |>" := (set_field f (fun _ => v) r)
  (at level 1, left associativity, format "r  <| f  :=  v |>").

(** ** Iteration over unordered maps

    The order in which [std::unordered_map] is walked is not specified.  Code
    that walks one is parameterised by an order, of which only this much is
    known: it lists every binding once. *)
Class IterOrder := {
  iter_map : forall {V : Type}, gmap bytes V -> list (bytes * V);
  iter_map_perm : forall {V : Type} (m : gmap bytes V), iter_map m ≡ₚ map_to_list m;
}.

(** The order used to evaluate the model on concrete inputs. *)
Definition default_order : IterOrder :=
  {| iter_map := fun V m => map_to_list m; iter_map_perm := fun V m => Permutation_refl _ |}.

Lemma elem_of_iter_map `{IterOrder} {V} (m : gmap bytes V) k v :
  (k, v) ∈ iter_map m <-> m !! k = Some v.
Proof. rewrite (iter_map_perm m). apply elem_of_map_to_list. Qed.

Lemma NoDup_iter_map_keys `{IterOrder} {V} (m : gmap bytes V) :
  NoDup (map fst (iter_map m)).
Proof. rewrite (iter_map_perm m). apply NoDup_fst_map_to_list. Qed.

(** ** Lists *)

Section list_lemmas.
  Context {A B : Type}.

Lemma Forall_filter_keep (P Q : A -> Prop) `{forall x, Decision (P x)} (l : list A) :
    Forall Q l -> Forall Q (filter P l).
  Proof. rewrite !Forall_forall. intros HQ x [_ Hx]%list_elem_of_filter. by apply HQ. Qed.

Lemma filter_all (P : A -> Prop) `{forall x, Decision (P x)} (l : list A) :
    Forall P l -> filter P l = l.
  Proof.
    induction 1 as [|x l Hx Hl IH]; [done|]. by rewrite filter_cons, decide_True, IH.
  Qed.

  (** A left fold preserves what each step preserves. *)
Lemma foldl_ind (P : B -> Prop) (f : B -> A -> B) (l : list A) (b : B) :
    P b -> (forall b a, a ∈ l -> P b -> P (f b a)) -> P (foldl f b l).
  Proof.
    revert b. induction l as [|a l IH]; intros b Hb Hf; [done|].
    apply IH.
    - apply Hf; [apply list_elem_of_here | done].
    - intros b' a' Ha'. apply Hf. by apply list_elem_of_further.
  Qed.

Lemma Forall_foldl_ind (Q : A -> Prop) (P : B -> Prop) (f : B -> A -> B) (l : list A) (b : B) :
    P b -> Forall Q l -> (forall b a, Q a -> P b -> P (f b a)) -> P (foldl f b l).
  Proof.
    intros Hb HQ Hf. apply foldl_ind; [done|]. intros b' a Ha.
    apply Hf. rewrite Forall_forall in HQ. by apply HQ.
  Qed.
Lemma elem_of_option_list (x : A) (o : option A) : x ∈ option_list o <-> o = Some x.
Proof.
  destruct o as [y|]; simpl.
  - rewrite list_elem_of_singleton. naive_solver.
  - split; [by intros ?%elem_of_nil|done].
Qed.
End list_lemmas.

(** A sum over a list with one element replaced, or removed. *)
Lemma sum_list_insert {A} (f : A -> nat) l i p p' :
  l !! i = Some p -> (sum_list_with f (<[i := p']> l) + f p = sum_list_with f l + f p')%nat.
Proof.
  revert i. induction l as [|x l IH]; intros [|i] Hi; simplify_eq/=; [lia|]. specialize (IH i Hi). lia.
Qed.

Lemma sum_list_delete {A} (f : A -> nat) l i p :
  l !! i = Some p -> (sum_list_with f (delete i l) + f p = sum_list_with f l)%nat.
Proof.
  revert i. induction l as [|x l IH]; intros [|i] Hi; simplify_eq/=; [lia|]. specialize (IH i Hi). lia.
Qed.

(** ** Transition systems *)

Section invariants.
  Context {S : Type} (step : S -> S -> Prop) (I : S -> Prop).

  (** What one step preserves, every execution preserves. *)
Lemma rtc_invariant s s' :
    (forall x y, I x -> step x y -> I y) -> rtc step s s' -> I s -> I s'.
  Proof. intros Hstep Hrtc. induction Hrtc; eauto. Qed.
End invariants.

(** ** Automation *)

Create HintDb tickplant.

(** Case analysis on the first test the goal branches on. *)
Ltac case_test :=
  match goal with
  | |- context [if ?b then _ else _] => destruct b eqn:?
  | |- context [match ?x with _ => _ end] => destruct x eqn:?
  end.

Ltac bool_to_prop :=
  repeat match goal with
  | H : _ && _ = true |- _ => apply andb_true_iff in H as [? ?]
  | H : _ || _ = false |- _ => apply orb_false_iff in H as [? ?]
  | H : negb _ = true |- _ => apply negb_true_iff in H
  | H : negb _ = false |- _ => apply negb_false_iff in H
  | H : (_ <=? _) = true |- _ => apply Z.leb_le in H
  | H : (_ <=? _) = false |- _ => apply Z.leb_gt in H
  | H : (_ <? _) = true |- _ => apply Z.ltb_lt in H
  | H : (_ <? _) = false |- _ => apply Z.ltb_ge in H
  | H : (_ =? _) = true |- _ => apply Z.eqb_eq in H
  | H : (_ =? _) = false |- _ => apply Z.eqb_neq in H
  end.
