(* ===== verification/Float64.v ===== *)
(** * C++ [double]: IEEE-754 binary64

    Doubles are the Standard Library's executable specification of binary
    floating point ([SpecFloat]) at precision 53 and exponent bound 1024, so
    every arithmetic operation of the model rounds the way the program's does
    (to nearest, ties to even).  The file gives the operations and comparisons
    the source uses, and the theory of their order: on the values that are not
    NaN, [<] is a strict weak order, whose equivalence identifies only the two
    zeros. *)

From Stdlib Require Import ZArith Lia Bool.
From Stdlib Require Export Floats.SpecFloat.
From S2P Require Import Prelude.

Abbreviation double := spec_float.

#[export] Instance spec_float_eq_dec : EqDecision double.
Proof. solve_decision. Defined.

(** ** Operations *)

Definition prec : Z := 53.
Definition emax : Z := 1024.

Definition dadd : double -> double -> double := SFadd prec emax.
Definition dsub : double -> double -> double := SFsub prec emax.
Definition dmul : double -> double -> double := SFmul prec emax.
Definition ddiv : double -> double -> double := SFdiv prec emax.
Definition dsqrt : double -> double := SFsqrt prec emax.
Definition dopp : double -> double := SFopp.

(** Integer literals and [static_cast<double>]: the nearest double. *)
Definition dZ (n : Z) : double := binary_normalize prec emax n 0 false.

(** Decimal literals [n / 10^k] whose quotient is correctly rounded. *)
Definition dlit (n d : Z) : double := ddiv (dZ n) (dZ d).

Definition dzero : double := S754_zero false.

(** [std::numeric_limits<double>::max()]. *)
Definition dmax_float : double := SFmax_float prec emax.

(** [<], [>], [<=], [>=], [==] of C++: false as soon as an operand is NaN. *)
Definition dlt (x y : double) : bool := SFltb x y.
Definition dgt (x y : double) : bool := SFltb y x.
Definition dle (x y : double) : bool := SFleb x y.
Definition dge (x y : double) : bool := SFleb y x.
Definition deq (x y : double) : bool := SFeqb x y.

(** [std::min] and [std::max]: the first operand unless the second is
    strictly smaller (greater). *)
Definition dmin (x y : double) : double := if dlt y x then y else x.
Definition dmax (x y : double) : double := if dlt x y then y else x.

Definition is_nan (x : double) : bool :=
  match x with S754_nan => true | _ => false end.

(** [static_cast<uint64_t>] of a nonnegative double: truncation (the cast of a
    value out of range is undefined behaviour). *)
Definition dtrunc (x : double) : ub Z :=
  match x with
  | S754_zero _ => Some 0
  | S754_finite false m e =>
      let z := Z.shiftl (Zpos m) e in
      if z <? two64 then Some z else None
  | S754_finite true m e =>
      if Z.shiftl (Zpos m) e =? 0 then Some 0 else None
  | _ => None
  end.

(** ** The order *)

(** Position of a double that is not NaN in the order, as a triple compared
    lexicographically: class of magnitude, exponent, mantissa.  Canonical
    mantissas make this the numerical order. *)
Definition rank (x : double) : Z * Z * Z :=
  match x with
  | S754_zero _ => (0, 0, 0)
  | S754_infinity false => (2, 0, 0)
  | S754_infinity true => (-2, 0, 0)
  | S754_finite false m e => (1, e, Zpos m)
  | S754_finite true m e => (-1, -e, Zneg m)
  | S754_nan => (3, 0, 0)
  end.

Definition lex_compare (a b : Z * Z * Z) : comparison :=
  let '(a1, a2, a3) := a in
  let '(b1, b2, b3) := b in
  match a1 ?= b1 with
  | Eq => match a2 ?= b2 with Eq => a3 ?= b3 | c => c end
  | c => c
  end.

Definition lex_lt (a b : Z * Z * Z) : Prop :=
  let '(a1, a2, a3) := a in
  let '(b1, b2, b3) := b in
  a1 < b1 \/ a1 = b1 /\ (a2 < b2 \/ a2 = b2 /\ a3 < b3).

Lemma lex_compare_spec a b :
  CompareSpec (a = b) (lex_lt a b) (lex_lt b a) (lex_compare a b).
Proof.
  destruct a as [[a1 a2] a3], b as [[b1 b2] b3]. unfold lex_compare, lex_lt.
  destruct (Z.compare_spec a1 b1); [|constructor; lia..].
  destruct (Z.compare_spec a2 b2); [|constructor; lia..].
  destruct (Z.compare_spec a3 b3); constructor; try lia. congruence.
Qed.

Lemma SFcompare_rank x y :
  is_nan x = false -> is_nan y = false ->
  SFcompare x y = Some (lex_compare (rank x) (rank y)).
Proof.
  destruct x as [sx|[]| |[] mx ex], y as [sy|[]| |[] my ey]; try done; intros _ _; simpl; try done.
  - destruct (Z.compare_spec ex ey), (Z.compare_spec (- ex) (- ey)); try lia; try done.
Qed.

Lemma dlt_rank x y :
  is_nan x = false -> is_nan y = false ->
  dlt x y = true <-> lex_lt (rank x) (rank y).
Proof.
  intros Hx Hy. unfold dlt, SFltb. rewrite SFcompare_rank by done.
  destruct (lex_compare_spec (rank x) (rank y)) as [E|E|E]; split; try done; intros H.
  - rewrite E in H. destruct (rank y) as [[??]?]; unfold lex_lt in *; lia.
  - destruct (rank x) as [[??]?], (rank y) as [[??]?]; unfold lex_lt in *; lia.
Qed.

Section order.
Local Ltac crush :=
    rewrite ?dlt_rank in * by done;
    repeat match goal with H : rank _ = _ |- _ => rewrite H in * end;
    repeat match goal with
    | |- context [rank ?x] => destruct (rank x) as [[? ?] ?]
    | _ : context [rank ?x] |- _ => destruct (rank x) as [[? ?] ?]
    end; unfold lex_lt in *; lia.

  Context (x y z : double).
  Context (Hx : is_nan x = false) (Hy : is_nan y = false) (Hz : is_nan z = false).

Lemma dlt_irrefl : dlt x x = false.
  Proof using Hx. apply not_true_iff_false. crush. Qed.

Lemma dlt_trans : dlt x y = true -> dlt y z = true -> dlt x z = true.
  Proof using Hx Hy Hz. crush. Qed.

Lemma dlt_asym : dlt x y = true -> dlt y x = false.
  Proof using Hx Hy. rewrite <-not_true_iff_false. crush. Qed.

  (** Incomparability is transitive: [<] is a strict weak order. *)
Lemma dlt_ntrans : dlt x y = false -> dlt y z = false -> dlt x z = false.
  Proof using Hx Hy Hz. rewrite <-!not_true_iff_false. crush. Qed.

Lemma dle_dlt : dle x y = negb (dlt y x).
  Proof using Hx Hy.
    unfold dle, dlt, SFleb, SFltb. rewrite !SFcompare_rank by done.
    destruct (lex_compare_spec (rank x) (rank y)) as [E|E|E],
      (lex_compare_spec (rank y) (rank x)) as [F|F|F]; try done; exfalso; clear Hx Hy; crush.
  Qed.

Lemma deq_dlt : deq x y = negb (dlt x y) && negb (dlt y x).
  Proof using Hx Hy.
    unfold deq, dlt, SFeqb, SFltb. rewrite !SFcompare_rank by done.
    destruct (lex_compare_spec (rank x) (rank y)) as [E|E|E],
      (lex_compare_spec (rank y) (rank x)) as [F|F|F]; try done; exfalso; clear Hx Hy; crush.
  Qed.
End order.

(** A comparison that holds has no NaN operand. *)
Lemma dlt_not_nan x y : dlt x y = true -> is_nan x = false /\ is_nan y = false.
Proof. by destruct x as [|[]| |], y as [|[]| |]. Qed.

Lemma dle_not_nan x y : dle x y = true -> is_nan x = false /\ is_nan y = false.
Proof. by destruct x as [|[]| |], y as [|[]| |]. Qed.

Lemma deq_refl x : is_nan x = false -> deq x x = true.
Proof. intros H. by rewrite deq_dlt, dlt_irrefl. Qed.

Lemma dmin_not_nan x y : is_nan x = false -> is_nan y = false -> is_nan (dmin x y) = false.
Proof. unfold dmin. by case_match. Qed.

#[export] Hint Resolve dlt_irrefl deq_refl dmin_not_nan : tickplant.

(** ** Strict weak orders on keys

    What [std::map] requires of its comparison: [std::less] and
    [std::greater] on doubles that are not NaN. *)
Class KeyOrder (before : double -> double -> bool) := {
  before_irrefl x : is_nan x = false -> before x x = false;
  before_trans x y z :
    is_nan x = false -> is_nan y = false -> is_nan z = false ->
    before x y = true -> before y z = true -> before x z = true;
  before_ntrans x y z :
    is_nan x = false -> is_nan y = false -> is_nan z = false ->
    before x y = false -> before y z = false -> before x z = false;
}.

#[export] Instance less_order : KeyOrder dlt.
Proof.
  split; intros.
  - by apply dlt_irrefl.
  - by apply (dlt_trans x y z).
  - by apply (dlt_ntrans x y z).
Qed.

#[export] Instance greater_order : KeyOrder dgt.
Proof.
  unfold dgt. split; intros.
  - by apply dlt_irrefl.
  - by apply (dlt_trans z y x).
  - by apply (dlt_ntrans z y x).
Qed.
