(* ===== verification/IntDouble.v ===== *)
(** * Whole numbers as doubles

    A double holds every integer of magnitude below [2^53], and sums and
    differences of such integers that stay below it are exact.  Programs that
    count shares in doubles rely on this; here it is proved of the binary64
    operations of [Float64]. *)

From Stdlib Require Import ZArith SpecFloat Lia.
From S2P Require Import Prelude Float64.

Definition exact_int (n : Z) : Prop := Z.abs n < 2 ^ 53.

(** ** Digits and shifts *)

Definition digits (m : positive) : Z := Z.pos (digits2_pos m).

Lemma digits_log2 m : digits m = Z.log2 (Z.pos m) + 1.
Proof.
  unfold digits. induction m as [m IH|m IH|]; [| |done]; cbn [digits2_pos]; rewrite Pos2Z.inj_succ, IH.
  - rewrite Pos2Z.inj_xI, <-Z.add_1_r, Z.log2_succ_double by lia. lia.
  - rewrite Pos2Z.inj_xO, Z.log2_double by lia. lia.
Qed.

(** [m * 2^k] for a natural [k]. *)
Definition scale (m : positive) (k : Z) : positive := Z.to_pos (Z.pos m * 2 ^ k).

Lemma scale_val m k : 0 <= k -> Z.pos (scale m k) = Z.pos m * 2 ^ k.
Proof. intros Hk. unfold scale. apply Z2Pos.id. pose proof (Z.pow_pos_nonneg 2 k). lia. Qed.

Lemma digits_scale m k : 0 <= k -> digits (scale m k) = digits m + k.
Proof. intros Hk. rewrite !digits_log2, scale_val, Z.log2_mul_pow2 by lia. lia. Qed.

Lemma scale_scale m j k : 0 <= j -> 0 <= k -> scale (scale m j) k = scale m (j + k).
Proof.
  intros Hj Hk. apply Pos2Z.inj. rewrite !scale_val by lia. rewrite Z.pow_add_r by lia. lia.
Qed.

Lemma scale_0 m : scale m 0 = m.
Proof. apply Pos2Z.inj. rewrite scale_val by lia. lia. Qed.

Lemma iter_xO m p : Pos.iter xO m p = scale m (Z.pos p).
Proof.
  induction p as [|p IH] using Pos.peano_ind.
  - apply Pos2Z.inj. rewrite scale_val by lia. simpl. lia.
  - rewrite Pos.iter_succ, IH. apply Pos2Z.inj. rewrite Pos2Z.inj_xO, !scale_val by lia.
    rewrite Pos2Z.inj_succ, Z.pow_succ_r by lia. lia.
Qed.

Lemma shl_align_scale m ex ez :
  ez <= ex -> shl_align m ex ez = (scale m (ex - ez), ez).
Proof.
  intros H. unfold shl_align. destruct (ez - ex) eqn:E.
  - replace (ex - ez) with 0 by lia. rewrite scale_0. f_equal. lia.
  - lia.
  - rewrite iter_xO. do 2 f_equal. lia.
Qed.

Lemma shl_align_above m ex ez : ex <= ez -> shl_align m ex ez = (m, ex).
Proof. intros H. unfold shl_align. destruct (ez - ex) eqn:E; [done..|lia]. Qed.

(** Shifting the zeros of an exact mantissa out again. *)
Lemma iter_pos_succ {A} (f : A -> A) p x : iter_pos f (Pos.succ p) x = f (iter_pos f p x).
Proof.
  assert (H : forall p x, iter_pos f p (f x) = f (iter_pos f p x)).
  { clear. induction p as [p IH|p IH|]; intros x; simpl; [by rewrite !IH..|done]. }
  revert x. induction p as [p IH|p IH|]; intros x; simpl; [by rewrite !IH, !H|by rewrite !H|done].
Qed.

Lemma shr_exact m p :
  iter_pos shr_1 p (Build_shr_record (Z.pos (scale m (Z.pos p))) false false) = Build_shr_record (Z.pos m) false false.
Proof.
  revert m. induction p as [|p IH] using Pos.peano_ind; intros m.
  - assert (E : scale m 1 = xO m) by (apply Pos2Z.inj; rewrite scale_val by lia; lia). by rewrite E.
  - rewrite iter_pos_succ. replace (scale m (Z.pos (Pos.succ p))) with (scale (xO m) (Z.pos p)).
    + by rewrite IH.
    + apply Pos2Z.inj. rewrite !scale_val by lia. rewrite Pos2Z.inj_succ, Z.pow_succ_r by lia. lia.
Qed.

(** ** Normalisation *)

(** The double of magnitude [m], normalised. *)
Definition whole (s : bool) (m : positive) : double := S754_finite s (scale m (53 - digits m)) (digits m - 53).

Section whole.
Context (s : bool) (m : positive) (Hm : digits m <= 53).

Lemma digits_pos : 1 <= digits m.
Proof using. unfold digits. lia. Qed.

Lemma fexp_whole : fexp prec emax (digits m) = digits m - 53.
Proof using. pose proof digits_pos. unfold fexp, prec, emin, emax. lia. Qed.

Lemma shr_fexp_scaled k :
  53 - digits m <= k ->
  shr_fexp prec emax (Z.pos (scale m k)) (- k) loc_Exact =
    (Build_shr_record (Z.pos (scale m (53 - digits m))) false false, digits m - 53).
Proof using Hm.
  intros Hk. pose proof digits_pos. unfold shr_fexp. change (Zdigits2 (Z.pos (scale m k))) with (digits (scale m k)).
  rewrite digits_scale by lia. replace (digits m + k + - k) with (digits m) by lia. rewrite fexp_whole.
  unfold shr, shr_record_of_loc. destruct (digits m - 53 - - k) as [|p|p] eqn:E; [| |lia].
  - replace k with (53 - digits m) by lia. f_equal. lia.
  - replace (scale m k) with (scale (scale m (53 - digits m)) (Z.pos p)).
    + rewrite shr_exact. f_equal. lia.
    + rewrite scale_scale by lia. f_equal. lia.
Qed.

Lemma round_scaled k : 0 <= k -> binary_round prec emax s (scale m k) (- k) = whole s m.
Proof using Hm.
  intros Hk. pose proof digits_pos as Hd. unfold binary_round. change (Z.pos (digits2_pos (scale m k))) with (digits (scale m k)).
  rewrite digits_scale by lia. replace (digits m + k + - k) with (digits m) by lia. rewrite fexp_whole.
  assert (E : exists j, 53 - digits m <= j /\ shl_align (scale m k) (- k) (digits m - 53) = (scale m j, - j)).
  { destruct (Z_le_dec (digits m - 53) (- k)).
    - exists (53 - digits m). split; [lia|]. rewrite shl_align_scale, scale_scale by lia. f_equal; [f_equal|]; lia.
    - exists k. split; [lia|]. by rewrite shl_align_above by lia. }
  destruct E as (j & Hj & ->). unfold binary_round_aux. rewrite shr_fexp_scaled by done.
  cbn [shr_m loc_of_shr_record round_nearest_even].
  replace (digits m - 53) with (- (53 - digits m)) at 1 by lia. rewrite shr_fexp_scaled by lia. cbn [shr_m].
  assert (Hle : (digits m - 53 <=? emax - prec) = true) by (apply Z.leb_le; unfold emax, prec; lia).
  by rewrite Hle.
Qed.
End whole.

(** ** Integers *)

(** The double of an integer: [dZ] of an exact one, by [dZ_int]. *)
Definition int_double (n : Z) : double :=
  match n with Z0 => dzero | Z.pos m => whole false m | Z.neg m => whole true m end.

Lemma exact_digits m : Z.pos m < 2 ^ 53 -> digits m <= 53.
Proof. intros H. rewrite digits_log2. apply Z.log2_lt_pow2 in H; lia. Qed.

Lemma normalize_scaled n k :
  exact_int n -> 0 <= k -> binary_normalize prec emax (n * 2 ^ k) (- k) false = int_double n.
Proof.
  intros Hn Hk. assert (Hp : 0 < 2 ^ k) by (apply Z.pow_pos_nonneg; lia). unfold exact_int in Hn. destruct n as [|m|m].
  - done.
  - rewrite <-scale_val by done. apply round_scaled; [apply exact_digits; lia|done].
  - replace (Z.neg m * 2 ^ k) with (- (Z.pos m * 2 ^ k)) by lia. rewrite <-scale_val by done.
    apply round_scaled; [apply exact_digits; lia|done].
Qed.

Lemma dZ_int n : exact_int n -> dZ n = int_double n.
Proof.
  intros Hn. unfold dZ. rewrite <-(normalize_scaled n 0) by (done || lia). by rewrite Z.mul_1_r.
Qed.

(** A mantissa aligned to a smaller exponent is the integer scaled. *)
Lemma aligned_whole s m k :
  digits m <= 53 -> 53 - digits m <= k ->
  cond_Zopp s (Z.pos (fst (shl_align (scale m (53 - digits m)) (digits m - 53) (- k)))) = cond_Zopp s (Z.pos m) * 2 ^ k.
Proof.
  intros Hm Hk. rewrite shl_align_scale by lia. cbn [fst]. rewrite scale_scale by lia.
  replace (53 - digits m + (digits m - 53 - - k)) with k by lia. rewrite scale_val by lia. destruct s; simpl; lia.
Qed.

Definition sgn_int (s : bool) (m : positive) : Z := cond_Zopp s (Z.pos m).

Lemma add_whole s m s' m' :
  digits m <= 53 -> digits m' <= 53 -> exact_int (sgn_int s m + sgn_int s' m') ->
  dadd (whole s m) (whole s' m') = int_double (sgn_int s m + sgn_int s' m').
Proof.
  intros Hm Hm' Hx. unfold dadd, whole, SFadd. set (k := Z.max (53 - digits m) (53 - digits m')).
  replace (Z.min (digits m - 53) (digits m' - 53)) with (- k) by lia.
  rewrite !aligned_whole by lia. rewrite <-Z.mul_add_distr_r. apply normalize_scaled; [done|lia].
Qed.

Lemma sub_whole s m s' m' :
  digits m <= 53 -> digits m' <= 53 -> exact_int (sgn_int s m - sgn_int s' m') ->
  dsub (whole s m) (whole s' m') = int_double (sgn_int s m - sgn_int s' m').
Proof.
  intros Hm Hm' Hx. unfold dsub, whole, SFsub. set (k := Z.max (53 - digits m) (53 - digits m')).
  replace (Z.min (digits m - 53) (digits m' - 53)) with (- k) by lia.
  rewrite !aligned_whole by lia. rewrite <-Z.mul_sub_distr_r. apply normalize_scaled; [done|lia].
Qed.

Lemma exact_neg m : exact_int (Z.neg m) -> digits m <= 53.
Proof. unfold exact_int. intros. apply exact_digits. lia. Qed.

Lemma exact_pos m : exact_int (Z.pos m) -> digits m <= 53.
Proof. unfold exact_int. intros. apply exact_digits. lia. Qed.

#[local] Hint Resolve exact_neg exact_pos : core.

(** Sums and differences of integers that stay exact are exact. *)
Lemma dadd_int a b : exact_int a -> exact_int b -> exact_int (a + b) -> dadd (dZ a) (dZ b) = dZ (a + b).
Proof.
  intros Ha Hb Hab. rewrite !dZ_int by done.
  destruct a as [|a|a], b as [|b|b]; try reflexivity; apply (add_whole false a false b) || apply (add_whole false a true b) ||
    apply (add_whole true a false b) || apply (add_whole true a true b); eauto.
Qed.

Lemma dsub_int a b : exact_int a -> exact_int b -> exact_int (a - b) -> dsub (dZ a) (dZ b) = dZ (a - b).
Proof.
  intros Ha Hb Hab. rewrite !dZ_int by done.
  destruct a as [|a|a], b as [|b|b]; try reflexivity; apply (sub_whole false a false b) || apply (sub_whole false a true b) ||
    apply (sub_whole true a false b) || apply (sub_whole true a true b); eauto.
Qed.

Lemma dle_int_0 a : exact_int a -> dle (dZ a) dzero = (a <=? 0).
Proof. intros Ha. rewrite dZ_int by done. by destruct a. Qed.
