(* ===== verification/Rounding.v ===== *)
(** * Rounding does not cross an integer

    An integer below [2^53] is a double, so a result that is at most that
    integer before it is rounded is at most that integer afterwards.  Here this
    is proved of the operations of [Float64] that programs scale ratios with:
    the quotient of two integers is at most one when the first is at most the
    second, and a multiple of a number that is at most one is at most the
    multiplier. *)

From Stdlib Require Import ZArith SpecFloat Lia.
From S2P Require Import Prelude Float64 IntDouble.

(** A nonnegative double of value at most [B]. *)
Definition at_most (B : Z) (x : double) : Prop :=
  match x with
  | S754_zero false => 0 <= B
  | S754_finite false m e => e <= 0 /\ Z.pos m <= B * 2 ^ (- e)
  | _ => False
  end.

(** A truncated mantissa [m] at exponent [e], with or without something cut
    off, stands for a value of at most [B]. *)
Definition bounded_by (B m : Z) (cut : bool) (e : Z) : Prop :=
  0 <= m /\ e <= 0 /\ m + Z.b2z cut <= B * 2 ^ (- e).

Definition is_cut (mrs : shr_record) : bool := shr_r mrs || shr_s mrs.

Lemma pow_half e : e + 1 <= 0 -> 2 ^ (- e) = 2 * 2 ^ (- (e + 1)).
Proof. intros H. rewrite <-Z.pow_succ_r by lia. f_equal. lia. Qed.

Lemma shr_1_bounded B mrs e :
  e + 1 <= 0 -> bounded_by B (shr_m mrs) (is_cut mrs) e ->
  bounded_by B (shr_m (shr_1 mrs)) (is_cut (shr_1 mrs)) (e + 1).
Proof.
  intros He (Hm & _ & Hb). rewrite pow_half in Hb by done. set (K := 2 ^ (- (e + 1))) in *.
  destruct mrs as [m r s]. unfold is_cut in *. simpl in Hm, Hb. unfold bounded_by. fold K.
  destruct m as [|[p|p|]|p]; simpl; try lia; rewrite ?orb_false_l in *;
    (split; [lia|]; split; [done|]); destruct (r || s); simpl in *; lia.
Qed.

Lemma shr_bounded B mrs e n :
  e + Z.max 0 n <= 0 -> bounded_by B (shr_m mrs) (is_cut mrs) e ->
  let '(mrs', e') := shr mrs e n in
  bounded_by B (shr_m mrs') (is_cut mrs') e' /\ e' = e + Z.max 0 n.
Proof.
  intros He Hb. unfold shr. destruct n as [|p|p]; [split; [done|lia]| |split; [done|lia]].
  split; [|lia]. rewrite Z.max_r in He by lia. revert He. induction p as [|p IH] using Pos.peano_ind; intros He.
  - simpl iter_pos. by apply shr_1_bounded.
  - rewrite iter_pos_succ. replace (e + Z.pos (Pos.succ p)) with (e + Z.pos p + 1) by lia.
    apply shr_1_bounded; [lia|]. apply IH. lia.
Qed.

(** The exponent a mantissa below [2^53] is aligned to. *)
Lemma fexp_bounded B m cut e :
  0 < B < 2 ^ 53 -> bounded_by B m cut e -> e + Z.max 0 (fexp prec emax (Zdigits2 m + e) - e) <= 0.
Proof.
  intros HB (Hm & He & Hb). unfold fexp, emin, prec, emax.
  assert (Hd : Zdigits2 m + e <= 53); [|lia]. destruct m as [|m|m]; simpl; [lia| |lia].
  change (Z.pos (digits2_pos m)) with (digits m). rewrite digits_log2.
  assert (Hlt : Z.pos m < 2 ^ (53 - e)).
  { replace (53 - e) with (53 + - e) by lia. rewrite Z.pow_add_r by lia.
    assert (0 < 2 ^ (- e)) by (apply Z.pow_pos_nonneg; lia). destruct cut; simpl in Hb; nia. }
  apply Z.log2_lt_pow2 in Hlt; lia.
Qed.

Lemma shr_fexp_bounded B m l e :
  0 < B < 2 ^ 53 -> bounded_by B m (is_cut (shr_record_of_loc m l)) e ->
  let '(mrs, e') := shr_fexp prec emax m e l in bounded_by B (shr_m mrs) (is_cut mrs) e'.
Proof.
  intros HB Hb. unfold shr_fexp.
  pose proof (shr_bounded B (shr_record_of_loc m l) e (fexp prec emax (Zdigits2 m + e) - e)) as H.
  assert (Em : shr_m (shr_record_of_loc m l) = m) by (by destruct l as [|[]]).
  rewrite Em in H. specialize (H (fexp_bounded B m _ e HB Hb) Hb).
  destruct (shr _ e _) as [mrs e']. apply H.
Qed.

Lemma round_nearest_bounded B mrs e :
  bounded_by B (shr_m mrs) (is_cut mrs) e ->
  bounded_by B (round_nearest_even (shr_m mrs) (loc_of_shr_record mrs)) false e.
Proof.
  intros (Hm & He & Hb). destruct mrs as [m r s]. unfold is_cut, bounded_by in *. simpl in *.
  destruct r, s; simpl in *; try (destruct (Z.even m)); split_and!; lia.
Qed.

(** Rounding keeps the bound. *)
Lemma round_aux_at_most B m l e :
  0 < B < 2 ^ 53 -> bounded_by B m (is_cut (shr_record_of_loc m l)) e ->
  at_most B (binary_round_aux prec emax false m e l).
Proof.
  intros HB Hb. unfold binary_round_aux. pose proof (shr_fexp_bounded B m l e HB Hb) as H1.
  destruct (shr_fexp prec emax m e l) as [mrs e1]. apply round_nearest_bounded in H1.
  pose proof (shr_fexp_bounded B _ loc_Exact e1 HB H1) as H2.
  destruct (shr_fexp prec emax _ e1 loc_Exact) as [mrs2 e2]. destruct H2 as (Hm & He & Hb2).
  destruct (shr_m mrs2) as [|m2|m2]; simpl; [lia| |lia].
  rewrite (proj2 (Z.leb_le _ _)) by (unfold emax, prec; lia). split; [done|].
  destruct (is_cut mrs2); simpl in Hb2; lia.
Qed.

(** ** Quotients and multiples *)

(** A quotient of positive integers, the first at most the second. *)
Lemma div_core_bounded m1 e1 m2 e2 :
  Z.pos m1 * 2 ^ (e1 - Z.min e1 e2) <= Z.pos m2 * 2 ^ (e2 - Z.min e1 e2) ->
  digits m1 + e1 <= digits m2 + e2 ->
  let '(q, e', l) := SFdiv_core_binary prec emax (Z.pos m1) e1 (Z.pos m2) e2 in
  bounded_by 1 q (is_cut (shr_record_of_loc q l)) e'.
Proof.
  intros Hle Hd. unfold SFdiv_core_binary. simpl Zdigits2.
  change (Z.pos (digits2_pos m1)) with (digits m1). change (Z.pos (digits2_pos m2)) with (digits m2).
  set (e' := Z.min (fexp prec emax (digits m1 + e1 - (digits m2 + e2))) (e1 - e2)).
  assert (He : e' <= 0) by (unfold e', fexp, emin, prec, emax; lia).
  set (s := e1 - e2 - e'). assert (Hs : 0 <= s) by (unfold s, e'; lia).
  assert (Em : (match s with Z.pos _ => Z.shiftl (Z.pos m1) s | 0 => Z.pos m1 | Z.neg _ => 0 end) = Z.pos m1 * 2 ^ s).
  { destruct s as [|p|p]; [lia| |lia]. by rewrite Z.shiftl_mul_pow2 by lia. }
  rewrite Em. set (M := Z.pos m1 * 2 ^ s).
  assert (HM : M <= Z.pos m2 * 2 ^ (- e')).
  { unfold M, s. destruct (Z.le_gt_cases e1 e2).
    - rewrite Z.min_l in Hle by lia. rewrite Z.sub_diag, Z.mul_1_r in Hle.
      replace (- e') with (e1 - e2 - e' + (e2 - e1)) by lia. rewrite (Z.pow_add_r 2 (e1 - e2 - e')) by (unfold s in Hs; lia).
      assert (0 < 2 ^ (e1 - e2 - e')) by (apply Z.pow_pos_nonneg; unfold s in Hs; lia). nia.
    - rewrite Z.min_r in Hle by lia. rewrite Z.sub_diag, Z.mul_1_r in Hle.
      replace (e1 - e2 - e') with (- e' + (e1 - e2)) by lia. rewrite (Z.pow_add_r 2 (- e')) by lia.
      assert (0 < 2 ^ (- e')) by (apply Z.pow_pos_nonneg; lia). nia. }
  assert (HM0 : 0 <= M) by (unfold M; assert (0 <= 2 ^ s) by (by apply Z.pow_nonneg); nia).
  pose proof (Z_div_mod M (Z.pos m2) ltac:(lia)) as Hqr. destruct (Z.div_eucl M (Z.pos m2)) as [q r].
  destruct Hqr as [Hq Hr]. assert (Hq0 : 0 <= q) by nia.
  split; [done|]. split; [done|]. rewrite Z.mul_1_l. set (K := 2 ^ (- e')) in *.
  destruct (Z.eq_dec r 0) as [->|Hr0].
  - assert (El : new_location (Z.pos m2) 0 = loc_Exact).
    { unfold new_location, new_location_even, new_location_odd. by destruct (Z.even (Z.pos m2)). }
    rewrite El. simpl. nia.
  - destruct (is_cut _); simpl; nia.
Qed.

Lemma int_parts a : 0 < a < 2 ^ 53 ->
  exists m, dZ a = S754_finite false (scale m (53 - digits m)) (digits m - 53) /\ Z.pos m = a /\ digits m <= 53.
Proof.
  intros Ha. rewrite dZ_int by (unfold exact_int; lia). destruct a as [|m|m]; try lia. exists m.
  split; [done|]. split; [done|]. apply exact_digits. lia.
Qed.

Lemma div_at_most_one a b : 0 <= a <= b -> 0 < b < 2 ^ 53 -> at_most 1 (ddiv (dZ a) (dZ b)).
Proof.
  intros Ha Hb. destruct (int_parts b Hb) as (mb & -> & Emb & Hdb). destruct (Z.eq_dec a 0) as [->|Hne].
  { simpl. lia. }
  destruct (int_parts a ltac:(lia)) as (ma & -> & Ema & Hda). unfold ddiv, SFdiv.
  pose proof (div_core_bounded (scale ma (53 - digits ma)) (digits ma - 53) (scale mb (53 - digits mb)) (digits mb - 53)) as H.
  destruct (SFdiv_core_binary _ _ _ _ _ _) as [[q e'] l]. apply round_aux_at_most; [lia|]. apply H.
  - rewrite !scale_val by lia. set (d := Z.min (digits ma - 53) (digits mb - 53)).
    replace (Z.pos ma * 2 ^ (53 - digits ma) * 2 ^ (digits ma - 53 - d)) with (Z.pos ma * 2 ^ (- d)).
    2: { rewrite <-Z.mul_assoc, <-Z.pow_add_r by lia. do 2 f_equal. lia. }
    replace (Z.pos mb * 2 ^ (53 - digits mb) * 2 ^ (digits mb - 53 - d)) with (Z.pos mb * 2 ^ (- d)).
    2: { rewrite <-Z.mul_assoc, <-Z.pow_add_r by lia. do 2 f_equal. lia. }
    assert (0 <= 2 ^ (- d)) by (apply Z.pow_nonneg; lia). nia.
  - rewrite !digits_scale by lia. rewrite !digits_log2. assert (Z.log2 (Z.pos ma) <= Z.log2 (Z.pos mb)) by (apply Z.log2_le_mono; lia). lia.
Qed.

Lemma mul_at_most x B : at_most 1 x -> 0 < B < 2 ^ 53 -> at_most B (dmul x (dZ B)).
Proof.
  intros Hx HB. destruct (int_parts B HB) as (m & -> & Em & Hd). destruct x as [[]| | |[] mx ex]; simpl in Hx; try done.
  { simpl. lia. }
  destruct Hx as [He Hx]. unfold dmul, SFmul. simpl xorb. apply round_aux_at_most; [done|].
  unfold is_cut, bounded_by. simpl. split; [lia|]. split; [lia|].
  rewrite Pos2Z.inj_mul, scale_val by lia. rewrite Em.
  replace (- (ex + (digits m - 53))) with (- ex + (53 - digits m)) by lia. rewrite Z.pow_add_r by lia.
  assert (0 <= 2 ^ (53 - digits m)) by (apply Z.pow_nonneg; lia). nia.
Qed.

(** The integer part of a bounded double. *)
Lemma trunc_at_most B x : at_most B x -> 0 <= B < 2 ^ 53 -> exists n, dtrunc x = Some n /\ 0 <= n <= B.
Proof.
  intros Hx HB. destruct x as [[]| | |[] m e]; simpl in Hx; try done; [by exists 0|].
  destruct Hx as [He Hx]. unfold dtrunc.
  assert (Hs : 0 <= Z.shiftl (Z.pos m) e <= B).
  { rewrite <-(Z.opp_involutive e), Z.shiftl_opp_r, Z.shiftr_div_pow2 by lia.
    assert (Hp : 0 < 2 ^ (- e)) by (apply Z.pow_pos_nonneg; lia). split; [by apply Z.div_pos|].
    apply Z.div_le_upper_bound; lia. }
  rewrite (proj2 (Z.ltb_lt _ _)) by (unfold two64; lia). by eexists.
Qed.
