(* ===== verification/SortedMap.v ===== *)
(** * [std::map<double, V, Compare>]

    The ordered map behind both sides of the order book: a list of bindings in
    the order of iteration, [begin()] first.  Lookup, insertion and erasure
    descend by the comparison alone, as the container does, so two keys are
    the same binding when neither comes before the other (the zeros of both
    signs are one key, and assignment keeps the key already stored).  The
    comparison is a parameter with the laws of [KeyOrder]: [dlt] for
    [std::less] (asks), [dgt] for [std::greater] (bids). *)

From Stdlib Require Import Sorted.
From S2P Require Import Prelude Float64.

Section sorted_map.
  Context {V : Type} (before : double -> double -> bool).
  Implicit Types (m : list (double * V)) (k : double) (v : V).

Definition same_key k k' : bool := negb (before k k') && negb (before k' k).

  (** [map.find(k)] *)
Fixpoint sm_find k m : option V :=
    match m with
    | [] => None
    | (k', v') :: m' =>
        if before k k' then None
        else if before k' k then sm_find k m'
        else Some v'
    end.

  (** [map[k] = v] *)
Fixpoint sm_assign k v m : list (double * V) :=
    match m with
    | [] => [(k, v)]
    | (k', v') :: m' =>
        if before k k' then (k, v) :: m
        else if before k' k then (k', v') :: sm_assign k v m'
        else (k', v) :: m'
    end.

  (** [map.erase(k)] *)
Fixpoint sm_erase k m : list (double * V) :=
    match m with
    | [] => []
    | (k', v') :: m' =>
        if before k k' then m
        else if before k' k then (k', v') :: sm_erase k m'
        else m'
    end.

  (** ** Well-formedness *)

Definition entry_before (a b : double * V) : Prop := before (fst a) (fst b) = true.

  (** Strictly increasing keys, none of them NaN. *)
Definition sm_wf m : Prop :=
    StronglySorted entry_before m /\ Forall (fun e => is_nan (fst e) = false) m.

  Context `{KO : !KeyOrder before}.

Lemma sm_wf_nil : sm_wf [].
  Proof using. split; constructor. Qed.

Lemma sm_wf_cons_inv k v m :
    sm_wf ((k, v) :: m) ->
    is_nan k = false /\ sm_wf m /\
    Forall (fun e => before k (fst e) = true) m.
  Proof using.
    intros [Hs Hn]. apply StronglySorted_inv in Hs as [Hs Hb].
    apply Forall_cons in Hn as [Hk Hn]. by repeat split.
  Qed.

Lemma sm_wf_cons k v m :
    is_nan k = false -> sm_wf m ->
    Forall (fun e => before k (fst e) = true) m -> sm_wf ((k, v) :: m).
  Proof using. intros Hk [Hs Hn] Hb. split; by constructor. Qed.

  (** What holds before a key holds before the keys after it. *)
Lemma Forall_before_trans k k' m :
    is_nan k = false -> is_nan k' = false -> before k k' = true -> sm_wf m ->
    Forall (fun e => before k' (fst e) = true) m ->
    Forall (fun e => before k (fst e) = true) m.
  Proof using KO.
    intros Hk Hk' Hkk' [_ Hn]. rewrite !Forall_forall in *. intros H e He.
    eapply before_trans; eauto.
  Qed.

Lemma keys_assign (Q : double -> Prop) k v m :
    Q k -> Forall (fun e => Q (fst e)) m -> Forall (fun e => Q (fst e)) (sm_assign k v m).
  Proof using.
    intros Hk. induction m as [|[k' v'] m IH]; simpl; intros Hm; [by constructor|].
    pose proof Hm as [Hh Ht]%Forall_cons.
    repeat case_match; repeat constructor; auto.
  Qed.

Lemma Forall_assign (P : double * V -> Prop) k v m :
    P (k, v) -> (forall k' v', (k', v') ∈ m -> same_key k k' = true -> P (k', v)) ->
    Forall P m -> Forall P (sm_assign k v m).
  Proof using.
    intros Hk Hsame. induction m as [|[k' v'] m IH]; simpl; intros Hm; [by constructor|].
    pose proof Hm as [Hh Ht]%Forall_cons.
    destruct (before k k') eqn:E1; [|destruct (before k' k) eqn:E2].
    - by constructor.
    - constructor; [done|]. apply IH; [|done]. intros k0 v0 Hin.
      apply (Hsame k0 v0). apply elem_of_cons. by right.
    - constructor; [|done]. apply (Hsame k' v'); [apply list_elem_of_here|].
      unfold same_key. by rewrite E1, E2.
  Qed.

Lemma Forall_erase (P : double * V -> Prop) k m : Forall P m -> Forall P (sm_erase k m).
  Proof using.
    induction m as [|[k' v'] m IH]; simpl; intros Hm; [done|].
    pose proof Hm as [Hh Ht]%Forall_cons. repeat case_match; auto.
  Qed.

Lemma assign_wf k v m : is_nan k = false -> sm_wf m -> sm_wf (sm_assign k v m).
  Proof using KO.
    intros Hk. induction m as [|[k' v'] m IH]; intros Hwf; simpl.
    { apply sm_wf_cons; [done|done|constructor]. }
    pose proof (sm_wf_cons_inv _ _ _ Hwf) as (Hk' & Hm & Hb).
    destruct (before k k') eqn:E1; [|destruct (before k' k) eqn:E2].
    - apply sm_wf_cons; [done|done|]. constructor; [by simpl|].
      by apply (Forall_before_trans k k').
    - apply sm_wf_cons; [done|by apply IH|].
      by apply (keys_assign (fun x => before k' x = true)).
    - by apply sm_wf_cons.
  Qed.

Lemma erase_wf k m : sm_wf m -> sm_wf (sm_erase k m).
  Proof using.
    induction m as [|[k' v'] m IH]; intros Hwf; simpl; [done|].
    pose proof (sm_wf_cons_inv _ _ _ Hwf) as (Hk' & Hm & Hb).
    repeat case_match; [done| |done].
    apply sm_wf_cons; [done|by apply IH|by apply Forall_erase].
  Qed.

  (** ** Lookup *)

Lemma same_key_refl k : is_nan k = false -> same_key k k = true.
  Proof using KO. intros H. unfold same_key. by rewrite before_irrefl. Qed.

Lemma same_key_sym k k' : same_key k k' = same_key k' k.
  Proof using. unfold same_key. apply andb_comm. Qed.

Lemma same_key_spec k k' :
    same_key k k' = true <-> before k k' = false /\ before k' k = false.
  Proof using. unfold same_key. by rewrite andb_true_iff, !negb_true_iff. Qed.

  Section same.
    Context (a b c : double).
    Context (Ha : is_nan a = false) (Hb : is_nan b = false) (Hc : is_nan c = false).

    (** The comparison does not distinguish two representations of a key. *)
Lemma before_same_l : same_key a b = true -> before a c = before b c.
    Proof using KO Ha Hb Hc.
      rewrite same_key_spec. intros [H1 H2].
      destruct (before a c) eqn:E1, (before b c) eqn:E2; try done; exfalso.
      - by rewrite (before_ntrans a b c) in E1.
      - by rewrite (before_ntrans b a c) in E2.
    Qed.

Lemma before_same_r : same_key a b = true -> before c a = before c b.
    Proof using KO Ha Hb Hc.
      rewrite same_key_spec. intros [H1 H2].
      destruct (before c a) eqn:E1, (before c b) eqn:E2; try done; exfalso.
      - by rewrite (before_ntrans c b a) in E1.
      - by rewrite (before_ntrans c a b) in E2.
    Qed.

Lemma before_asym : before a b = true -> before b a = false.
    Proof using KO Ha Hb.
      intros H. destruct (before b a) eqn:E; [|done].
      pose proof (before_irrefl a Ha). by rewrite (before_trans a b a) in *.
    Qed.
  End same.

  (** A key before every binding is not bound. *)
Lemma find_before_all k m :
    Forall (fun e => before k (fst e) = true) m -> sm_find k m = None.
  Proof using. destruct m as [|[k' v'] m]; [done|]. intros [H _]%Forall_cons. simpl in *. by rewrite H. Qed.

Lemma find_same k k' m :
    is_nan k = false -> is_nan k' = false -> sm_wf m ->
    same_key k k' = true -> sm_find k m = sm_find k' m.
  Proof using KO.
    intros Hk Hk' Hwf Hs. induction m as [|[x v] m IH]; [done|].
    pose proof (sm_wf_cons_inv _ _ _ Hwf) as (Hx & Hm & _). simpl.
    rewrite (before_same_l k k' x), (before_same_r k k' x) by done.
    by rewrite IH.
  Qed.

Lemma find_assign k k' v m :
    is_nan k = false -> is_nan k' = false -> sm_wf m ->
    sm_find k (sm_assign k' v m) = if same_key k k' then Some v else sm_find k m.
  Proof using KO.
    intros Hk Hk'. induction m as [|[x w] m IH]; intros Hwf; simpl.
    { unfold same_key. by destruct (before k k'), (before k' k). }
    pose proof (sm_wf_cons_inv _ _ _ Hwf) as (Hx & Hm & Hb).
    destruct (before k' x) eqn:E1; [|destruct (before x k') eqn:E2]; simpl.
    - (* inserted in front of [x] *)
      unfold same_key. destruct (before k k') eqn:F1; simpl.
      { by rewrite (before_trans k k' x). }
      by destruct (before k' k).
    - (* beyond [x] *)
      rewrite IH by done. destruct (same_key k k') eqn:F.
      + rewrite (before_same_l k k' x), (before_same_r k k' x) by done.
        by rewrite E1, E2.
      + done.
    - (* replaces the binding of [x] *)
      assert (Hs : same_key k' x = true) by (by apply same_key_spec).
      unfold same_key.
      rewrite (before_same_r k' x k), (before_same_l k' x k) by done.
      by destruct (before k x), (before x k).
  Qed.

Lemma find_erase k k' m :
    is_nan k = false -> is_nan k' = false -> sm_wf m ->
    sm_find k (sm_erase k' m) = if same_key k k' then None else sm_find k m.
  Proof using KO.
    intros Hk Hk'. induction m as [|[x w] m IH]; intros Hwf; simpl.
    { by destruct (same_key k k'). }
    pose proof (sm_wf_cons_inv _ _ _ Hwf) as (Hx & Hm & Hb).
    destruct (before k' x) eqn:E1; [|destruct (before x k') eqn:E2]; simpl.
    - destruct (same_key k k') eqn:F; [|done].
      by rewrite (before_same_l k k' x), E1.
    - rewrite IH by done. destruct (same_key k k') eqn:F; [|done].
      by rewrite (before_same_l k k' x), (before_same_r k k' x), E1, E2.
    - assert (Hs : same_key k' x = true) by (by apply same_key_spec).
      unfold same_key.
      rewrite (before_same_r k' x k), (before_same_l k' x k) by done.
      destruct (before k x) eqn:F1; simpl.
      + apply find_before_all. by apply (Forall_before_trans k x).
      + destruct (before x k) eqn:F2; simpl; [done|].
        apply find_before_all.
        destruct Hm as [_ Hn]. rewrite Forall_forall in *. intros e He.
        rewrite (before_same_l k x); [by apply Hb|done|done|by apply Hn|by apply same_key_spec].
  Qed.

  (** The bindings are what lookup finds. *)
Lemma find_elem k v m :
    sm_wf m -> (k, v) ∈ m -> sm_find k m = Some v.
  Proof using KO.
    induction m as [|[x w] m IH]; intros Hwf Hin; [by apply elem_of_nil in Hin|].
    pose proof (sm_wf_cons_inv _ _ _ Hwf) as (Hx & Hm & Hb). simpl.
    apply elem_of_cons in Hin as [[= -> ->]|Hin]; [by rewrite before_irrefl|].
    assert (before x k = true) as E.
    { rewrite Forall_forall in Hb. exact (Hb _ Hin). }
    assert (is_nan k = false) by (destruct Hm as [_ Hn]; rewrite Forall_forall in Hn; exact (Hn _ Hin)).
    rewrite (before_asym x k), E; auto.
  Qed.

Lemma find_some k v m :
    sm_find k m = Some v -> exists k', (k', v) ∈ m /\ same_key k k' = true.
  Proof using.
    induction m as [|[x w] m IH]; [done|]. simpl.
    destruct (before k x) eqn:E1; [done|]. destruct (before x k) eqn:E2.
    - intros (k' & Hin & Hs)%IH. exists k'. split; [by apply elem_of_cons; right|done].
    - intros [= ->]. exists x. split; [apply list_elem_of_here|by apply same_key_spec].
  Qed.

  (** A condition on keys that does not distinguish representations. *)
Lemma find_filter (P : double -> bool) k m :
  is_nan k = false -> sm_wf m ->
  (forall k', is_nan k' = false -> same_key k k' = true -> P k = P k') ->
  sm_find k (filter (fun e => P (fst e) = true) m) = if P k then sm_find k m else None.
Proof using KO.
  intros Hk Hwf HP. induction m as [|[x w] m IH]; [by destruct (P k)|].
  pose proof (sm_wf_cons_inv _ _ _ Hwf) as (Hx & Hm & Hb).
  rewrite filter_cons. simpl. destruct (decide (P x = true)) as [E|E]; simpl.
  - destruct (before k x) eqn:E1; [by destruct (P k)|]. destruct (before x k) eqn:E2; [by apply IH|].
    rewrite (HP x Hx) by by apply same_key_spec. by rewrite E.
  - rewrite IH by done. destruct (P k) eqn:Ek; [|done].
    destruct (before k x) eqn:E1; [by apply find_before_all, (Forall_before_trans k x)|].
    destruct (before x k) eqn:E2; [done|]. exfalso. apply E. rewrite <-(HP x Hx); [done|by apply same_key_spec].
Qed.

(** [begin()] is the binding that comes first. *)
Lemma begin_first k v m k' v' :
    sm_wf ((k, v) :: m) -> (k', v') ∈ m -> before k k' = true.
  Proof using.
    intros (_ & _ & Hb)%sm_wf_cons_inv Hin. rewrite Forall_forall in Hb. exact (Hb _ Hin).
  Qed.

  (** ** Extensionality up to the representation of keys *)

  (** Two maps that answer every lookup alike. *)
Definition sm_equiv m m' : Prop :=
    forall k, is_nan k = false -> sm_find k m = sm_find k m'.

#[export] Instance sm_equiv_equivalence : Equivalence sm_equiv.
  Proof using.
    split.
    - by intros m k.
    - intros m m' H k Hk. symmetry. by apply H.
    - intros m1 m2 m3 H1 H2 k Hk. rewrite (H1 k Hk). by apply H2.
  Qed.

  (** Bindings keep in the mapped value a copy of the key: then equivalent
      maps list the same values. *)
Lemma sm_equiv_values m m' :
    sm_wf m -> sm_wf m' -> sm_equiv m m' -> map snd m = map snd m'.
  Proof using KO.
    revert m'. induction m as [|[k v] m IH]; intros [|[k' v'] m'] Hwf Hwf' Heq; simpl.
    - done.
    - pose proof (sm_wf_cons_inv _ _ _ Hwf') as (Hk' & _ & _).
      specialize (Heq k' Hk'). simpl in Heq. by rewrite before_irrefl in Heq.
    - pose proof (sm_wf_cons_inv _ _ _ Hwf) as (Hk & _ & _).
      specialize (Heq k Hk). simpl in Heq. by rewrite before_irrefl in Heq.
    - pose proof (sm_wf_cons_inv _ _ _ Hwf) as (Hk & Hm & Hb).
      pose proof (sm_wf_cons_inv _ _ _ Hwf') as (Hk' & Hm' & Hb').
      pose proof (Heq k Hk) as E. pose proof (Heq k' Hk') as E'.
      simpl in E, E'. rewrite before_irrefl in E, E' by done.
      destruct (before k k') eqn:F1; [done|]. destruct (before k' k) eqn:F2; [done|].
      injection E as ->. f_equal. apply IH; [done..|].
      assert (Hs : same_key k k' = true) by by apply same_key_spec.
      intros x Hx. pose proof (Heq x Hx) as G. simpl in G.
      rewrite (before_same_r k k' x), (before_same_l k k' x) in G by done.
      destruct (before x k') eqn:G1; [|destruct (before k' x) eqn:G2; [done|]].
      + rewrite !find_before_all; [done| |].
        * by apply (Forall_before_trans x k').
        * apply (Forall_before_trans x k); try done.
          by rewrite (before_same_r k k' x).
      + rewrite (find_same x k' m), (find_same x k' m') by (try done; by apply same_key_spec).
        rewrite !find_before_all; [done|done|].
        rewrite Forall_forall in Hb |- *. intros e He.
        rewrite <-(before_same_l k k'); [by apply Hb|done|done| |done].
        destruct Hm as [_ Hn]. rewrite Forall_forall in Hn. by apply Hn.
  Qed.
  (** What a map of later keys finds is later. *)
Lemma find_after k x v m :
    is_nan k = false -> is_nan x = false -> sm_wf m -> Forall (fun e => before k (fst e) = true) m ->
    sm_find x m = Some v -> before k x = true.
  Proof using KO.
    intros Hk Hx [_ Hn] Hb (y & Hin & Hs)%find_some. rewrite Forall_forall in Hn, Hb.
    rewrite (before_same_r x y k); [exact (Hb _ Hin)|done|exact (Hn _ Hin)|done|done].
  Qed.

  (** A map all of whose bindings another map has lists its values in the
      same order, some left out. *)
Lemma sm_submap_values m m' :
    sm_wf m -> sm_wf m' ->
    (forall k v, is_nan k = false -> sm_find k m = Some v -> sm_find k m' = Some v) ->
    sublist (map snd m) (map snd m').
  Proof using KO.
    revert m. induction m' as [|[k' v'] m' IH]; intros [|[k v] m] Hwf Hwf' Hsub; [constructor| |apply sublist_nil_l|].
    { pose proof (sm_wf_cons_inv _ _ _ Hwf) as (Hk & _ & _). specialize (Hsub k v Hk). simpl in Hsub.
      rewrite before_irrefl in Hsub by done. by specialize (Hsub eq_refl). }
    pose proof (sm_wf_cons_inv _ _ _ Hwf) as (Hk & Hm & Hb).
    pose proof (sm_wf_cons_inv _ _ _ Hwf') as (Hk' & Hm' & Hb').
    pose proof (Hsub k v Hk) as E. simpl in E. rewrite before_irrefl in E by done. specialize (E eq_refl).
    destruct (before k k') eqn:F1; [done|]. destruct (before k' k) eqn:F2; cbn [map].
    - apply sublist_cons, (IH ((k, v) :: m)); [done..|]. intros x w Hx Hf. pose proof (Hsub x w Hx Hf) as G. simpl in G.
      assert (Hlt : before k' x = true).
      { apply (find_after k' x w ((k, v) :: m)); try done. constructor; [done|]. by apply (Forall_before_trans k' k). }
      by rewrite Hlt, (before_asym k' x) in G.
    - injection E as ->. apply sublist_skip, IH; [done..|]. intros x w Hx Hf.
      assert (Hlt : before k x = true) by by apply (find_after k x w m).
      pose proof (Hsub x w Hx) as G. simpl in G. rewrite Hlt, (before_asym k x Hk Hx Hlt) in G. specialize (G Hf).
      assert (Hs : same_key k k' = true) by by apply same_key_spec.
      rewrite (before_same_l k k' x) in Hlt by done. by rewrite Hlt, (before_asym k' x) in G.
  Qed.
End sorted_map.

#[export] Hint Resolve sm_wf_nil assign_wf erase_wf : tickplant.
