(* ===== verification/StdSort.v ===== *)
(** * [std::sort] on a floating-point key

    [std::sort] is not stable and requires its comparison to order the
    elements: it is any function that returns a sorted permutation when the
    keys are numbers.  Where incomparability is not transitive, as a NaN among
    the keys can make it, sorting is undefined behaviour ([sortable] is the
    check). *)

From Stdlib Require Import Sorted.
From S2P Require Import Prelude Float64 SortedMap.

Section order.
Context {A : Type} (key : A -> double) (before : double -> double -> bool).

Definition incomparable (x y : A) : bool := negb (before (key x) (key y)) && negb (before (key y) (key x)).

(** The precondition of [std::sort]: incomparability is transitive on the
    elements (irreflexivity and transitivity of the comparisons used hold for
    every double). *)
Definition sortable (ls : list A) : bool :=
  forallb (fun x => forallb (fun y => forallb (fun z =>
    negb (incomparable x y && incomparable y z) || incomparable x z) ls) ls) ls.

Definition in_order (ls : list A) : Prop := StronglySorted (fun x y => before (key y) (key x) = false) ls.

Definition numbered (ls : list A) : Prop := Forall (fun x => is_nan (key x) = false) ls.
End order.

Class StdSort {A : Type} (key : A -> double) := {
  std_sort : (double -> double -> bool) -> list A -> list A;
  std_sort_perm before ls : std_sort before ls ≡ₚ ls;
  std_sort_sorted before ls : KeyOrder before -> numbered key ls -> in_order key before (std_sort before ls);
}.
Arguments std_sort {A} key {_} before ls.

Section sorting.
Context {A : Type} (key : A -> double).

Lemma numbered_sortable before ls : KeyOrder before -> numbered key ls -> sortable key before ls = true.
Proof.
  intros Ho Hls. unfold numbered in Hls. rewrite Forall_forall in Hls. unfold sortable.
  apply forallb_forall. intros x Hx%list_elem_of_In. apply forallb_forall. intros y Hy%list_elem_of_In.
  apply forallb_forall. intros z Hz%list_elem_of_In.
  destruct (incomparable key before x y && incomparable key before y z) eqn:E; [simpl|done].
  unfold incomparable in *.
  apply andb_true_iff in E as [[E1%negb_true_iff E2%negb_true_iff]%andb_true_iff [E3%negb_true_iff E4%negb_true_iff]%andb_true_iff].
  pose proof (before_ntrans _ _ _ (Hls x Hx) (Hls y Hy) (Hls z Hz) E1 E3) as ->.
  by pose proof (before_ntrans _ _ _ (Hls z Hz) (Hls y Hy) (Hls x Hx) E4 E2) as ->.
Qed.

(** ** Insertion sort is one *)

Fixpoint insert_by (before : double -> double -> bool) (x : A) (ls : list A) : list A :=
  match ls with
  | [] => [x]
  | y :: ls' => if before (key x) (key y) then x :: ls else y :: insert_by before x ls'
  end.

Definition insertion_sort (before : double -> double -> bool) (ls : list A) : list A :=
  foldr (insert_by before) [] ls.

Lemma insert_by_perm before x ls : insert_by before x ls ≡ₚ x :: ls.
Proof.
  induction ls as [|y ls IH]; [done|]. simpl. destruct (before _ _); [done|]. rewrite IH. constructor.
Qed.

Lemma insertion_sort_perm before ls : insertion_sort before ls ≡ₚ ls.
Proof. induction ls as [|x ls IH]; [done|]. simpl. by rewrite insert_by_perm, IH. Qed.

Lemma insert_by_sorted before x ls :
  KeyOrder before -> is_nan (key x) = false -> numbered key ls -> in_order key before ls ->
  in_order key before (insert_by before x ls).
Proof.
  intros Ho Hx Hls Hs. induction Hs as [|y ls Hs IH Hy]; [by repeat constructor|].
  apply Forall_cons in Hls as [Hyn Hls]. simpl. destruct (before (key x) (key y)) eqn:E.
  - assert (Hyx : before (key y) (key x) = false) by (by apply before_asym).
    constructor; [by constructor|]. constructor; [done|].
    rewrite Forall_forall in Hy, Hls |- *. intros z Hz. apply (before_ntrans _ (key y)); auto.
  - constructor; [by apply IH|]. rewrite insert_by_perm. by constructor.
Qed.

#[refine] Definition insertion_std_sort : StdSort key := {| std_sort := insertion_sort |}.
Proof.
  - apply insertion_sort_perm.
  - intros before ls Ho Hls. induction Hls as [|x ls Hx Hls IH]; [constructor|].
    simpl. apply insert_by_sorted; [done..| |done].
    unfold numbered. rewrite (insertion_sort_perm before ls). exact Hls.
Defined.
End sorting.
