(* ===== verification/Str.v ===== *)
(** * Byte strings

    The operations of [std::string], [std::string_view] and the C locale that
    the source uses: searching, case conversion, trimming, decimal and
    hexadecimal printing. *)

From Stdlib Require Import ZArith Lia Ascii.
From S2P Require Import Prelude.

(** ** Character classes (C locale) *)

Definition is_digit (c : ascii) : bool := (48 <=? byte_val c) && (byte_val c <=? 57).
Definition is_upper (c : ascii) : bool := (65 <=? byte_val c) && (byte_val c <=? 90).
Definition is_lower (c : ascii) : bool := (97 <=? byte_val c) && (byte_val c <=? 122).

Definition toupper (c : ascii) : ascii := if is_lower c then byte_of (byte_val c - 32) else c.
Definition tolower (c : ascii) : ascii := if is_upper c then byte_of (byte_val c + 32) else c.

Definition NL : ascii := byte_of 10.
Definition CR : ascii := byte_of 13.
Definition QUOTE : ascii := byte_of 34.

(** The digit character of [0 <= d <= 9]. *)
Definition digit (d : Z) : ascii := byte_of (48 + d).
(** [c - '0'] *)
Definition digit_val (c : ascii) : Z := byte_val c - 48.

Lemma byte_val_range c : 0 <= byte_val c < 256.
Proof. unfold byte_val. pose proof (N_ascii_bounded c). lia. Qed.

Lemma byte_val_of z : 0 <= z < 256 -> byte_val (byte_of z) = z.
Proof.
  intros H. unfold byte_val, byte_of. rewrite N_ascii_embedding by lia. lia.
Qed.

Lemma byte_of_val c : byte_of (byte_val c) = c.
Proof. unfold byte_val, byte_of. rewrite N2Z.id. apply ascii_N_embedding. Qed.

Lemma digit_val_digit d : 0 <= d <= 9 -> digit_val (digit d) = d.
Proof. intros H. unfold digit_val, digit. rewrite byte_val_of; lia. Qed.

Lemma is_digit_digit d : 0 <= d <= 9 -> is_digit (digit d) = true.
Proof.
  intros H. unfold is_digit, digit. rewrite byte_val_of by lia.
  apply andb_true_iff. lia.
Qed.

(** ** Searching *)

(** [s.find(c)]: the first position of [c]; [None] is [npos]. *)
Fixpoint find_char (c : ascii) (s : bytes) : option nat :=
  match s with
  | [] => None
  | x :: s' => if decide (x = c) then Some 0%nat else S <$> find_char c s'
  end.

Fixpoint is_prefix (p s : bytes) : bool :=
  match p, s with
  | [], _ => true
  | a :: p', b :: s' => bool_decide (a = b) && is_prefix p' s'
  | _, [] => false
  end.

(** [s.find(p)]: the first position at which [p] occurs. *)
Fixpoint find_sub (p s : bytes) : option nat :=
  if is_prefix p s then Some 0%nat
  else match s with
       | [] => None
       | _ :: s' => S <$> find_sub p s'
       end.

Lemma is_prefix_app p s : is_prefix p (p ++ s) = true.
Proof. induction p as [|c p IH]; [done|]. simpl. by rewrite bool_decide_true. Qed.

Lemma find_sub_app p l r : is_Some (find_sub p (l ++ p ++ r)).
Proof.
  induction l as [|c l IH]; simpl.
  - destruct (p ++ r) as [|x s] eqn:E.
    + apply app_nil in E as [-> ->]. by exists 0%nat.
    + unfold find_sub; fold find_sub. rewrite <-E, is_prefix_app. by exists 0%nat.
  - destruct (is_prefix p (c :: l ++ p ++ r)); [by exists 0%nat|]. by apply fmap_is_Some.
Qed.

(** [s.find(p, pos)] *)
Definition find_sub_from (p s : bytes) (pos : nat) : option nat :=
  if (length s <? pos)%nat then None else Nat.add pos <$> find_sub p (drop pos s).

Definition has_suffix (p s : bytes) : bool :=
  (length p <=? length s)%nat && bool_decide (drop (length s - length p) s = p).

Lemma find_char_app c l r : c ∉ l -> find_char c (l ++ c :: r) = Some (length l).
Proof.
  induction l as [|x l IH]; simpl; intros Hc.
  - by rewrite decide_True.
  - apply not_elem_of_cons in Hc as [Hx Hc]. rewrite decide_False by congruence.
    by rewrite IH.
Qed.

Lemma find_char_none c s : find_char c s = None <-> c ∉ s.
Proof.
  induction s as [|x s IH]; simpl; [split; [by intros _ ?%elem_of_nil|done]|].
  rewrite not_elem_of_cons. case_decide as E.
  { split; [done|]. intros [H _]. by destruct H. }
  destruct (find_char c s) as [n|]; simpl.
  - split; [done|]. intros [_ H]. by apply IH in H.
  - split; [|done]. intros _. split; [congruence|by apply IH].
Qed.

Lemma find_char_some c s n :
  find_char c s = Some n -> s = take n s ++ c :: drop (S n) s /\ c ∉ take n s.
Proof.
  revert n. induction s as [|x s IH]; simpl; intros n; [done|].
  case_decide as E.
  - intros [= <-]. subst. simpl. split; [by rewrite drop_0|by intros ?%elem_of_nil].
  - intros (m & E' & ->)%fmap_Some. destruct (IH m E') as [H1 H2]. simpl. split.
    + by rewrite <-H1.
    + apply not_elem_of_cons. split; [congruence|done].
Qed.

Lemma find_char_lt c s n : find_char c s = Some n -> (n < length s)%nat.
Proof.
  intros [H _]%find_char_some. rewrite H, length_app, length_take. simpl.
  destruct (decide (n < length s)%nat); [lia|].
  rewrite take_ge, drop_ge in H by lia.
  apply (f_equal length) in H. rewrite length_app in H. simpl in H. lia.
Qed.

(** ** Trimming *)

(** Remove from the end the characters that satisfy [p]. *)
Fixpoint rtrim (p : ascii -> bool) (s : bytes) : bytes :=
  match s with
  | [] => []
  | c :: s' =>
      match rtrim p s' with
      | [] => if p c then [] else [c]
      | t => c :: t
      end
  end.

Fixpoint ltrim (p : ascii -> bool) (s : bytes) : bytes :=
  match s with
  | [] => []
  | c :: s' => if p c then ltrim p s' else s
  end.

(** The characters [p] removes from the end are exactly a final segment. *)
Lemma rtrim_spec p s :
  exists t, s = rtrim p s ++ t /\ Forall (fun c => p c = true) t /\
            (forall u c, rtrim p s = u ++ [c] -> p c = false).
Proof.
  induction s as [|c s (t & Hs & Ht & Hl)]; simpl.
  { exists []. repeat split; [constructor|]. by intros [|? ?] ?. }
  destruct (rtrim p s) as [|d u] eqn:E; simpl in Hs.
  - destruct (p c) eqn:Hc.
    + exists (c :: t). simpl. subst. repeat split; [by constructor|]. by intros [|? ?] ?.
    + exists t. simpl. subst. repeat split; [done|].
      intros [|? [|? ?]] c' [=]; by subst.
  - exists t. simpl. rewrite <-Hs. repeat split; [done|].
    intros [|x v] c'; intros Hv; simplify_eq/=. by apply (Hl v).
Qed.

Lemma rtrim_idemp p s : rtrim p (rtrim p s) = rtrim p s.
Proof.
  induction s as [|c s IH]; [done|]. cbn [rtrim].
  destruct (rtrim p s) as [|d u] eqn:E.
  - destruct (p c) eqn:Hc; cbn [rtrim]; by rewrite ?Hc.
  - cbn [rtrim] in *. by rewrite IH.
Qed.

Lemma rtrim_all (p : ascii -> bool) t : Forall (fun c => p c = true) t -> rtrim p t = [].
Proof. induction 1 as [|c t Hc Ht IH]; simpl; [done|]. by rewrite IH, Hc. Qed.

Lemma rtrim_app_trailing (p : ascii -> bool) s t :
  Forall (fun c => p c = true) t -> rtrim p (s ++ t) = rtrim p s.
Proof.
  intros Ht. induction s as [|c s IH]; simpl; [by apply rtrim_all|]. by rewrite IH.
Qed.

Lemma rtrim_last (p : ascii -> bool) u c : p c = false -> rtrim p (u ++ [c]) = u ++ [c].
Proof.
  intros Hc. induction u as [|x u IH]; simpl; [by rewrite Hc|]. rewrite IH. by destruct u.
Qed.

(** ** Decimal printing *)

(** The decimal digits of [n >= 0], most significant first; [fuel] bounds the
    number of digits, and [dec_of] gives enough. *)
Fixpoint dec_aux (fuel : nat) (n : Z) (acc : bytes) : bytes :=
  match fuel with
  | O => acc
  | S fuel' =>
      let acc' := digit (n mod 10) :: acc in
      if n <? 10 then acc' else dec_aux fuel' (n / 10) acc'
  end.

Definition dec_fuel (n : Z) : nat := S (Z.to_nat (Z.log2 n)).
Definition dec_of (n : Z) : bytes := dec_aux (dec_fuel n) n [].

(** [std::to_string] of an integer. *)
Definition to_string (n : Z) : bytes :=
  if n <? 0 then $"-" ++ dec_of (- n) else dec_of n.

(** [std::setw(w)] with a fill character, for right-aligned fields. *)
Definition pad_left (w : nat) (c : ascii) (s : bytes) : bytes :=
  replicate (w - length s) c ++ s.

(** The number a digit string denotes, continuing from [acc]. *)
Definition digits_value (s : bytes) (acc : Z) : Z :=
  foldl (fun a c => a * 10 + digit_val c) acc s.

Lemma digits_value_app s t acc : digits_value (s ++ t) acc = digits_value t (digits_value s acc).
Proof. unfold digits_value. by rewrite foldl_app. Qed.

Lemma dec_aux_app fuel n acc : dec_aux fuel n acc = dec_aux fuel n [] ++ acc.
Proof.
  revert n acc. induction fuel as [|fuel IH]; intros n acc; simpl; [done|].
  destruct (n <? 10); [done|]. rewrite IH, (IH _ [_]), <-app_assoc. done.
Qed.

Lemma dec_fuel_div n : 10 <= n -> (dec_fuel (n / 10) < dec_fuel n)%nat.
Proof.
  intros H. unfold dec_fuel.
  assert (0 < n / 10) by (apply Z.div_str_pos; lia).
  assert (Z.log2 (n / 10) < Z.log2 n); [|pose proof (Z.log2_nonneg (n / 10)); lia].
  apply Z.log2_lt_pow2; [done|].
  apply Z.div_lt_upper_bound; [lia|].
  pose proof (Z.log2_spec n ltac:(lia)). rewrite Z.pow_succ_r in * by apply Z.log2_nonneg. lia.
Qed.

(** Enough fuel: the digits do not depend on it. *)
Lemma dec_aux_fuel f1 f2 n acc :
  0 <= n -> (dec_fuel n <= f1)%nat -> (dec_fuel n <= f2)%nat ->
  dec_aux f1 n acc = dec_aux f2 n acc.
Proof.
  revert f2 n acc. induction f1 as [|f1 IH]; intros [|f2] n acc Hn H1 H2; try (unfold dec_fuel in *; lia).
  simpl. destruct (Z.ltb_spec n 10); [done|].
  pose proof (dec_fuel_div n ltac:(lia)).
  apply IH; [apply Z.div_pos; lia|lia..].
Qed.

Lemma dec_of_step n :
  0 <= n -> dec_of n = if n <? 10 then [digit n] else dec_of (n / 10) ++ [digit (n mod 10)].
Proof.
  intros Hn. unfold dec_of at 1, dec_fuel. simpl.
  destruct (Z.ltb_spec n 10).
  { by rewrite Z.mod_small. }
  rewrite dec_aux_app. f_equal. unfold dec_of.
  pose proof (dec_fuel_div n ltac:(lia)) as Hf.
  apply dec_aux_fuel; [apply Z.div_pos; lia| |lia]. unfold dec_fuel in *. lia.
Qed.

(** Induction on the decimal digits of a number. *)
Lemma dec_ind (P : Z -> Prop) :
  (forall n, 0 <= n < 10 -> P n) -> (forall n, 10 <= n -> P (n / 10) -> P n) ->
  forall n, 0 <= n -> P n.
Proof.
  intros Hs Hl n Hn0. apply (Z_lt_induction (fun n => 0 <= n -> P n)); [|done|done].
  clear n Hn0. intros n IH Hn. destruct (Z_lt_le_dec n 10); [by apply Hs|].
  apply Hl; [done|].
  assert (0 <= n / 10 < n) by (split; [apply Z.div_pos|apply Z.div_lt]; lia).
  apply IH; lia.
Qed.

Lemma dec_of_digits n : 0 <= n -> Forall (fun c => is_digit c = true) (dec_of n).
Proof.
  revert n. apply dec_ind; intros n Hn.
  - rewrite dec_of_step by lia. rewrite (proj2 (Z.ltb_lt _ _)) by lia.
    repeat constructor. apply is_digit_digit; lia.
  - intros IH. rewrite dec_of_step by lia. rewrite (proj2 (Z.ltb_ge _ _)) by lia.
    apply Forall_app. split; [done|]. repeat constructor. apply is_digit_digit.
    pose proof (Z.mod_pos_bound n 10). lia.
Qed.

Lemma dec_of_value n : 0 <= n -> digits_value (dec_of n) 0 = n.
Proof.
  revert n. apply dec_ind; intros n Hn.
  - rewrite dec_of_step by lia. rewrite (proj2 (Z.ltb_lt _ _)) by lia.
    cbn. rewrite digit_val_digit; lia.
  - intros IH. rewrite dec_of_step by lia. rewrite (proj2 (Z.ltb_ge _ _)) by lia.
    rewrite digits_value_app, IH. cbn -[Z.div Z.modulo].
    pose proof (Z.mod_pos_bound n 10). rewrite digit_val_digit by lia.
    pose proof (Z.div_mod n 10). lia.
Qed.

Lemma dec_of_nonempty n : 0 <= n -> dec_of n <> [].
Proof.
  intros Hn. rewrite dec_of_step by done. destruct (n <? 10); [done|].
  by intros []%app_nil.
Qed.

(** Two integers print alike only when they are equal. *)
Lemma dec_of_inj n m : 0 <= n -> 0 <= m -> dec_of n = dec_of m -> n = m.
Proof.
  intros Hn Hm E. rewrite <-(dec_of_value n Hn), <-(dec_of_value m Hm). by rewrite E.
Qed.

Lemma dec_of_length n k : 0 <= n < 10 ^ Z.of_nat k -> (0 < k)%nat -> (length (dec_of n) <= k)%nat.
Proof.
  revert k. assert (Hn0 : forall n, 0 <= n -> forall k, n < 10 ^ Z.of_nat k -> (0 < k)%nat ->
    (length (dec_of n) <= k)%nat); [|intros; apply Hn0; lia].
  clear n. apply (dec_ind (fun n => forall k, n < 10 ^ Z.of_nat k -> (0 < k)%nat -> (length (dec_of n) <= k)%nat)); intros n Hn.
  - intros k _ Hk. rewrite dec_of_step by lia. rewrite (proj2 (Z.ltb_lt _ _)) by lia.
    simpl. lia.
  - intros IH k Hlt Hk. rewrite dec_of_step by lia. rewrite (proj2 (Z.ltb_ge _ _)) by lia.
    rewrite length_app. simpl.
    destruct k as [|[|k]]; [lia|simpl in Hlt; lia|].
    assert (length (dec_of (n / 10)) <= S k)%nat; [|lia].
    apply IH; [|lia]. apply Z.div_lt_upper_bound; [lia|].
    rewrite Nat2Z.inj_succ, Z.pow_succ_r in Hlt by lia. lia.
Qed.

(** Digits are none of the delimiters of the protocols. *)
Lemma digit_not c x : is_digit x = false -> is_digit c = true -> c <> x.
Proof. intros H1 H2 ->. congruence. Qed.

Lemma digits_not_in x s : is_digit x = false -> Forall (fun c => is_digit c = true) s -> x ∉ s.
Proof. intros Hx Hs Hin. rewrite Forall_forall in Hs. apply Hs in Hin. congruence. Qed.

#[export] Hint Resolve dec_of_digits dec_of_nonempty : tickplant.

(** A number printed with leading zeros to a width it fits in. *)
Lemma digits_value_zeros k s : digits_value (replicate k "0"%char ++ s) 0 = digits_value s 0.
Proof. induction k as [|k IH]; [done|]. exact IH. Qed.

Lemma padded_number w n :
  (0 < w)%nat -> 0 <= n < 10 ^ Z.of_nat w ->
  length (pad_left w "0"%char (to_string n)) = w /\
  Forall (fun c => is_digit c = true) (pad_left w "0"%char (to_string n)) /\
  digits_value (pad_left w "0"%char (to_string n)) 0 = n.
Proof.
  intros Hw Hn. unfold to_string. rewrite (proj2 (Z.ltb_ge n 0)) by lia.
  pose proof (dec_of_length n w Hn Hw). unfold pad_left. split; [|split].
  - rewrite length_app, length_replicate. lia.
  - apply Forall_app. split; [by apply Forall_replicate|apply dec_of_digits; lia].
  - rewrite digits_value_zeros. apply dec_of_value. lia.
Qed.

Lemma digits_value_lt s acc :
  Forall (fun c => is_digit c = true) s -> digits_value s acc < (acc + 1) * 10 ^ Z.of_nat (length s).
Proof.
  revert acc. induction s as [|c s IH]; intros acc Hs; [simpl; lia|].
  apply Forall_cons in Hs as [Hc Hs].
  change (digits_value s (acc * 10 + digit_val c) < (acc + 1) * 10 ^ Z.of_nat (S (length s))).
  specialize (IH (acc * 10 + digit_val c) Hs).
  assert (digit_val c <= 9) by (unfold is_digit, digit_val in *; bool_to_prop; lia).
  rewrite Nat2Z.inj_succ, Z.pow_succ_r by lia.
  pose proof (Z.pow_pos_nonneg 10 (Z.of_nat (length s))). nia.
Qed.

Lemma to_string_length n k :
  10 ^ Z.of_nat k <= n < 10 ^ Z.of_nat (S k) -> length (to_string n) = S k.
Proof.
  intros Hn. pose proof (Z.pow_pos_nonneg 10 (Z.of_nat k)). unfold to_string.
  rewrite (proj2 (Z.ltb_ge n 0)) by lia.
  pose proof (dec_of_length n (S k) ltac:(lia) ltac:(lia)).
  pose proof (digits_value_lt (dec_of n) 0 (dec_of_digits n ltac:(lia))) as Hlt.
  rewrite dec_of_value in Hlt by lia.
  destruct (decide (length (dec_of n) <= k)%nat) as [Hk|]; [|lia].
  assert (10 ^ Z.of_nat (length (dec_of n)) <= 10 ^ Z.of_nat k) by (apply Z.pow_le_mono_r; lia). lia.
Qed.

(** ** C strings *)

Definition NUL : ascii := byte_of 0.

(** The string a [char*] denotes: up to the first zero byte. *)
Definition c_str (s : bytes) : bytes :=
  match find_char NUL s with Some n => take n s | None => s end.

Lemma c_str_incl s c : c ∈ c_str s -> c ∈ s.
Proof. unfold c_str. case_match; [|done]. apply subseteq_take. Qed.

Lemma c_str_id s : (NUL ∉ s) -> c_str s = s.
Proof. intros Hs. unfold c_str. by rewrite (proj2 (find_char_none NUL s) Hs). Qed.

(** ** Scanning *)

(** The longest prefix of bytes satisfying [p], and the rest. *)
Fixpoint span (p : ascii -> bool) (s : bytes) : bytes * bytes :=
  match s with
  | c :: s' => if p c then let '(a, b) := span p s' in (c :: a, b) else ([], s)
  | [] => ([], [])
  end.

Lemma span_app p s : fst (span p s) ++ snd (span p s) = s.
Proof. induction s as [|c s IH]; [done|]. simpl. destruct (p c); [|done]. destruct (span p s). simpl in *. by rewrite IH. Qed.

Lemma span_all p s r :
  Forall (fun c => p c = true) s -> match r with [] => True | c :: _ => p c = false end ->
  span p (s ++ r) = (s, r).
Proof.
  intros Hs Hr. induction Hs as [|c s Hc Hs IH]; simpl.
  - destruct r as [|c r]; [done|]. simpl. by rewrite Hr.
  - by rewrite Hc, IH.
Qed.

Lemma span_fst p s : Forall (fun c => p c = true) (fst (span p s)).
Proof.
  induction s as [|c s IH]; [constructor|]. simpl. destruct (p c) eqn:E; [|constructor].
  destruct (span p s). by constructor.
Qed.

(** Hexadecimal digits, upper and lower case. *)
Definition hex_val (c : ascii) : option Z :=
  if is_digit c then Some (digit_val c)
  else
    let l := byte_val (tolower c) in
    if (97 <=? l) && (l <=? 102) then Some (l - 87) else None.

Definition is_hex (c : ascii) : bool := bool_decide (is_Some (hex_val c)).

Definition hex_value (s : bytes) : Z :=
  foldl (fun acc c => acc * 16 + default 0 (hex_val c)) 0 s.

(** [isspace] of the C locale. *)
Definition is_space (c : ascii) : bool :=
  let v := byte_val c in (v =? 32) || ((9 <=? v) && (v <=? 13)).
