(* ===== verification/Stod.v ===== *)
(** * [std::stod]

    The conversion the feed clients apply to prices and quantities received as
    JSON strings: [strtod] on the C string of the argument, [invalid_argument]
    when nothing is converted, [out_of_range] when the value is out of the
    range of the type.  The accepted syntax is the one of the C standard
    (white space, sign, decimal or hexadecimal floating constant, infinity,
    NaN); anything after it is ignored.  Values are rounded to nearest, ties to
    even.  C leaves to the implementation whether a value below the smallest
    normal double is a range error; that choice is a parameter. *)

From Stdlib Require Import ZArith Lia Bool.
From S2P Require Import Prelude Float64 Str.

(** ** Correct rounding of a ratio *)

(** Floor of [num * 2^-e / den], and whether it is inexact. *)
Definition scaled_div (num den e : Z) : Z * bool :=
  let n := if e <? 0 then Z.shiftl num (- e) else num in
  let d := if e <? 0 then den else Z.shiftl den e in
  (n / d, negb (n mod d =? 0)).

(** The double nearest to [num / den]: 64 quotient bits and a sticky bit are
    more than the rounding looks at. *)
Definition round_ratio (neg : bool) (num den : Z) : double :=
  let e := Z.log2 num - Z.log2 den - 64 in
  let '(q, inexact) := scaled_div num den e in
  let r := binary_normalize prec emax (2 * q + (if inexact then 1 else 0)) (e - 1) false in
  if neg then dopp r else r.

Definition is_inf (x : double) : bool := match x with S754_infinity _ => true | _ => false end.

(** Whether the exact value [num / den] is nonzero and below [2^-1022]. *)
Definition tiny (num den : Z) : bool := (0 <? num) && (Z.shiftl num 1022 <? den).

(** Whether [strtod] reports a range error for such a value. *)
Class StrtodUnderflow := underflow_erange : Z -> Z -> bool.

(** ** Syntax *)

Inductive strtod_value :=
  | VRatio (num den : Z)
  | VInf
  | VNan.

(** Exponent part introduced by [c] (given in lower case): zero when it is
    absent or has no digits. *)
Definition exponent (c : ascii) (s : bytes) : Z :=
  match s with
  | x :: s' =>
      if bool_decide (tolower x = c) then
        let '(neg, s'') :=
          match s' with
          | "+"%char :: r => (false, r)
          | "-"%char :: r => (true, r)
          | _ => (false, s')
          end in
        let e := digits_value (fst (span is_digit s'')) 0 in
        if neg then - e else e
      else 0
  | [] => 0
  end.

(** Digits with at most one point among them: integer part, fraction part and
    the rest. *)
Definition mantissa (digit : ascii -> bool) (s : bytes) : bytes * bytes * bytes :=
  let '(ip, r) := span digit s in
  match r with
  | "."%char :: r' => let '(fp, r'') := span digit r' in (ip, fp, r'')
  | _ => (ip, [], r)
  end.

Definition scale (base m e : Z) : strtod_value :=
  if e <? 0 then VRatio m (base ^ (- e)) else VRatio (m * base ^ e) 1.

Definition decimal_constant (s : bytes) : option strtod_value :=
  let '(ip, fp, r) := mantissa is_digit s in
  if bool_decide (ip ++ fp = []) then None
  else Some (scale 10 (digits_value (ip ++ fp) 0) (exponent "e"%char r - Z.of_nat (length fp))).

Definition hex_constant (s : bytes) : option strtod_value :=
  match s with
  | "0"%char :: x :: s' =>
      if bool_decide (tolower x = "x"%char) then
        let '(ip, fp, r) := mantissa is_hex s' in
        if bool_decide (ip ++ fp = []) then None
        else Some (scale 2 (hex_value (ip ++ fp)) (exponent "p"%char r - 4 * Z.of_nat (length fp)))
      else None
  | _ => None
  end.

Definition word_constant (s : bytes) : option strtod_value :=
  let l := map tolower (take 3 s) in
  if bool_decide (l = $"inf") then Some VInf
  else if bool_decide (l = $"nan") then Some VNan
  else None.

(** [strtod] on the string [s]: sign and value of the longest prefix of the
    expected form, [None] when there is none. *)
Definition strtod (s : bytes) : option (bool * strtod_value) :=
  let s := ltrim is_space s in
  let '(neg, s) :=
    match s with
    | "+"%char :: r => (false, r)
    | "-"%char :: r => (true, r)
    | _ => (false, s)
    end in
  v ← match hex_constant s with
      | Some v => Some v
      | None => match decimal_constant s with Some v => Some v | None => word_constant s end
      end;
  Some (neg, v).

Definition stod `{StrtodUnderflow} (str : bytes) : res double :=
  match strtod (c_str str) with
  | None => Throw
  | Some (neg, VInf) => Ret (S754_infinity neg)
  | Some (_, VNan) => Ret S754_nan
  | Some (neg, VRatio num den) =>
      let r := round_ratio neg num den in
      if is_inf r || (tiny num den && underflow_erange num den) then Throw else Ret r
  end.

Section examples.
#[local] Instance glibc_like : StrtodUnderflow := fun _ _ => true.

Example stod_examples :
  map stod [$"65000.5"; $" -1e2x"; $"0x1.8p1"; $"0.1"; $"4.9e-324"; $"1e309"; $"abc"; $"nan"; $"-.5"; $"."] =
  [Ret (dlit 130001 2); Ret (dZ (-100)); Ret (dZ 3); Ret (dlit 1 10); Throw; Throw; Throw;
   Ret S754_nan; Ret (dopp (dlit 1 2)); Throw].
Proof. vm_compute. reflexivity. Qed.

Example stod_ties :
  map stod [$"9007199254740993"; $"9007199254740995"; $"9007199254740993.00000000000000000001"] =
  [Ret (dZ 9007199254740992); Ret (dZ 9007199254740996); Ret (dZ 9007199254740994)].
Proof. vm_compute. reflexivity. Qed.
End examples.

(** ** The result is a number *)

Lemma shr_1_nonneg mrs : 0 <= shr_m mrs -> 0 <= shr_m (shr_1 mrs).
Proof. destruct mrs as [[|p|p] r s]; simpl; [done| |lia]. intros _. by destruct p. Qed.

Lemma iter_pos_ind {A} (P : A -> Prop) (f : A -> A) p x :
  (forall y, P y -> P (f y)) -> P x -> P (iter_pos f p x).
Proof. intros Hf. revert x. induction p as [p IH|p IH|]; intros x Hx; simpl; auto. Qed.

Lemma shr_nonneg mrs e n : 0 <= shr_m mrs -> 0 <= shr_m (fst (shr mrs e n)).
Proof.
  intros H. unfold shr. destruct n as [|p|p]; [done| |done]. simpl.
  apply (iter_pos_ind (fun m => 0 <= shr_m m)); [apply shr_1_nonneg|done].
Qed.

Lemma shr_fexp_nonneg m e l : 0 <= m -> 0 <= shr_m (fst (shr_fexp prec emax m e l)).
Proof. intros H. apply shr_nonneg. by destruct l as [|[]]. Qed.

Lemma round_nearest_even_nonneg m l : 0 <= m -> 0 <= round_nearest_even m l.
Proof. intros H. unfold round_nearest_even. repeat case_match; lia. Qed.

Lemma binary_round_aux_not_nan sx m e l : 0 <= m -> is_nan (binary_round_aux prec emax sx m e l) = false.
Proof.
  intros H. unfold binary_round_aux.
  pose proof (shr_fexp_nonneg m e l H) as H1. destruct (shr_fexp prec emax m e l) as [mrs e'] eqn:E1. simpl in H1.
  pose proof (shr_fexp_nonneg _ e' loc_Exact (round_nearest_even_nonneg _ (loc_of_shr_record mrs) H1)) as H2.
  destruct (shr_fexp prec emax _ e' loc_Exact) as [mrs' e''] eqn:E2. simpl in H2.
  destruct (shr_m mrs') as [|p|p]; [done| |lia]. by destruct (_ <=? _).
Qed.

Lemma binary_normalize_not_nan m e : is_nan (binary_normalize prec emax m e false) = false.
Proof.
  destruct m as [|p|p]; [done| |]; unfold binary_normalize, binary_round;
    (case_match; by apply binary_round_aux_not_nan).
Qed.

Lemma round_ratio_not_nan neg num den : is_nan (round_ratio neg num den) = false.
Proof.
  unfold round_ratio. destruct (scaled_div _ _ _) as [q i].
  pose proof (binary_normalize_not_nan (2 * q + (if i then 1 else 0)) (Z.log2 num - Z.log2 den - 64 - 1)) as H.
  destruct neg; [|done]. by destruct (binary_normalize _ _ _ _ _).
Qed.
