(* ===== verification/Fmt.v ===== *)
(** * Printing doubles

    The conversion [%.Pg] of [printf], which is also how [std::ostream] prints
    a double by default (with P = 6): the exact value of the double is rounded
    to P significant decimal digits, trailing zeros are dropped, and the
    exponent form is used for decimal exponents below -4 or at least P.  Also
    the fixed form ([std::fixed] with a precision) and padding ([std::setw]). *)

From Stdlib Require Import ZArith Lia Ascii.
From S2P Require Import Prelude Float64 Str.

(** The positive rational [m * 2^e] as a numerator and a denominator. *)
Definition num_den (m : positive) (e : Z) : Z * Z :=
  if 0 <=? e then (Zpos m * 2 ^ e, 1) else (Zpos m, 2 ^ (- e)).

(** [num / den >= 10^x] *)
Definition ge_pow10 (num den x : Z) : bool :=
  if 0 <=? x then den * 10 ^ x <=? num else den <=? num * 10 ^ (- x).

(** The decimal exponent: the largest [x] with [10^x <= num / den]. *)
Definition dec_exp (num den : Z) : Z :=
  let x := Z.of_nat (length (dec_of num)) - Z.of_nat (length (dec_of den)) in
  if ge_pow10 num den x then x else x - 1.

(** The nearest integer to [n / d], ties to even. *)
Definition div_nearest_even (n d : Z) : Z :=
  let '(q, r) := Z.div_eucl n d in
  match (2 * r ?= d) with
  | Lt => q
  | Gt => q + 1
  | Eq => if Z.even q then q else q + 1
  end.

(** P significant digits of [num / den], as an integer of P digits and the
    exponent of the first of them. *)
Definition round_dec (P num den : Z) : Z * Z :=
  let x := dec_exp num den in
  let sc := P - 1 - x in
  let q := if 0 <=? sc then div_nearest_even (num * 10 ^ sc) den
           else div_nearest_even num (den * 10 ^ (- sc)) in
  if q =? 10 ^ P then (10 ^ (P - 1), x + 1) else (q, x).

Definition is_zero_digit (c : ascii) : bool := bool_decide (c = "0"%char).

(** A fractional part after its trailing zeros are dropped. *)
Definition frac_part (s : bytes) : bytes :=
  match rtrim is_zero_digit s with
  | [] => []
  | f => $"." ++ f
  end.

Definition fmt_digits (P : Z) (s : bytes) (x : Z) : bytes :=
  if (-4 <=? x) && (x <? P) then
    if 0 <=? x then
      take (Z.to_nat (x + 1)) s ++ frac_part (drop (Z.to_nat (x + 1)) s)
    else
      $"0" ++ frac_part (replicate (Z.to_nat (- x - 1)) "0"%char ++ s)
  else
    take 1 s ++ frac_part (drop 1 s) ++
    $"e" ++ (if x <? 0 then $"-" else $"+") ++ pad_left 2 "0"%char (dec_of (Z.abs x)).

(** [snprintf("%.Pg", v)] *)
Definition fmt_g (P : Z) (v : double) : bytes :=
  match v with
  | S754_zero s => (if s then $"-" else []) ++ $"0"
  | S754_infinity s => (if s then $"-" else []) ++ $"inf"
  | S754_nan => $"nan"
  | S754_finite s m e =>
      let '(num, den) := num_den m e in
      let '(q, x) := round_dec P num den in
      (if s then $"-" else []) ++ fmt_digits P (dec_of q) x
  end.

Example fmt_price : fmt_g 6 (dlit 65000123 1000) = $"65000.1".
Proof. reflexivity. Qed.
Example fmt_million : fmt_g 6 (dZ 1000000) = $"1e+06".
Proof. reflexivity. Qed.
Example fmt_small : fmt_g 6 (dlit 5 100000) = $"5e-05".
Proof. reflexivity. Qed.
Example fmt_tenth : fmt_g 8 (dlit 1 10) = $"0.1".
Proof. reflexivity. Qed.

(** ** The alphabet of a printed double *)

Definition fmt_char (c : ascii) : bool :=
  is_digit c || bool_decide (c ∈ $"+-.einfa").

Lemma fmt_char_digits s : Forall (fun c => is_digit c = true) s -> Forall (fun c => fmt_char c = true) s.
Proof. intros H. eapply Forall_impl; [exact H|]. intros c Hc. unfold fmt_char. by rewrite Hc. Qed.

Lemma Forall_rtrim (Q : ascii -> Prop) p s : Forall Q s -> Forall Q (rtrim p s).
Proof. destruct (rtrim_spec p s) as (t & E & _). rewrite E at 1. by intros [H _]%Forall_app. Qed.

Lemma frac_part_chars s :
  Forall (fun c => is_digit c = true) s -> Forall (fun c => fmt_char c = true) (frac_part s).
Proof.
  intros Hs%(Forall_rtrim _ is_zero_digit)%fmt_char_digits. unfold frac_part.
  destruct (rtrim is_zero_digit s); [constructor|]. by constructor.
Qed.

Lemma Forall_replicate_zero n : Forall (fun c => is_digit c = true) (replicate n "0"%char).
Proof. by apply Forall_replicate. Qed.

Lemma fmt_digits_chars P s x :
  Forall (fun c => is_digit c = true) s ->
  Forall (fun c => fmt_char c = true) (fmt_digits P s x).
Proof.
  intros Hs. unfold fmt_digits.
  destruct ((-4 <=? x) && (x <? P)); [destruct (0 <=? x)|].
  - apply Forall_app. split.
    + by apply fmt_char_digits, Forall_take.
    + by apply frac_part_chars, Forall_drop.
  - constructor; [done|]. apply frac_part_chars, Forall_app.
    split; [apply Forall_replicate_zero|done].
  - repeat apply Forall_app_2.
    + by apply fmt_char_digits, Forall_take.
    + by apply frac_part_chars, Forall_drop.
    + by repeat constructor.
    + destruct (x <? 0); by repeat constructor.
    + apply fmt_char_digits, Forall_replicate_zero.
    + apply fmt_char_digits, dec_of_digits. lia.
Qed.

Lemma div_nearest_even_nonneg n d : 0 <= n -> 0 < d -> 0 <= div_nearest_even n d.
Proof.
  intros Hn Hd. unfold div_nearest_even.
  pose proof (Z_div_mod n d ltac:(lia)) as H. destruct (Z.div_eucl n d) as [q r].
  assert (0 <= q) by nia.
  destruct (2 * r ?= d); [destruct (Z.even q)|..]; lia.
Qed.

Lemma num_den_pos m e num den : num_den m e = (num, den) -> 0 < num /\ 0 < den.
Proof.
  unfold num_den. destruct (Z.leb_spec 0 e); intros [= <- <-].
  - pose proof (Z.pow_pos_nonneg 2 e). lia.
  - pose proof (Z.pow_pos_nonneg 2 (- e)). lia.
Qed.

Lemma round_dec_nonneg P num den q x :
  0 <= num -> 0 < den -> 0 < P -> round_dec P num den = (q, x) -> 0 <= q.
Proof.
  intros Hn Hd HP. unfold round_dec. case_match; intros [= <- <-].
  - apply Z.pow_nonneg. lia.
  - case_match; apply div_nearest_even_nonneg; bool_to_prop.
    + pose proof (Z.pow_pos_nonneg 10 (P - 1 - dec_exp num den)). nia.
    + done.
    + done.
    + pose proof (Z.pow_pos_nonneg 10 (- (P - 1 - dec_exp num den))). nia.
Qed.

(** A printed double holds only digits, sign, point, exponent mark and the
    letters of [inf] and [nan]: no protocol delimiter. *)
Lemma fmt_g_chars P v : 0 < P -> Forall (fun c => fmt_char c = true) (fmt_g P v).
Proof.
  intros HP. destruct v as [[]|[]| |s m e]; try by repeat constructor.
  simpl. destruct (num_den m e) as [num den] eqn:E.
  destruct (num_den_pos _ _ _ _ E). destruct (round_dec P num den) as [q x] eqn:E2.
  apply Forall_app. split; [destruct s; by repeat constructor|].
  apply fmt_digits_chars, dec_of_digits. by eapply round_dec_nonneg; [| | |exact E2]; lia.
Qed.

Lemma fmt_g_not_in P v c : 0 < P -> fmt_char c = false -> c ∉ fmt_g P v.
Proof.
  intros HP Hc Hin. pose proof (fmt_g_chars P v HP) as H.
  rewrite Forall_forall in H. apply H in Hin. congruence.
Qed.

(** ** Fixed notation *)

(** [std::fixed << std::setprecision(P)], and ["%.Pf"]. *)
Definition fmt_fixed (P : nat) (v : double) : bytes :=
  match v with
  | S754_zero s => (if s then $"-" else []) ++ $"0" ++ (match P with O => [] | _ => $"." ++ replicate P "0"%char end)
  | S754_infinity s => (if s then $"-" else []) ++ $"inf"
  | S754_nan => $"nan"
  | S754_finite s m e =>
      let '(num, den) := num_den m e in
      let ds := pad_left (S P) "0"%char (dec_of (div_nearest_even (num * 10 ^ Z.of_nat P) den)) in
      (if s then $"-" else []) ++ take (length ds - P) ds ++
        match P with O => [] | _ => $"." ++ drop (length ds - P) ds end
  end.

(** [std::left << std::setw(w)] with a space for fill, and the same aligned to
    the right. *)
Definition setw_left (w : nat) (s : bytes) : bytes := s ++ replicate (w - length s) " "%char.
Definition setw_right (w : nat) (s : bytes) : bytes := pad_left w " "%char s.

Example fmt_fixed_examples :
  map (fmt_fixed 2) [dlit 65000125 1000; dlit (-5) 1000; dlit 999999 1000; dZ 3; dzero] =
  [$"65000.12"; $"-0.01"; $"1000.00"; $"3.00"; $"0.00"].
Proof. reflexivity. Qed.

(** The digits of a fixed rendering, without the point, are the nearest
    multiple of [10^-P]. *)
Lemma div_nearest_even_close n d : 0 <= n -> 0 < d -> 2 * Z.abs (div_nearest_even n d * d - n) <= d.
Proof.
  intros Hn Hd. unfold div_nearest_even. pose proof (Z_div_mod n d ltac:(lia)) as H.
  destruct (Z.div_eucl n d) as [q r]. destruct H as [-> Hr]. destruct (Z.compare_spec (2 * r) d).
  - destruct (Z.even q); nia.
  - nia.
  - nia.
Qed.

Lemma setw_left_length w s : length (setw_left w s) = Nat.max w (length s).
Proof. unfold setw_left. rewrite length_app, length_replicate. lia. Qed.

Lemma setw_right_length w s : length (setw_right w s) = Nat.max w (length s).
Proof. unfold setw_right, pad_left. rewrite length_app, length_replicate. lia. Qed.
