(* ===== verification/Json.v ===== *)
(** * The JSON library

    The program reads JSON with nlohmann::json, which is not part of the
    repository.  [JsonLib] is the interface the program uses, one field per
    operation, with what its documentation says of them; the models that read
    JSON are written against it.  [None] and [Throw] are the exceptions of the
    library ([parse_error], [type_error]); the access [operator[]] with a key or
    position that is absent from a constant value is undefined behaviour.

    [tree_json] is a small implementation on syntax trees, with which the
    models are evaluated. *)

From S2P Require Import Prelude Float64 Str.

Class JsonLib := {
  json : Type;
  json_parse : bytes -> option json;
  json_contains : json -> bytes -> bool;
  (** [operator[](key)] on a constant value. *)
  json_at : json -> bytes -> res json;
  (** [operator[](key)] on a variable: an absent key reads as null. *)
  json_ref : json -> bytes -> res json;
  (** [operator[](position)] on a constant value. *)
  json_index : json -> nat -> res json;
  (** [operator[](position)] on a variable: past the end reads as null. *)
  json_ref_index : json -> nat -> res json;
  (** What a range-based [for] visits. *)
  json_items : json -> list json;
  json_empty : json -> bool;
  json_size : json -> nat;
  json_is_null : json -> bool;
  (** [get<std::string>()], [get<double>()], [get<uint64_t>()]. *)
  json_string : json -> option bytes;
  json_double : json -> option double;
  json_uint : json -> res Z;
  (** Comparison with a string literal and with [true]. *)
  json_is : json -> bytes -> bool;
  json_is_true : json -> bool;
  (** [value(key, default)] at the types used. *)
  json_value_string : json -> bytes -> bytes -> option bytes;
  json_value_bool : json -> bytes -> bool -> option bool;
  json_value_uint : json -> bytes -> Z -> res Z;
  json_value_int : json -> bytes -> Z -> res Z;

  (** A key that [contains] reports can be read, both ways alike. *)
  json_contains_at j k : json_contains j k = true -> exists v, json_at j k = Ret v /\ json_ref j k = Ret v;
  (** Reading a key of a variable is always defined. *)
  json_ref_defined j k : json_ref j k <> Undef;
  (** A value equals a string literal exactly when it is that string. *)
  json_is_string j s : json_is j s = true <-> json_string j = Some s;
  (** An empty value has nothing to visit. *)
  json_empty_items j : json_empty j = true -> json_items j = [];
  (** Reading a position of a variable, or one below the size, is defined. *)
  json_ref_index_defined j i : json_ref_index j i <> Undef;
  json_index_defined j i : (i < json_size j)%nat -> json_index j i <> Undef;
}.

(** ** Syntax trees *)

Inductive jtree :=
  | JNull
  | JBool (b : bool)
  | JInt (n : Z)
  | JFloat (d : double)
  | JStr (s : bytes)
  | JArr (l : list jtree)
  | JObj (ms : list (bytes * jtree)).

Fixpoint assoc {A} (k : bytes) (ms : list (bytes * A)) : option A :=
  match ms with
  | [] => None
  | (k', v) :: ms' => if decide (k' = k) then Some v else assoc k ms'
  end.

Definition tree_member (j : jtree) (k : bytes) : option jtree :=
  match j with JObj ms => assoc k ms | _ => None end.

Definition tree_uint (j : jtree) : res Z :=
  match j with
  | JInt n => Ret (wrap64 n)
  | JFloat d => match dtrunc d with Some n => Ret n | None => Undef end
  | _ => Throw
  end.

(** The value of an integer converted to [int64_t]. *)
Definition as_int64 (n : Z) : Z := (n + 2 ^ 63) mod two64 - 2 ^ 63.

Definition tree_int (j : jtree) : res Z :=
  match j with
  | JInt n => Ret (as_int64 n)
  | JFloat d => match dtrunc d with Some n => Ret n | None => Undef end
  | _ => Throw
  end.

Definition tree_string (j : jtree) : option bytes := match j with JStr s => Some s | _ => None end.

(** [value]: the default for an absent key of an object. *)
Definition tree_value {A} (get : jtree -> res A) (j : jtree) (k : bytes) (d : A) : res A :=
  match j with
  | JObj ms => match assoc k ms with Some v => get v | None => Ret d end
  | _ => Throw
  end.

Definition to_option {A} (r : res A) : option A := match r with Ret a => Some a | _ => None end.

#[refine] Definition tree_json (parse : bytes -> option jtree) : JsonLib := {|
  json := jtree;
  json_parse := parse;
  json_contains j k := bool_decide (is_Some (tree_member j k));
  json_at j k :=
    match j with
    | JObj ms => match assoc k ms with Some v => Ret v | None => Undef end
    | _ => Throw
    end;
  json_ref j k :=
    match j with
    | JObj ms => Ret (default JNull (assoc k ms))
    | JNull => Ret JNull
    | _ => Throw
    end;
  json_index j i :=
    match j with
    | JArr l => match l !! i with Some v => Ret v | None => Undef end
    | _ => Throw
    end;
  json_ref_index j i :=
    match j with
    | JArr l => Ret (default JNull (l !! i))
    | JNull => Ret JNull
    | _ => Throw
    end;
  json_items j :=
    match j with JNull => [] | JArr l => l | JObj ms => map snd ms | _ => [j] end;
  json_empty j :=
    match j with JNull => true | JArr l => bool_decide (l = []) | JObj ms => bool_decide (ms = []) | _ => false end;
  json_size j :=
    match j with JNull => 0%nat | JArr l => length l | JObj ms => length ms | _ => 1%nat end;
  json_is_null j := match j with JNull => true | _ => false end;
  json_string := tree_string;
  json_double j := match j with JInt n => Some (dZ n) | JFloat d => Some d | _ => None end;
  json_uint := tree_uint;
  json_is j s := bool_decide (tree_string j = Some s);
  json_is_true j := match j with JBool b => b | _ => false end;
  json_value_string j k d := to_option (tree_value (fun v => or_throw (tree_string v)) j k d);
  json_value_bool j k d := to_option (tree_value (fun v => match v with JBool b => Ret b | _ => Throw end) j k d);
  json_value_uint j k d := tree_value tree_uint j k d;
  json_value_int j k d := tree_value tree_int j k d;
|}.
Proof.
  - intros j k [v Hv]%bool_decide_eq_true_1. exists v. destruct j as [| | | | | |ms]; simpl in *; try done.
    by rewrite Hv.
  - by intros [] k.
  - intros j s. by rewrite bool_decide_eq_true.
  - intros j. destruct j as [| | | | |l|ms]; simpl; try done; [by intros ->%bool_decide_eq_true_1..].
  - by intros [] i.
  - intros [] i; simpl; try done. intros Hi. by destruct (lookup_lt_is_Some_2 _ _ Hi) as [v ->].
Defined.
