(* ===== verification/JsonText.v ===== *)
(** * JSON texts

    The responses of the query server are JSON texts the program writes by
    hand, without white space and without escapes.  This file gives the syntax
    of such texts ([jtext], printed by [show]), the value the JSON library
    reads from one ([value]: RFC 8259, numbers without fraction and exponent
    being integers), and a reader [read_json] of exactly these texts, with
    which the theorems about the library are instantiated. *)

From S2P Require Import Prelude Float64 Str Fmt Stod Json.

(** ** Syntax *)

Definition DQUOTE : ascii := byte_of 34.
Definition BACKSLASH : ascii := byte_of 92.

Inductive jtext :=
  | TNull
  | TBool (b : bool)
  | TNum (t : bytes)
  | TStr (s : bytes)
  | TArr (l : list jtext)
  | TObj (ms : list (bytes * jtext)).

(** Elements with commas between them. *)
Fixpoint separated (l : list bytes) : bytes :=
  match l with
  | [] => []
  | [x] => x
  | x :: l' => x ++ $"," ++ separated l'
  end.

Definition quoted (s : bytes) : bytes := DQUOTE :: s ++ [DQUOTE].

Fixpoint show (j : jtext) : bytes :=
  match j with
  | TNull => $"null"
  | TBool true => $"true"
  | TBool false => $"false"
  | TNum t => t
  | TStr s => quoted s
  | TArr l => $"[" ++ separated (map show l) ++ $"]"
  | TObj ms => $"{" ++ separated (map (fun kv => quoted (fst kv) ++ $":" ++ show (snd kv)) ms) ++ $"}"
  end.

(** ** Values *)

(** What follows the character [c]. *)
Definition expect (c : ascii) (s : bytes) : option bytes :=
  match s with x :: r => if bool_decide (x = c) then Some r else None | [] => None end.

(** The double nearest to a decimal constant; none is infinite. *)
Definition float_value (neg : bool) (s : bytes) : option double :=
  match decimal_constant s with
  | Some (VRatio num den) =>
      let d := round_ratio neg num den in if is_inf d then None else Some d
  | _ => None
  end.

(** [int frac? exp?] after the sign, with what is a digit where one must be. *)
Definition exp_ok (s : bytes) : bool :=
  match s with
  | [] => true
  | c :: s' =>
      let s'' := match expect "+"%char s' with Some r => r | None => default s' (expect "-"%char s') end in
      bool_decide (tolower c = "e"%char) && negb (bool_decide (s'' = [])) && forallb is_digit s''
  end.

Definition frac_ok (s : bytes) : bool :=
  match expect "."%char s with
  | Some s' => let '(fp, r) := span is_digit s' in negb (bool_decide (fp = [])) && exp_ok r
  | None => exp_ok s
  end.

Definition int_ok (ip : bytes) : bool :=
  match ip with [] => false | [_] => true | c :: _ => negb (bool_decide (c = "0"%char)) end.

(** The value of a number: an integer when it has neither a fraction nor an
    exponent and fits 64 bits. *)
Definition number_value (t : bytes) : option jtree :=
  let '(neg, s) := match expect "-"%char t with Some r => (true, r) | None => (false, t) end in
  let '(ip, r) := span is_digit s in
  if negb (int_ok ip && frac_ok r) then None
  else
    let n := if neg : bool then - digits_value ip 0 else digits_value ip 0 in
    if bool_decide (r = []) && (- 2 ^ 63 <=? n) && (n <? two64) then Some (JInt n)
    else JFloat <$> float_value neg s.

Definition plain_char (c : ascii) : bool :=
  (32 <=? byte_val c) && (byte_val c <? 127) && negb (bool_decide (c = DQUOTE)) && negb (bool_decide (c = BACKSLASH)).

Definition plain (s : bytes) : Prop := Forall (fun c => plain_char c = true) s.

(** The value of a text; [None] when a number in it has none. *)
Fixpoint value (j : jtext) : option jtree :=
  match j with
  | TNull => Some JNull
  | TBool b => Some (JBool b)
  | TNum t => number_value t
  | TStr s => Some (JStr s)
  | TArr l => JArr <$> mapM id (map value l)
  | TObj ms => JObj <$> mapM (fun kv => pair (fst kv) <$> snd kv) (map (fun kv => (fst kv, value (snd kv))) ms)
  end.

(** Texts whose strings need no escapes and whose keys are distinct. *)
Fixpoint plain_text (j : jtext) : Prop :=
  match j with
  | TStr s => plain s
  | TArr l => foldr (fun j P => plain_text j /\ P) True l
  | TObj ms => NoDup (map fst ms) /\ foldr (fun kv P => plain (fst kv) /\ plain_text (snd kv) /\ P) True ms
  | _ => True
  end.

(** ** The reader *)

Definition number_char (c : ascii) : bool :=
  is_digit c || bool_decide (c = "-"%char) || bool_decide (c = "+"%char) || bool_decide (c = "."%char) ||
  bool_decide (tolower c = "e"%char).

(** A string after its opening quote. *)
Definition read_string (s : bytes) : option (bytes * bytes) :=
  let '(str, r) := span plain_char s in
  r' ← expect DQUOTE r; Some (str, r').

Definition read_word (word : bytes) (j : jtext) (s : bytes) : option (jtext * bytes) :=
  if is_prefix word s then Some (j, drop (length word) s) else None.

(** The elements and the members are read after the opening bracket, up to the
    closing one. *)
Fixpoint read_value (fuel : nat) (s : bytes) : option (jtext * bytes) :=
  match fuel, s with
  | S fuel', c :: s' =>
      if bool_decide (c = DQUOTE) then '(str, r) ← read_string s'; Some (TStr str, r)
      else if bool_decide (c = "["%char) then
        match expect "]"%char s' with
        | Some r => Some (TArr [], r)
        | None => '(l, r) ← read_elements fuel' s'; Some (TArr l, r)
        end
      else if bool_decide (c = "{"%char) then
        match expect "}"%char s' with
        | Some r => Some (TObj [], r)
        | None => '(ms, r) ← read_members fuel' s'; Some (TObj ms, r)
        end
      else if bool_decide (c = "n"%char) then read_word $"null" TNull s
      else if bool_decide (c = "t"%char) then read_word $"true" (TBool true) s
      else if bool_decide (c = "f"%char) then read_word $"false" (TBool false) s
      else let '(t, r) := span number_char s in
           if bool_decide (t = []) then None else Some (TNum t, r)
  | _, _ => None
  end
with read_elements (fuel : nat) (s : bytes) : option (list jtext * bytes) :=
  match fuel with
  | O => None
  | S fuel' =>
      '(j, r) ← read_value fuel' s;
      match expect ","%char r with
      | Some r' => '(l, r'') ← read_elements fuel' r'; Some (j :: l, r'')
      | None => r' ← expect "]"%char r; Some ([j], r')
      end
  end
with read_members (fuel : nat) (s : bytes) : option (list (bytes * jtext) * bytes) :=
  match fuel with
  | O => None
  | S fuel' =>
      s1 ← expect DQUOTE s; '(k, s2) ← read_string s1; s3 ← expect ":"%char s2;
      '(j, r) ← read_value fuel' s3;
      match expect ","%char r with
      | Some r' => '(ms, r'') ← read_members fuel' r'; Some ((k, j) :: ms, r'')
      | None => r' ← expect "}"%char r; Some ([(k, j)], r')
      end
  end.

(** The fuel is enough: every call reads a character of its own or is the first
    at its position. *)
Definition read_json (s : bytes) : option jtree :=
  '(j, r) ← read_value (S (2 * length s)) s;
  if bool_decide (r = []) then value j else None.

Example read_example :
  read_json (map (fun c => if bool_decide (c = "`"%char) then DQUOTE else c)
    $"{`a`:[1,-2.5e1,null],`b`:{},`c`:true}") =
  Some (JObj [($"a", JArr [JInt 1; JFloat (dZ (-25)); JNull]); ($"b", JObj []); ($"c", JBool true)]).
Proof. vm_compute. reflexivity. Qed.

(** ** Reading what was printed *)

Lemma jtext_ind' (P : jtext -> Prop) :
  P TNull -> (forall b, P (TBool b)) -> (forall t, P (TNum t)) -> (forall s, P (TStr s)) ->
  (forall l, Forall P l -> P (TArr l)) -> (forall ms, Forall (fun kv => P (snd kv)) ms -> P (TObj ms)) ->
  forall j, P j.
Proof.
  intros Hn Hb Ht Hs Ha Ho. fix IH 1. intros [|b|t|s|l|ms].
  - exact Hn.
  - apply Hb.
  - apply Ht.
  - apply Hs.
  - apply Ha. induction l as [|j l IHl]; constructor; [apply IH|exact IHl].
  - apply Ho. induction ms as [|[k j] ms IHms]; constructor; [apply IH|exact IHms].
Qed.

Lemma expect_some c s r : expect c s = Some r -> s = c :: r.
Proof. destruct s as [|x s]; [done|]. simpl. case_bool_decide; [|done]. intros [= <-]. by subst. Qed.

Lemma expect_same c s : expect c (c :: s) = Some s.
Proof. simpl. by rewrite bool_decide_true. Qed.

Lemma expect_other c x s : x <> c -> expect c (x :: s) = None.
Proof. intros H. simpl. by rewrite bool_decide_false. Qed.

Lemma number_char_digit c : is_digit c = true -> number_char c = true.
Proof. intros H. unfold number_char. by rewrite H. Qed.

Lemma number_char_digits s : Forall (fun c => is_digit c = true) s -> Forall (fun c => number_char c = true) s.
Proof. intros H. eapply Forall_impl; [exact H|]. apply number_char_digit. Qed.

Lemma number_char_e c : tolower c = "e"%char -> number_char c = true.
Proof. intros H. unfold number_char. rewrite H. rewrite !orb_true_iff. right. by apply bool_decide_eq_true_2. Qed.

Lemma exp_ok_chars s : exp_ok s = true -> Forall (fun c => number_char c = true) s.
Proof.
  destruct s as [|c s]; [constructor|]. unfold exp_ok. intros H.
  apply andb_true_iff in H as [[Hc%bool_decide_eq_true_1 _]%andb_true_iff Hd].
  rewrite forallb_forall in Hd. constructor; [by apply number_char_e|].
  assert (Hds : forall r, (forall x, In x r -> is_digit x = true) -> Forall (fun c => number_char c = true) r).
  { intros r Hr. apply number_char_digits, Forall_forall. intros x Hx%list_elem_of_In. by apply Hr. }
  destruct (expect "+"%char s) as [r|] eqn:Ep.
  - apply expect_some in Ep as ->. constructor; [done|by apply Hds].
  - destruct (expect "-"%char s) as [r|] eqn:Em; simpl in Hd.
    + apply expect_some in Em as ->. constructor; [done|by apply Hds].
    + by apply Hds.
Qed.

Lemma frac_ok_chars s : frac_ok s = true -> Forall (fun c => number_char c = true) s.
Proof.
  unfold frac_ok. destruct (expect "."%char s) as [s'|] eqn:E; [|apply exp_ok_chars].
  apply expect_some in E as ->. pose proof (span_fst is_digit s') as Hd. pose proof (span_app is_digit s') as Ha.
  destruct (span is_digit s') as [fp r]. simpl in *. intros [_ Hr%exp_ok_chars]%andb_true_iff.
  constructor; [done|]. rewrite <-Ha. apply Forall_app. split; [by apply number_char_digits|done].
Qed.

Lemma number_value_chars t v :
  number_value t = Some v -> Forall (fun c => number_char c = true) t /\ t <> [].
Proof.
  unfold number_value. destruct (match expect "-"%char t with Some r => (true, r) | None => (false, t) end) as [neg s] eqn:Es.
  pose proof (span_fst is_digit s) as Hd. pose proof (span_app is_digit s) as Ha.
  destruct (span is_digit s) as [ip r]. simpl in Hd, Ha.
  destruct (int_ok ip) eqn:Ei; [|done]. destruct (frac_ok r) eqn:Er; [|done]. intros _.
  assert (Hs : Forall (fun c => number_char c = true) s).
  { rewrite <-Ha. apply Forall_app. split; [by apply number_char_digits|by apply frac_ok_chars]. }
  assert (Hne : s <> []) by (rewrite <-Ha; by destruct ip).
  destruct (expect "-"%char t) as [x|] eqn:Em; injection Es as <- <-; [|done].
  apply expect_some in Em as ->. split; [by constructor|done].
Qed.

(** A character that begins no number. *)
Definition stops (s : bytes) : Prop := match s with [] => True | c :: _ => number_char c = false end.

Lemma not_number_char x c : number_char x = false -> number_char c = true -> c <> x.
Proof. congruence. Qed.

Lemma read_string_quoted s r : plain s -> read_string (s ++ DQUOTE :: r) = Some (s, r).
Proof.
  intros Hs. unfold read_string. rewrite (span_all plain_char s (DQUOTE :: r)) by done.
  cbn [mbind option_bind]. by rewrite expect_same.
Qed.

Lemma is_prefix_drop w s : is_prefix w (w ++ s) = true /\ drop (length w) (w ++ s) = s.
Proof. split; [apply is_prefix_app|apply drop_app_length]. Qed.

(** Calls one below the other. *)
Fixpoint need (j : jtext) : nat :=
  match j with
  | TArr l => S (foldr (fun j n => S (Nat.max (need j) n)) 0%nat l)
  | TObj ms => S (foldr (fun kv n => S (Nat.max (need (snd kv)) n)) 0%nat ms)
  | _ => 1%nat
  end.

Definition reads_back (j : jtext) : Prop :=
  forall fuel rest, (need j <= fuel)%nat -> stops rest -> read_value fuel (show j ++ rest) = Some (j, rest).

Lemma separated_cons x l : l <> [] -> separated (x :: l) = x ++ ","%char :: separated l.
Proof. by destruct l. Qed.

Lemma read_elements_show l fuel rest :
  l <> [] -> Forall reads_back l -> (foldr (fun j n => S (Nat.max (need j) n)) 0%nat l <= fuel)%nat ->
  read_elements fuel (separated (map show l) ++ "]"%char :: rest) = Some (l, rest).
Proof.
  intros Hne Hl. revert fuel. induction Hl as [|j l Hj Hl IH]; intros fuel Hf; [done|].
  cbn [foldr] in Hf. destruct fuel as [|fuel]; [lia|]. cbn [read_elements map].
  destruct (decide (l = [])) as [->|Hl'].
  - cbn [map separated]. rewrite (Hj fuel ("]"%char :: rest)) by (done || lia). cbn [mbind option_bind app].
    rewrite expect_other, expect_same by done. done.
  - rewrite separated_cons by (by destruct l). rewrite <-!app_assoc.
    rewrite (Hj fuel) by (done || lia). cbn [mbind option_bind app]. rewrite expect_same.
    by rewrite IH by (done || lia).
Qed.

Definition show_member (kv : bytes * jtext) : bytes := quoted (fst kv) ++ $":" ++ show (snd kv).

Lemma show_obj ms : show (TObj ms) = "{"%char :: separated (map show_member ms) ++ ["}"%char].
Proof. reflexivity. Qed.

Lemma show_arr l : show (TArr l) = "["%char :: separated (map show l) ++ ["]"%char].
Proof. reflexivity. Qed.

Lemma read_members_show ms fuel rest :
  ms <> [] -> Forall (fun kv => reads_back (snd kv)) ms -> Forall (fun kv => plain (fst kv)) ms ->
  (foldr (fun kv n => S (Nat.max (need (snd kv)) n)) 0%nat ms <= fuel)%nat ->
  read_members fuel (separated (map show_member ms) ++ "}"%char :: rest) = Some (ms, rest).
Proof.
  intros Hne Hl. revert fuel. induction Hl as [|[k j] l Hj Hl IH]; intros fuel Hk Hf; [done|].
  apply Forall_cons in Hk as [Hk Hks]. cbn [foldr fst snd] in *. destruct fuel as [|fuel]; [lia|].
  cbn [read_members map]. set (tail := separated (show_member (k, j) :: map show_member l) ++ "}"%char :: rest).
  assert (E : exists r, tail = DQUOTE :: k ++ DQUOTE :: ":"%char :: show j ++ r /\ stops r /\
    ((l = [] /\ r = "}"%char :: rest) \/
     (l <> [] /\ r = ","%char :: separated (map show_member l) ++ "}"%char :: rest))).
  { unfold tail, show_member at 1, quoted. destruct (decide (l = [])) as [->|Hl'].
    - exists ("}"%char :: rest). split; [|split; [done|by left]]. cbn [map separated fst snd].
      cbn [app]. by rewrite <-!app_assoc.
    - exists (","%char :: separated (map show_member l) ++ "}"%char :: rest). split; [|split; [done|by right]].
      rewrite separated_cons by (by destruct l). cbn [fst snd app]. by rewrite <-!app_assoc. }
  destruct E as (r & -> & Hr & Hcase). rewrite expect_same. cbn [mbind option_bind].
  rewrite read_string_quoted by done. cbn [mbind option_bind]. rewrite expect_same. cbn [mbind option_bind].
  rewrite (Hj fuel r) by (done || lia). cbn [mbind option_bind].
  destruct Hcase as [[-> ->]|[Hl' ->]].
  - rewrite expect_other, expect_same by done. done.
  - rewrite expect_same. by rewrite IH by (done || lia).
Qed.

Lemma plain_arr l : plain_text (TArr l) -> Forall plain_text l.
Proof. simpl. induction l as [|j l IH]; constructor; naive_solver. Qed.

Lemma plain_obj ms : plain_text (TObj ms) -> Forall (fun kv => plain (fst kv)) ms /\ Forall (fun kv => plain_text (snd kv)) ms.
Proof. simpl. intros [_ H]. induction ms as [|kv ms IH]; [done|]. simpl in H. split; constructor; naive_solver. Qed.

Lemma value_arr l : is_Some (value (TArr l)) -> Forall (fun j => is_Some (value j)) l.
Proof. simpl. intros H%fmap_is_Some%mapM_is_Some. rewrite List.Forall_map in H. exact H. Qed.

Lemma value_obj ms : is_Some (value (TObj ms)) -> Forall (fun kv => is_Some (value (snd kv))) ms.
Proof.
  simpl. intros H%fmap_is_Some%mapM_is_Some. rewrite List.Forall_map in H. eapply Forall_impl; [exact H|].
  intros kv Hkv. by apply fmap_is_Some in Hkv.
Qed.

(** A text begins with a character that closes nothing. *)
Lemma show_head j : is_Some (value j) -> exists c s, show j = c :: s /\ c <> "]"%char /\ c <> "}"%char.
Proof.
  intros [v Hv]. destruct j as [|[]|t|s|l|ms]; try (by eexists _, _; split_and!).
  simpl in *. apply number_value_chars in Hv as [Ht Hne]. destruct t as [|c t]; [done|].
  apply Forall_cons in Ht as [Hc _]. exists c, t. by split_and!; [|apply not_number_char..].
Qed.

Lemma read_back j : plain_text j -> is_Some (value j) -> reads_back j.
Proof.
  induction j as [|b|t|s|l IH|ms IH] using jtext_ind'; intros Hp Hv fuel rest Hf Hr;
    (destruct fuel as [|fuel]; [simpl in Hf; lia|]).
  - reflexivity.
  - by destruct b.
  - destruct Hv as [v Hv]. apply number_value_chars in Hv as [Ht Hne]. destruct t as [|c t]; [done|].
    pose proof Ht as [Hc _]%Forall_cons. cbn [show read_value app].
    rewrite !bool_decide_eq_false_2 by (by apply not_number_char).
    change (c :: t ++ rest) with ((c :: t) ++ rest). by rewrite span_all.
  - cbn [show app quoted read_value]. rewrite bool_decide_true by done.
    rewrite <-app_assoc. cbn [app]. by rewrite read_string_quoted.
  - rewrite show_arr. cbn [read_value app]. rewrite <-app_assoc. cbn [app]. rewrite bool_decide_eq_false_2, bool_decide_eq_true_2 by done.
    apply plain_arr in Hp. apply value_arr in Hv.
    destruct l as [|j l]; [done|].
    assert (Hx : expect "]"%char (separated (map show (j :: l)) ++ "]"%char :: rest) = None).
    { apply Forall_cons in Hv as [Hj _]. destruct (show_head j Hj) as (c & s & E & Hc & _).
      destruct l; cbn [map separated]; rewrite E; by apply expect_other. }
    rewrite Hx, read_elements_show; [done|done| |simpl in Hf; simpl; lia].
    rewrite Forall_forall in *. intros x Hin. by apply IH; [|apply Hp|apply Hv].
  - rewrite show_obj. cbn [read_value app]. rewrite <-app_assoc. cbn [app].
    do 2 (rewrite bool_decide_eq_false_2 by done). rewrite bool_decide_eq_true_2 by done.
    apply plain_obj in Hp as [Hk Hp]. apply value_obj in Hv.
    destruct ms as [|[k j] ms]; [done|].
    assert (Hx : expect "}"%char (separated (map show_member ((k, j) :: ms)) ++ "}"%char :: rest) = None).
    { destruct ms; cbn [map separated show_member quoted fst app]; by apply expect_other. }
    rewrite Hx, read_members_show; [done|done| |done|simpl in Hf; simpl; lia].
    rewrite Forall_forall in *. intros x Hin. by apply IH; [|apply Hp|apply Hv].
Qed.

(** The calls are at most twice the characters. *)
Lemma show_nonempty j : is_Some (value j) -> (1 <= length (show j))%nat.
Proof. intros Hv. destruct (show_head j Hv) as (c & s & -> & _). simpl. lia. Qed.

Lemma need_list {A} (f : A -> nat) (g : A -> bytes) l :
  Forall (fun x => (f x <= 2 * length (g x))%nat) l ->
  (foldr (fun x n => S (Nat.max (f x) n)) 0%nat l <= 2 * length (separated (map g l)) + 1)%nat.
Proof.
  induction 1 as [|x l Hx Hl IH]; [simpl; lia|]. cbn [foldr map]. destruct (decide (l = [])) as [->|Hne].
  - simpl. lia.
  - rewrite separated_cons by (by destruct l). rewrite length_app. simpl. lia.
Qed.

Lemma need_length j : is_Some (value j) -> (need j <= 2 * length (show j))%nat.
Proof.
  induction j as [|[]|t|s|l IH|ms IH] using jtext_ind'; intros Hv;
    try (pose proof (show_nonempty _ Hv); simpl in *; lia).
  - apply value_arr in Hv. pose proof (need_list need show l) as H.
    rewrite show_arr. cbn [need length]. rewrite length_app. cbn [length].
    rewrite Forall_forall in *. specialize (H ltac:(intros x Hx; apply IH; [done|by apply Hv])). lia.
  - apply value_obj in Hv. pose proof (need_list (fun kv => need (snd kv)) show_member ms) as H.
    rewrite show_obj. cbn [need length]. rewrite length_app. cbn [length].
    rewrite Forall_forall in *. enough (foldr (fun kv n => S (Nat.max (need (snd kv)) n)) 0 ms <=
      2 * length (separated (map show_member ms)) + 1)%nat by lia.
    apply H. intros x Hx. unfold show_member. rewrite !length_app. specialize (IH x Hx (Hv x Hx)). simpl in IH. lia.
Qed.

(** The reader gives every plain text its value. *)
Lemma read_json_show j : plain_text j -> is_Some (value j) -> read_json (show j) = value j.
Proof.
  intros Hp Hv. unfold read_json.
  pose proof (read_back j Hp Hv (S (2 * length (show j))) [] ltac:(pose proof (need_length j Hv); lia) I) as H.
  rewrite app_nil_r in H. rewrite H. cbn [mbind option_bind]. by rewrite bool_decide_true.
Qed.
