(* ===== verification/Queues.v ===== *)
(** * The queue interface

    What [SPSCRingBuffer], [MPSCRingBuffer] and [std::queue] promise to the
    code that uses them from one thread at a time: a bounded first-in
    first-out queue.  The clients (the shared ticker queues, the latency
    monitor) are verified against this class; the rings and the standard queue
    are its instances.

    [q_holds n q l] says that [q] holds the elements [l] and can still take
    [n] pushes before a counter leaves the range its arithmetic is correct in
    (every [n] for a queue without such a counter). *)

From S2P Require Import Prelude.

Class BoundedQueue (Q T : Type) := {
  q_push : T -> Q -> ub (bool * Q);
  q_pop : Q -> ub (option T * Q);
  q_size : Q -> Z;
  q_room : list T -> bool;
  q_holds : nat -> Q -> list T -> Prop;

  q_holds_le m n q l : (m <= n)%nat -> q_holds n q l -> q_holds m q l;
  q_push_room n q l x :
    q_holds (S n) q l -> q_room l = true ->
    exists q', q_push x q = Some (true, q') /\ q_holds n q' (l ++ [x]);
  q_push_full n q l x :
    q_holds n q l -> q_room l = false ->
    exists q', q_push x q = Some (false, q') /\ q_holds n q' l;
  q_pop_cons n q x l :
    q_holds n q (x :: l) -> exists q', q_pop q = Some (Some x, q') /\ q_holds n q' l;
  q_pop_nil n q : q_holds n q [] -> q_pop q = Some (None, q);
  q_size_holds n q l : q_holds n q l -> q_size q = Z.of_nat (length l);
}.

(** [while (queue.try_pop(x)) f(x);] with a bound on the number of pops. *)
Fixpoint drain {Q T A : Type} `{BoundedQueue Q T} (fuel : nat) (f : A -> T -> A) (q : Q) (a : A) : option (A * Q) :=
  match fuel with
  | O => None
  | S fuel =>
      r ← q_pop q;
      match r with
      | (Some x, q') => drain fuel f q' (f a x)
      | (None, q') => Some (a, q')
      end
  end.

Section clients.
Context {Q T : Type} `{BoundedQueue Q T}.

(** The loop ends, having applied [f] to the elements in order. *)
Lemma drain_spec {A} (f : A -> T -> A) n q l a fuel :
  q_holds n q l -> (length l < fuel)%nat ->
  exists q', drain fuel f q a = Some (foldl f a l, q') /\ q_holds n q' [].
Proof.
  revert q a fuel. induction l as [|x l IH]; intros q a [|fuel] Hq Hf; simpl in *; try lia.
  - rewrite (q_pop_nil n q Hq). by exists q.
  - destruct (q_pop_cons n q x l Hq) as (q' & -> & Hq'). simpl. apply IH; [done|lia].
Qed.

(** Pushing a batch, counting the refusals. *)
Fixpoint push_all (xs : list T) (q : Q) : ub (nat * Q) :=
  match xs with
  | [] => Some (0%nat, q)
  | x :: xs =>
      match q_push x q with
      | Some (ok, q') =>
          match push_all xs q' with
          | Some (refused, q'') => Some ((if ok then refused else S refused), q'')
          | None => None
          end
      | None => None
      end
  end.

(** The elements for which there is room are kept, in order. *)
Fixpoint accepted (l xs : list T) : list T :=
  match xs with
  | [] => l
  | x :: xs => accepted (if q_room l then l ++ [x] else l) xs
  end.

Lemma push_all_spec xs n q l :
  q_holds (length xs + n) q l ->
  exists refused q', push_all xs q = Some (refused, q') /\ q_holds n q' (accepted l xs) /\
    (length (accepted l xs) + refused = length l + length xs)%nat.
Proof.
  revert q l. induction xs as [|x xs IH]; simpl; intros q l Hq.
  - exists 0%nat, q. split_and!; [done|done|lia].
  - destruct (q_room l) eqn:Hr.
    + destruct (q_push_room _ q l x Hq Hr) as (q' & -> & Hq').
      destruct (IH q' (l ++ [x]) Hq') as (r & q'' & -> & Hq'' & Hl). exists r, q''. split_and!; [done..|].
      rewrite length_app in Hl. simpl in Hl. lia.
    + destruct (q_push_full _ q l x Hq Hr) as (q' & -> & Hq').
      destruct (IH q' l (q_holds_le _ _ _ _ (Nat.le_succ_diag_r _) Hq')) as (r & q'' & -> & Hq'' & Hl).
      exists (S r), q''. split_and!; [done..|lia].
Qed.
End clients.

(** [std::queue], and [std::deque] used as one. *)
#[export] Instance std_queue T : BoundedQueue (list T) T.
Proof.
  refine {| q_push := fun x q => Some (true, q ++ [x]);
            q_pop := fun q => Some (match q with [] => (None, []) | x :: q' => (Some x, q') end);
            q_size := fun q => Z.of_nat (length q);
            q_room := fun _ => true;
            q_holds := fun _ q l => q = l |}.
  - done.
  - intros n q l x -> _. by eexists.
  - done.
  - intros n q x l ->. by eexists.
  - by intros n q ->.
  - by intros n q l ->.
Defined.
