(* ===== verification/Types.v ===== *)
(** * Shared market data types (src/types.hpp)

    Tickers, their derived fields and the opportunity record.  Wall-clock
    readings, which the source takes inside the functions, are arguments here
    (milliseconds since the epoch). *)

From Stdlib Require Import ZArith Lia.
From S2P Require Import Prelude Float64.

(** [TickerData] *)
Record TickerData := mkTickerData {
  td_symbol : bytes;
  td_exchange : bytes;
  td_bid_price : double;
  td_ask_price : double;
  td_bid_quantity : double;
  td_ask_quantity : double;
  td_timestamp_ms : Z;
  td_enqueue_tsc : Z;
}.

(** [((ask - bid) / bid) * 10000.0], the shape of every spread in the code. *)
Definition bps_over (ask bid : double) : double :=
  dmul (ddiv (dsub ask bid) bid) (dZ 10000).

Definition td_spread_bps (t : TickerData) : double :=
  if dgt (td_bid_price t) dzero then bps_over (td_ask_price t) (td_bid_price t)
  else dzero.

Definition td_mid_price (t : TickerData) : double :=
  ddiv (dadd (td_bid_price t) (td_ask_price t)) (dZ 2).

(** The bits of an unsigned 64-bit value read as [int64_t]. *)
Definition to_int64 (z : Z) : Z := if 2 ^ 63 <=? z then z - two64 else z.

(** [age()]: [now_ms - timestamp_ms] is computed in [uint64_t] and stored in
    the signed count of [std::chrono::milliseconds]. *)
Definition age_ms (now_ms timestamp_ms : Z) : Z := to_int64 (wrap64 (now_ms - timestamp_ms)).

Definition td_age (now_ms : Z) (t : TickerData) : Z := age_ms now_ms (td_timestamp_ms t).

Definition make_ticker_key (exchange symbol : bytes) : bytes := exchange ++ $":" ++ symbol.

Inductive DataStatus := LIVE | SLOW | STALE.

Definition get_data_status (now_ms : Z) (t : TickerData) : DataStatus :=
  let age := td_age now_ms t in
  if age <? 1000 then LIVE else if age <? 5000 then SLOW else STALE.

(** [ArbitrageOpportunity] *)
Record ArbitrageOpportunity := mkArbitrageOpportunity {
  opp_symbol : bytes;
  opp_buy_exchange : bytes;
  opp_sell_exchange : bytes;
  opp_buy_price : double;
  opp_sell_price : double;
  opp_profit_bps : double;
  opp_max_quantity : double;
  opp_timestamp_ms : Z;
}.

Definition profit_percentage (o : ArbitrageOpportunity) : double :=
  ddiv (opp_profit_bps o) (dZ 100).

Definition opp_age (now_ms : Z) (o : ArbitrageOpportunity) : Z := age_ms now_ms (opp_timestamp_ms o).

(** ** Ages *)

Lemma age_ms_past now ts :
  in_u64 now -> now < 2 ^ 63 -> 0 <= ts <= now -> age_ms now ts = now - ts.
Proof.
  intros H1 H2 H3. unfold age_ms, to_int64. rewrite wrap64_small by (unfold in_u64 in *; lia).
  rewrite (proj2 (Z.leb_gt _ _)); lia.
Qed.

(** A timestamp ahead of the clock gives a negative age. *)
Lemma age_ms_future now ts :
  0 <= now -> now < ts < 2 ^ 63 -> age_ms now ts = now - ts.
Proof.
  intros H1 H2. unfold age_ms, to_int64, wrap64.
  rewrite <-(Z_mod_plus_full _ 1), Z.mod_small by (unfold two64; lia).
  rewrite (proj2 (Z.leb_le _ _)) by (unfold two64; lia). lia.
Qed.

(** Keys of different exchanges differ, whatever the symbols, as long as the
    exchange names hold no colon. *)
Lemma make_ticker_key_inj e1 s1 e2 s2 :
  ":"%char ∉ e1 -> ":"%char ∉ e2 ->
  make_ticker_key e1 s1 = make_ticker_key e2 s2 -> e1 = e2 /\ s1 = s2.
Proof.
  unfold make_ticker_key. simpl. revert e2.
  induction e1 as [|c e1 IH]; intros [|d e2]; simpl; intros H1 H2 [=]; subst.
  - done.
  - exfalso. apply H2, list_elem_of_here.
  - exfalso. apply H1, list_elem_of_here.
  - apply not_elem_of_cons in H1 as [_ H1], H2 as [_ H2].
    by destruct (IH e2) as [-> ->].
Qed.
