(* ===== verification/FixParser.v ===== *)
(** * FIX 4.4 parser (src/fix_parser.hpp, src/fix_parser.cpp)

    [FIXParser::parse] and its helpers, on the bytes of one message, and
    [FIXMessage::to_ticker_data].  A [string_view] field of the message is the
    bytes it points to.  [None] of the [ub] type is undefined behaviour:
    overflow of the [int] accumulator of [parse_int], or an access to
    [entries] out of its bounds. *)

From S2P Require Import Prelude Float64 Str Types.

(** ** Data *)

Definition FIX_SOH : ascii := byte_of 1.
Definition FIX_MAX_MD_ENTRIES : Z := 32.

Inductive FIXMsgType :=
  | Unknown | MarketDataSnapshot | MarketDataIncremental | NewOrderSingle | ExecutionReport.

#[export] Instance FIXMsgType_eq_dec : EqDecision FIXMsgType.
Proof. solve_decision. Defined.

(** [MDEntryType] and [MDUpdateAction]: the integers of tags 269 and 279. *)
Definition MDEntryType_Bid : Z := 0.
Definition MDEntryType_Ask : Z := 1.
Definition MDEntryType_Trade : Z := 2.
Definition MDUpdateAction_New : Z := 0.
Definition MDUpdateAction_Change : Z := 1.
Definition MDUpdateAction_Delete : Z := 2.

Record MDEntry := mkMDEntry {
  entry_type : Z;
  update_action : Z;
  price : double;
  quantity : double;
}.
#[export] Instance MDEntry_settable : Settable MDEntry :=
  fun x => mkMDEntry (entry_type x) (update_action x) (price x) (quantity x).

Definition MDEntry_default : MDEntry := mkMDEntry 0 0 dzero dzero.

Record FIXMessage := mkFIXMessage {
  msg_type : FIXMsgType;
  seq_num : Z;
  sender : bytes;
  target : bytes;
  send_time : bytes;
  fix_symbol : bytes;
  req_id : bytes;
  num_entries : Z;
  entries : list MDEntry;
  cl_ord_id : bytes;
  exec_id : bytes;
  side : Z;
  ord_type : Z;
  ord_status : Z;
  time_in_force : Z;
  order_price : double;
  order_qty : double;
  last_qty : double;
  last_px : double;
}.
#[export] Instance FIXMessage_settable : Settable FIXMessage :=
  fun m => mkFIXMessage (msg_type m) (seq_num m) (sender m) (target m) (send_time m)
    (fix_symbol m) (req_id m) (num_entries m) (entries m) (cl_ord_id m) (exec_id m)
    (side m) (ord_type m) (ord_status m) (time_in_force m) (order_price m)
    (order_qty m) (last_qty m) (last_px m).

(** [FIXMessage{}] *)
Definition FIXMessage_default : FIXMessage :=
  mkFIXMessage Unknown 0 [] [] [] [] [] 0
    (replicate (Z.to_nat FIX_MAX_MD_ENTRIES) MDEntry_default)
    [] [] 0 0 0 0 dzero dzero dzero dzero.

Definition valid (m : FIXMessage) : bool := negb (bool_decide (msg_type m = Unknown)).

Definition is_market_data (m : FIXMessage) : bool :=
  bool_decide (msg_type m = MarketDataSnapshot) || bool_decide (msg_type m = MarketDataIncremental).

(** The entries a loop over [0 <= i < num_entries] visits. *)
Definition md_entries (m : FIXMessage) : list MDEntry :=
  take (Z.to_nat (num_entries m)) (entries m).

(** ** Scanning *)

Fixpoint parse_digits (result : Z) (s : bytes) : ub Z :=
  match s with
  | [] => Some result
  | c :: s' =>
      if is_digit c then
        r10 ← ub_int (result * 10);
        r ← ub_int (r10 + digit_val c);
        parse_digits r s'
      else Some result
  end.

(** [if (!sv.empty() && sv[0] == '-') { negative = true; ++i; }] *)
Definition split_sign (sv : bytes) : bool * bytes :=
  match sv with
  | c :: sv' => if bool_decide (c = "-"%char) then (true, sv') else (false, sv)
  | [] => (false, [])
  end.

(** [FIXParser::parse_int] *)
Definition parse_int (sv : bytes) : ub Z :=
  let '(negative, s) := split_sign sv in
  result ← parse_digits 0 s;
  if negative : bool then ub_int (- result) else Some result.

(** The two loops of [parse_double]: integer part, with what follows it, and
    fractional part. *)
Fixpoint parse_int_part (result : double) (s : bytes) : double * bytes :=
  match s with
  | [] => (result, [])
  | c :: s' =>
      if bool_decide (c = "."%char) then (result, s)
      else if is_digit c then
        parse_int_part (dadd (dmul result (dZ 10)) (dZ (digit_val c))) s'
      else (result, s)
  end.

Fixpoint parse_frac_part (result factor : double) (s : bytes) : double :=
  match s with
  | [] => result
  | c :: s' =>
      if is_digit c then
        parse_frac_part (dadd result (dmul (dZ (digit_val c)) factor))
          (dmul factor (dlit 1 10)) s'
      else result
  end.

(** [FIXParser::parse_double] *)
Definition parse_double (sv : bytes) : double :=
  let '(negative, s) := split_sign sv in
  let '(result, rest) := parse_int_part dzero s in
  let result :=
    match rest with
    | c :: s' =>
        if bool_decide (c = "."%char) then parse_frac_part result (dlit 1 10) s' else result
    | [] => result
    end in
  if negative : bool then dopp result else result.

(** [to_string(FIXMsgType)] *)
Definition msg_type_string (t : FIXMsgType) : bytes :=
  match t with
  | MarketDataSnapshot => $"MarketDataSnapshot(W)"
  | MarketDataIncremental => $"MarketDataIncremental(X)"
  | NewOrderSingle => $"NewOrderSingle(D)"
  | ExecutionReport => $"ExecutionReport(8)"
  | _ => $"Unknown"
  end.

(** [FIXParser::parse_msg_type] *)
Definition parse_msg_type (sv : bytes) : FIXMsgType :=
  match sv with
  | [c] =>
      if bool_decide (c = "W"%char) then MarketDataSnapshot
      else if bool_decide (c = "X"%char) then MarketDataIncremental
      else if bool_decide (c = "D"%char) then NewOrderSingle
      else if bool_decide (c = "8"%char) then ExecutionReport
      else Unknown
  | _ => Unknown
  end.

(** [FIXParser::next_field]: tag, value and the advanced cursor. *)
Definition next_field (cursor : bytes) : ub (option (Z * bytes * bytes)) :=
  match cursor with
  | [] => Some None
  | _ =>
      match find_char "="%char cursor with
      | None => Some None
      | Some eq =>
          tag ← parse_int (take eq cursor);
          let cursor := drop (eq + 1) cursor in
          match find_char FIX_SOH cursor with
          | None => Some (Some (tag, cursor, []))
          | Some soh => Some (Some (tag, take soh cursor, drop (soh + 1) cursor))
          end
      end
  end.

(** ** FIXParser::parse *)

(** [entries[i]] as an object to assign to. *)
Definition set_entry (i : Z) (f : MDEntry -> MDEntry) (m : FIXMessage) : ub FIXMessage :=
  if 0 <=? i then
    e ← entries m !! Z.to_nat i;
    Some (m <| entries := <[Z.to_nat i := f e]> (entries m) |>)
  else None.

(** [current_entry = out.num_entries++; out.entries[current_entry] = {};] or the
    overflow guard, at a delimiter of the repeating group. *)
Definition open_entry (m : FIXMessage) : ub (FIXMessage * Z) :=
  if num_entries m <? FIX_MAX_MD_ENTRIES then
    let current_entry := num_entries m in
    m' ← set_entry current_entry (fun _ => MDEntry_default)
           (m <| num_entries := num_entries m + 1 |>);
    Some (m', current_entry)
  else Some (m, -1).

(** [if (current_entry >= 0) out.entries[current_entry].field = ...] *)
Definition if_open (current_entry : Z) (f : MDEntry -> MDEntry) (m : FIXMessage)
    : ub (FIXMessage * Z) :=
  if 0 <=? current_entry then
    m' ← set_entry current_entry f m; Some (m', current_entry)
  else Some (m, current_entry).

(** One case of the switch on the tag; tag 10 is handled by the loop. *)
Definition parse_field (tag : Z) (value : bytes) (out : FIXMessage) (current_entry : Z)
    : ub (FIXMessage * Z) :=
  if tag =? 35 then Some (out <| msg_type := parse_msg_type value |>, current_entry)
  else if tag =? 34 then n ← parse_int value; Some (out <| seq_num := n |>, current_entry)
  else if tag =? 49 then Some (out <| sender := value |>, current_entry)
  else if tag =? 56 then Some (out <| target := value |>, current_entry)
  else if tag =? 52 then Some (out <| send_time := value |>, current_entry)
  else if tag =? 55 then Some (out <| fix_symbol := value |>, current_entry)
  else if tag =? 262 then Some (out <| req_id := value |>, current_entry)
  else if tag =? 268 then Some (out <| num_entries := 0 |>, -1)
  else if tag =? 269 then
    '(out, current_entry) ←
      (if bool_decide (msg_type out = MarketDataSnapshot) || (current_entry <? 0)
       then open_entry out else Some (out, current_entry));
    if 0 <=? current_entry then
      n ← parse_int value;
      if_open current_entry (fun e => e <| entry_type := n |>) out
    else Some (out, current_entry)
  else if tag =? 279 then
    '(out, current_entry) ← open_entry out;
    if 0 <=? current_entry then
      n ← parse_int value;
      if_open current_entry (fun e => e <| update_action := n |>) out
    else Some (out, current_entry)
  else if tag =? 270 then
    if_open current_entry (fun e => e <| price := parse_double value |>) out
  else if tag =? 271 then
    if_open current_entry (fun e => e <| quantity := parse_double value |>) out
  else if tag =? 11 then Some (out <| cl_ord_id := value |>, current_entry)
  else if tag =? 17 then Some (out <| exec_id := value |>, current_entry)
  else if tag =? 31 then Some (out <| last_px := parse_double value |>, current_entry)
  else if tag =? 32 then Some (out <| last_qty := parse_double value |>, current_entry)
  else if tag =? 38 then Some (out <| order_qty := parse_double value |>, current_entry)
  else if tag =? 39 then n ← parse_int value; Some (out <| ord_status := n |>, current_entry)
  else if tag =? 40 then n ← parse_int value; Some (out <| ord_type := n |>, current_entry)
  else if tag =? 44 then Some (out <| order_price := parse_double value |>, current_entry)
  else if tag =? 54 then n ← parse_int value; Some (out <| side := n |>, current_entry)
  else if tag =? 59 then n ← parse_int value; Some (out <| time_in_force := n |>, current_entry)
  else Some (out, current_entry).

(** The loop.  Every iteration consumes a byte, so [length msg + 1] units of
    fuel are enough; running out of them is no result ([None]), which
    [parse_in_bounds] shows does not happen. *)
Fixpoint parse_loop (fuel : nat) (cursor : bytes) (out : FIXMessage) (current_entry : Z)
    : ub FIXMessage :=
  match fuel with
  | O => None
  | S fuel' =>
      f ← next_field cursor;
      match f with
      | None => Some out
      | Some (tag, value, cursor') =>
          if tag =? 10 then Some out
          else
            '(out', current_entry') ← parse_field tag value out current_entry;
            parse_loop fuel' cursor' out' current_entry'
      end
  end.

Definition parse (msg : bytes) : ub (bool * FIXMessage) :=
  out ← parse_loop (S (length msg)) msg FIXMessage_default (-1);
  Some (valid out, out).

(** ** FIXMessage::to_ticker_data *)

Record BboScan := mkBboScan {
  best_bid : double;
  best_ask : double;
  best_bid_qty : double;
  best_ask_qty : double;
  has_bid : bool;
  has_ask : bool;
}.
#[export] Instance BboScan_settable : Settable BboScan :=
  fun s => mkBboScan (best_bid s) (best_ask s) (best_bid_qty s) (best_ask_qty s)
    (has_bid s) (has_ask s).

Definition bbo_scan_step (s : BboScan) (e : MDEntry) : BboScan :=
  if entry_type e =? MDEntryType_Bid then
    if negb (has_bid s) || dgt (price e) (best_bid s) then
      s <| best_bid := price e |> <| best_bid_qty := quantity e |> <| has_bid := true |>
    else s
  else if entry_type e =? MDEntryType_Ask then
    if negb (has_ask s) || dlt (price e) (best_ask s) then
      s <| best_ask := price e |> <| best_ask_qty := quantity e |> <| has_ask := true |>
    else s
  else s.

Definition bbo_scan (es : list MDEntry) : BboScan :=
  foldl bbo_scan_step (mkBboScan dzero dmax_float dzero dzero false false) es.

(** [now_ms] is the clock reading the function takes. *)
Definition to_ticker_data (now_ms : Z) (m : FIXMessage) : option TickerData :=
  if negb (is_market_data m) then None
  else
    let s := bbo_scan (md_entries m) in
    if negb (has_bid s) || negb (has_ask s) then None
    else Some (mkTickerData (fix_symbol m) $"FIX" (best_bid s) (best_ask s)
                 (best_bid_qty s) (best_ask_qty s) now_ms 0).

(** ** Well-formed messages *)

(** The entry count stays within the fixed array. *)
Definition fix_wf (m : FIXMessage) : Prop :=
  0 <= num_entries m <= FIX_MAX_MD_ENTRIES /\
  length (entries m) = Z.to_nat FIX_MAX_MD_ENTRIES.

(** The parser's state between two fields: the open entry, if any, is one of
    the counted entries. *)
Definition parse_inv (m : FIXMessage) (current_entry : Z) : Prop :=
  fix_wf m /\ -1 <= current_entry < num_entries m.

(** No ten consecutive digits: every integer field then fits the [int]. *)
Definition short_digit_runs (s : bytes) : Prop :=
  forall a d b, s = a ++ d ++ b -> Forall (fun c => is_digit c = true) d -> (length d <= 9)%nat.

Example parse_example :
  parse ($"8=FIX.4.4" ++ [FIX_SOH] ++ $"35=W" ++ [FIX_SOH] ++ $"55=BTCUSD" ++ [FIX_SOH] ++
         $"268=1" ++ [FIX_SOH] ++ $"269=0" ++ [FIX_SOH] ++ $"270=65000.5" ++ [FIX_SOH] ++
         $"271=2" ++ [FIX_SOH] ++ $"10=000" ++ [FIX_SOH])
  = Some (true, FIXMessage_default
      <| msg_type := MarketDataSnapshot |> <| fix_symbol := $"BTCUSD" |> <| num_entries := 1 |>
      <| entries := mkMDEntry 0 0 (dlit 130001 2) (dZ 2) :: replicate 31 MDEntry_default |>).
Proof. vm_compute. reflexivity. Qed.

(** ** The cursor *)

Lemma next_field_shrinks cursor tag value cursor' :
  next_field cursor = Some (Some (tag, value, cursor')) -> (length cursor' < length cursor)%nat.
Proof.
  unfold next_field. destruct cursor as [|c s]; [done|]. set (cur := c :: s).
  destruct (find_char "="%char cur) as [eq|] eqn:E; [|done].
  apply find_char_lt in E. intros (n & _ & H)%bind_Some.
  destruct (find_char FIX_SOH (drop (eq + 1) cur)) as [soh|]; injection H as <- <- <-.
  - rewrite !length_drop. lia.
  - simpl. lia.
Qed.

(** Enough fuel: the result does not depend on it. *)
Lemma parse_loop_fuel f1 f2 cursor out ce :
  (length cursor < f1)%nat -> (length cursor < f2)%nat ->
  parse_loop f1 cursor out ce = parse_loop f2 cursor out ce.
Proof.
  revert f2 cursor out ce. induction f1 as [|f1 IH]; intros [|f2] cursor out ce H1 H2; try lia.
  simpl. destruct (next_field cursor) as [[[[tag value] cursor']|]|] eqn:E; simpl; try done.
  apply next_field_shrinks in E. destruct (tag =? 10); [done|].
  destruct (parse_field tag value out ce) as [[out' ce']|]; simpl; [|done].
  apply IH; lia.
Qed.

(** The loop from a cursor, without fuel. *)
Definition parse_from (cursor : bytes) (out : FIXMessage) (ce : Z) : ub FIXMessage :=
  parse_loop (S (length cursor)) cursor out ce.

Lemma parse_from_field cursor tag value cursor' out ce :
  next_field cursor = Some (Some (tag, value, cursor')) ->
  parse_from cursor out ce =
    if tag =? 10 then Some out
    else '(out', ce') ← parse_field tag value out ce; parse_from cursor' out' ce'.
Proof.
  intros H. unfold parse_from at 1. cbn [parse_loop]. rewrite H. simpl.
  pose proof (next_field_shrinks _ _ _ _ H) as Hl.
  destruct (tag =? 10); [done|]. destruct (parse_field tag value out ce) as [[out' ce']|]; simpl; [|done].
  apply parse_loop_fuel; [done|lia].
Qed.

Lemma parse_from_end cursor out ce :
  next_field cursor = Some None -> parse_from cursor out ce = Some out.
Proof. intros H. unfold parse_from. cbn [parse_loop]. by rewrite H. Qed.

(** ** Bounds of the entry array *)

Lemma set_entry_wf i f m :
  0 <= i < FIX_MAX_MD_ENTRIES -> length (entries m) = Z.to_nat FIX_MAX_MD_ENTRIES ->
  exists e, entries m !! Z.to_nat i = Some e /\
    set_entry i f m = Some (m <| entries := <[Z.to_nat i := f e]> (entries m) |>).
Proof.
  intros Hi Hl. unfold FIX_MAX_MD_ENTRIES in *.
  destruct (lookup_lt_is_Some_2 (entries m) (Z.to_nat i)) as [e He]; [lia|].
  exists e. split; [done|]. unfold set_entry.
  rewrite (proj2 (Z.leb_le 0 i)) by lia. by rewrite He.
Qed.

Lemma open_entry_inv m ce :
  parse_inv m ce -> exists m' ce', open_entry m = Some (m', ce') /\ parse_inv m' ce'.
Proof.
  intros [[Hn Hl] Hce]. unfold open_entry. destruct (Z.ltb_spec (num_entries m) FIX_MAX_MD_ENTRIES).
  - destruct (set_entry_wf (num_entries m) (fun _ => MDEntry_default)
      (m <| num_entries := num_entries m + 1 |>)) as (e & _ & E); [simpl; lia|done|].
    rewrite E. simpl. do 2 eexists. split; [done|].
    unfold parse_inv, fix_wf. simpl. rewrite length_insert. lia.
  - do 2 eexists. split; [done|]. repeat split; simpl; try done; lia.
Qed.

Lemma if_open_inv ce f m :
  parse_inv m ce -> exists m' ce', if_open ce f m = Some (m', ce') /\ parse_inv m' ce'.
Proof.
  intros [[Hn Hl] Hce]. unfold if_open. destruct (Z.leb_spec 0 ce).
  - destruct (set_entry_wf ce f m) as (e & _ & E); [lia|done|]. rewrite E. simpl.
    do 2 eexists. split; [done|]. unfold parse_inv, fix_wf. simpl. rewrite length_insert. lia.
  - by do 2 eexists.
Qed.

Lemma parse_inv_default : parse_inv FIXMessage_default (-1).
Proof. unfold parse_inv, fix_wf, FIX_MAX_MD_ENTRIES. simpl. lia. Qed.

(** A field keeps the invariant; it is undefined only when its integer
    overflows. *)
Lemma parse_field_inv tag value out ce :
  parse_inv out ce ->
  match parse_field tag value out ce with
  | Some (out', ce') => parse_inv out' ce'
  | None => parse_int value = None
  end.
Proof.
  intros Hinv. unfold parse_field.
  assert (Hopen : forall m c f, parse_inv m c -> match (if 0 <=? c then n ← parse_int value; if_open c (f n) m else Some (m, c)) with Some (m', c') => parse_inv m' c' | None => parse_int value = None end).
  { intros m c f Hm. destruct (0 <=? c); [|done].
    destruct (parse_int value) as [n|]; simpl; [|done].
    by destruct (if_open_inv c (f n) m Hm) as (m' & c' & -> & H). }
  assert (Hset : forall f, match if_open ce f out with Some (m', c') => parse_inv m' c' | None => parse_int value = None end).
  { intros f. by destruct (if_open_inv ce f out Hinv) as (m' & c' & -> & H). }
  repeat (match goal with |- context [if tag =? ?k then _ else _] => destruct (tag =? k) end;
    [try exact Hinv; try apply Hset|]); try exact Hinv;
    try (destruct (parse_int value); simpl; [exact Hinv|done]).
  - unfold parse_inv, fix_wf, FIX_MAX_MD_ENTRIES in *. simpl. lia.
  - destruct (bool_decide (msg_type out = MarketDataSnapshot) || (ce <? 0)).
    + destruct (open_entry_inv out ce Hinv) as (m' & c' & -> & H). simpl. by apply (Hopen m' c' (fun n e => _)).
    + simpl. by apply (Hopen out ce (fun n e => _)).
  - destruct (open_entry_inv out ce Hinv) as (m' & c' & -> & H). simpl. by apply (Hopen m' c' (fun n e => _)).
Qed.

(** ** The fields of a message, one after the other *)

(** A turn of the loop that goes on: the cursor, the message and the open
    entry before and after it. *)
Inductive field_step : bytes * FIXMessage * Z -> bytes * FIXMessage * Z -> Prop :=
  | field_read cursor tag value cursor' out ce out' ce' :
      next_field cursor = Some (Some (tag, value, cursor')) -> tag <> 10 ->
      parse_field tag value out ce = Some (out', ce') ->
      field_step (cursor, out, ce) (cursor', out', ce').

(** The loop's own exits: no further field, or the checksum. *)
Definition loop_exit (cursor : bytes) : Prop :=
  next_field cursor = Some None \/
  exists value cursor', next_field cursor = Some (Some (10, value, cursor')).

(** An integer of the field at the cursor, its tag or its value, overflows the
    accumulator of [parse_int]. *)
Definition overflow_at (cursor : bytes) : Prop :=
  (exists eq, find_char "="%char cursor = Some eq /\ parse_int (take eq cursor) = None) \/
  (exists tag value cursor', next_field cursor = Some (Some (tag, value, cursor')) /\ parse_int value = None).

Lemma next_field_overflow cursor : next_field cursor = None -> overflow_at cursor.
Proof.
  unfold next_field. destruct cursor as [|c s]; [done|]. set (cur := c :: s).
  destruct (find_char "="%char cur) as [eq|] eqn:E; [|done].
  destruct (parse_int (take eq cur)) as [n|] eqn:En; [simpl; by case_match|].
  intros _. left. by exists eq.
Qed.

(** The loop follows the fields to one of its exits, or to an overflow. *)
Lemma parse_loop_run fuel cursor out ce :
  (length cursor < fuel)%nat -> parse_inv out ce ->
  exists cursor' out' ce', rtc field_step (cursor, out, ce) (cursor', out', ce') /\
    (parse_loop fuel cursor out ce = Some out' /\ loop_exit cursor' \/
     parse_loop fuel cursor out ce = None /\ overflow_at cursor').
Proof.
  revert cursor out ce. induction fuel as [|fuel IH]; intros cursor out ce Hf Hinv; [lia|]. cbn [parse_loop].
  destruct (next_field cursor) as [[[[tag value] cursor1]|]|] eqn:En; cbn [mbind option_bind].
  - destruct (Z.eqb_spec tag 10) as [->|Htag].
    { exists cursor, out, ce. split; [done|]. left. split; [done|]. right. by exists value, cursor1. }
    pose proof (parse_field_inv tag value out ce Hinv) as Hp.
    destruct (parse_field tag value out ce) as [[m c]|] eqn:Ep; cbn [mbind option_bind].
    + destruct (IH cursor1 m c) as (cursor' & out' & ce' & Hr & Hres);
        [apply next_field_shrinks in En; lia|done|].
      exists cursor', out', ce'. split; [|done]. eapply rtc_l; [by eapply field_read|done].
    + exists cursor, out, ce. split; [done|]. right. split; [done|]. right. by exists tag, value, cursor1.
  - exists cursor, out, ce. split; [done|]. left. split; [done|]. by left.
  - exists cursor, out, ce. split; [done|]. right. split; [done|]. by apply next_field_overflow.
Qed.

Lemma field_step_inv cursor out ce cursor' out' ce' :
  rtc field_step (cursor, out, ce) (cursor', out', ce') -> parse_inv out ce -> parse_inv out' ce'.
Proof.
  intros Hr. remember (cursor, out, ce) as x eqn:Ex. remember (cursor', out', ce') as y eqn:Ey.
  revert cursor out ce Ex. induction Hr as [x|x z y Hs Hr IH]; intros cursor out ce Ex Hinv.
  { by simplify_eq. }
  destruct Hs as [c1 tag value c2 o1 e1 o2 e2 _ _ Hp]. simplify_eq.
  pose proof (parse_field_inv tag value out ce Hinv) as H. rewrite Hp in H. by eapply IH.
Qed.

(** ** Integers *)

Lemma parse_digits_defined s r k :
  (forall d b, s = d ++ b -> Forall (fun c => is_digit c = true) d -> (length d <= k)%nat) ->
  0 <= r -> (r + 1) * 10 ^ Z.of_nat k <= 10 ^ 9 ->
  exists n, parse_digits r s = Some n /\ 0 <= n <= INT_MAX.
Proof.
  revert r k. induction s as [|c s IH]; intros r k Hrun Hr Hb; simpl.
  - exists r. split; [done|]. pose proof (Z.pow_pos_nonneg 10 (Z.of_nat k)). unfold INT_MAX. nia.
  - destruct (is_digit c) eqn:Hc.
    2: { exists r. split; [done|]. pose proof (Z.pow_pos_nonneg 10 (Z.of_nat k)). unfold INT_MAX. nia. }
    destruct k as [|k].
    { specialize (Hrun [c] s eq_refl). simpl in Hrun.
      exfalso. enough (1 <= 0)%nat by lia. apply Hrun. by constructor. }
    assert (0 <= digit_val c <= 9).
    { unfold is_digit, digit_val in *. bool_to_prop. lia. }
    rewrite Nat2Z.inj_succ, Z.pow_succ_r in Hb by lia.
    pose proof (Z.pow_pos_nonneg 10 (Z.of_nat k) ltac:(lia) ltac:(lia)).
    rewrite ub_int_some by (unfold INT_MIN, INT_MAX; nia). simpl.
    rewrite ub_int_some by (unfold INT_MIN, INT_MAX; nia). simpl.
    apply (IH _ k); [|lia|nia].
    intros d b -> Hd. specialize (Hrun (c :: d) b eq_refl). simpl in Hrun.
    enough (S (length d) <= S k)%nat by lia. apply Hrun. by constructor.
Qed.

Lemma short_digit_runs_app_r a b : short_digit_runs (a ++ b) -> short_digit_runs b.
Proof. intros H x d y ->. apply (H (a ++ x) d y). by rewrite <-app_assoc. Qed.

Lemma short_digit_runs_app_l a b : short_digit_runs (a ++ b) -> short_digit_runs a.
Proof. intros H x d y ->. apply (H x d (y ++ b)). by rewrite <-!app_assoc. Qed.

Lemma short_digit_runs_take n s : short_digit_runs s -> short_digit_runs (take n s).
Proof. intros H. rewrite <-(take_drop n s) in H. by apply short_digit_runs_app_l in H. Qed.

Lemma short_digit_runs_drop n s : short_digit_runs s -> short_digit_runs (drop n s).
Proof. intros H. rewrite <-(take_drop n s) in H. by apply short_digit_runs_app_r in H. Qed.

Lemma parse_int_defined s : short_digit_runs s -> is_Some (parse_int s).
Proof.
  intros H. unfold parse_int. destruct (split_sign s) as [neg s'] eqn:E.
  assert (Hs' : short_digit_runs s').
  { destruct s as [|c t]; simpl in E; [by injection E as <- <-|].
    case_bool_decide; injection E as <- <-; [by apply (short_digit_runs_app_r [c])|done]. }
  destruct (parse_digits_defined s' 0 9) as (n & En & Hn); [|lia|simpl; lia|].
  { intros d b -> Hd. by apply (Hs' [] d b). }
  rewrite En. simpl. destruct neg; [|done].
  rewrite ub_int_some; [done|unfold INT_MIN, INT_MAX in *; lia].
Qed.

Lemma next_field_defined cursor :
  short_digit_runs cursor ->
  exists r, next_field cursor = Some r /\
    (forall tag value cursor', r = Some (tag, value, cursor') ->
       short_digit_runs value /\ short_digit_runs cursor').
Proof.
  intros H. unfold next_field. destruct cursor as [|c s]; [by eexists|]. set (cur := c :: s) in *.
  destruct (find_char "="%char cur) as [eq|]; [|by eexists].
  destruct (parse_int_defined (take eq cur)) as [n En]; [by apply short_digit_runs_take|].
  rewrite En. simpl.
  destruct (find_char FIX_SOH (drop (eq + 1) cur)) as [soh|]; eexists; (split; [done|]);
    intros tag value cursor' [= <- <- <-].
  - split; [by apply short_digit_runs_take, short_digit_runs_drop|by do 2 apply short_digit_runs_drop].
  - split; [by apply short_digit_runs_drop|]. intros a d b Hab.
    symmetry in Hab. apply app_nil in Hab as [_ [-> _]%app_nil]. simpl. lia.
Qed.

Lemma parse_loop_defined fuel cursor out ce :
  (length cursor < fuel)%nat -> parse_inv out ce -> short_digit_runs cursor -> is_Some (parse_loop fuel cursor out ce).
Proof.
  revert cursor out ce. induction fuel as [|fuel IH]; intros cursor out ce Hl Hinv Hs; [lia|]. cbn [parse_loop].
  destruct (next_field_defined cursor Hs) as (r & En & Hr). rewrite En. cbn [mbind option_bind].
  destruct r as [[[tag value] cursor']|]; [|done].
  destruct (Hr _ _ _ eq_refl) as [Hv Hc]. destruct (tag =? 10); [done|].
  pose proof (parse_field_inv tag value out ce Hinv) as Hf.
  destruct (parse_field tag value out ce) as [[m c]|]; cbn [mbind option_bind].
  - apply IH; [apply next_field_shrinks in En; lia|done..].
  - destruct (parse_int_defined value Hv) as [n Hn]. congruence.
Qed.

(** ** Types of the fields *)

(** [v] is a view into [msg]: the value of one of its fields, from after an
    equals sign to before the next delimiter or the end. *)
Definition view_of (msg v : bytes) : Prop :=
  exists a b, msg = a ++ ("="%char :: v ++ b) /\ (FIX_SOH ∉ v) /\
    (b = [] \/ (exists b', b = FIX_SOH :: b')).

Definition entry_typed (e : MDEntry) : Prop :=
  in_int (entry_type e) = true /\ in_int (update_action e) = true.

(** What the declared types of [FIXMessage] promise: [int] members are
    [int]s and [string_view] members are empty or views into the buffer. *)
Definition fix_typed (msg : bytes) (m : FIXMessage) : Prop :=
  Forall (fun n => in_int n = true)
    [seq_num m; side m; ord_type m; ord_status m; time_in_force m] /\
  Forall (fun v => v = [] \/ view_of msg v)
    [sender m; target m; send_time m; fix_symbol m; req_id m; cl_ord_id m; exec_id m] /\
  Forall entry_typed (entries m).

Lemma ub_int_in z n : ub_int z = Some n -> in_int n = true.
Proof. unfold ub_int. destruct (in_int z) eqn:E; [by intros [= <-]|done]. Qed.

Lemma parse_digits_in s r n :
  in_int r = true -> parse_digits r s = Some n -> in_int n = true.
Proof.
  revert r. induction s as [|c s IH]; intros r Hr; simpl; [by intros [= <-]|].
  destruct (is_digit c); [|by intros [= <-]].
  intros (r10 & _ & (r' & Hr' & H)%bind_Some)%bind_Some. by apply (IH r'), H; eapply ub_int_in.
Qed.

Lemma parse_int_in s n : parse_int s = Some n -> in_int n = true.
Proof.
  unfold parse_int. destruct (split_sign s) as [neg s'].
  intros (r & Hr & H)%bind_Some. destruct neg; [by eapply ub_int_in|].
  injection H as <-. by eapply parse_digits_in, Hr.
Qed.

(** The cursor stays a suffix of the buffer, and the value is a view. *)
Lemma next_field_view msg pre cursor tag value cursor' :
  msg = pre ++ cursor -> next_field cursor = Some (Some (tag, value, cursor')) ->
  view_of msg value /\ exists pre', msg = pre' ++ cursor'.
Proof.
  intros Hm. unfold next_field. destruct cursor as [|c s]; [done|]. set (cur := c :: s) in *.
  destruct (find_char "="%char cur) as [eq|] eqn:E; [|done].
  apply find_char_some in E as [E _]. rewrite E in Hm.
  intros (n & _ & H)%bind_Some. rewrite Nat.add_1_r in H.
  set (rest := drop (S eq) cur) in *.
  destruct (find_char FIX_SOH rest) as [soh|] eqn:Es; injection H as _ <- <-.
  - apply find_char_some in Es as [Es Hno]. split.
    + exists (pre ++ take eq cur), (FIX_SOH :: drop (S soh) rest).
      rewrite Es in Hm. rewrite <-app_assoc. eauto.
    + exists (pre ++ take eq cur ++ "="%char :: take soh rest ++ [FIX_SOH]).
      rewrite Nat.add_1_r, Hm, Es at 1. by rewrite <-!app_assoc; simpl; rewrite <-app_assoc.
  - apply find_char_none in Es. split.
    + exists (pre ++ take eq cur), []. rewrite app_nil_r, <-app_assoc. eauto.
    + exists msg. by rewrite app_nil_r.
Qed.

Lemma set_entry_typed msg i f m m' :
  (forall e, entry_typed e -> entry_typed (f e)) ->
  fix_typed msg m -> set_entry i f m = Some m' -> fix_typed msg m'.
Proof.
  intros Hf (Hi & Hv & He). unfold set_entry. destruct (0 <=? i); [|done].
  intros (e & Hl & [= <-])%bind_Some. split_and!; [done..|]. simpl.
  apply Forall_insert; [done|]. by apply Hf, (Forall_lookup_1 _ _ _ _ He Hl).
Qed.

Lemma if_open_typed msg ce f m m' ce' :
  (forall e, entry_typed e -> entry_typed (f e)) ->
  fix_typed msg m -> if_open ce f m = Some (m', ce') -> fix_typed msg m'.
Proof.
  intros Hf Hm. unfold if_open. destruct (0 <=? ce); [|by intros [= <- _]].
  intros (x & Hx & [= <- _])%bind_Some. by eapply set_entry_typed, Hx.
Qed.

Lemma open_entry_typed msg m m' ce :
  fix_typed msg m -> open_entry m = Some (m', ce) -> fix_typed msg m'.
Proof.
  intros Hm. unfold open_entry. destruct (num_entries m <? FIX_MAX_MD_ENTRIES); [|by intros [= <- _]].
  intros (x & Hx & [= <- _])%bind_Some. eapply set_entry_typed, Hx; [by intros|exact Hm].
Qed.

Ltac typed :=
  split; [|split]; simpl; [| |assumption];
  repeat (apply List.Forall_cons; [assumption|]); apply List.Forall_nil.

Lemma parse_field_typed msg tag value out ce out' ce' :
  view_of msg value -> fix_typed msg out ->
  parse_field tag value out ce = Some (out', ce') -> fix_typed msg out'.
Proof.
  intros Hview Hm. pose proof (or_intror Hview : value = [] \/ view_of msg value) as Hval.
  assert (Hgroup : forall m c (f : Z -> MDEntry -> MDEntry),
    (forall n e, in_int n = true -> entry_typed e -> entry_typed (f n e)) -> fix_typed msg m ->
    (if 0 <=? c then n ← parse_int value; if_open c (f n) m else Some (m, c)) = Some (out', ce') ->
    fix_typed msg out').
  { intros m c f Hf Hm'. destruct (0 <=? c); [|by intros [= <- _]].
    intros (n & Hn & H)%bind_Some. eapply if_open_typed, H; [|done].
    intros e. apply Hf. by eapply parse_int_in. }
  pose proof Hm as (Hi & Hv & He). rewrite !Forall_cons in Hi. rewrite !Forall_cons in Hv.
  destruct Hi as (? & ? & ? & ? & ? & _), Hv as (? & ? & ? & ? & ? & ? & ? & _).
  unfold parse_field.
  repeat match goal with |- context [if tag =? ?k then _ else _] => destruct (tag =? k) end;
    try (intros [= <- _]; typed);
    try (intros (n & Hn%parse_int_in & [= <- _])%bind_Some; typed).
  - destruct (bool_decide (msg_type out = MarketDataSnapshot) || (ce <? 0)).
    + intros ([m c] & Ho & Hr)%bind_Some. eapply (Hgroup m c (fun n e => e <| entry_type := n |>)), Hr;
        [by intros ? ? ? []|by eapply open_entry_typed, Ho].
    + by apply (Hgroup out ce (fun n e => e <| entry_type := n |>)); [intros ? ? ? []|].
  - intros ([m c] & Ho & Hr)%bind_Some. eapply (Hgroup m c (fun n e => e <| update_action := n |>)), Hr;
      [by intros ? ? ? []|by eapply open_entry_typed, Ho].
  - by apply if_open_typed.
  - by apply if_open_typed.
Qed.

Lemma parse_loop_typed msg fuel pre cursor out ce out' :
  msg = pre ++ cursor -> fix_typed msg out ->
  parse_loop fuel cursor out ce = Some out' -> fix_typed msg out'.
Proof.
  revert pre cursor out ce. induction fuel as [|fuel IH]; intros pre cursor out ce Hc Hm; simpl.
  { by intros [= <-]. }
  intros (f & Hf & H)%bind_Some. destruct f as [[[tag value] cursor']|]; [|by injection H as <-].
  destruct (next_field_view msg pre cursor tag value cursor' Hc Hf) as [Hv [pre' Hc']].
  destruct (tag =? 10); [by injection H as <-|].
  apply bind_Some in H as ([m c] & Hp & H). eapply IH, H; [exact Hc'|].
  by eapply parse_field_typed, Hp.
Qed.

(** ** Best bid and offer of a message *)

Definition is_bid (e : MDEntry) : Prop := entry_type e = MDEntryType_Bid.
Definition is_ask (e : MDEntry) : Prop := entry_type e = MDEntryType_Ask.

(** [p], [q] is the best level of one side of [es]: an entry of the side with
    that price and size, than which no entry of the side is better. *)
Definition best_level (on_side : MDEntry -> Prop) (better : double -> double -> bool)
    (es : list MDEntry) (p q : double) : Prop :=
  (exists e, e ∈ es /\ on_side e /\ price e = p /\ quantity e = q) /\
  (forall e, e ∈ es -> on_side e -> better (price e) p = false).

Definition scan_inv (es : list MDEntry) (s : BboScan) : Prop :=
  (if has_bid s then best_level is_bid dgt es (best_bid s) (best_bid_qty s)
   else forall e, e ∈ es -> ~ is_bid e) /\
  (if has_ask s then best_level is_ask dlt es (best_ask s) (best_ask_qty s)
   else forall e, e ∈ es -> ~ is_ask e).

(** One side of the scan: a level that is first of its side, or better than
    the best so far, becomes the best; any other level leaves it. *)
Section best_level.
  Context (on_side : MDEntry -> Prop) (better : double -> double -> bool) `{!KeyOrder better}.
  Context (es : list MDEntry) (e : MDEntry).
  Context (Hes : Forall (fun e => is_nan (price e) = false) es) (He : is_nan (price e) = false).

Lemma best_level_first :
    on_side e -> (forall e, e ∈ es -> ~ on_side e) ->
    best_level on_side better (es ++ [e]) (price e) (quantity e).
  Proof using Hes He KeyOrder0.
    intros Hon Hno. split.
    - exists e. rewrite elem_of_app, list_elem_of_singleton. naive_solver.
    - intros x [Hx|Hx%list_elem_of_singleton]%elem_of_app Hs; [by destruct (Hno x)|].
      subst. by apply before_irrefl.
  Qed.

Lemma best_level_better p q :
    on_side e -> best_level on_side better es p q -> better (price e) p = true ->
    best_level on_side better (es ++ [e]) (price e) (quantity e).
  Proof using Hes He KeyOrder0.
    intros Hon [(e0 & He0 & Hs0 & <- & <-) Hmax] Hlt. split.
    - exists e. rewrite elem_of_app, list_elem_of_singleton. naive_solver.
    - rewrite Forall_forall in Hes. intros x [Hx|Hx%list_elem_of_singleton]%elem_of_app Hs.
      + destruct (better (price x) (price e)) eqn:E; [|done].
        rewrite <-(Hmax x Hx Hs). symmetry. apply (before_trans _ (price e)); auto.
      + subst. by apply before_irrefl.
  Qed.

Lemma best_level_keep p q :
    best_level on_side better es p q -> (on_side e -> better (price e) p = false) ->
    best_level on_side better (es ++ [e]) p q.
  Proof using.
    intros [(e0 & He0 & Hs0 & <- & <-) Hmax] Hnot. split.
    - exists e0. rewrite elem_of_app. naive_solver.
    - intros x [Hx|Hx%list_elem_of_singleton]%elem_of_app Hs; [by apply Hmax|subst; by apply Hnot].
  Qed.

Lemma no_level_snoc :
    (forall e, e ∈ es -> ~ on_side e) -> ~ on_side e -> forall x, x ∈ es ++ [e] -> ~ on_side x.
  Proof using. intros H1 H2 x [Hx|Hx%list_elem_of_singleton]%elem_of_app; [by apply H1|by subst]. Qed.
End best_level.

Lemma bbo_scan_step_inv es e s :
  Forall (fun e => is_nan (price e) = false) es -> is_nan (price e) = false ->
  scan_inv es s -> scan_inv (es ++ [e]) (bbo_scan_step s e).
Proof.
  intros Hes He [Hb Ha]. unfold bbo_scan_step.
  assert (Hkeep_b : ~ is_bid e -> if has_bid s then best_level is_bid dgt (es ++ [e]) (best_bid s) (best_bid_qty s) else forall x, x ∈ es ++ [e] -> ~ is_bid x).
  { intros Hn. destruct (has_bid s); [by apply best_level_keep|by apply no_level_snoc]. }
  assert (Hkeep_a : ~ is_ask e -> if has_ask s then best_level is_ask dlt (es ++ [e]) (best_ask s) (best_ask_qty s) else forall x, x ∈ es ++ [e] -> ~ is_ask x).
  { intros Hn. destruct (has_ask s); [by apply best_level_keep|by apply no_level_snoc]. }
  destruct (Z.eqb_spec (entry_type e) MDEntryType_Bid) as [E1|E1].
  - assert (Hna : ~ is_ask e) by (unfold is_ask; rewrite E1; done).
    specialize (Hkeep_a Hna). destruct (has_bid s) eqn:Eb; simpl.
    + destruct (dgt (price e) (best_bid s)) eqn:Eg; (split; simpl; [|exact Hkeep_a]).
      * by apply (best_level_better is_bid dgt es e Hes He _ _ E1 Hb Eg).
      * rewrite Eb. by apply best_level_keep.
    + split; simpl; [|exact Hkeep_a]. by apply (best_level_first is_bid dgt es e Hes He E1 Hb).
  - specialize (Hkeep_b E1). destruct (Z.eqb_spec (entry_type e) MDEntryType_Ask) as [E2|E2].
    + destruct (has_ask s) eqn:Ea; simpl.
      * destruct (dlt (price e) (best_ask s)) eqn:Eg; (split; simpl; [exact Hkeep_b|]).
        -- by apply (best_level_better is_ask dlt es e Hes He _ _ E2 Ha Eg).
        -- rewrite Ea. by apply best_level_keep.
      * split; simpl; [exact Hkeep_b|]. by apply (best_level_first is_ask dlt es e Hes He E2 Ha).
    + split; [exact Hkeep_b|by apply Hkeep_a].
Qed.

Lemma bbo_scan_inv es :
  Forall (fun e => is_nan (price e) = false) es -> scan_inv es (bbo_scan es).
Proof.
  unfold bbo_scan. induction es as [|e es IH] using rev_ind; intros Hes.
  { split; simpl; by intros ? ?%elem_of_nil. }
  apply Forall_app in Hes as [Hes [He _]%Forall_cons].
  rewrite foldl_snoc. apply bbo_scan_step_inv; [done|done|by apply IH].
Qed.

(** ** Properties *)

Definition ex_fix : bytes :=
  $"8=FIX.4.4" ++ [FIX_SOH] ++ $"35=W" ++ [FIX_SOH] ++ $"55=BTCUSD" ++ [FIX_SOH] ++
  $"268=2" ++ [FIX_SOH] ++ $"269=0" ++ [FIX_SOH] ++ $"270=65000.5" ++ [FIX_SOH] ++
  $"269=1" ++ [FIX_SOH] ++ $"270=65001" ++ [FIX_SOH].

Definition ex_out : FIXMessage :=
  FIXMessage_default
    <| msg_type := MarketDataSnapshot |> <| fix_symbol := $"BTCUSD" |> <| num_entries := 2 |>
    <| entries := mkMDEntry 0 0 (dlit 130001 2) dzero :: mkMDEntry 1 0 (dZ 65001) dzero
                    :: replicate 30 MDEntry_default |>.

Lemma ex_parse : parse ex_fix = Some (true, ex_out).
Proof. vm_compute. reflexivity. Qed.

(** C26: The message a parse fills is well typed: whatever the bytes, each
    integer member and each entry's type and action is a value of the C++
    [int], and each text member is empty or the value of one field of the very
    buffer that was parsed, free of delimiters. *)
Theorem parse_typed msg b out : parse msg = Some (b, out) -> fix_typed msg out.
Proof.
  unfold parse. intros (m & H & [= _ <-])%bind_Some.
  eapply (parse_loop_typed msg _ [] msg), H; [done|].
  split_and!; simpl; [by repeat constructor|by repeat (constructor; [by left|])|].
  by repeat constructor.
Qed.

Lemma parse_typed_witness : fix_typed ex_fix ex_out.
Proof. apply (parse_typed ex_fix true ex_out ex_parse). Defined.

(** C1: The parser never leaves the bounds of the fixed entry array, and it
    always ends by itself.  Whatever the bytes (any number of repeating groups,
    group tags in any order), at every field it gets to, the message counts
    between 0 and 32 entries of an array of 32, the open entry is one of them,
    and opening another entry or storing into the open one is an access within
    the array.  Its loop either comes to one of its exits, the end of the
    fields or the checksum, and returns the message filled up to there with
    whether tag 35 was recognised; or it comes to a field whose tag or value
    overflows the integer accumulator, which takes ten consecutive digits in the
    message. *)
Theorem parse_in_bounds msg :
  (forall cursor m ce, rtc field_step (msg, FIXMessage_default, -1) (cursor, m, ce) ->
     fix_wf m /\ -1 <= ce < num_entries m /\ (forall f, is_Some (if_open ce f m)) /\
     exists m' ce', open_entry m = Some (m', ce') /\ fix_wf m' /\ (forall f, is_Some (if_open ce' f m'))) /\
  (exists cursor m ce, rtc field_step (msg, FIXMessage_default, -1) (cursor, m, ce) /\
     (parse msg = Some (valid m, m) /\ loop_exit cursor \/ parse msg = None /\ overflow_at cursor)) /\
  (short_digit_runs msg -> is_Some (parse msg)).
Proof.
  pose proof parse_inv_default as H0. unfold parse. split_and!.
  - intros cursor m ce Hr. pose proof (field_step_inv _ _ _ _ _ _ Hr H0) as Hinv.
    assert (Hif : forall f m ce, parse_inv m ce -> is_Some (if_open ce f m)).
    { intros f m1 ce1 H1. destruct (if_open_inv ce1 f m1 H1) as (? & ? & -> & _). by eexists. }
    destruct (open_entry_inv m ce Hinv) as (m' & ce' & E & Hinv'). destruct Hinv as [Hw Hc].
    split_and!; [exact Hw|lia|lia|intros f; by apply Hif|]. exists m', ce'. split; [done|].
    split; [apply Hinv'|]. intros f. by apply Hif.
  - destruct (parse_loop_run (S (length msg)) msg FIXMessage_default (-1) ltac:(lia) H0)
      as (cursor & m & ce & Hr & [[-> He]|[-> Ho]]); exists cursor, m, ce; (split; [done|]); [by left|by right].
  - intros Hs. destruct (parse_loop_defined (S (length msg)) msg FIXMessage_default (-1)) as [m ->];
      [lia|done|done|by eexists].
Qed.

(** On [35=W] the first field leads to a message whose open entry may be
    stored into, and the parser returns. *)
Lemma parse_in_bounds_witness :
  let msg := $"35=W" ++ [FIX_SOH] in
  exists m, rtc field_step (msg, FIXMessage_default, -1) ([], m, -1) /\
    msg_type m = MarketDataSnapshot /\ fix_wf m /\ is_Some (parse msg).
Proof.
  set (msg := $"35=W" ++ [FIX_SOH]). simpl.
  assert (Hr : rtc field_step (msg, FIXMessage_default, -1)
                 ([], FIXMessage_default <| msg_type := MarketDataSnapshot |>, -1))
    by (eapply rtc_once, (field_read msg 35 $"W"); [reflexivity|lia|reflexivity]).
  assert (Hs : short_digit_runs msg).
  { intros a d b E _. apply (f_equal length) in E. rewrite !length_app in E.
    change (length msg) with 5%nat in E. lia. }
  destruct (parse_in_bounds msg) as (Hb & _ & Hp).
  eexists. split; [exact Hr|]. split; [reflexivity|]. split; [apply (Hb _ _ _ Hr)|apply (Hp Hs)].
Defined.

(** [to_ticker_data] on a message whose prices are numbers: it answers
    exactly for market data with both sides present, and then reports the
    highest bid and the lowest ask over all the entries of the message, each
    with the size of the entry it comes from. *)
Theorem to_ticker_data_bbo now_ms m :
  Forall (fun e => is_nan (price e) = false) (md_entries m) ->
  match to_ticker_data now_ms m with
  | Some t =>
      is_market_data m = true /\ td_symbol t = fix_symbol m /\ td_exchange t = $"FIX" /\
      best_level is_bid dgt (md_entries m) (td_bid_price t) (td_bid_quantity t) /\
      best_level is_ask dlt (md_entries m) (td_ask_price t) (td_ask_quantity t)
  | None =>
      is_market_data m = false \/
      (forall e, e ∈ md_entries m -> ~ is_bid e) \/ (forall e, e ∈ md_entries m -> ~ is_ask e)
  end.
Proof.
  intros Hes. unfold to_ticker_data. destruct (is_market_data m); simpl; [|by left].
  destruct (bbo_scan_inv _ Hes) as [Hb Ha].
  destruct (has_bid (bbo_scan (md_entries m))); simpl; [|by right; left].
  destruct (has_ask (bbo_scan (md_entries m))); simpl; [|by right; right].
  done.
Qed.

Lemma to_ticker_data_bbo_witness :
  exists t, to_ticker_data 5 ex_out = Some t /\ td_symbol t = $"BTCUSD" /\
    best_level is_bid dgt (md_entries ex_out) (td_bid_price t) (td_bid_quantity t).
Proof.
  assert (H : Forall (fun e => is_nan (price e) = false) (md_entries ex_out)) by repeat constructor.
  pose proof (to_ticker_data_bbo 5 ex_out H) as Hb.
  destruct (to_ticker_data 5 ex_out) as [t|] eqn:E; [|exfalso; by vm_compute in E].
  exists t. destruct Hb as (_ & Hsym & _ & Hbid & _). split; [done|]. by split.
Defined.
