(* ===== verification/FixBuilder.v ===== *)
(** * FIX message construction (src/fix_parser.cpp)

    [build_fix_message] and its two entry points.  The calendar time the
    function reads ([gmtime_r] of the system clock, and the milliseconds) is an
    argument.  The properties: a built message has the body length and the
    checksum FIX prescribes, and the parser reads back what was built. *)

From S2P Require Import Prelude Float64 Str Fmt Types FixParser.

(** ** SendingTime *)

(** The fields of [std::tm] that [strftime] prints here. *)
Record tm := mktm {
  tm_year : Z;   (* years since 1900 *)
  tm_mon : Z;    (* 0..11 *)
  tm_mday : Z;
  tm_hour : Z;
  tm_min : Z;
  tm_sec : Z;
}.

Definition two_digits (n : Z) : bytes := pad_left 2 "0"%char (to_string n).

(** [strftime(..., "%Y%m%d-%H:%M:%S", &gmt)] *)
Definition strftime_fix (t : tm) : bytes :=
  to_string (tm_year t + 1900) ++ two_digits (tm_mon t + 1) ++ two_digits (tm_mday t) ++
  $"-" ++ two_digits (tm_hour t) ++ $":" ++ two_digits (tm_min t) ++ $":" ++
  two_digits (tm_sec t).

(** [snprintf(ts_buf + 15, ..., ".%03d", ms)] over that string: a string that
    ends before offset 15 keeps its terminator. *)
Definition ts_buf (t : tm) (ms : Z) : bytes :=
  let s := strftime_fix t in
  if (length s <? 15)%nat then s
  else take 15 s ++ $"." ++ pad_left 3 "0"%char (to_string ms).

(** ** build_fix_message *)

Definition field (tag value : bytes) (delim : ascii) : bytes := tag ++ $"=" ++ value ++ [delim].

Definition entry_fields (msg_type_str : bytes) (delim : ascii) (e : MDEntry) : bytes :=
  (if bool_decide (msg_type_str = $"X") then field $"279" (to_string (update_action e)) delim else []) ++
  field $"269" (to_string (entry_type e)) delim ++
  field $"270" (fmt_g 6 (price e)) delim ++
  field $"271" (fmt_g 6 (quantity e)) delim.

Definition body_str (msg_type_str symbol : bytes) (es : list MDEntry) (seq : Z) (delim : ascii)
    (t : tm) (ms : Z) : bytes :=
  field $"35" msg_type_str delim ++
  field $"34" (to_string seq) delim ++
  field $"49" $"SIMULATOR" delim ++
  field $"56" $"CLIENT" delim ++
  field $"52" (ts_buf t ms) delim ++
  field $"55" symbol delim ++
  field $"268" (to_string (Z.of_nat (length es))) delim ++
  concat (map (entry_fields msg_type_str delim) es).

(** Sum of the bytes in [unsigned int], modulo 256. *)
Definition checksum (s : bytes) : Z :=
  foldl (fun acc c => wrap32 (acc + byte_val c)) 0 s mod 256.

(** What precedes the checksum field. *)
Definition so_far (msg_type_str symbol : bytes) (es : list MDEntry) (seq : Z) (delim : ascii)
    (t : tm) (ms : Z) : bytes :=
  let body := body_str msg_type_str symbol es seq delim t ms in
  field $"8" $"FIX.4.4" delim ++ field $"9" (to_string (Z.of_nat (length body))) delim ++ body.

Definition build_fix_message (msg_type_str symbol : bytes) (es : list MDEntry) (seq : Z)
    (delim : ascii) (t : tm) (ms : Z) : bytes :=
  let s := so_far msg_type_str symbol es seq delim t ms in
  s ++ field $"10" (pad_left 3 "0"%char (to_string (checksum s))) delim.

Definition build_snapshot (symbol : bytes) (es : list MDEntry) (seq : Z) (use_soh : bool)
    (t : tm) (ms : Z) : bytes :=
  build_fix_message $"W" symbol es seq (if use_soh then FIX_SOH else "|"%char) t ms.

Definition build_incremental (symbol : bytes) (es : list MDEntry) (seq : Z) (use_soh : bool)
    (t : tm) (ms : Z) : bytes :=
  build_fix_message $"X" symbol es seq (if use_soh then FIX_SOH else "|"%char) t ms.

(** ** What the parser reads back *)

(** A double after it is printed and parsed. *)
Definition reread_double (v : double) : double := parse_double (fmt_g 6 v).

Definition reread_entry (incremental : bool) (e : MDEntry) : MDEntry :=
  mkMDEntry (entry_type e) (if incremental then update_action e else 0)
    (reread_double (price e)) (reread_double (quantity e)).

(** The fixed array holding the entries [l], as many as fit. *)
Definition fill (l : list MDEntry) : list MDEntry :=
  take 32 (l ++ replicate 32 MDEntry_default).

Definition with_entries (m : FIXMessage) (l : list MDEntry) : FIXMessage :=
  m <| num_entries := Z.of_nat (32 `min` length l) |> <| entries := fill l |>.

(** The message the parser returns for a built message. *)
Definition built_message (incremental : bool) (symbol : bytes) (es : list MDEntry) (seq : Z)
    (t : tm) (ms : Z) : FIXMessage :=
  with_entries
    (FIXMessage_default
      <| msg_type := (if incremental then MarketDataIncremental else MarketDataSnapshot) |>
      <| seq_num := seq |> <| sender := $"SIMULATOR" |> <| target := $"CLIENT" |>
      <| send_time := ts_buf t ms |> <| fix_symbol := symbol |>)
    (map (reread_entry incremental) es).

Definition int_prints (n : Z) : Prop := INT_MIN < n <= INT_MAX.

(** ** Integers *)

Lemma digits_value_ge s acc :
  Forall (fun c => is_digit c = true) s -> 0 <= acc -> acc <= digits_value s acc.
Proof.
  revert acc. induction s as [|c s IH]; intros acc Hs Hacc; [done|].
  apply Forall_cons in Hs as [Hc Hs]. change (acc <= digits_value s (acc * 10 + digit_val c)).
  assert (0 <= digit_val c) by (unfold is_digit, digit_val in *; bool_to_prop; lia).
  specialize (IH (acc * 10 + digit_val c) Hs). lia.
Qed.

Lemma parse_digits_value s r :
  Forall (fun c => is_digit c = true) s -> 0 <= r -> digits_value s r <= INT_MAX ->
  parse_digits r s = Some (digits_value s r).
Proof.
  revert r. induction s as [|c s IH]; intros r Hs Hr Hle; [done|].
  apply Forall_cons in Hs as [Hc Hs]. simpl. rewrite Hc.
  assert (0 <= digit_val c <= 9) by (unfold is_digit, digit_val in *; bool_to_prop; lia).
  change (digits_value s (r * 10 + digit_val c) <= INT_MAX) in Hle.
  pose proof (digits_value_ge s (r * 10 + digit_val c) Hs ltac:(lia)).
  rewrite !ub_int_some by (unfold INT_MIN; lia). simpl.
  rewrite ub_int_some by (unfold INT_MIN; lia). simpl. by apply IH; [|lia|].
Qed.

(** [parse_int] reads back every [int] but the least one, whose magnitude
    overflows the accumulator. *)
Lemma parse_int_to_string n : int_prints n -> parse_int (to_string n) = Some n.
Proof.
  intros Hn. unfold int_prints in Hn.
  assert (Hd : forall m, 0 <= m <= INT_MAX -> parse_digits 0 (dec_of m) = Some m).
  { intros m Hm. rewrite parse_digits_value; rewrite ?dec_of_value by lia; try lia; [done|].
    apply dec_of_digits. lia. }
  unfold to_string, INT_MIN, INT_MAX in *. destruct (Z.ltb_spec n 0).
  - unfold parse_int. simpl. rewrite Hd by lia. simpl. rewrite Z.opp_involutive.
    apply ub_int_some. unfold INT_MIN, INT_MAX. lia.
  - pose proof (dec_of_digits n ltac:(lia)) as Hc.
    unfold parse_int, split_sign. destruct (dec_of n) as [|c s] eqn:E.
    { by apply dec_of_nonempty in E. }
    rewrite bool_decide_false by (intros ->; by apply Forall_cons in Hc as [Hc _]).
    by rewrite <-E, Hd by lia.
Qed.

Lemma to_string_chars n c : is_digit c = false -> c <> "-"%char -> c ∉ to_string n.
Proof.
  intros H1 H2. unfold to_string. destruct (Z.ltb_spec n 0).
  - apply not_elem_of_cons. split; [done|]. apply digits_not_in; [done|apply dec_of_digits; lia].
  - apply digits_not_in; [done|apply dec_of_digits; lia].
Qed.

(** ** Fields *)

Lemma next_field_field tag n value rest :
  "="%char ∉ tag -> parse_int tag = Some n -> FIX_SOH ∉ value ->
  next_field (field tag value FIX_SOH ++ rest) = Some (Some (n, value, rest)).
Proof.
  intros Htag Hn Hv. unfold field. rewrite <-!app_assoc. simpl.
  unfold next_field. rewrite find_char_app by done. rewrite take_app_length.
  rewrite Hn. cbn [mbind option_bind].
  replace (drop (length tag + 1) (tag ++ "="%char :: value ++ FIX_SOH :: rest))
    with (value ++ FIX_SOH :: rest)
    by (rewrite <-drop_drop, drop_app_length; simpl; by rewrite drop_0).
  rewrite find_char_app by done. rewrite take_app_length.
  replace (drop (length value + 1) (value ++ FIX_SOH :: rest)) with rest
    by (rewrite <-drop_drop, drop_app_length; simpl; by rewrite drop_0).
  destruct tag; done.
Qed.

Lemma parse_from_field_eq tag n value rest out ce :
  "="%char ∉ tag -> parse_int tag = Some n -> FIX_SOH ∉ value -> n <> 10 ->
  parse_from (field tag value FIX_SOH ++ rest) out ce =
    '(out', ce') ← parse_field n value out ce; parse_from rest out' ce'.
Proof.
  intros Htag Hn Hv Hne. erewrite parse_from_field by by apply next_field_field.
  by rewrite (proj2 (Z.eqb_neq n 10)).
Qed.

(** Consume one field with a literal tag: what is left is that its value holds
    no delimiter. *)
Ltac consume_field :=
  erewrite parse_from_field_eq; [|by apply (bool_decide_eq_false_1 _)|by vm_compute| |done].

(** ** Entries *)

Lemma length_fill l : length (fill l) = 32%nat.
Proof. unfold fill. rewrite length_take, length_app, length_replicate. lia. Qed.

Lemma fill_full l l' : (32 <= length l)%nat -> fill (l ++ l') = fill l.
Proof.
  intros H. unfold fill. rewrite <-app_assoc. by rewrite !take_app_le.
Qed.

Lemma fill_lookup l e : (length l < 32)%nat -> fill (l ++ [e]) !! length l = Some e.
Proof.
  intros H. unfold fill. rewrite lookup_take_lt by done.
  rewrite <-app_assoc, lookup_app_r by done. by rewrite Nat.sub_diag.
Qed.

Lemma fill_insert l e e' : (length l < 32)%nat -> <[length l := e']> (fill (l ++ [e])) = fill (l ++ [e']).
Proof.
  intros H. unfold fill. rewrite <-take_insert_lt by done. f_equal.
  by rewrite <-!app_assoc, insert_app_r_alt, Nat.sub_diag.
Qed.

Lemma fill_snoc_default l : fill (l ++ [MDEntry_default]) = fill l.
Proof.
  destruct (decide (32 <= length l)%nat); [by apply fill_full|].
  unfold fill. rewrite <-app_assoc.
  change ([MDEntry_default] ++ replicate 32 MDEntry_default) with (replicate 33 MDEntry_default).
  rewrite !take_app, !take_replicate. f_equal. f_equal. lia.
Qed.

#[local] Arguments fill : simpl never.
#[local] Arguments Nat.min : simpl never.

(** The open entry after the entries [l]: the last one, if it was stored. *)
Definition cursor_of (l : list MDEntry) : Z :=
  if (length l <? 32)%nat then Z.of_nat (length l) else -1.

Lemma open_entry_with m l :
  open_entry (with_entries m l) = Some (with_entries m (l ++ [MDEntry_default]), cursor_of l).
Proof.
  unfold open_entry, cursor_of, with_entries. simpl. unfold FIX_MAX_MD_ENTRIES.
  destruct (Nat.ltb_spec (length l) 32) as [H|H].
  - rewrite (proj2 (Z.ltb_lt _ _)) by lia. unfold set_entry. simpl.
    rewrite (proj2 (Z.leb_le _ _)) by lia. rewrite Nat2Z.id.
    rewrite Nat.min_r by lia. rewrite <-(fill_snoc_default l), fill_lookup by done. simpl.
    rewrite fill_insert by done. unfold with_entries. rewrite length_app. simpl. rewrite Nat.min_r by lia.
    by replace (Z.of_nat (length l + 1)) with (Z.of_nat (length l) + 1) by lia.
  - rewrite (proj2 (Z.ltb_ge _ _)) by lia. unfold with_entries. simpl.
    rewrite fill_full by done. by rewrite length_app, !Nat.min_l by lia.
Qed.

Lemma if_open_with m l e f :
  if_open (cursor_of l) f (with_entries m (l ++ [e])) =
    Some (with_entries m (l ++ [f e]), cursor_of l).
Proof.
  unfold if_open, cursor_of, with_entries. destruct (Nat.ltb_spec (length l) 32) as [H|H].
  - rewrite (proj2 (Z.leb_le _ _)) by lia. unfold set_entry. simpl.
    rewrite (proj2 (Z.leb_le _ _)) by lia. rewrite Nat2Z.id, fill_lookup by done. simpl.
    rewrite fill_insert by done. unfold with_entries. simpl. by rewrite !length_app.
  - simpl. unfold with_entries. rewrite !fill_full by done. by rewrite !length_app.
Qed.

Lemma cursor_of_sign l : (0 <=? cursor_of l) = (length l <? 32)%nat.
Proof. unfold cursor_of. destruct (length l <? 32)%nat eqn:E; [apply Z.leb_le; lia|done]. Qed.

(** The values of a message hold no delimiter. *)
Lemma int_no_soh n : FIX_SOH ∉ to_string n.
Proof. by apply to_string_chars. Qed.

Lemma double_no_soh v : FIX_SOH ∉ fmt_g 6 v.
Proof. by apply fmt_g_not_in. Qed.

#[export] Hint Resolve int_no_soh double_no_soh : tickplant.

Definition type_str (incremental : bool) : bytes := if incremental then $"X" else $"W".

(** Once the array is full, further entries leave the message as it is. *)
Lemma with_entries_full m l l' : (32 <= length l)%nat -> with_entries m (l ++ l') = with_entries m l.
Proof.
  intros H. unfold with_entries. rewrite fill_full by done. by rewrite length_app, !Nat.min_l by lia.
Qed.

(** Reading a group field into the open entry, which may be past the end of
    the array. *)
Lemma if_open_int m l e n (f : Z -> MDEntry -> MDEntry) :
  int_prints n ->
  (if 0 <=? cursor_of l then
     n ← parse_int (to_string n);
     if_open (cursor_of l) (f n) (with_entries m (l ++ [e]))
   else Some (with_entries m (l ++ [e]), cursor_of l)) =
  Some (with_entries m (l ++ [f n e]), cursor_of l).
Proof.
  intros Hn. rewrite cursor_of_sign, parse_int_to_string by done. cbn [mbind option_bind].
  destruct (Nat.ltb_spec (length l) 32); [apply if_open_with|].
  by rewrite !with_entries_full.
Qed.

(** Tag 269 opens an entry in a snapshot; in an incremental message it goes to
    the entry tag 279 opened. *)
Lemma parse_269_incremental m l e v :
  msg_type m = MarketDataIncremental ->
  parse_field 269 v (with_entries m (l ++ [e])) (cursor_of l) =
  if 0 <=? cursor_of l then
    n ← parse_int v;
    if_open (cursor_of l) (fun e => e <| entry_type := n |>) (with_entries m (l ++ [e]))
  else Some (with_entries m (l ++ [e]), cursor_of l).
Proof.
  intros Hm. unfold parse_field. simpl. rewrite Hm, Z.ltb_antisym, cursor_of_sign.
  destruct (Nat.ltb_spec (length l) 32) as [Hl|Hl]; simpl.
  { by rewrite cursor_of_sign, (proj2 (Nat.ltb_lt _ _)). }
  rewrite open_entry_with, <-app_assoc, !with_entries_full by done. simpl.
  unfold cursor_of. rewrite length_app. by rewrite !(proj2 (Nat.ltb_ge _ _)) by (simpl; lia).
Qed.

(** One printed entry is read back as one more entry. *)
Lemma parse_entry (incremental : bool) m l e rest ce :
  msg_type m = (if incremental then MarketDataIncremental else MarketDataSnapshot) ->
  int_prints (entry_type e) -> int_prints (update_action e) ->
  parse_from (entry_fields (type_str incremental) FIX_SOH e ++ rest) (with_entries m l) ce =
  parse_from rest (with_entries m (l ++ [reread_entry incremental e])) (cursor_of l).
Proof.
  intros Hm Ht Ha. unfold entry_fields. rewrite <-!app_assoc.
  destruct incremental;
    [change (bool_decide (type_str true = $"X")) with true
    |change (bool_decide (type_str false = $"X")) with false];
    cbv iota; rewrite ?app_nil_l, <-?app_assoc; unfold reread_entry.
  - consume_field; [|by auto with tickplant].
    unfold parse_field at 1. cbn [Z.eqb Pos.eqb].
    rewrite open_entry_with. cbn [mbind option_bind]. rewrite if_open_int by done.
    cbn [mbind option_bind]. consume_field; [|by auto with tickplant]. rewrite parse_269_incremental by done.
    rewrite if_open_int by done. cbn [mbind option_bind].
    consume_field; [|by auto with tickplant].
    unfold parse_field at 1. cbn [Z.eqb Pos.eqb]. rewrite if_open_with. cbn [mbind option_bind].
    consume_field; [|by auto with tickplant].
    unfold parse_field at 1. cbn [Z.eqb Pos.eqb]. rewrite if_open_with. done.
  - consume_field; [|by auto with tickplant].
    unfold parse_field at 1. cbn [Z.eqb Pos.eqb]. simpl msg_type. rewrite Hm, bool_decide_true by done.
    cbn [orb]. rewrite open_entry_with. cbn [mbind option_bind]. rewrite if_open_int by done.
    cbn [mbind option_bind].
    consume_field; [|by auto with tickplant].
    unfold parse_field at 1. cbn [Z.eqb Pos.eqb]. rewrite if_open_with. cbn [mbind option_bind].
    consume_field; [|by auto with tickplant].
    unfold parse_field at 1. cbn [Z.eqb Pos.eqb]. rewrite if_open_with. done.
Qed.

Lemma parse_entries (incremental : bool) m es l rest ce :
  msg_type m = (if incremental then MarketDataIncremental else MarketDataSnapshot) ->
  Forall (fun e => int_prints (entry_type e) /\ int_prints (update_action e)) es ->
  exists ce',
    parse_from (concat (map (entry_fields (type_str incremental) FIX_SOH) es) ++ rest)
      (with_entries m l) ce =
    parse_from rest (with_entries m (l ++ map (reread_entry incremental) es)) ce'.
Proof.
  intros Hm. revert l ce. induction es as [|e es IH]; intros l ce Hes.
  { exists ce. by rewrite app_nil_r. }
  apply Forall_cons in Hes as [[Ht Ha] Hes]. cbn [map concat]. rewrite <-app_assoc.
  rewrite parse_entry by done. destruct (IH (l ++ [reread_entry incremental e]) (cursor_of l) Hes) as [ce' ->].
  exists ce'. by rewrite <-app_assoc.
Qed.

(** ** SendingTime *)

Lemma padded_chars w n c :
  is_digit c = false -> c <> "-"%char -> c ∉ pad_left w "0"%char (to_string n).
Proof.
  intros H1 H2. unfold pad_left. rewrite not_elem_of_app. split; [|by apply to_string_chars].
  intros H%elem_of_replicate. destruct H as [-> _]. done.
Qed.

Lemma two_digits_chars n c : is_digit c = false -> c <> "-"%char -> c ∉ two_digits n.
Proof. intros H1 H2. by apply padded_chars. Qed.

Lemma strftime_fix_no_soh t : FIX_SOH ∉ strftime_fix t.
Proof.
  unfold strftime_fix. rewrite !not_elem_of_app.
  repeat split; try (by apply two_digits_chars); try (by apply int_no_soh);
    by apply (bool_decide_eq_false_1 _).
Qed.

Lemma ts_buf_no_soh t ms : FIX_SOH ∉ ts_buf t ms.
Proof.
  unfold ts_buf. pose proof (strftime_fix_no_soh t) as H.
  destruct (length (strftime_fix t) <? 15)%nat; [done|]. rewrite !not_elem_of_app. repeat split.
  - rewrite <-(take_drop 15 (strftime_fix t)), not_elem_of_app in H. apply H.
  - by apply (bool_decide_eq_false_1 _).
  - by apply padded_chars.
Qed.

#[export] Hint Resolve ts_buf_no_soh : tickplant.

(** ** Round trip *)

Definition use_type (incremental : bool) := if incremental then build_incremental else build_snapshot.

(** The header fields, up to the entry count. *)
Lemma parse_header (incremental : bool) symbol n seq t ms len rest :
  FIX_SOH ∉ symbol -> int_prints seq ->
  parse_from
    (field $"8" $"FIX.4.4" FIX_SOH ++ field $"9" (to_string len) FIX_SOH ++
     field $"35" (type_str incremental) FIX_SOH ++ field $"34" (to_string seq) FIX_SOH ++
     field $"49" $"SIMULATOR" FIX_SOH ++ field $"56" $"CLIENT" FIX_SOH ++
     field $"52" (ts_buf t ms) FIX_SOH ++ field $"55" symbol FIX_SOH ++
     field $"268" (to_string n) FIX_SOH ++ rest) FIXMessage_default (-1) =
  parse_from rest (built_message incremental symbol [] seq t ms) (-1).
Proof.
  intros Hsym Hseq.
  do 9 (consume_field;
    [|solve [assumption | auto 1 with tickplant | by apply (bool_decide_eq_false_1 _)
             | by destruct incremental; apply (bool_decide_eq_false_1 _)]];
    unfold parse_field at 1; cbn [Z.eqb Pos.eqb];
    rewrite ?parse_int_to_string by done; cbn [mbind option_bind]).
  by destruct incremental.
Qed.

Lemma built_parses (incremental : bool) symbol es seq t ms :
  FIX_SOH ∉ symbol -> int_prints seq ->
  Forall (fun e => int_prints (entry_type e) /\ int_prints (update_action e)) es ->
  parse (use_type incremental symbol es seq true t ms) =
    Some (true, built_message incremental symbol es seq t ms).
Proof.
  intros Hsym Hseq Hes.
  assert (E : use_type incremental symbol es seq true t ms =
              build_fix_message (type_str incremental) symbol es seq FIX_SOH t ms) by by destruct incremental.
  unfold parse. rewrite E. change (parse_loop _ ?x ?o ?c) with (parse_from x o c).
  unfold build_fix_message. generalize (checksum (so_far (type_str incremental) symbol es seq FIX_SOH t ms)).
  intros ck. unfold so_far, body_str. rewrite <-!app_assoc. rewrite parse_header by done.
  destruct (parse_entries incremental (built_message incremental symbol [] seq t ms) es []
    (field $"10" (pad_left 3 "0"%char (to_string ck)) FIX_SOH) (-1)) as [ce' Hes']; [by destruct incremental|done|].
  change (built_message incremental symbol [] seq t ms)
    with (with_entries (built_message incremental symbol [] seq t ms) []) at 1.
  rewrite Hes'. rewrite (parse_from_field _ 10 (pad_left 3 "0"%char (to_string ck)) []).
  - cbn [Z.eqb Pos.eqb mbind option_bind]. unfold built_message. by destruct incremental.
  - rewrite <-(app_nil_r (field _ _ _)). apply next_field_field; [|done|by apply padded_chars].
    by apply (bool_decide_eq_false_1 _).
Qed.

(** C2: The parser reads back what the builder writes.  For every symbol free
    of the delimiter, every list of entries (of any length) and every sequence
    number and entry codes in the range the accumulator can hold, parsing a
    built snapshot or incremental message succeeds and gives exactly the header
    fields that were written and the first 32 entries, each with its type (and,
    for an incremental message, its action) and with its price and quantity
    printed to six significant digits and reparsed. *)
Theorem build_parse_roundtrip (incremental : bool) symbol es seq t ms :
  FIX_SOH ∉ symbol -> int_prints seq ->
  Forall (fun e => int_prints (entry_type e) /\ int_prints (update_action e)) es ->
  parse (use_type incremental symbol es seq true t ms) =
    Some (true, built_message incremental symbol es seq t ms).
Proof. intros Hsym Hseq Hes. by apply built_parses. Qed.

(** The entries of a message the parser filled in. *)
Lemma md_entries_with m l : md_entries (with_entries m l) = take 32 l.
Proof.
  unfold md_entries, with_entries, fill. cbn [num_entries entries set_field].
  rewrite Nat2Z.id, take_take. replace ((32 `min` length l) `min` 32)%nat with (32 `min` length l)%nat by lia.
  rewrite take_app_le by lia. destruct (decide (length l <= 32)%nat).
  - by rewrite Nat.min_r, !take_ge by lia.
  - by rewrite Nat.min_l by lia.
Qed.

Lemma build_parse_roundtrip_witness :
  exists es, length es = 33%nat /\
  parse (use_type true $"BTCUSD" es 7 true (mktm 125 0 2 3 4 5) 6) =
    Some (true, built_message true $"BTCUSD" es 7 (mktm 125 0 2 3 4 5) 6).
Proof.
  exists (replicate 33 (mkMDEntry 1 2 (dZ 3) (dlit 1 2))). split; [done|].
  apply build_parse_roundtrip; [by apply (bool_decide_eq_false_1 _)|done|].
  by apply Forall_replicate.
Defined.

(** ** Framing *)

Lemma checksum_sum s : checksum s = foldr (fun c acc => byte_val c + acc) 0 s mod 256.
Proof.
  unfold checksum. 
  assert (H : forall acc, foldl (fun acc c => wrap32 (acc + byte_val c)) acc s mod 256 =
              (acc + foldr (fun c acc => byte_val c + acc) 0 s) mod 256).
  { induction s as [|c s IH]; intros acc; cbn [foldl foldr]; [by rewrite Z.add_0_r|].
    rewrite IH. unfold wrap32. rewrite Zplus_mod, (Z.mod_mod_divide _ (2 ^ 32) 256).
    - rewrite <-Zplus_mod. f_equal. lia.
    - by exists (2 ^ 24). }
  by rewrite H.
Qed.

(** A built message is framed as FIX prescribes, for every type, symbol,
    entry list, delimiter and time: tag 9 carries the number of bytes between
    the end of its own field and the checksum field, and tag 10 is exactly
    three digits whose value is the sum of all preceding bytes modulo 256 (the
    32-bit accumulator does not disturb it). *)
Theorem build_framing msg_type_str symbol es seq delim t ms :
  exists body ck,
    build_fix_message msg_type_str symbol es seq delim t ms =
      field $"8" $"FIX.4.4" delim ++ field $"9" (to_string (Z.of_nat (length body))) delim ++
      body ++ field $"10" ck delim /\
    length ck = 3%nat /\ Forall (fun c => is_digit c = true) ck /\
    digits_value ck 0 =
      foldr (fun c acc => byte_val c + acc) 0
        (field $"8" $"FIX.4.4" delim ++ field $"9" (to_string (Z.of_nat (length body))) delim ++ body) mod 256.
Proof.
  exists (body_str msg_type_str symbol es seq delim t ms). eexists. split.
  { unfold build_fix_message, so_far. by rewrite <-!app_assoc. }
  rewrite <-checksum_sum. apply padded_number; [lia|]. unfold checksum.
  pose proof (Z.mod_pos_bound (foldl (fun acc c => wrap32 (acc + byte_val c)) 0 (so_far msg_type_str symbol es seq delim t ms)) 256 ltac:(lia)).
  unfold so_far in *. simpl Z.pow. lia.
Qed.

(** The seconds never reach SendingTime: for every calendar time with a
    four-digit year, tag 52 is the same whatever the seconds are, because the
    milliseconds are printed over them. *)
Theorem sending_time_drops_seconds t ms sec :
  1000 <= tm_year t + 1900 <= 9999 -> 0 <= tm_mon t <= 11 -> 1 <= tm_mday t <= 31 ->
  0 <= tm_hour t <= 23 -> 0 <= tm_min t <= 59 -> 0 <= tm_sec t <= 60 -> 0 <= sec <= 60 ->
  ts_buf (mktm (tm_year t) (tm_mon t) (tm_mday t) (tm_hour t) (tm_min t) sec) ms = ts_buf t ms.
Proof.
  intros Hy Hmo Hd Hh Hmi Hs Hs'.
  assert (H2 : forall n, 0 <= n < 100 -> length (two_digits n) = 2%nat).
  { intros n Hn. by apply padded_number; [lia|]. }
  pose proof (to_string_length (tm_year t + 1900) 3 ltac:(simpl; lia)) as H4.
  set (minutes := to_string (tm_year t + 1900) ++ two_digits (tm_mon t + 1) ++ two_digits (tm_mday t) ++
    $"-" ++ two_digits (tm_hour t) ++ $":" ++ two_digits (tm_min t)).
  assert (Hm : length minutes = 14%nat).
  { unfold minutes. rewrite !length_app, H4, !H2 by lia. done. }
  assert (E : forall x, strftime_fix (mktm (tm_year t) (tm_mon t) (tm_mday t) (tm_hour t) (tm_min t) x) =
    minutes ++ $":" ++ two_digits x).
  { intros x. unfold strftime_fix, minutes. by rewrite <-!app_assoc. }
  destruct t as [y mo d h mi s]. unfold ts_buf. cbn [tm_year tm_mon tm_mday tm_hour tm_min tm_sec] in *.
  rewrite !E, !length_app, Hm, !H2 by lia. simpl Nat.ltb. cbv iota.
  by rewrite !(take_app_add' _ _ 14 1) by done.
Qed.

Lemma sending_time_drops_seconds_witness :
  ts_buf (mktm 125 0 2 3 4 59) 6 = $"20250102-03:04:.006" /\
  ts_buf (mktm 125 0 2 3 4 59) 6 = ts_buf (mktm 125 0 2 3 4 5) 6.
Proof. split; [done|]. apply (sending_time_drops_seconds (mktm 125 0 2 3 4 5) 6 59); simpl; lia. Defined.

(** Prices of six or more integer digits, and prices under 1e-4, do not
    survive the round trip: the default stream format prints an exponent or
    rounds to six digits, and the parser stops at the exponent mark, so
    1000000 is read back as 1 and 0.00005 as 5. *)
Theorem reread_double_exponent :
  fmt_g 6 (dZ 1000000) = $"1e+06" /\ reread_double (dZ 1000000) = dZ 1 /\
  fmt_g 6 (dlit 1 20000) = $"5e-05" /\ reread_double (dlit 1 20000) = dZ 5 /\
  fmt_g 6 (dlit 12345678 100) = $"123457" /\ reread_double (dlit 12345678 100) = dZ 123457.
Proof. vm_compute. by repeat split. Qed.
