(* ===== verification/FeedSimulator.v ===== *)
(** * FIX feed simulator (src/fix_feed_simulator.hpp, src/fix_feed_simulator.cpp)

    The synthetic producer: per symbol a mid price that drifts or follows an
    oracle, from which full snapshots and single-level updates are built as FIX
    text, parsed again, and handed to the callback.  What the simulator reads
    from outside in one tick (random draws, oracle, wall clock) is a record of
    arguments; times are nanoseconds of the steady clock.  [None] is undefined
    behaviour or a terminated process.

    The simulator's thread is a step machine over its two loops (continuous and
    burst), interleaved with the setters other threads may call. *)

From S2P Require Import Prelude Float64 Str Fmt Types FixParser FixBuilder.

(** ** Configuration and state *)

Record SimulatedSymbol := mkSimulatedSymbol {
  ss_symbol : bytes;
  ss_mid_price : double;
  ss_spread_pct : double;
  ss_depth_step : double;
  ss_depth_levels : Z;
  ss_price_offset_bps : double;
}.

Record SymbolState := mkSymbolState {
  config : SimulatedSymbol;
  current_mid : double;
  seq_num : Z;
  last_snapshot : Z;
}.
#[export] Instance SymbolState_settable : Settable SymbolState :=
  fun s => mkSymbolState (config s) (current_mid s) (seq_num s) (last_snapshot s).

(** What [add_symbol] pushes. *)
Definition new_symbol (sym : SimulatedSymbol) : SymbolState := mkSymbolState sym (ss_mid_price sym) 1 0.

(** The outside of one tick of one symbol: the oracle's answer ([None]: no
    oracle), the four random draws, and the wall clock. *)
Record Outside := mkOutside {
  o_oracle : option double;
  o_drift : double;
  o_side : Z;
  o_level : Z;
  o_qty_delta : double;
  o_time : tm;
  o_ms : Z;
}.

(** What reaches the callback. *)
Abbreviation Emission := (bytes * FIXMessage)%type.

(** ** Levels *)

Definition half (x : double) : double := ddiv x (dZ 2).

(** [static_cast<double>(depth - i) * 0.5 + 0.5] *)
Definition level_quantity (depth i : Z) : double :=
  dadd (dmul (dZ (depth - i)) (dlit 1 2)) (dlit 1 2).

Definition bid_entry (best_bid step : double) (depth i : Z) : MDEntry :=
  mkMDEntry MDEntryType_Bid MDUpdateAction_New (dsub best_bid (dmul step (dZ i))) (level_quantity depth i).

Definition ask_entry (best_ask step : double) (depth i : Z) : MDEntry :=
  mkMDEntry MDEntryType_Ask MDUpdateAction_New (dadd best_ask (dmul step (dZ i))) (level_quantity depth i).

(** A negative depth makes [reserve] throw. *)
Definition make_levels (mid spread_pct step : double) (depth : Z) : ub (list MDEntry) :=
  _ ← ub_int (depth * 2);
  if depth <? 0 then None else
  let best_bid := dmul mid (dsub (dZ 1) (half spread_pct)) in
  let best_ask := dmul mid (dadd (dZ 1) (half spread_pct)) in
  Some (map (bid_entry best_bid step depth) (seqZ 0 depth) ++ map (ask_entry best_ask step depth) (seqZ 0 depth)).

(** ** Messages *)

Definition dispatch (raw : bytes) : ub (list Emission) :=
  '(ok, msg) ← parse raw; Some (if ok : bool then [(raw, msg)] else []).

(** The mid price with the configured offset, and the price step. *)
Definition offset_mid (s : SymbolState) : double :=
  dmul (current_mid s) (dadd (dZ 1) (ddiv (ss_price_offset_bps (config s)) (dZ 10000))).

Definition price_step (s : SymbolState) : double :=
  if dgt (ss_depth_step (config s)) dzero then ss_depth_step (config s) else dmul (offset_mid s) (dlit 5 10000).

(** [s.seq_num++] *)
Definition next_seq (s : SymbolState) : ub SymbolState :=
  n ← ub_int (seq_num s + 1); Some (s <| seq_num := n |>).

Definition emit_snapshot (o : Outside) (s : SymbolState) : ub (SymbolState * list Emission) :=
  entries ← make_levels (offset_mid s) (ss_spread_pct (config s)) (price_step s) (ss_depth_levels (config s));
  s' ← next_seq s;
  out ← dispatch (build_snapshot (ss_symbol (config s)) entries (seq_num s) true (o_time o) (o_ms o));
  Some (s', out).

(** The entry of an incremental update. *)
Definition update_entry (o : Outside) (s : SymbolState) : MDEntry :=
  let mid := offset_mid s in
  let half_spd := half (ss_spread_pct (config s)) in
  let best := if o_side o =? 0 then dmul mid (dsub (dZ 1) half_spd) else dmul mid (dadd (dZ 1) half_spd) in
  let step_sign := if o_side o =? 0 then -1 else 1 in
  let base_qty := level_quantity (ss_depth_levels (config s)) (o_level o) in
  mkMDEntry (o_side o) MDUpdateAction_Change
    (dadd best (dmul (dmul (dZ step_sign) (price_step s)) (dZ (o_level o))))
    (dmax (dlit 1 10) (dadd base_qty (o_qty_delta o))).

(** The distribution over the levels needs at least one. *)
Definition emit_incremental (o : Outside) (s : SymbolState) : ub (SymbolState * list Emission) :=
  if ss_depth_levels (config s) <? 1 then None else
  s' ← next_seq s;
  out ← dispatch (build_incremental (ss_symbol (config s)) [update_entry o s] (seq_num s) true (o_time o) (o_ms o));
  Some (s', out).

(** ** One tick *)

Definition NS_PER_MS : Z := 1000000.

(** Anchor to the oracle, then drift. *)
Definition move_mid (o : Outside) (s : SymbolState) : SymbolState :=
  let s :=
    match o_oracle o with
    | Some market_mid => if dgt market_mid dzero then s <| current_mid := market_mid |> else s
    | None => s
    end in
  s <| current_mid := dmul (current_mid s) (dadd (dZ 1) (o_drift o)) |>.

Definition snapshot_due (interval_ms now : Z) (s : SymbolState) : bool :=
  interval_ms * NS_PER_MS <=? now - last_snapshot s.

Definition tick_symbol (interval_ms now : Z) (o : Outside) (s : SymbolState) : ub (SymbolState * list Emission) :=
  let s := move_mid o s in
  if snapshot_due interval_ms now s then
    '(s', out) ← emit_snapshot o s; Some (s' <| last_snapshot := now |>, out)
  else emit_incremental o s.

(** [tick_all]: every symbol, in order. *)
Fixpoint tick_all (interval_ms now : Z) (os : list Outside) (ss : list SymbolState)
    : ub (list SymbolState * list Emission) :=
  match ss, os with
  | s :: ss', o :: os' =>
      '(s', out) ← tick_symbol interval_ms now o s;
      '(ss'', out') ← tick_all interval_ms now os' ss';
      Some (s' :: ss'', out ++ out')
  | _, _ => Some (ss, [])
  end.

(** ** The simulator *)

Inductive LoopPc :=
  | LIdle                     (* not started, or ended *)
  | LStart                    (* before the choice of the mode *)
  | LContinuous
  | LWait (last_burst_end burst_sleep : Z)
  | LBurst (burst_end burst_sleep : Z).

Record Simulator := mkSimulator {
  states_ : list SymbolState;
  has_callback : bool;
  snapshot_interval_ms_ : Z;
  incremental_hz_ : Z;
  burst_interval_ms_ : Z;
  burst_multiplier_ : Z;
  burst_duration_ms_ : Z;
  paused_ : bool;
  running_ : bool;
  loop : LoopPc;
  slept_ms : Z;               (* the argument of the last [sleep_for] *)
  emitted : list Emission;
}.
#[export] Instance Simulator_settable : Settable Simulator :=
  fun s => mkSimulator (states_ s) (has_callback s) (snapshot_interval_ms_ s) (incremental_hz_ s)
    (burst_interval_ms_ s) (burst_multiplier_ s) (burst_duration_ms_ s) (paused_ s) (running_ s)
    (loop s) (slept_ms s) (emitted s).

Definition new_simulator : Simulator :=
  mkSimulator [] false 5000 10 0 10 2000 false false LIdle 0 [].

Definition add_symbol (sym : SimulatedSymbol) (s : Simulator) : Simulator :=
  if running_ s then s else s <| states_ := states_ s ++ [new_symbol sym] |>.

(** [set_incremental_hz] and [set_hz] *)
Definition set_hz (hz : Z) (s : Simulator) : Simulator :=
  s <| incremental_hz_ := if 0 <? hz then hz else 1 |>.

Definition set_paused (paused : bool) (s : Simulator) : Simulator := s <| paused_ := paused |>.

Definition set_burst_params (interval_ms multiplier duration_ms : Z) (s : Simulator) : Simulator :=
  s <| burst_interval_ms_ := interval_ms |>
    <| burst_multiplier_ := if 1 <? multiplier then multiplier else 2 |>
    <| burst_duration_ms_ := if 0 <? duration_ms then duration_ms else 1000 |>.

Definition set_snapshot_interval_ms (ms : Z) (s : Simulator) : Simulator := s <| snapshot_interval_ms_ := ms |>.

Definition set_callback (s : Simulator) : Simulator := s <| has_callback := true |>.

Definition start (s : Simulator) : Simulator :=
  if running_ s || bool_decide (states_ s = []) || negb (has_callback s) then s
  else s <| running_ := true |> <| loop := LStart |>.

(** [stop] without the join, which waits for [loop] to become [LIdle]. *)
Definition stop (s : Simulator) : Simulator := s <| running_ := false |>.

(** [std::max(1, 1000 / rate)] *)
Definition sleep_of (rate : Z) : ub Z := if rate =? 0 then None else Some (Z.max 1 (Z.quot 1000 rate)).

Definition tick (now : Z) (os : list Outside) (s : Simulator) : ub Simulator :=
  '(ss, out) ← tick_all (snapshot_interval_ms_ s) now os (states_ s);
  Some (s <| states_ := ss |> <| emitted := emitted s ++ out |>).

(** [incremental_hz_ * burst_multiplier_], in [int]. *)
Definition burst_rate (s : Simulator) : ub Z := ub_int (incremental_hz_ s * burst_multiplier_ s).

(** One turn of the loop the thread is in, at time [now].  The sleep between
    the ticks of a burst is fixed when the thread starts, and the first burst
    comes after a whole interval. *)
Definition loop_step (now : Z) (os : list Outside) (s : Simulator) : ub Simulator :=
  match loop s with
  | LIdle => Some s
  | LStart =>
      if 0 <? burst_interval_ms_ s then
        rate ← burst_rate s; ms ← sleep_of rate; Some (s <| loop := LWait now ms |>)
      else Some (s <| loop := LContinuous |>)
  | LContinuous =>
      if negb (running_ s) then Some (s <| loop := LIdle |>)
      else if paused_ s then Some (s <| slept_ms := 10 |>)
      else s' ← tick now os s; ms ← sleep_of (incremental_hz_ s); Some (s' <| slept_ms := ms |>)
  | LWait last_burst_end burst_sleep =>
      if negb (running_ s) then Some (s <| loop := LIdle |>)
      else if burst_interval_ms_ s <=? Z.quot (now - last_burst_end) NS_PER_MS
           then _ ← burst_rate s;
                Some (s <| loop := LBurst (now + burst_duration_ms_ s * NS_PER_MS) burst_sleep |>)
           else Some (s <| slept_ms := 10 |>)
  | LBurst burst_end burst_sleep =>
      if running_ s && (now <? burst_end) then
        s' ← tick now os s; Some (s' <| slept_ms := burst_sleep |>)
      else Some (s <| loop := LWait now burst_sleep |>)
  end.

(** The setters, which other threads may call at any time. *)
Inductive control : Simulator -> Simulator -> Prop :=
  | c_add sym s : control s (add_symbol sym s)
  | c_hz hz s : control s (set_hz hz s)
  | c_pause p s : control s (set_paused p s)
  | c_burst i m d s : running_ s = false -> loop s = LIdle -> control s (set_burst_params i m d s)
  | c_interval ms s : running_ s = false -> loop s = LIdle -> control s (set_snapshot_interval_ms ms s)
  | c_callback s : running_ s = false -> loop s = LIdle -> control s (set_callback s)
  | c_start s : loop s = LIdle -> control s (start s)
  | c_stop s : control s (stop s).

Inductive sim_step : Simulator -> Simulator -> Prop :=
  | s_control s s' : control s s' -> sim_step s s'
  | s_loop now os s s' : length os = length (states_ s) -> loop_step now os s = Some s' -> sim_step s s'.

(** ** What a tick emits *)

Lemma dispatch_built incremental symbol es seq t ms :
  FIX_SOH ∉ symbol -> int_prints seq ->
  Forall (fun e => int_prints (entry_type e) /\ int_prints (update_action e)) es ->
  let raw := use_type incremental symbol es seq true t ms in
  dispatch raw = Some [(raw, built_message incremental symbol es seq t ms)].
Proof. intros Hsym Hseq Hes raw. unfold dispatch, raw. by rewrite built_parses. Qed.

Lemma make_levels_some mid spread_pct step depth :
  0 <= depth <= 2 ^ 29 ->
  exists es, make_levels mid spread_pct step depth = Some es /\ length es = Z.to_nat (2 * depth) /\
    Forall (fun e => int_prints (entry_type e) /\ int_prints (update_action e)) es.
Proof.
  intros Hd. unfold make_levels. rewrite ub_int_some by (unfold INT_MIN, INT_MAX; lia). cbn [mbind option_bind].
  rewrite (proj2 (Z.ltb_ge _ _)) by lia. eexists. split; [done|]. split.
  - rewrite length_app, !length_map, !length_seqZ. lia.
  - apply Forall_app. split; apply Forall_map, Forall_true; done.
Qed.

Lemma next_seq_some s : 0 <= seq_num s < INT_MAX -> next_seq s = Some (s <| seq_num := seq_num s + 1 |>).
Proof. intros Hs. unfold next_seq. rewrite ub_int_some; [done|]. unfold INT_MIN, INT_MAX in *; lia. Qed.

(** A symbol that can be simulated: at least one level, a name without the
    delimiter, and sequence numbers left. *)
Definition simulable (s : SymbolState) : Prop :=
  (FIX_SOH ∉ ss_symbol (config s)) /\ 1 <= ss_depth_levels (config s) <= 2 ^ 29 /\ 1 <= seq_num s < INT_MAX.

(** The draws lie in the ranges of their distributions. *)
Definition drawn (o : Outside) (s : SymbolState) : Prop :=
  0 <= o_side o <= 1 /\ 0 <= o_level o < ss_depth_levels (config s).

(** The message a symbol is due: a full snapshot of the levels around its mid
    price, or one changed level. *)
Definition due_message (due : bool) (o : Outside) (s : SymbolState) (msg : FIXMessage) : Prop :=
  let s := move_mid o s in
  fix_symbol msg = ss_symbol (config s) /\ FixParser.seq_num msg = seq_num s /\
  if due then
    msg_type msg = MarketDataSnapshot /\
    exists levels, make_levels (offset_mid s) (ss_spread_pct (config s)) (price_step s) (ss_depth_levels (config s)) = Some levels /\
      length levels = Z.to_nat (2 * ss_depth_levels (config s)) /\
      md_entries msg = take 32 (map (reread_entry false) levels)
  else msg_type msg = MarketDataIncremental /\ md_entries msg = [reread_entry true (update_entry o s)].

Lemma move_mid_config o s : config (move_mid o s) = config s /\ seq_num (move_mid o s) = seq_num s /\
  last_snapshot (move_mid o s) = last_snapshot s.
Proof. unfold move_mid. destruct (o_oracle o) as [m|]; [destruct (dgt m dzero)|]; done. Qed.

(** The symbol after its tick. *)
Definition ticked (interval_ms now : Z) (o : Outside) (s : SymbolState) : SymbolState :=
  (move_mid o s) <| seq_num := seq_num s + 1 |>
    <| last_snapshot := if snapshot_due interval_ms now s then now else last_snapshot s |>.

Lemma tick_symbol_due interval_ms now o s :
  simulable s -> drawn o s ->
  let due := snapshot_due interval_ms now s in
  exists raw msg, due_message due o s msg /\ parse raw = Some (true, msg) /\
    tick_symbol interval_ms now o s =
      Some (ticked interval_ms now o s, [(raw, msg)]).
Proof.
  intros (Hsym & Hd & Hseq) [Hside Hlev] due. destruct (move_mid_config o s) as (Ec & Es & El).
  unfold tick_symbol, due_message. cbv zeta. unfold ticked. fold due. set (s1 := move_mid o s) in *.
  assert (Edue : snapshot_due interval_ms now s1 = due) by (unfold snapshot_due; by rewrite El). rewrite Edue.
  assert (Hp : int_prints (seq_num s1)) by (unfold int_prints, INT_MIN, INT_MAX in *; lia).
  assert (Hn : next_seq s1 = Some (s1 <| seq_num := seq_num s + 1 |>)) by (rewrite next_seq_some, Es; [done|lia]).
  rewrite <-Ec in Hsym, Hd. destruct due.
  - destruct (make_levels_some (offset_mid s1) (ss_spread_pct (config s1)) (price_step s1) (ss_depth_levels (config s1)))
      as (es & Em & Elen & Hes); [lia|].
    exists (build_snapshot (ss_symbol (config s1)) es (seq_num s1) true (o_time o) (o_ms o)),
      (built_message false (ss_symbol (config s1)) es (seq_num s1) (o_time o) (o_ms o)).
    split; [|split; [exact (built_parses false _ es _ _ _ Hsym Hp Hes)|]].
    + split; [reflexivity|]. split; [reflexivity|]. split; [reflexivity|]. exists es.
      split; [exact Em|]. split; [exact Elen|]. apply md_entries_with.
    + unfold emit_snapshot. rewrite Em. cbn [mbind option_bind]. rewrite Hn. cbn [mbind option_bind].
      pose proof (dispatch_built false _ es _ (o_time o) (o_ms o) Hsym Hp Hes) as Ho. cbv zeta in Ho. unfold use_type in Ho.
      by rewrite Ho.
  - set (es := [update_entry o s1]).
    assert (Hes : Forall (fun e => int_prints (entry_type e) /\ int_prints (update_action e)) es).
    { constructor; [|constructor]. simpl. unfold int_prints, INT_MIN, INT_MAX. split; [lia|]. done. }
    exists (build_incremental (ss_symbol (config s1)) es (seq_num s1) true (o_time o) (o_ms o)),
      (built_message true (ss_symbol (config s1)) es (seq_num s1) (o_time o) (o_ms o)).
    split; [|split; [exact (built_parses true _ es _ _ _ Hsym Hp Hes)|]].
    + split_and!; [done|done|done|]. unfold built_message. by rewrite md_entries_with.
    + unfold emit_incremental. fold es. rewrite (proj2 (Z.ltb_ge _ _)) by lia. rewrite Hn. cbn [mbind option_bind].
      pose proof (dispatch_built true _ es _ (o_time o) (o_ms o) Hsym Hp Hes) as Ho. cbv zeta in Ho. unfold use_type in Ho.
      rewrite Ho. cbn [mbind option_bind]. rewrite <-El. by destruct s1.
Qed.

(** C13: One tick of the simulator.  Every symbol, in the order it was added,
    emits exactly one message, whose text the parser accepts and whose parsed
    form is the one handed over: a full snapshot of the levels around its
    oracle-anchored mid price when the snapshot interval has passed, else one
    changed level.  Its sequence number goes up by one and its snapshot time
    moves only on a snapshot.  A snapshot of more than 16 levels a side loses
    its deepest entries to the parser's array of 32. *)
Theorem simulator_tick interval_ms now (os : list Outside) (ss : list SymbolState) :
  Forall simulable ss -> Forall2 drawn os ss ->
  exists out, tick_all interval_ms now os ss = Some (zip_with (ticked interval_ms now) os ss, out) /\
    Forall3 (fun o s e => parse e.1 = Some (true, e.2) /\ due_message (snapshot_due interval_ms now s) o s e.2) os ss out.
Proof.
  intros Hs Hd. induction Hd as [|o s os ss Hd _ IH]; [by exists []; split; [|constructor]|].
  apply Forall_cons in Hs as [Hs Hss]. destruct (IH Hss) as (out & E & Hout).
  destruct (tick_symbol_due interval_ms now o s Hs Hd) as (raw & msg & Hdue & Hp & Et).
  exists ((raw, msg) :: out). cbn [tick_all zip_with]. rewrite Et. cbn [mbind option_bind].
  rewrite E. split; [done|]. by constructor.
Qed.

Lemma simulator_tick_witness :
  exists (os : list Outside) (ss : list SymbolState) out,
    tick_all 5000 9000000000 os ss = Some (zip_with (ticked 5000 9000000000) os ss, out) /\
    map (fun e => (fix_symbol e.2, msg_type e.2, length (md_entries e.2))) out =
      [($"BTCUSD", MarketDataSnapshot, 32%nat); ($"ETHUSD", MarketDataIncremental, 1%nat)].
Proof.
  set (btc := mkSimulatedSymbol $"BTCUSD" (dZ 65000) (dlit 1 1000) dzero 17 dzero).
  set (eth := mkSimulatedSymbol $"ETHUSD" (dZ 3000) (dlit 1 1000) dzero 5 dzero).
  set (o := mkOutside (Some (dZ 64000)) dzero 1 2 dzero (mktm 125 0 2 3 4 5) 6).
  set (ss := [new_symbol btc; (new_symbol eth) <| last_snapshot := 8000000000 |>]).
  destruct (simulator_tick 5000 9000000000 [o; o] ss) as (out & E & Hout).
  - repeat constructor; try by apply (bool_decide_eq_false_1 _).
  - repeat constructor; done.
  - exists [o; o], ss, out. split; [exact E|]. clear Hout. revert E. vm_compute. intros [= <-]. reflexivity.
Defined.

(** ** The simulator's thread *)

Inductive reachable : Simulator -> Prop :=
  | r_new : reachable new_simulator
  | r_step s s' : reachable s -> sim_step s s' -> reachable s'.

(** What every reachable simulator satisfies: a positive rate, a multiplier of
    at least two, a burst that lasts, sleeps between a millisecond and a
    second, and a thread that runs only with a callback and symbols. *)
Definition sim_wf (s : Simulator) : Prop :=
  1 <= incremental_hz_ s /\ 2 <= burst_multiplier_ s /\ 1 <= burst_duration_ms_ s /\ 0 <= slept_ms s <= 1000 /\
  match loop s with
  | LWait _ ms | LBurst _ ms => 1 <= ms <= 1000
  | _ => True
  end /\
  (loop s = LIdle \/ has_callback s = true /\ states_ s <> []).

Lemma sleep_of_bounds rate ms : 1 <= rate -> sleep_of rate = Some ms -> 1 <= ms <= 1000.
Proof.
  unfold sleep_of. intros H. case_match; [done|]. intros [= <-].
  rewrite Z.quot_div_nonneg by lia. pose proof (Z.div_le_upper_bound 1000 rate 1000). lia.
Qed.

Lemma tick_all_length interval_ms now os ss ss' out :
  tick_all interval_ms now os ss = Some (ss', out) -> length ss' = length ss.
Proof.
  revert os ss' out. induction ss as [|s ss IH]; intros [|o os] ss' out; cbn [tick_all]; try by intros [= <- <-].
  intros E. apply bind_Some in E as ([s1 o1] & _ & E). apply bind_Some in E as ([ss1 out1] & E1 & [= <- <-]).
  simpl. f_equal. by eapply IH.
Qed.

Lemma tick_fields now os s s' :
  tick now os s = Some s' ->
  exists ss out, s' = (s <| states_ := ss |> <| emitted := emitted s ++ out |>) /\ length ss = length (states_ s).
Proof.
  unfold tick. intros E. apply bind_Some in E as ([ss out] & E & [= <-]).
  exists ss, out. split; [done|]. by eapply tick_all_length.
Qed.

Ltac fields := unfold sim_wf; simpl; split_and!; auto; try lia.

Lemma control_wf s s' : control s s' -> sim_wf s -> sim_wf s'.
Proof.
  intros Hc (Hhz & Hm & Hd & Hsl & Hl & Hr). destruct Hc as [sym s|hz s|p s|i m d s|ms s|s|s|s].
  - unfold add_symbol. destruct (running_ s); fields.
    destruct Hr as [?|[? _]]; [by left|right]. by split; [|destruct (states_ s)].
  - unfold set_hz. destruct (Z.ltb_spec 0 hz); fields.
  - fields.
  - unfold set_burst_params. destruct (Z.ltb_spec 1 m), (Z.ltb_spec 0 d); fields.
  - fields.
  - destruct Hr as [?|[_ ?]]; fields.
  - unfold start. destruct (running_ s); [fields|]. case_bool_decide; [fields|].
    destruct (has_callback s) eqn:E; fields.
  - fields.
Qed.

Lemma loop_step_wf now os s s' : loop_step now os s = Some s' -> sim_wf s -> sim_wf s'.
Proof.
  intros E Hwf. pose proof Hwf as (Hhz & Hm & Hd & Hsl & Hl & Hr). unfold loop_step in E.
  destruct (loop s) as [| | |last ms|bend ms] eqn:El.
  - by injection E as <-.
  - destruct Hr as [?|Hr]; [done|]. destruct (0 <? burst_interval_ms_ s); [|injection E as <-; fields].
    apply bind_Some in E as (rate & Er & E). apply bind_Some in E as (ms & Es & [= <-]).
    apply ub_int_val in Er as ->. apply sleep_of_bounds in Es; [fields|nia].
  - destruct Hr as [?|Hr]; [done|]. destruct (negb (running_ s)); [injection E as <-; fields|].
    destruct (paused_ s); [injection E as <-; unfold sim_wf; simpl; rewrite El; split_and!; auto; lia|].
    apply bind_Some in E as (s1 & Et & E). apply bind_Some in E as (ms & Es & [= <-]).
    apply tick_fields in Et as (ss & out & -> & Hlen). apply sleep_of_bounds in Es; [|done].
    unfold sim_wf. simpl. rewrite El. split_and!; auto; try lia. right. split; [tauto|].
    intros ->. destruct Hr as [_ Hr]. by destruct (states_ s).
  - destruct Hr as [?|Hr]; [done|]. destruct (negb (running_ s)); [injection E as <-; fields|].
    destruct (burst_interval_ms_ s <=? _); [|injection E as <-; unfold sim_wf; simpl; rewrite El; split_and!; auto; lia].
    apply bind_Some in E as (rate & Er & [= <-]). fields.
  - destruct Hr as [?|Hr]; [done|]. destruct (running_ s && _); [|injection E as <-; fields].
    apply bind_Some in E as (s1 & Et & [= <-]). apply tick_fields in Et as (ss & out & -> & Hlen).
    unfold sim_wf. simpl. rewrite El. split_and!; auto; try lia. right. split; [tauto|].
    intros ->. destruct Hr as [_ Hr]. by destruct (states_ s).
Qed.

Lemma reachable_wf s : reachable s -> sim_wf s.
Proof.
  induction 1 as [|s s' _ IH Hs].
  - unfold sim_wf. simpl. split_and!; auto; lia.
  - destruct Hs as [s s' Hc|now os s s' _ Hl]; [by eapply control_wf|by eapply loop_step_wf].
Qed.

(** The simulator's thread under any interleaving of its turns with the
    setters.  The rate stays positive, a burst's multiplier at least two and
    its length positive, every sleep is between a millisecond and a second
    (so no division by zero and no spin), and a turn emits only while the
    simulator runs: unpaused in the continuous loop, or inside a burst's
    window, which [paused_] does not stop. *)
Theorem simulator_reachable s :
  reachable s ->
  1 <= incremental_hz_ s /\ 2 <= burst_multiplier_ s /\ 1 <= burst_duration_ms_ s /\ 0 <= slept_ms s <= 1000 /\
  (forall now os s', loop_step now os s = Some s' -> emitted s' <> emitted s ->
     running_ s = true /\ has_callback s = true /\ 1 <= slept_ms s' <= 1000 /\
     ((loop s = LContinuous /\ paused_ s = false) \/ exists bend ms, loop s = LBurst bend ms /\ now < bend)).
Proof.
  intros Hs. pose proof (reachable_wf s Hs) as (Hhz & Hm & Hd & Hsl & Hl & Hr). split_and!; try done; try lia.
  intros now os s' E He. unfold loop_step in E. destruct (loop s) as [| | |last ms|bend ms] eqn:El.
  - by injection E as <-.
  - destruct (0 <? burst_interval_ms_ s); [|by injection E as <-].
    apply bind_Some in E as (rate & _ & E). by apply bind_Some in E as (ms & _ & [= <-]).
  - destruct Hr as [?|Hr]; [done|]. destruct (running_ s); [|by injection E as <-].
    destruct (paused_ s); [by injection E as <-|]. cbn [negb] in E. apply bind_Some in E as (s1 & _ & E).
    apply bind_Some in E as (ms & Es & [= <-]). apply sleep_of_bounds in Es; [|done].
    split_and!; try done; try tauto; simpl; lia.
  - destruct (negb (running_ s)); [by injection E as <-|]. destruct (burst_interval_ms_ s <=? _); [|by injection E as <-].
    by apply bind_Some in E as (rate & _ & [= <-]).
  - destruct Hr as [?|Hr]; [done|]. destruct (running_ s); [|by injection E as <-]. simpl in E.
    destruct (Z.ltb_spec now bend); [|by injection E as <-].
    apply bind_Some in E as (s1 & _ & [= <-]). split_and!; try done; try tauto; simpl; try lia. right. by exists bend, ms.
Qed.

Definition ex_simulator : Simulator :=
  start (set_callback (add_symbol (mkSimulatedSymbol $"BTCUSD" (dZ 65000) (dlit 1 1000) dzero 5 dzero)
    (set_burst_params 30000 10 2000 new_simulator))).

Lemma ex_reachable : reachable ex_simulator.
Proof.
  unfold ex_simulator. eapply r_step; [|by apply s_control, c_start]. eapply r_step; [|by apply s_control, c_callback].
  eapply r_step; [|apply s_control, c_add]. eapply r_step; [|by apply s_control, c_burst]. constructor.
Qed.

Lemma simulator_reachable_witness : reachable ex_simulator /\ slept_ms ex_simulator <= 1000.
Proof.
  split; [exact ex_reachable|]. destruct (simulator_reachable _ ex_reachable) as (_ & _ & _ & [_ H4] & _). exact H4.
Defined.

(** [stop] ends the thread.  Once [running_] is false, two turns bring the
    loop, wherever it is, to its end, with nothing emitted on the way; the one
    exception is a thread not yet past its start whose burst rate does not fit
    an [int]. *)
Theorem simulator_stops s now1 now2 (os1 os2 : list Outside) :
  reachable s -> running_ s = false -> burst_rate s <> None ->
  exists s', (loop_step now1 os1 s ≫= loop_step now2 os2) = Some s' /\
    loop s' = LIdle /\ emitted s' = emitted s /\ states_ s' = states_ s.
Proof.
  intros Hs Hrun Hrate. pose proof (reachable_wf s Hs) as (Hhz & Hm & _). unfold loop_step at 2. rewrite Hrun.
  destruct (loop s) as [| | |last ms|bend ms] eqn:El; cbn [negb mbind option_bind andb].
  2: destruct (0 <? burst_interval_ms_ s); cbn [mbind option_bind].
  2: { destruct (burst_rate s) as [rate|] eqn:Er; [|done]. apply ub_int_val in Er as ->. cbn [mbind option_bind].
       unfold sleep_of. rewrite (proj2 (Z.eqb_neq _ _)) by nia. cbn [mbind option_bind].
       unfold loop_step. simpl. rewrite Hrun. by eexists. }
  all: unfold loop_step; simpl; rewrite ?El, ?Hrun; by eexists.
Qed.

Lemma simulator_stops_witness :
  exists s', (loop_step 1 [] (stop ex_simulator) ≫= loop_step 2 []) = Some s' /\ loop s' = LIdle.
Proof.
  destruct (simulator_stops (stop ex_simulator) 1 2 [] []) as (s' & E & Hl & _).
  - eapply r_step; [exact ex_reachable|]. apply s_control, c_stop.
  - reflexivity.
  - discriminate.
  - by exists s'.
Defined.
