(* ===== verification/OrderBook.v ===== *)
(** * Level 2 order book (src/order_book.hpp, src/order_book.cpp)

    [PriceLevel], [OrderBookSnapshot] and [OrderBook] with every operation of
    the class.  The two sides are ordered maps ([SortedMap]): bids by
    [std::greater], asks by [std::less].  Each method of the class holds the
    book's lock from its first access to its last, so an execution of the
    program is a sequence of whole operations; the clock reading [touch] takes
    is the argument [now].

    The properties: the invariant of both sides and of the levels stored in
    them is preserved by every operation, hence holds of every reachable book;
    each operation's effect on both sides; the read side lists the levels in
    price order and names the best prices; the effect of [prune_crossed]. *)

From Stdlib Require Import Sorted.
From S2P Require Import Prelude Float64 SortedMap Types FixParser.

(** ** Data *)

Record PriceLevel := mkPriceLevel {
  lv_price : double;
  lv_quantity : double;
  lv_order_count : Z;
}.

Record OrderBookSnapshot := mkOrderBookSnapshot {
  sn_symbol : bytes;
  sn_exchange : bytes;
  sn_timestamp_ms : Z;
  sn_is_snapshot : bool;
  sn_bids : list PriceLevel;
  sn_asks : list PriceLevel;
}.
#[export] Instance OrderBookSnapshot_settable : Settable OrderBookSnapshot :=
  fun s => mkOrderBookSnapshot (sn_symbol s) (sn_exchange s) (sn_timestamp_ms s)
    (sn_is_snapshot s) (sn_bids s) (sn_asks s).

Definition snap_empty (s : OrderBookSnapshot) : bool :=
  bool_decide (sn_bids s = []) && bool_decide (sn_asks s = []).
Definition snap_bid_depth (s : OrderBookSnapshot) : nat := length (sn_bids s).
Definition snap_ask_depth (s : OrderBookSnapshot) : nat := length (sn_asks s).

Definition front_price (l : list PriceLevel) : double :=
  match l with [] => dzero | x :: _ => lv_price x end.

Definition snap_best_bid (s : OrderBookSnapshot) : double := front_price (sn_bids s).
Definition snap_best_ask (s : OrderBookSnapshot) : double := front_price (sn_asks s).

Definition snap_mid_price (s : OrderBookSnapshot) : double :=
  match sn_bids s, sn_asks s with
  | _ :: _, _ :: _ => ddiv (dadd (snap_best_bid s) (snap_best_ask s)) (dZ 2)
  | _, _ => dzero
  end.

Definition snap_spread_bps (s : OrderBookSnapshot) : double :=
  if dle (snap_best_bid s) dzero then dzero
  else bps_over (snap_best_ask s) (snap_best_bid s).

Inductive Side := Bid | Ask.

#[export] Instance Side_eq_dec : EqDecision Side.
Proof. solve_decision. Defined.

(** One side of the book. *)
Abbreviation book_side := (list (double * PriceLevel)).

Record OrderBook := mkOrderBook {
  symbol_ : bytes;
  exchange_ : bytes;
  bids_ : book_side;
  asks_ : book_side;
  last_update_ms_ : Z;
  snapshot_count_ : Z;
  update_count_ : Z;
}.
#[export] Instance OrderBook_settable : Settable OrderBook :=
  fun b => mkOrderBook (symbol_ b) (exchange_ b) (bids_ b) (asks_ b) (last_update_ms_ b)
    (snapshot_count_ b) (update_count_ b).

(** [OrderBook::OrderBook] *)
Definition new_book (symbol exchange : bytes) : OrderBook :=
  mkOrderBook symbol exchange [] [] 0 0 0.

(** ** Operations *)

Definition touch (now : Z) (b : OrderBook) : OrderBook := b <| last_update_ms_ := now |>.

(** The comparison of each side. *)
Definition before (s : Side) : double -> double -> bool :=
  match s with Bid => dgt | Ask => dlt end.

(** [bids_[price] = level] or [asks_[price] = level] *)
Definition put (s : Side) (price : double) (level : PriceLevel) (b : OrderBook) : OrderBook :=
  match s with
  | Bid => b <| bids_ := sm_assign dgt price level (bids_ b) |>
  | Ask => b <| asks_ := sm_assign dlt price level (asks_ b) |>
  end.

(** [bids_.erase(price)] or [asks_.erase(price)] *)
Definition drop_level (s : Side) (price : double) (b : OrderBook) : OrderBook :=
  match s with
  | Bid => b <| bids_ := sm_erase dgt price (bids_ b) |>
  | Ask => b <| asks_ := sm_erase dlt price (asks_ b) |>
  end.

Definition side_of (entry_type : Z) : option Side :=
  if entry_type =? MDEntryType_Bid then Some Bid
  else if entry_type =? MDEntryType_Ask then Some Ask
  else None.

Definition level_of (e : MDEntry) : PriceLevel := mkPriceLevel (price e) (quantity e) 0.

(** The body of the loop of [apply_snapshot]. *)
Definition snapshot_entry (b : OrderBook) (e : MDEntry) : OrderBook :=
  match side_of (entry_type e) with
  | Some s => put s (price e) (level_of e) b
  | None => b
  end.

(** What precedes it: both sides cleared, and the symbol of the message taken
    by a book that has none. *)
Definition fresh_sides (msg : FIXMessage) (b : OrderBook) : OrderBook :=
  let b := b <| bids_ := [] |> <| asks_ := [] |> in
  if bool_decide (symbol_ b = []) && negb (bool_decide (fix_symbol msg = []))
  then b <| symbol_ := fix_symbol msg |> else b.

Definition apply_snapshot (now : Z) (msg : FIXMessage) (b : OrderBook) : OrderBook :=
  if negb (bool_decide (msg_type msg = MarketDataSnapshot)) then b
  else
    let b := fresh_sides msg b in
    let b := foldl snapshot_entry b (md_entries msg) in
    let b := touch now b in
    b <| snapshot_count_ := wrap64 (snapshot_count_ b + 1) |>.

Definition apply_md_entry (b : OrderBook) (e : MDEntry) : OrderBook :=
  match side_of (entry_type e) with
  | None => b
  | Some s =>
      if (update_action e =? MDUpdateAction_New) || (update_action e =? MDUpdateAction_Change)
      then put s (price e) (level_of e) b
      else if update_action e =? MDUpdateAction_Delete then drop_level s (price e) b
      else b
  end.

Definition apply_update (now : Z) (msg : FIXMessage) (b : OrderBook) : OrderBook :=
  if negb (bool_decide (msg_type msg = MarketDataIncremental)) then b
  else
    let b := foldl apply_md_entry b (md_entries msg) in
    let b := touch now b in
    b <| update_count_ := wrap64 (update_count_ b + 1) |>.

Definition set_level (now : Z) (s : Side) (price quantity : double) (order_count : Z)
    (b : OrderBook) : OrderBook :=
  touch now (put s price (mkPriceLevel price quantity order_count) b).

Definition delete_level (now : Z) (s : Side) (price : double) (b : OrderBook) : OrderBook :=
  touch now (drop_level s price b).

Definition clear (now : Z) (b : OrderBook) : OrderBook :=
  touch now (b <| bids_ := [] |> <| asks_ := [] |>).

(** The loop of [prune_crossed]: it erases [begin()] of the bids, so it is a
    recursion on the list of bids. *)
Fixpoint prune_bids (asks bids : book_side) : book_side :=
  match bids, asks with
  | (bp, lv) :: bids', (ap, _) :: _ =>
      if dge bp ap then prune_bids asks bids' else bids
  | _, _ => bids
  end.

Definition prune_crossed (b : OrderBook) : OrderBook :=
  b <| bids_ := prune_bids (asks_ b) (bids_ b) |>.

(** ** Read side *)

Definition get_snapshot (b : OrderBook) : OrderBookSnapshot :=
  mkOrderBookSnapshot (symbol_ b) (exchange_ b) (last_update_ms_ b) true
    (map snd (bids_ b)) (map snd (asks_ b)).

(** [m.empty() ? 0.0 : m.begin()->second.price] *)
Definition first_price (m : book_side) : double :=
  match m with [] => dzero | (_, lv) :: _ => lv_price lv end.

Definition best_bid (b : OrderBook) : double := first_price (bids_ b).
Definition best_ask (b : OrderBook) : double := first_price (asks_ b).

Definition mid_price (b : OrderBook) : double :=
  match bids_ b, asks_ b with
  | (_, bl) :: _, (_, al) :: _ => ddiv (dadd (lv_price bl) (lv_price al)) (dZ 2)
  | _, _ => dzero
  end.

Definition spread_bps (b : OrderBook) : double :=
  match bids_ b, asks_ b with
  | (_, bl) :: _, (_, al) :: _ =>
      let bid := lv_price bl in
      if dle bid dzero then dzero else bps_over (lv_price al) bid
  | _, _ => dzero
  end.

Definition bid_depth (b : OrderBook) : nat := length (bids_ b).
Definition ask_depth (b : OrderBook) : nat := length (asks_ b).
Definition empty (b : OrderBook) : bool :=
  bool_decide (bids_ b = []) && bool_decide (asks_ b = []).

(** ** Invariant and reachability *)

(** A side is an ordered map whose levels carry the price they are stored
    under. *)
Definition side_wf (s : Side) (m : book_side) : Prop :=
  sm_wf (before s) m /\ Forall (fun e => deq (fst e) (lv_price (snd e)) = true) m.

Definition book_wf (b : OrderBook) : Prop := side_wf Bid (bids_ b) /\ side_wf Ask (asks_ b).

(** No price of a market data message is NaN. *)
Definition priced (msg : FIXMessage) : Prop :=
  Forall (fun e => is_nan (price e) = false) (md_entries msg).

(** One operation on a book, with its clock reading. *)
Inductive book_step : OrderBook -> OrderBook -> Prop :=
  | step_snapshot now msg b : priced msg -> book_step b (apply_snapshot now msg b)
  | step_update now msg b : priced msg -> book_step b (apply_update now msg b)
  | step_set now s p q n b : is_nan p = false -> book_step b (set_level now s p q n b)
  | step_delete now s p b : book_step b (delete_level now s p b)
  | step_clear now b : book_step b (clear now b)
  | step_prune b : book_step b (prune_crossed b).

Definition levels (s : Side) (b : OrderBook) : book_side :=
  match s with Bid => bids_ b | Ask => asks_ b end.
Definition other (s : Side) : Side := match s with Bid => Ask | Ask => Bid end.

(** The level stored on a side at a price. *)
Definition level_at (s : Side) (p : double) (b : OrderBook) : option PriceLevel :=
  sm_find (before s) p (levels s b).

Definition ex_level (p q : Z) : PriceLevel := mkPriceLevel (dZ p) (dZ q) 0.

Example prune_example :
  let b := set_level 1 Bid (dZ 101) (dZ 1) 0
             (set_level 1 Bid (dZ 100) (dZ 2) 0
               (set_level 1 Bid (dZ 99) (dZ 3) 0
                 (set_level 1 Ask (dZ 100) (dZ 4) 0 (new_book $"BTC-USD" $"FIX")))) in
  map snd (bids_ (prune_crossed b)) = [ex_level 99 3].
Proof. vm_compute. reflexivity. Qed.

(** ** The comparison of a side *)

#[export] Instance before_order s : KeyOrder (before s).
Proof. destruct s; apply _. Qed.

(** ** One side at a time *)

Lemma levels_put s s' p lv b :
  levels s (put s' p lv b) = if bool_decide (s = s') then sm_assign (before s) p lv (levels s b) else levels s b.
Proof. by destruct s, s'. Qed.

Lemma levels_drop s s' p b :
  levels s (drop_level s' p b) = if bool_decide (s = s') then sm_erase (before s) p (levels s b) else levels s b.
Proof. by destruct s, s'. Qed.

Lemma levels_touch s now b : levels s (touch now b) = levels s b.
Proof. by destruct s. Qed.

Lemma book_wf_levels b : book_wf b <-> forall s, side_wf s (levels s b).
Proof. split; [intros [H1 H2] []; done|]. intros H. split; [apply (H Bid)|apply (H Ask)]. Qed.

Lemma same_key_deq s k k' :
  is_nan k = false -> is_nan k' = false -> same_key (before s) k k' = deq k k'.
Proof.
  intros Hk Hk'. rewrite deq_dlt by done. unfold same_key.
  destruct s; simpl; [|done]. unfold dgt. apply andb_comm.
Qed.

Lemma deq_sym k k' : is_nan k = false -> is_nan k' = false -> deq k k' = deq k' k.
Proof. intros. rewrite <-!(same_key_deq Ask) by done. apply same_key_sym. Qed.

(** ** Preservation of the invariant *)

Lemma side_wf_nil s : side_wf s [].
Proof. split; [apply sm_wf_nil|constructor]. Qed.

Lemma side_wf_assign s p lv m :
  is_nan p = false -> lv_price lv = p -> side_wf s m -> side_wf s (sm_assign (before s) p lv m).
Proof.
  intros Hp <- [Hwf Hk]. split; [by apply assign_wf; [apply _|..]|]. apply Forall_assign; [by apply deq_refl| |done].
  intros k' v' Hin Hs. destruct Hwf as [_ Hn]. rewrite Forall_forall in Hn.
  specialize (Hn _ Hin). simpl in *. by rewrite <-(same_key_deq s), same_key_sym.
Qed.

Lemma side_wf_erase s p m : side_wf s m -> side_wf s (sm_erase (before s) p m).
Proof. intros [Hwf Hk]. split; [by apply erase_wf|by apply Forall_erase]. Qed.

Lemma side_wf_tail s e m : side_wf s (e :: m) -> side_wf s m.
Proof.
  destruct e as [k v]. intros [Hwf [_ Hk]%Forall_cons]. apply sm_wf_cons_inv in Hwf as (_ & Hwf & _).
  by split.
Qed.

Lemma put_wf s p lv b :
  is_nan p = false -> lv_price lv = p -> book_wf b -> book_wf (put s p lv b).
Proof.
  rewrite !book_wf_levels. intros Hp Hlv Hb s'. rewrite levels_put.
  case_bool_decide; [by apply side_wf_assign|done].
Qed.

Lemma drop_level_wf s p b : book_wf b -> book_wf (drop_level s p b).
Proof.
  rewrite !book_wf_levels. intros Hb s'. rewrite levels_drop.
  case_bool_decide; [by apply side_wf_erase|done].
Qed.

Lemma prune_bids_wf asks bids : side_wf Bid bids -> side_wf Bid (prune_bids asks bids).
Proof.
  induction bids as [|[bp lv] bids IH]; [done|]. intros Hwf. simpl. destruct asks as [|[ap alv] asks]; [done|].
  destruct (dge bp ap); [|done]. by eapply IH, side_wf_tail.
Qed.

#[export] Hint Resolve side_wf_nil put_wf drop_level_wf prune_bids_wf : tickplant.

Lemma snapshot_entry_wf b e : is_nan (price e) = false -> book_wf b -> book_wf (snapshot_entry b e).
Proof. intros He Hb. unfold snapshot_entry. destruct (side_of (entry_type e)); auto with tickplant. Qed.

Lemma apply_md_entry_wf b e : is_nan (price e) = false -> book_wf b -> book_wf (apply_md_entry b e).
Proof.
  intros He Hb. unfold apply_md_entry. destruct (side_of (entry_type e)); [|done].
  repeat case_match; auto with tickplant.
Qed.

Lemma book_step_wf b b' : book_wf b -> book_step b b' -> book_wf b'.
Proof.
  intros Hb Hs. destruct Hs; unfold apply_snapshot, apply_update, set_level, delete_level, clear, prune_crossed.
  - case_bool_decide; simpl; [|done].
    apply (Forall_foldl_ind (fun e => is_nan (price e) = false) book_wf); [|done|].
    + unfold fresh_sides. destruct (_ && _); split; apply side_wf_nil.
    + intros ? ?; by apply snapshot_entry_wf.
  - case_bool_decide; simpl; [|done].
    apply (Forall_foldl_ind (fun e => is_nan (price e) = false) book_wf); [done..|].
    intros ? ?; by apply apply_md_entry_wf.
  - by apply put_wf.
  - by apply drop_level_wf.
  - split; apply side_wf_nil.
  - destruct Hb. split; simpl; auto with tickplant.
Qed.

Lemma new_book_wf s e : book_wf (new_book s e).
Proof. split; apply side_wf_nil. Qed.

(** ** Lookup after each operation *)

Lemma side_wf_sm s m : side_wf s m -> sm_wf (before s) m.
Proof. by intros []. Qed.

Lemma level_at_put s s' p p' lv b :
  is_nan p = false -> is_nan p' = false -> book_wf b ->
  level_at s p (put s' p' lv b) =
    if bool_decide (s = s') && deq p p' then Some lv else level_at s p b.
Proof.
  rewrite book_wf_levels. intros Hp Hp' Hb. unfold level_at. rewrite levels_put.
  case_bool_decide; [|done]. subst.
  rewrite find_assign by first [apply _ | done | apply Hb]. by rewrite same_key_deq.
Qed.

Lemma level_at_drop s s' p p' b :
  is_nan p = false -> is_nan p' = false -> book_wf b ->
  level_at s p (drop_level s' p' b) =
    if bool_decide (s = s') && deq p p' then None else level_at s p b.
Proof.
  rewrite book_wf_levels. intros Hp Hp' Hb. unfold level_at. rewrite levels_drop.
  case_bool_decide; [|done]. subst.
  rewrite find_erase by first [apply _ | done | apply Hb]. by rewrite same_key_deq.
Qed.


(** The entries of a message that set or clear the level of side [s] at [p],
    and what the last of them leaves. *)
Definition touches (s : Side) (p : double) (e : MDEntry) : bool :=
  bool_decide (side_of (entry_type e) = Some s) && deq p (price e).

Definition last_level (s : Side) (p : double) (es : list MDEntry) : option PriceLevel :=
  level_of <$> head (reverse (filter (fun e => touches s p e = true) es)).

(** What the update actions of [es], in order, make of the level [old]. *)
Definition updated_level (s : Side) (p : double) (old : option PriceLevel) (es : list MDEntry)
    : option PriceLevel :=
  foldl (fun old e =>
    if negb (touches s p e) then old
    else if (update_action e =? MDUpdateAction_New) || (update_action e =? MDUpdateAction_Change)
         then Some (level_of e)
    else if update_action e =? MDUpdateAction_Delete then None
    else old) old es.

Lemma level_at_snapshot_entry s p b e :
  is_nan p = false -> is_nan (price e) = false -> book_wf b ->
  level_at s p (snapshot_entry b e) = if touches s p e then Some (level_of e) else level_at s p b.
Proof.
  intros Hp He Hb. unfold snapshot_entry, touches.
  destruct (side_of (entry_type e)) as [s'|]; [|done].
  rewrite level_at_put by done. by destruct s, s'.
Qed.

Lemma level_at_md_entry s p b e :
  is_nan p = false -> is_nan (price e) = false -> book_wf b ->
  level_at s p (apply_md_entry b e) = updated_level s p (level_at s p b) [e].
Proof.
  intros Hp He Hb. unfold apply_md_entry, updated_level, touches. simpl.
  destruct (side_of (entry_type e)) as [s'|]; [|done].
  destruct (_ || _); [|destruct (update_action e =? MDUpdateAction_Delete)].
  - rewrite level_at_put by done. destruct s, s'; simpl; by destruct (deq p (price e)).
  - rewrite level_at_drop by done. destruct s, s'; simpl; by destruct (deq p (price e)).
  - by destruct (negb _).
Qed.

Lemma level_at_entries s p es b :
  is_nan p = false -> Forall (fun e => is_nan (price e) = false) es -> book_wf b ->
  level_at s p (foldl snapshot_entry b es) =
    match last_level s p es with Some lv => Some lv | None => level_at s p b end.
Proof.
  intros Hp. induction es as [|e es IH] using rev_ind; intros Hes Hb; [done|].
  apply Forall_app in Hes as [Hes [He _]%Forall_cons].
  rewrite foldl_snoc, level_at_snapshot_entry; [|done|done|].
  - rewrite IH by done. unfold last_level. rewrite filter_app, filter_cons, filter_nil, reverse_app.
    destruct (touches s p e); simpl; done.
  - apply (Forall_foldl_ind (fun e => is_nan (price e) = false) book_wf); [done..|].
    intros ? ?; by apply snapshot_entry_wf.
Qed.

Lemma level_at_updates s p es b :
  is_nan p = false -> Forall (fun e => is_nan (price e) = false) es -> book_wf b ->
  level_at s p (foldl apply_md_entry b es) = updated_level s p (level_at s p b) es.
Proof.
  intros Hp. revert b. induction es as [|e es IH]; intros b Hes Hb; [done|].
  apply Forall_cons in Hes as [He Hes]. cbn [foldl].
  rewrite IH by first [done | by apply apply_md_entry_wf]. by rewrite level_at_md_entry.
Qed.

(** ** Pruning *)

Lemma prune_bids_filter ap alv asks bids :
  side_wf Bid bids -> is_nan ap = false ->
  prune_bids ((ap, alv) :: asks) bids = filter (fun e => dlt (fst e) ap = true) bids.
Proof.
  intros Hwf Hap. induction bids as [|[bp lv] bids IH]; [done|].
  pose proof (side_wf_sm _ _ Hwf) as (Hbp & Hm & Hb)%sm_wf_cons_inv.
  simpl. unfold dge. rewrite dle_dlt by done. rewrite filter_cons. simpl.
  destruct (dlt bp ap) eqn:E; simpl.
  - f_equal. symmetry. apply filter_all. destruct Hm as [_ Hn]. rewrite Forall_forall in Hb, Hn |- *.
    intros [k v] He. apply (dlt_trans k bp ap); try done; [exact (Hn _ He)|exact (Hb _ He)].
  - apply IH. by eapply side_wf_tail.
Qed.

Lemma prune_bids_no_ask bids : prune_bids [] bids = bids.
Proof. by destruct bids as [|[]]. Qed.

(** ** Read side *)

Lemma side_wf_value_price s m p lv :
  side_wf s m -> (p, lv) ∈ m -> is_nan p = false /\ is_nan (lv_price lv) = false /\ deq p (lv_price lv) = true.
Proof.
  intros [[_ Hn] Hk] Hin. rewrite Forall_forall in Hn, Hk.
  specialize (Hn _ Hin). specialize (Hk _ Hin). simpl in *. repeat split; [done| |done].
  by destruct p as [|[]| |], (lv_price lv) as [|[]| |].
Qed.

(** The order of the levels is the order of their keys. *)
Lemma before_level s m p lv p' lv' :
  side_wf s m -> (p, lv) ∈ m -> (p', lv') ∈ m -> before s p p' = before s (lv_price lv) (lv_price lv').
Proof.
  intros Hwf H1 H2.
  destruct (side_wf_value_price _ _ _ _ Hwf H1) as (N1 & N2 & E1).
  destruct (side_wf_value_price _ _ _ _ Hwf H2) as (N3 & N4 & E2).
  rewrite (before_same_l (before s) p (lv_price lv)), (before_same_r (before s) p' (lv_price lv'));
    try done; by rewrite same_key_deq.
Qed.

Lemma side_levels_sorted s m :
  side_wf s m -> StronglySorted (fun a b => before s (lv_price a) (lv_price b) = true) (map snd m).
Proof.
  induction m as [|[p lv] m IH]; intros Hwf; [constructor|]. simpl.
  pose proof (side_wf_sm _ _ Hwf) as (Hp & Hm & Hb)%sm_wf_cons_inv.
  constructor; [by eapply IH, side_wf_tail|].
  rewrite Forall_forall in Hb. apply Forall_forall. intros lv' ([p' lv''] & -> & Hin)%list_elem_of_fmap. simpl.
  rewrite <-(before_level s _ p lv p' lv'' Hwf); [exact (Hb _ Hin)|apply list_elem_of_here|].
  by apply list_elem_of_further.
Qed.

(** No level of a side is better than the first. *)
Lemma front_is_best s m lv :
  side_wf s m -> lv ∈ map snd m -> before s (lv_price lv) (first_price m) = false.
Proof.
  destruct m as [|[p lv0] m]; intros Hwf Hin; [by apply elem_of_nil in Hin|].
  apply list_elem_of_fmap in Hin as ([p' lv'] & -> & Hin). simpl.
  rewrite <-(before_level s _ p' lv' p lv0 Hwf Hin) by apply list_elem_of_here.
  pose proof (side_wf_sm _ _ Hwf) as (Hp & Hm & Hb)%sm_wf_cons_inv.
  apply elem_of_cons in Hin as [[= -> ->]|Hin]; [by apply before_irrefl|].
  destruct Hm as [_ Hn]. rewrite Forall_forall in Hb, Hn.
  by apply (before_asym _ p p' Hp (Hn _ Hin)), (Hb _ Hin).
Qed.

(** What is left on both sides after pruning is uncrossed. *)
Lemma prune_uncrossed b :
  book_wf b -> bids_ (prune_crossed b) <> [] -> asks_ b <> [] ->
  dlt (best_bid (prune_crossed b)) (best_ask b) = true.
Proof.
  intros [Hbid Hask] Hb Ha. unfold best_bid, best_ask, prune_crossed in *. simpl in *.
  pose proof (prune_bids_wf (asks_ b) (bids_ b) Hbid) as Hwf.
  destruct (asks_ b) as [|[ap alv] asks]; [done|].
  destruct (side_wf_value_price Ask _ ap alv Hask) as (N1 & N2 & E); [apply list_elem_of_here|].
  pose proof (prune_bids_filter ap alv asks (bids_ b) Hbid N1) as Hf.
  destruct (prune_bids _ _) as [|[bp blv] bids']; [done|]. simpl.
  destruct (side_wf_value_price Bid _ bp blv Hwf) as (N3 & N4 & E'); [apply list_elem_of_here|].
  assert (Hlt : dlt bp ap = true).
  { assert (Hin : (bp, blv) ∈ filter (fun e => dlt (fst e) ap = true) (bids_ b))
      by (rewrite <-Hf; apply list_elem_of_here).
    by apply list_elem_of_filter in Hin as [? _]. }
  rewrite <-(before_same_l dlt bp (lv_price blv)), <-(before_same_r dlt ap (lv_price alv)); try done;
    by rewrite (same_key_deq Ask).
Qed.

(** ** Properties *)

(** C3: Every book reached from an empty one by any sequence of operations
    (snapshots, incremental updates, direct level changes, clears, prunings, in
    any order and with any clock) whose prices are numbers is well formed: each
    side has strictly ordered keys, hence one level per price, and each level
    carries the price it is stored under. *)
Theorem reachable_book_wf symbol exchange b :
  rtc book_step (new_book symbol exchange) b -> book_wf b.
Proof.
  intros H. eapply (rtc_invariant book_step book_wf); [|exact H|apply new_book_wf].
  intros ? ?; apply book_step_wf.
Qed.

(** A snapshot replaces the whole book: after [apply_snapshot], the level
    of either side at any price is given by the last entry of the message for
    that side and price, and is absent when the message has none, whatever the
    book held before. *)
Theorem apply_snapshot_replaces now msg b s p :
  msg_type msg = MarketDataSnapshot -> priced msg -> is_nan p = false ->
  level_at s p (apply_snapshot now msg b) = last_level s p (md_entries msg).
Proof.
  intros Hm Hmsg Hp. unfold apply_snapshot. rewrite Hm. rewrite bool_decide_true by done. cbn [negb].
  assert (Hb : book_wf (fresh_sides msg b) /\ level_at s p (fresh_sides msg b) = None).
  { unfold fresh_sides. destruct (_ && _); (split; [split; apply side_wf_nil|by destruct s]). }
  destruct Hb as [Hb Hnone].
  transitivity (level_at s p (foldl snapshot_entry (fresh_sides msg b) (md_entries msg))); [by destruct s|].
  rewrite level_at_entries, Hnone by done. by destruct (last_level _ _ _).
Qed.

(** C19: In a well-formed book, an incremental update whose prices are numbers
    changes a level exactly as the entries for its side and price say, in their
    order (new and change set it, delete removes it, any other action and any
    other entry leave it), and counts as one update. *)
Theorem apply_update_folds now msg b s p :
  msg_type msg = MarketDataIncremental -> priced msg -> is_nan p = false -> book_wf b ->
  level_at s p (apply_update now msg b) = updated_level s p (level_at s p b) (md_entries msg) /\
  update_count_ (apply_update now msg b) = wrap64 (update_count_ b + 1).
Proof.
  intros Hm Hmsg Hp Hb. unfold apply_update. rewrite Hm, bool_decide_true by done. simpl. split.
  - rewrite <-level_at_updates by done. by destruct s.
  - f_equal. f_equal. apply (foldl_ind (fun b' => update_count_ b' = update_count_ b)); [done|].
    intros b' e _ <-. unfold apply_md_entry, put, drop_level. repeat case_match; done.
Qed.

(** C20: [prune_crossed] leaves the asks of a well-formed book alone and keeps
    exactly the bids below the best ask; when bids are left, the best of them is
    strictly below the best ask, so the book is neither crossed nor locked.
    Without asks it does nothing. *)
Theorem prune_crossed_uncrosses b :
  book_wf b ->
  asks_ (prune_crossed b) = asks_ b /\
  match asks_ b with
  | [] => prune_crossed b = b
  | (ap, _) :: _ =>
      bids_ (prune_crossed b) = filter (fun e => dlt (fst e) ap = true) (bids_ b) /\
      (bid_depth (prune_crossed b) <> 0%nat -> dlt (best_bid (prune_crossed b)) (best_ask b) = true)
  end.
Proof.
  intros Hb. split; [done|]. destruct (asks_ b) as [|[ap alv] asks] eqn:Ea.
  { unfold prune_crossed. rewrite Ea, prune_bids_no_ask. destruct b; simpl in *. by subst. }
  split.
  - unfold prune_crossed. rewrite Ea. destruct Hb as [Hbid Hask]. rewrite Ea in Hask.
    apply prune_bids_filter; [done|].
    apply (side_wf_value_price Ask _ ap alv Hask), list_elem_of_here.
  - intros Hd. apply prune_uncrossed; [done| |by rewrite Ea].
    intros E. apply Hd. unfold bid_depth. by rewrite E.
Qed.

(** The snapshot of a book lists the bids by strictly descending and the
    asks by strictly ascending price; its best prices and mid price are those
    the book reports, and no level is better than the best one. *)
Theorem get_snapshot_sorted b :
  book_wf b ->
  StronglySorted (fun x y => dgt (lv_price x) (lv_price y) = true) (sn_bids (get_snapshot b)) /\
  StronglySorted (fun x y => dlt (lv_price x) (lv_price y) = true) (sn_asks (get_snapshot b)) /\
  snap_best_bid (get_snapshot b) = best_bid b /\ snap_best_ask (get_snapshot b) = best_ask b /\
  snap_mid_price (get_snapshot b) = mid_price b /\
  (forall lv, lv ∈ sn_bids (get_snapshot b) -> dgt (lv_price lv) (best_bid b) = false) /\
  (forall lv, lv ∈ sn_asks (get_snapshot b) -> dlt (lv_price lv) (best_ask b) = false).
Proof.
  intros [Hbid Hask]. cbn [get_snapshot sn_bids sn_asks].
  pose proof (side_levels_sorted Bid _ Hbid) as Sb. pose proof (side_levels_sorted Ask _ Hask) as Sa.
  unfold snap_mid_price, snap_best_bid, snap_best_ask, best_bid, best_ask, mid_price. cbn [get_snapshot sn_bids sn_asks].
  split; [exact Sb|]. split; [exact Sa|].
  split; [by destruct (bids_ b) as [|[]]|]. split; [by destruct (asks_ b) as [|[]]|].
  split; [by destruct (bids_ b) as [|[]], (asks_ b) as [|[]]|].
  split; intros lv Hin; [by apply (front_is_best Bid)|by apply (front_is_best Ask)].
Qed.

(** On a book with bids and no asks the two [spread_bps] disagree: the
    book reports 0, its snapshot computes the spread to an ask of 0, which is
    -10000 basis points up to rounding. *)
Theorem one_sided_spread b :
  asks_ b = [] -> dgt (best_bid b) dzero = true ->
  spread_bps b = dzero /\
  snap_spread_bps (get_snapshot b) = dmul (ddiv (dsub dzero (best_bid b)) (best_bid b)) (dZ 10000).
Proof.
  intros Ha Hb. unfold dgt, spread_bps, snap_spread_bps, snap_best_bid, snap_best_ask, best_bid in *.
  cbn [get_snapshot sn_bids sn_asks]. rewrite Ha.
  destruct (bids_ b) as [|[p lv] m]; [done|]. simpl in *. split; [done|].
  assert (dle (lv_price lv) dzero = false) as ->; [|done].
  pose proof (dlt_not_nan _ _ Hb) as [_ Hn]. rewrite dle_dlt by done. apply negb_false_iff. exact Hb.
Qed.

(** ** Witnesses *)

Definition ex_book : OrderBook :=
  set_level 1 Bid (dZ 101) (dZ 1) 0 (set_level 1 Bid (dZ 99) (dZ 3) 0
    (set_level 1 Ask (dZ 100) (dZ 4) 0 (new_book $"BTC-USD" $"FIX"))).

Definition ex_msg (t : FIXMsgType) : FIXMessage :=
  FIXMessage_default <| msg_type := t |> <| num_entries := 2 |>
    <| entries := [mkMDEntry 0 1 (dZ 99) (dZ 5); mkMDEntry 1 2 (dZ 100) (dZ 6)] |>.

Lemma ex_book_reachable : rtc book_step (new_book $"BTC-USD" $"FIX") ex_book.
Proof.
  eapply rtc_l; [by apply (step_set 1 Ask (dZ 100) (dZ 4) 0)|].
  eapply rtc_l; [by apply (step_set 1 Bid (dZ 99) (dZ 3) 0)|].
  apply rtc_once. by apply step_set.
Qed.

Lemma ex_book_wf : book_wf ex_book.
Proof.
  eapply (rtc_invariant book_step book_wf); [|apply ex_book_reachable|apply new_book_wf].
  intros ? ?; apply book_step_wf.
Qed.

Lemma ex_priced t : priced (ex_msg t).
Proof. repeat constructor. Qed.

Lemma reachable_book_wf_witness : length (bids_ ex_book) = 2%nat /\ book_wf ex_book.
Proof. split; [vm_compute; reflexivity|]. apply (reachable_book_wf _ _ _ ex_book_reachable). Defined.

Lemma apply_snapshot_replaces_witness :
  level_at Bid (dZ 99) (apply_snapshot 5 (ex_msg MarketDataSnapshot) ex_book) = Some (ex_level 99 5).
Proof.
  rewrite (apply_snapshot_replaces 5 (ex_msg MarketDataSnapshot) ex_book Bid (dZ 99)
    eq_refl (ex_priced _) eq_refl). vm_compute. reflexivity.
Defined.

Lemma apply_update_folds_witness :
  level_at Ask (dZ 100) (apply_update 5 (ex_msg MarketDataIncremental) ex_book) = None /\
  level_at Ask (dZ 100) ex_book <> None.
Proof.
  split; [|by vm_compute].
  rewrite (proj1 (apply_update_folds 5 (ex_msg MarketDataIncremental) ex_book Ask (dZ 100)
    eq_refl (ex_priced _) eq_refl ex_book_wf)). vm_compute. reflexivity.
Defined.

Lemma prune_crossed_uncrosses_witness :
  bids_ (prune_crossed ex_book) = filter (fun e => dlt (fst e) (dZ 100) = true) (bids_ ex_book) /\
  length (bids_ (prune_crossed ex_book)) = 1%nat.
Proof.
  split; [|vm_compute; reflexivity].
  exact (proj1 (proj2 (prune_crossed_uncrosses ex_book ex_book_wf))).
Defined.

Lemma get_snapshot_sorted_witness :
  StronglySorted (fun x y => dgt (lv_price x) (lv_price y) = true) (sn_bids (get_snapshot ex_book)) /\
  snap_best_bid (get_snapshot ex_book) = dZ 101.
Proof.
  split; [|vm_compute; reflexivity]. exact (proj1 (get_snapshot_sorted ex_book ex_book_wf)).
Defined.

Lemma one_sided_spread_witness :
  snap_spread_bps (get_snapshot (set_level 1 Bid (dZ 99) (dZ 3) 0 (new_book $"X" $"Y"))) = dZ (-10000).
Proof.
  rewrite (proj2 (one_sided_spread (set_level 1 Bid (dZ 99) (dZ 3) 0 (new_book $"X" $"Y")) eq_refl eq_refl)).
  vm_compute. reflexivity.
Defined.
