(* ===== verification/ArbEngine.v ===== *)
(** * Arbitrage engine (src/arbitrage_engine.hpp, src/arbitrage_engine.cpp)

    The engine keeps one order book per "EXCHANGE:SYMBOL" for the WebSocket
    feeds and one per symbol for the FIX feed, compares all the fresh books of
    one canonical symbol, and answers queries about them.

    Concurrency: the two book maps are guarded by locks of their own, so every
    locked block is one atomic operation on the state.  [update_order_book] is
    given both as its blocks ([update_books], [bbo_tick], [mark_dirty]) and as
    their sequence.  The wake-up protocol between the producers, the
    calculation thread and [stop] is modelled on its own at the grain of the
    individual atomic accesses (file [Wakeup]), and the whole engine run by
    its threads in file [EngineThreads].

    The order in which the [unordered_map]s are walked is the parameter
    [IterOrder]; clock readings are arguments.  Metrics calls are left out. *)

From Stdlib Require Import Sorted.
From S2P Require Import Prelude Float64 SortedMap Str Types FixParser OrderBook.

(** ** normalize_symbol *)

Definition normalize_symbol (symbol : bytes) : bytes :=
  let norm := map toupper symbol in
  match find_char "-"%char norm with
  | Some pos => take pos norm
  | None =>
      match find_char "/"%char norm with
      | Some pos => take pos norm
      | None =>
          if (4 <? length norm)%nat && bool_decide (drop (length norm - 4) norm = $"USDT")
          then take (length norm - 4) norm
          else if (3 <? length norm)%nat && bool_decide (drop (length norm - 3) norm = $"USD")
          then take (length norm - 3) norm
          else norm
      end
  end.

(** ** State *)

Record Engine := mkEngine {
  ws_books_ : gmap bytes OrderBook;
  fix_books_ : gmap bytes OrderBook;
  opportunities_ : list ArbitrageOpportunity;
  running_ : bool;
  books_dirty_ : bool;
  calculation_count_ : Z;
  opportunity_count_ : Z;
  min_profit_bps_ : double;
  max_reports_ : Z;
  report_count_ : Z;
}.
#[export] Instance Engine_settable : Settable Engine :=
  fun e => mkEngine (ws_books_ e) (fix_books_ e) (opportunities_ e) (running_ e)
    (books_dirty_ e) (calculation_count_ e) (opportunity_count_ e) (min_profit_bps_ e)
    (max_reports_ e) (report_count_ e).

(** [ArbitrageEngine::ArbitrageEngine] *)
Definition new_engine : Engine := mkEngine ∅ ∅ [] false false 0 0 (dZ 5) 0 0.

(** ** Producer side *)

(** Apply an operation per level, with the clock reading each of them takes:
    the readings are numbered from [k]. *)
Fixpoint feed_levels (f : Z -> PriceLevel -> OrderBook -> OrderBook) (clock : nat -> Z) (k : nat)
    (ls : list PriceLevel) (b : OrderBook) : OrderBook :=
  match ls with
  | [] => b
  | l :: ls' => feed_levels f clock (S k) ls' (f (clock k) l b)
  end.

Definition replace_level (s : Side) (now : Z) (l : PriceLevel) (b : OrderBook) : OrderBook :=
  set_level now s (lv_price l) (lv_quantity l) (lv_order_count l) b.

Definition delta_level (s : Side) (now : Z) (l : PriceLevel) (b : OrderBook) : OrderBook :=
  if deq (lv_quantity l) dzero then delete_level now s (lv_price l) b
  else replace_level s now l b.

(** What a feed message does to its book. *)
Definition apply_feed (clock : nat -> Z) (snap : OrderBookSnapshot) (b : OrderBook) : OrderBook :=
  if sn_is_snapshot snap then
    let b := clear (clock 0%nat) b in
    let b := feed_levels (replace_level Bid) clock 1 (sn_bids snap) b in
    feed_levels (replace_level Ask) clock (1 + length (sn_bids snap)) (sn_asks snap) b
  else
    let b := feed_levels (delta_level Bid) clock 0 (sn_bids snap) b in
    let b := feed_levels (delta_level Ask) clock (length (sn_bids snap)) (sn_asks snap) b in
    prune_crossed b.

Definition book_key (snap : OrderBookSnapshot) : bytes :=
  make_ticker_key (sn_exchange snap) (sn_symbol snap).

(** The block of [update_order_book] under the exclusive lock. *)
Definition update_books (clock : nat -> Z) (snap : OrderBookSnapshot) (e : Engine) : Engine :=
  let key := book_key snap in
  let book := default (new_book (sn_symbol snap) (sn_exchange snap)) (ws_books_ e !! key) in
  e <| ws_books_ := <[key := apply_feed clock snap book]> (ws_books_ e) |>.

(** The arguments of a [log_bbo] call. *)
Record BboTick := mkBboTick {
  tk_exchange : bytes;
  tk_symbol : bytes;
  tk_bid : double;
  tk_ask : double;
  tk_mid : double;
  tk_spread : double;
  tk_ts_ns : Z;
}.

(** The block that reads the best prices back, with the call it leads to. *)
Definition bbo_tick (ts_ns : Z) (snap : OrderBookSnapshot) (e : Engine) : option BboTick :=
  let '(bid, ask, mid, spd) :=
    match ws_books_ e !! book_key snap with
    | Some b => (best_bid b, best_ask b, mid_price b, spread_bps b)
    | None => (dzero, dzero, dzero, dzero)
    end in
  if dgt bid dzero && dgt ask dzero then
    Some (mkBboTick (sn_exchange snap) (normalize_symbol (sn_symbol snap)) bid ask mid spd ts_ns)
  else None.

Definition mark_dirty (e : Engine) : Engine := e <| books_dirty_ := true |>.

(** [update_order_book] run without interference; [logging] says whether a
    logger is attached. *)
Definition update_order_book (clock : nat -> Z) (ts_ns : Z) (logging : bool)
    (snap : OrderBookSnapshot) (e : Engine) : Engine * option BboTick :=
  let e := update_books clock snap e in
  let tick := if logging then bbo_tick ts_ns snap e else None in
  (mark_dirty e, tick).

(** The block of [update_fix_data] under the exclusive lock. *)
Definition update_fix_books (now : Z) (msg : FIXMessage) (e : Engine) : Engine :=
  let sym := fix_symbol msg in
  let book := default (new_book sym $"FIX") (fix_books_ e !! sym) in
  let book :=
    if bool_decide (msg_type msg = MarketDataSnapshot) then apply_snapshot now msg book
    else apply_update now msg book in
  e <| fix_books_ := <[sym := book]> (fix_books_ e) |>.

Definition update_fix_data (now : Z) (msg : FIXMessage) (e : Engine) : Engine :=
  if negb (is_market_data msg) then e else mark_dirty (update_fix_books now msg e).

(** ** Calculation *)

Abbreviation BookEntry := (bytes * OrderBookSnapshot)%type.

Definition staleness_ms (now : Z) (s : OrderBookSnapshot) : double :=
  if now <? sn_timestamp_ms s then dzero else dZ (now - sn_timestamp_ms s).

(** [staleness_limit_ms]: the same for every exchange. *)
Definition staleness_limit_ms (exchange : bytes) : double := dZ 500.

(** [by_symbol[norm].emplace_back(...)] *)
Definition bucket (m : gmap bytes (list BookEntry)) (x : BookEntry) : gmap bytes (list BookEntry) :=
  let norm := normalize_symbol (sn_symbol (snd x)) in
  <[norm := default [] (m !! norm) ++ [x]]> m.

(** All pairs [entries[i]], [entries[j]] with [i < j], in the loops' order. *)
Fixpoint pairs {A} (l : list A) : list (A * A) :=
  match l with
  | [] => []
  | x :: l' => map (pair x) l' ++ pairs l'
  end.

(** One direction: buy on [b]'s exchange at its ask, sell on [s]'s at its bid. *)
Definition direction (min_profit : double) (now : Z) (sym : bytes) (b s : BookEntry)
    : option ArbitrageOpportunity :=
  match sn_asks (snd b), sn_bids (snd s) with
  | la :: _, lb :: _ =>
      let ask := snap_best_ask (snd b) in
      let bid := snap_best_bid (snd s) in
      if dgt bid ask && dgt ask dzero then
        let profit_bps := bps_over bid ask in
        let qty := dmin (lv_quantity la) (lv_quantity lb) in
        if dge profit_bps min_profit && dgt qty dzero then
          Some (mkArbitrageOpportunity sym (fst b) (fst s) ask bid profit_bps qty now)
        else None
      else None
  | _, _ => None
  end.

Definition pair_opportunities (min_profit : double) (now : Z) (sym : bytes) (p : BookEntry * BookEntry)
    : list ArbitrageOpportunity :=
  option_list (direction min_profit now sym (fst p) (snd p)) ++
  option_list (direction min_profit now sym (snd p) (fst p)).

Section queries.
Context `{IterOrder}.

(** The non-empty snapshots of a map of books, in the order of the walk. *)
Definition live_snapshots (books : gmap bytes OrderBook) : list OrderBookSnapshot :=
  filter (fun s => snap_empty s = false) (map (fun kv => get_snapshot (snd kv)) (iter_map books)).

Definition fresh (now : Z) (x : BookEntry) : bool :=
  negb (dgt (staleness_ms now (snd x)) (staleness_limit_ms (fst x))).

(** What goes into [by_symbol], in order. *)
Definition fresh_entries (now : Z) (e : Engine) : list BookEntry :=
  filter (fun x => fresh now x = true)
    (map (fun s => (sn_exchange s, s)) (live_snapshots (ws_books_ e)) ++
     map (fun s => ($"FIX", s)) (live_snapshots (fix_books_ e))).

Definition by_symbol (now : Z) (e : Engine) : gmap bytes (list BookEntry) :=
  foldl bucket ∅ (fresh_entries now e).

Definition symbol_opportunities (min_profit : double) (now : Z) (kv : bytes * list BookEntry)
    : list ArbitrageOpportunity :=
  let '(norm_sym, entries) := kv in
  if (length entries <? 2)%nat then []
  else pairs entries ≫= pair_opportunities min_profit now norm_sym.

Definition new_opportunities (now : Z) (e : Engine) : list ArbitrageOpportunity :=
  iter_map (by_symbol now e) ≫= symbol_opportunities (min_profit_bps_ e) now.

(** [calculate_arbitrage]: the new state and the opportunities the callback is
    called with, in order. *)
Definition calculate_arbitrage (now : Z) (e : Engine) : Engine * list ArbitrageOpportunity :=
  let e := e <| calculation_count_ := wrap64 (calculation_count_ e + 1) |> in
  let opps := new_opportunities now e in
  (e <| opportunity_count_ := wrap64 (opportunity_count_ e + Z.of_nat (length opps)) |>
     <| opportunities_ := opps |>, opps).

(** The end of an iteration of [calculation_loop]: [elapsed] says whether the
    report interval is over.  The result says whether the loop goes on. *)
Definition report_step (elapsed : bool) (e : Engine) : Engine * bool :=
  if elapsed then
    let e := e <| report_count_ := report_count_ e + 1 |> in
    if (0 <? max_reports_ e) && (max_reports_ e <=? report_count_ e)
    then (e <| running_ := false |>, false)
    else (e, true)
  else (e, true).

(** ** Settings and accessors *)

Definition set_min_profit_bps (min_profit_bps : double) (e : Engine) : Engine :=
  e <| min_profit_bps_ := min_profit_bps |>.
Definition set_max_reports (max_reports : Z) (e : Engine) : Engine := e <| max_reports_ := max_reports |>.
Definition get_opportunities (e : Engine) : list ArbitrageOpportunity := opportunities_ e.

(** [print_latency_report] *)
Definition print_latency_report (e : Engine) : bytes :=
  $"  Calculations: " ++ to_string (calculation_count_ e) ++ $"  Opportunities found: " ++
  to_string (opportunity_count_ e) ++ [NL] ++
  $"  L2 books: " ++ to_string (Z.of_nat (size (ws_books_ e))) ++ $" WebSocket  " ++
  to_string (Z.of_nat (size (fix_books_ e))) ++ $" FIX" ++ [NL].

(** ** Query API *)

(** The symbol part of a key: what follows the first colon. *)
Definition key_symbol (key : bytes) : bytes :=
  match find_char ":"%char key with Some colon => drop (colon + 1) key | None => key end.
Definition key_exchange (key : bytes) : bytes :=
  match find_char ":"%char key with Some colon => take colon key | None => key end.

Definition get_snapshots (canonical_sym : bytes) (e : Engine) : list OrderBookSnapshot :=
  filter (fun s => snap_empty s = false)
    (map (fun kv => get_snapshot (snd kv))
       (filter (fun kv => normalize_symbol (key_symbol (fst kv)) = canonical_sym)
          (iter_map (ws_books_ e)))) ++
  filter (fun s => snap_empty s = false)
    (map (fun kv => get_snapshot (snd kv))
       (filter (fun kv => normalize_symbol (fst kv) = canonical_sym) (iter_map (fix_books_ e)))).

(** [seen] *)
Definition seen_symbols (e : Engine) : gset bytes :=
  list_to_set
    (map (fun kv => normalize_symbol (key_symbol (fst kv)))
       (filter (fun kv => empty (snd kv) = false) (iter_map (ws_books_ e))) ++
     map (fun kv => normalize_symbol (fst kv))
       (filter (fun kv => empty (snd kv) = false) (iter_map (fix_books_ e)))).

(** The vector copies an [unordered_set]: each symbol once, in any order. *)
Definition list_symbols (e : Engine) : list bytes :=
  map fst (iter_map (set_to_map (fun s => (s, tt)) (seen_symbols e) : gmap bytes unit)).

Definition feed_names : list bytes := [$"Binance"; $"Coinbase"; $"Kraken"; $"Bybit"; $"FIX"].

(** One book's update of [result]; [result[exch]] creates an absent entry with
    value 0. *)
Definition staleness_step (now : Z) (result : gmap bytes Z) (x : bytes * OrderBook) : gmap bytes Z :=
  let lu := last_update_ms_ (snd x) in
  if lu =? 0 then result
  else
    let staleness := if lu <=? now then now - lu else 0 in
    let cur := default 0 (result !! fst x) in
    <[fst x := if staleness <? cur then staleness else cur]> result.

Definition get_feed_staleness_ms (now : Z) (e : Engine) : gmap bytes Z :=
  foldl (staleness_step now) (list_to_map (map (fun ex => (ex, UINT64_MAX)) feed_names))
    (map (fun kv => (key_exchange (fst kv), snd kv)) (iter_map (ws_books_ e)) ++
     map (fun kv => ($"FIX", snd kv)) (iter_map (fix_books_ e))).
End queries.

(** ** Sources of the comparison *)

(** Where a book is kept. *)
Inductive venue := WsBook (key : bytes) | FixBook (sym : bytes).

Definition venue_book (e : Engine) (v : venue) : option OrderBook :=
  match v with WsBook k => ws_books_ e !! k | FixBook s => fix_books_ e !! s end.

Definition entry_of (x : venue * OrderBook) : BookEntry :=
  match fst x with
  | WsBook _ => (exchange_ (snd x), get_snapshot (snd x))
  | FixBook _ => ($"FIX", get_snapshot (snd x))
  end.

(** A book that takes part: not empty, and not older than the limit. *)
Definition live (now : Z) (b : OrderBook) : bool :=
  negb (empty b) && negb (dgt (staleness_ms now (get_snapshot b)) (dZ 500)).

(** What one direction requires of the books bought from and sold to, and the
    opportunity it reports. *)
Definition opportunity_between (min_profit : double) (now : Z) (v1 v2 : venue) (b1 b2 : OrderBook)
    (o : ArbitrageOpportunity) : Prop :=
  exists la lb,
    head (map snd (asks_ b1)) = Some la /\ head (map snd (bids_ b2)) = Some lb /\
    let ask := lv_price la in
    let bid := lv_price lb in
    let qty := dmin (lv_quantity la) (lv_quantity lb) in
    dgt bid ask = true /\ dgt ask dzero = true /\
    dge (bps_over bid ask) min_profit = true /\ dgt qty dzero = true /\
    o = mkArbitrageOpportunity (normalize_symbol (symbol_ b1))
          (fst (entry_of (v1, b1))) (fst (entry_of (v2, b2))) ask bid (bps_over bid ask) qty now.

(** ** Engine invariant *)

(** Every book is well formed and filed under its own name. *)
Definition engine_wf (e : Engine) : Prop :=
  (forall k b, ws_books_ e !! k = Some b ->
     book_wf b /\ k = make_ticker_key (exchange_ b) (symbol_ b)) /\
  (forall k b, fix_books_ e !! k = Some b ->
     book_wf b /\ exchange_ b = $"FIX" /\ symbol_ b = k).

Definition priced_levels (ls : list PriceLevel) : Prop :=
  Forall (fun l => is_nan (lv_price l) = false) ls.

Definition priced_snapshot (s : OrderBookSnapshot) : Prop :=
  priced_levels (sn_bids s) /\ priced_levels (sn_asks s).

Inductive engine_step `{IterOrder} : Engine -> Engine -> Prop :=
  | es_books clock snap e : priced_snapshot snap -> engine_step e (update_books clock snap e)
  | es_dirty e : engine_step e (mark_dirty e)
  | es_fix now msg e : priced msg -> engine_step e (update_fix_data now msg e)
  | es_calc now e : engine_step e (fst (calculate_arbitrage now e))
  | es_report elapsed e : engine_step e (fst (report_step elapsed e))
  | es_profit p e : engine_step e (set_min_profit_bps p e)
  | es_max_reports n e : engine_step e (set_max_reports n e).

(** ** Pairs *)

Lemma pairs_map {A B} (f : A -> B) l : pairs (map f l) = map (fun p => (f (fst p), f (snd p))) (pairs l).
Proof.
  induction l as [|x l IH]; [done|]. simpl. rewrite IH, map_app, !map_map. done.
Qed.

Lemma pairs_elem {A} (l : list A) x y :
  NoDup l -> (x, y) ∈ pairs l \/ (y, x) ∈ pairs l <-> x ∈ l /\ y ∈ l /\ x <> y.
Proof.
  induction l as [|a l IH]; intros Hnd; simpl.
  { split; [by intros [?%elem_of_nil|?%elem_of_nil]|by intros (?%elem_of_nil & _)]. }
  apply NoDup_cons in Hnd as [Ha Hnd]. specialize (IH Hnd).
  rewrite !elem_of_app, !elem_of_cons, !list_elem_of_fmap. split.
  - intros [[(z & [= -> ->] & Hz)|Hp]|[(z & [= -> ->] & Hz)|Hp]];
      try (destruct IH as [IH _]; destruct IH as (H1 & H2 & H3); [by auto|]; by auto);
      (split; [by auto|split; [by auto|congruence]]).
  - intros ([->|Hx] & [->|Hy] & Hne); [done| | |].
    + left. left. by exists y.
    + right. left. by exists x.
    + destruct IH as [_ [?|?]]; [done| |]; auto.
Qed.

(** ** Buckets *)

Definition entry_symbol (x : BookEntry) : bytes := normalize_symbol (sn_symbol (snd x)).

Lemma bucket_lookup l k :
  foldl bucket ∅ l !! k =
    let g := filter (fun x => entry_symbol x = k) l in
    if bool_decide (g = []) then None else Some g.
Proof.
  induction l as [|x l IH] using rev_ind; [done|].
  rewrite foldl_snoc, filter_app, filter_cons, filter_nil. unfold bucket at 1. simpl in *.
  fold (entry_symbol x). destruct (decide (entry_symbol x = k)) as [<-|Hk].
  - rewrite lookup_insert, IH. case_decide; [|done].
    rewrite (bool_decide_false (filter _ _ ++ [x] = [])) by (by intros []%app_nil).
    case_bool_decide as E; [by rewrite E|done].
  - rewrite lookup_insert_ne, IH by done. by rewrite app_nil_r.
Qed.

Section calculation.
Context `{IterOrder}.

(** ** The books that are compared *)

Definition venues (e : Engine) : list (venue * OrderBook) :=
  map (fun kv => (WsBook (fst kv), snd kv)) (iter_map (ws_books_ e)) ++
  map (fun kv => (FixBook (fst kv), snd kv)) (iter_map (fix_books_ e)).

Lemma elem_of_venues e v b : (v, b) ∈ venues e <-> venue_book e v = Some b.
Proof using.
  unfold venues. rewrite elem_of_app, !list_elem_of_fmap. split.
  - intros [([k b'] & [= -> ->] & Hin)|([k b'] & [= -> ->] & Hin)]; by apply elem_of_iter_map in Hin.
  - destruct v as [k|k]; simpl; intros Hb%elem_of_iter_map; [left|right]; by exists (k, b).
Qed.

Lemma NoDup_venues e : NoDup (venues e).
Proof using.
  assert (Hm : forall {V} (c : bytes -> venue) (m : gmap bytes V), Inj (=) (=) c ->
    NoDup (map fst (map (fun kv => (c (fst kv), snd kv)) (iter_map m)))).
  { intros V c m Hc. rewrite map_map. simpl. rewrite <-(map_map fst c).
    apply (NoDup_fmap_2 c). apply NoDup_iter_map_keys. }
  apply (NoDup_fmap_1 fst). unfold venues. rewrite fmap_app. apply NoDup_app. split; [|split].
  - apply (Hm _ WsBook). by intros ? ? [=].
  - intros v (x & -> & (kv & -> & _)%list_elem_of_fmap)%list_elem_of_fmap.
    by intros (y & [=] & (kv' & -> & _)%list_elem_of_fmap)%list_elem_of_fmap.
  - apply (Hm _ FixBook). by intros ? ? [=].
Qed.

Lemma empty_snapshot b : snap_empty (get_snapshot b) = empty b.
Proof using.
  unfold snap_empty, empty. simpl. f_equal; apply bool_decide_ext; by destruct (bids_ b), (asks_ b).
Qed.

(** The entries of [by_symbol] are those of the live books. *)
Lemma fresh_entries_venues now e :
  fresh_entries now e = map entry_of (filter (fun x => live now (snd x) = true) (venues e)).
Proof using.
  assert (Hone : forall (c : bytes -> venue) (label : OrderBookSnapshot -> bytes) books,
    (forall k b, entry_of (c k, b) = (label (get_snapshot b), get_snapshot b)) ->
    filter (fun x => fresh now x = true) (map (fun s => (label s, s)) (live_snapshots books)) =
    map entry_of (filter (fun x => live now (snd x) = true)
      (map (fun kv => (c (fst kv), snd kv)) (iter_map books)))).
  { intros c label books Hc. unfold live_snapshots. induction (iter_map books) as [|[k b] l IH]; [done|].
    cbn [map fst snd]. rewrite !filter_cons. cbn [fst snd].
    assert (El : live now b = negb (snap_empty (get_snapshot b)) && fresh now (label (get_snapshot b), get_snapshot b)).
    { by rewrite empty_snapshot. }
    destruct (snap_empty (get_snapshot b)); cbn [negb andb] in El;
      [rewrite (decide_False (P := true = false)) by done|rewrite (decide_True (P := false = false)) by done].
    - rewrite (decide_False (P := live now b = true)) by congruence. exact IH.
    - cbn [map]. rewrite filter_cons.
      destruct (decide (fresh now (label (get_snapshot b), get_snapshot b) = true)) as [E|E].
      + rewrite (decide_True (P := live now b = true)) by congruence. simpl. f_equal; [by rewrite Hc|exact IH].
      + rewrite (decide_False (P := live now b = true)) by congruence. exact IH. }
  unfold fresh_entries, venues. rewrite !filter_app, map_app. f_equal.
  - by apply (Hone WsBook sn_exchange).
  - by apply (Hone FixBook (fun _ => $"FIX")).
Qed.

(** ** One pair *)

Lemma direction_spec min_profit now sym v1 v2 b1 b2 o :
  sym = normalize_symbol (symbol_ b1) ->
  direction min_profit now sym (entry_of (v1, b1)) (entry_of (v2, b2)) = Some o <->
  opportunity_between min_profit now v1 v2 b1 b2 o.
Proof using.
  intros ->. assert (Hs : forall v b, snd (entry_of (v, b)) = get_snapshot b) by by intros [].
  unfold direction, opportunity_between. rewrite !Hs. unfold snap_best_ask, snap_best_bid. simpl.
  destruct (map snd (asks_ b1)) as [|la las]; simpl; [split; [done|by intros (? & ? & [=] & _)]|].
  destruct (map snd (bids_ b2)) as [|lb lbs]; simpl; [split; [done|by intros (? & ? & _ & [=] & _)]|].
  split.
  - intros Hd. exists la, lb. repeat split; repeat case_match; try done; bool_to_prop; try done; congruence.
  - intros (? & ? & [= <-] & [= <-] & -> & -> & -> & -> & ->). done.
Qed.

Lemma pairs_short {A} (l : list A) : (length l < 2)%nat -> pairs l = [].
Proof using. destruct l as [|x [|y l]]; simpl; [done|done|lia]. Qed.

Lemma symbol_opportunities_elem min_profit now k L o :
  NoDup L ->
  o ∈ symbol_opportunities min_profit now (k, map entry_of L) <->
  exists x y, x ∈ L /\ y ∈ L /\ x <> y /\
    direction min_profit now k (entry_of x) (entry_of y) = Some o.
Proof using.
  intros Hnd. unfold symbol_opportunities.
  assert (Hg : (if (length (map entry_of L) <? 2)%nat then [] else
      pairs (map entry_of L) ≫= pair_opportunities min_profit now k) =
      pairs (map entry_of L) ≫= pair_opportunities min_profit now k).
  { destruct (Nat.ltb_spec (length (map entry_of L)) 2); [by rewrite pairs_short|done]. }
  rewrite Hg, pairs_map, list_elem_of_bind. unfold pair_opportunities. split.
  - intros (p & Hd & ((x & y) & -> & Hp)%list_elem_of_fmap). simpl in Hd.
    rewrite elem_of_app, !elem_of_option_list in Hd.
    destruct (proj1 (pairs_elem L x y Hnd) (or_introl Hp)) as (Hx & Hy & Hne).
    destruct Hd as [Hd|Hd]; [exists x, y|exists y, x]; by auto.
  - intros (x & y & Hx & Hy & Hne & Hd).
    destruct (proj2 (pairs_elem L x y Hnd) (conj Hx (conj Hy Hne))) as [Hp|Hp].
    + exists (entry_of x, entry_of y). rewrite elem_of_app, !elem_of_option_list. split; [by left|].
      apply list_elem_of_fmap. by exists (x, y).
    + exists (entry_of y, entry_of x). rewrite elem_of_app, !elem_of_option_list. split; [by right|].
      apply list_elem_of_fmap. by exists (y, x).
Qed.

Definition live_venues (now : Z) (e : Engine) (k : bytes) : list (venue * OrderBook) :=
  filter (fun x => entry_symbol (entry_of x) = k) (filter (fun x => live now (snd x) = true) (venues e)).

Lemma by_symbol_lookup now e k :
  by_symbol now e !! k =
    if bool_decide (live_venues now e k = []) then None else Some (map entry_of (live_venues now e k)).
Proof using.
  unfold by_symbol, live_venues. rewrite bucket_lookup, fresh_entries_venues.
  generalize (filter (fun x => live now (snd x) = true) (venues e)) as l. intros l. cbv zeta.
  assert (E : filter (fun x => entry_symbol x = k) (map entry_of l) =
              map entry_of (filter (fun x => entry_symbol (entry_of x) = k) l)).
  { induction l as [|x l IH]; [done|]. cbn [map]. rewrite !filter_cons.
    destruct (decide _); [cbn [map]; by f_equal|done]. }
  rewrite E. destruct (filter _ l); done.
Qed.

Lemma live_venues_elem now e k v b :
  (v, b) ∈ live_venues now e k <->
  venue_book e v = Some b /\ live now b = true /\ normalize_symbol (symbol_ b) = k.
Proof using.
  unfold live_venues. rewrite !list_elem_of_filter, elem_of_venues.
  assert (entry_symbol (entry_of (v, b)) = normalize_symbol (symbol_ b)) as -> by by destruct v.
  simpl. tauto.
Qed.

(** C4: [calculate_arbitrage] reports exactly the profitable pairs: an
    opportunity is reported when, and only when, there are two different
    stored books of the same canonical symbol, both non-empty and not staler
    than the limit, such that the best bid of one exceeds the positive best ask
    of the other, the profit reaches the threshold and both sides have size;
    its prices, size, profit, exchanges and time are those of the two books.
    The counters advance accordingly and the callback receives the same list
    that is stored. *)
Theorem calculate_arbitrage_exact now e :
  let '(e', callbacks) := calculate_arbitrage now e in
  opportunities_ e' = callbacks /\
  ws_books_ e' = ws_books_ e /\ fix_books_ e' = fix_books_ e /\
  calculation_count_ e' = wrap64 (calculation_count_ e + 1) /\
  opportunity_count_ e' = wrap64 (opportunity_count_ e + Z.of_nat (length callbacks)) /\
  forall o, o ∈ callbacks <->
    exists v1 v2 b1 b2,
      v1 <> v2 /\ venue_book e v1 = Some b1 /\ venue_book e v2 = Some b2 /\
      live now b1 = true /\ live now b2 = true /\
      normalize_symbol (symbol_ b1) = normalize_symbol (symbol_ b2) /\
      opportunity_between (min_profit_bps_ e) now v1 v2 b1 b2 o.
Proof using.
  unfold calculate_arbitrage. do 5 (split; [done|]). intros o.
  unfold new_opportunities. rewrite list_elem_of_bind. split.
  - intros ([k es] & Ho & Hk%elem_of_iter_map).
    change (by_symbol now e !! k = Some es) in Hk. rewrite by_symbol_lookup in Hk.
    case_bool_decide; [done|]. injection Hk as <-.
    apply symbol_opportunities_elem in Ho as ([v1 b1] & [v2 b2] & H1 & H2 & Hne & Hd);
      [|do 2 apply NoDup_filter; apply NoDup_venues].
    apply live_venues_elem in H1 as (H1 & L1 & S1), H2 as (H2 & L2 & S2).
    exists v1, v2, b1, b2. split; [congruence|]. split_and!; try done; [congruence|].
    by apply (direction_spec _ _ k).
  - intros (v1 & v2 & b1 & b2 & Hne & H1 & H2 & L1 & L2 & Hs & Ho).
    set (k := normalize_symbol (symbol_ b1)).
    assert (V1 : (v1, b1) ∈ live_venues now e k) by by apply live_venues_elem.
    assert (V2 : (v2, b2) ∈ live_venues now e k) by by apply live_venues_elem.
    exists (k, map entry_of (live_venues now e k)). split.
    + apply symbol_opportunities_elem; [do 2 apply NoDup_filter; apply NoDup_venues|].
      exists (v1, b1), (v2, b2). split_and!; [done|done|congruence|]. by apply direction_spec.
    + apply elem_of_iter_map. change (by_symbol now e !! k = Some (map entry_of (live_venues now e k))).
      rewrite by_symbol_lookup, bool_decide_false; [done|]. intros E. rewrite E in V1. by apply elem_of_nil in V1.
Qed.

(** ** Preservation of the engine invariant *)

Definition same_name (b b' : OrderBook) : Prop := symbol_ b' = symbol_ b /\ exchange_ b' = exchange_ b.

Lemma feed_levels_ind (P : OrderBook -> Prop) (Q : PriceLevel -> Prop) f clock k ls b :
  (forall now l b, Q l -> P b -> P (f now l b)) -> Forall Q ls -> P b ->
  P (feed_levels f clock k ls b).
Proof using.
  intros Hf. revert k b. induction ls as [|l ls IH]; intros k b Hls Hb; [done|].
  apply Forall_cons in Hls as [Hl Hls]. by apply IH; [|apply Hf].
Qed.

Lemma replace_level_wf s now l b :
  is_nan (lv_price l) = false -> book_wf b -> book_wf (replace_level s now l b).
Proof using. intros Hl Hb. by apply put_wf. Qed.

Lemma delta_level_wf s now l b :
  is_nan (lv_price l) = false -> book_wf b -> book_wf (delta_level s now l b).
Proof using.
  intros Hl Hb. unfold delta_level. case_match; [by apply drop_level_wf|by apply replace_level_wf].
Qed.

Lemma apply_feed_wf clock snap b : priced_snapshot snap -> book_wf b -> book_wf (apply_feed clock snap b).
Proof using.
  intros [Hb Ha] Hwf. unfold apply_feed. destruct (sn_is_snapshot snap).
  - do 2 (apply (feed_levels_ind book_wf (fun l => is_nan (lv_price l) = false));
      [intros; by apply replace_level_wf|done|]).
    split; apply side_wf_nil.
  - eapply book_step_wf; [|apply step_prune].
    do 2 (apply (feed_levels_ind book_wf (fun l => is_nan (lv_price l) = false));
      [intros; by apply delta_level_wf|done|]). done.
Qed.

Lemma feed_levels_name f clock k ls b :
  (forall now l b, same_name b (f now l b)) -> same_name b (feed_levels f clock k ls b).
Proof using.
  intros Hf. apply (feed_levels_ind (same_name b) (fun _ => True)).
  - intros now l b' _ [H1 H2]. destruct (Hf now l b') as [H3 H4]. split; congruence.
  - by apply Forall_true.
  - done.
Qed.

Lemma level_name s now l b : same_name b (replace_level s now l b) /\ same_name b (delta_level s now l b).
Proof using. unfold delta_level. destruct s; split; try done; by destruct (deq _ _). Qed.

#[local] Instance same_name_preorder : PreOrder same_name.
Proof using. split; [done|]. intros b1 b2 b3 [H1 H2] [H3 H4]. split; congruence. Qed.

Lemma apply_feed_name clock snap b : same_name b (apply_feed clock snap b).
Proof using.
  assert (Hr : forall s k ls b, same_name b (feed_levels (replace_level s) clock k ls b)).
  { intros. apply feed_levels_name. intros; apply level_name. }
  assert (Hd : forall s k ls b, same_name b (feed_levels (delta_level s) clock k ls b)).
  { intros. apply feed_levels_name. intros; apply level_name. }
  unfold apply_feed. destruct (sn_is_snapshot snap).
  - etransitivity; [|apply Hr]. etransitivity; [|apply Hr]. done.
  - transitivity (feed_levels (delta_level Ask) clock (length (sn_bids snap)) (sn_asks snap)
      (feed_levels (delta_level Bid) clock 0 (sn_bids snap) b)); [|done].
    etransitivity; [|apply Hd]. apply Hd.
Qed.

Lemma foldl_name (f : OrderBook -> MDEntry -> OrderBook) es b :
  (forall b e, same_name b (f b e)) -> same_name b (foldl f b es).
Proof using.
  intros Hf. apply (foldl_ind (same_name b)); [done|]. intros b' e _ [H1 H2].
  destruct (Hf b' e). split; congruence.
Qed.

Lemma update_fix_book now msg b :
  fix_symbol msg = symbol_ b -> same_name b (apply_snapshot now msg b) /\ same_name b (apply_update now msg b).
Proof using.
  intros Hsym. split.
  - unfold apply_snapshot. destruct (negb _); [done|].
    destruct (foldl_name snapshot_entry (md_entries msg) (fresh_sides msg b)) as [E1 E2].
    { intros b' e. unfold snapshot_entry. by destruct (side_of (entry_type e)) as [[]|]. }
    unfold same_name. simpl. rewrite E1, E2. unfold fresh_sides.
    destruct (bool_decide (symbol_ _ = []) && _); [|done]. by rewrite Hsym.
  - unfold apply_update. destruct (negb _); [done|].
    apply foldl_name. intros b' e. unfold apply_md_entry.
    destruct (side_of (entry_type e)) as [[]|]; repeat case_match; done.
Qed.

Lemma update_books_wf clock snap e : priced_snapshot snap -> engine_wf e -> engine_wf (update_books clock snap e).
Proof using.
  intros Hs [Hw Hf]. split; [|exact Hf]. intros k b. cbn [update_books ws_books_ set_field].
  rewrite lookup_insert. case_decide as E; [|apply Hw]. intros [= <-].
  assert (Hold : book_wf (default (new_book (sn_symbol snap) (sn_exchange snap)) (ws_books_ e !! book_key snap)) /\
    k = make_ticker_key (exchange_ (default (new_book (sn_symbol snap) (sn_exchange snap)) (ws_books_ e !! book_key snap)))
      (symbol_ (default (new_book (sn_symbol snap) (sn_exchange snap)) (ws_books_ e !! book_key snap)))).
  { subst k. destruct (ws_books_ e !! book_key snap) as [b|] eqn:Eb; simpl; [by apply Hw|].
    split; [apply new_book_wf|done]. }
  destruct Hold as [H1 H2]. split; [by apply apply_feed_wf|].
  match goal with |- context [apply_feed clock snap ?b0] => destruct (apply_feed_name clock snap b0) as [E1 E2] end.
  by rewrite E1, E2.
Qed.

Lemma update_fix_data_wf now msg e : priced msg -> engine_wf e -> engine_wf (update_fix_data now msg e).
Proof using.
  intros Hm [Hw Hf]. unfold update_fix_data. destruct (is_market_data msg); [|done]. unfold update_fix_books. cbn [negb]. cbv zeta.
  split; [exact Hw|]. intros k b. cbn [fix_books_ mark_dirty set_field]. rewrite lookup_insert. case_decide as E; [|apply Hf].
  intros [= <-]. set (b0 := default (new_book (fix_symbol msg) $"FIX") (fix_books_ e !! fix_symbol msg)).
  change (default (new_book (fix_symbol msg) ?x) (fix_books_ e !! fix_symbol msg)) with b0.
  assert (H0 : book_wf b0 /\ exchange_ b0 = $"FIX" /\ symbol_ b0 = fix_symbol msg).
  { unfold b0. destruct (fix_books_ e !! fix_symbol msg) as [b|] eqn:Eb; simpl; [by apply Hf|].
    split; [apply new_book_wf|done]. }
  destruct H0 as (H1 & H2 & H3). destruct (update_fix_book now msg b0 ltac:(done)) as [[E1 E2] [E3 E4]].
  case_bool_decide.
  - split; [|by rewrite E2, E1, H3]. by apply (book_step_wf b0 _ H1), step_snapshot.
  - split; [|by rewrite E4, E3, H3]. by apply (book_step_wf b0 _ H1), step_update.
Qed.

Lemma engine_step_wf e e' : engine_wf e -> engine_step e e' -> engine_wf e'.
Proof using.
  intros He Hs. destruct Hs.
  - by apply update_books_wf.
  - exact He.
  - by apply update_fix_data_wf.
  - exact He.
  - unfold report_step. destruct elapsed; [|done]. by destruct (_ && _).
  - exact He.
  - exact He.
Qed.

Lemma new_engine_wf : engine_wf new_engine.
Proof using. split; intros k b; simpl; by rewrite lookup_empty. Qed.

(** C21: In every state the engine reaches, by any interleaving of feed
    updates, FIX messages, calculations, reports and threshold changes with
    numeric prices, every stored book is well formed, and it is filed under its
    own name: the key of a WebSocket book is its exchange and symbol joined by
    a colon, the key of a FIX book is its symbol. *)
Theorem reachable_engine_wf e : rtc engine_step new_engine e -> engine_wf e.
Proof using.
  intros Hr. eapply (rtc_invariant engine_step engine_wf); [|exact Hr|apply new_engine_wf].
  intros ? ?; apply engine_step_wf.
Qed.

(** ** Effect of a feed message *)

(** What a list of feed levels makes of the level [old] at price [p]; in a
    delta a quantity of zero deletes. *)
Definition feed_level (delta : bool) (p : double) (old : option PriceLevel) (ls : list PriceLevel)
    : option PriceLevel :=
  foldl (fun old l =>
    if deq p (lv_price l) then (if delta && deq (lv_quantity l) dzero then None else Some l) else old) old ls.

Definition feed_side (s : Side) (snap : OrderBookSnapshot) : list PriceLevel :=
  match s with Bid => sn_bids snap | Ask => sn_asks snap end.

Lemma level_at_replace s s' p now l b :
  is_nan p = false -> is_nan (lv_price l) = false -> book_wf b ->
  level_at s p (replace_level s' now l b) = if bool_decide (s = s') && deq p (lv_price l) then Some l else level_at s p b.
Proof using.
  intros Hp Hl Hb. transitivity (level_at s p (put s' (lv_price l) l b)).
  - unfold replace_level. destruct l. by destruct s.
  - by rewrite level_at_put.
Qed.

Lemma level_at_delta s s' p now l b :
  is_nan p = false -> is_nan (lv_price l) = false -> book_wf b ->
  level_at s p (delta_level s' now l b) =
    if bool_decide (s = s') && deq p (lv_price l)
    then (if deq (lv_quantity l) dzero then None else Some l) else level_at s p b.
Proof using.
  intros Hp Hl Hb. unfold delta_level. destruct (deq (lv_quantity l) dzero); [|by rewrite level_at_replace].
  transitivity (level_at s p (drop_level s' (lv_price l) b)); [by destruct s|]. by rewrite level_at_drop.
Qed.

Definition feed_op (delta : bool) (s : Side) := if delta then delta_level s else replace_level s.

Lemma level_at_feed delta s s' p clock k ls b :
  is_nan p = false -> priced_levels ls -> book_wf b ->
  book_wf (feed_levels (feed_op delta s') clock k ls b) /\
  level_at s p (feed_levels (feed_op delta s') clock k ls b) =
    if bool_decide (s = s') then feed_level delta p (level_at s p b) ls else level_at s p b.
Proof using.
  intros Hp. revert k b. induction ls as [|l ls IH]; intros k b Hls Hb; [by case_bool_decide|].
  apply Forall_cons in Hls as [Hl Hls]. cbn [feed_levels].
  destruct (IH (S k) (feed_op delta s' (clock k) l b) Hls) as [IH1 IH2].
  { destruct delta; [by apply delta_level_wf|by apply replace_level_wf]. }
  split; [done|]. rewrite IH2. unfold feed_level. cbn [foldl].
  destruct delta; simpl; [rewrite level_at_delta by done|rewrite level_at_replace by done];
    by case_bool_decide.
Qed.

(** The side and price a level survives at after pruning. *)
Definition uncrossed (asks : book_side) (s : Side) (p : double) : bool :=
  match s, asks with Bid, (ap, _) :: _ => dlt p ap | _, _ => true end.

Lemma level_at_prune s p b :
  is_nan p = false -> book_wf b ->
  level_at s p (prune_crossed b) = if uncrossed (asks_ b) s p then level_at s p b else None.
Proof using.
  intros Hp [Hbid Hask]. destruct s; [|done]. unfold level_at, prune_crossed. simpl.
  destruct (asks_ b) as [|[ap alv] asks] eqn:Ea; [by rewrite prune_bids_no_ask|].
  destruct (side_wf_value_price Ask _ ap alv Hask) as (N1 & _); [apply list_elem_of_here|].
  rewrite prune_bids_filter by done. simpl.
  apply (find_filter dgt (fun x => dlt x ap)); [done|apply Hbid|].
  intros k' Hk' Hs. apply (before_same_l dlt p k' ap Hp Hk' N1).
  by rewrite (same_key_deq Ask), <-(same_key_deq Bid).
Qed.

Lemma apply_feed_levels clock snap b s p :
  priced_snapshot snap -> book_wf b -> is_nan p = false ->
  level_at s p (apply_feed clock snap b) =
    if sn_is_snapshot snap then feed_level false p None (feed_side s snap)
    else if uncrossed (asks_ (apply_feed clock snap b)) s p
         then feed_level true p (level_at s p b) (feed_side s snap) else None.
Proof using.
  intros [Hpb Hpa] Hb Hp. unfold apply_feed. destruct (sn_is_snapshot snap); cbv zeta.
  - assert (Hc : book_wf (clear (clock 0%nat) b)) by (split; apply side_wf_nil).
    destruct (level_at_feed false s Bid p clock 1 (sn_bids snap) _ Hp Hpb Hc) as [W1 E1].
    destruct (level_at_feed false s Ask p clock (1 + length (sn_bids snap)) (sn_asks snap) _ Hp Hpa W1) as [_ E2].
    cbn [feed_op] in E1, E2. rewrite E2, E1. by destruct s.
  - destruct (level_at_feed true s Bid p clock 0 (sn_bids snap) b Hp Hpb Hb) as [W1 E1].
    destruct (level_at_feed true s Ask p clock (length (sn_bids snap)) (sn_asks snap) _ Hp Hpa W1) as [W2 E2].
    cbn [feed_op] in E1, E2, W2. rewrite level_at_prune by done. rewrite E2, E1. by destruct s.
Qed.

(** C6: A feed message whose prices are numbers changes, in an engine whose
    books are well formed, exactly the book of its exchange and symbol,
    creating it when it is new.  A full snapshot makes every level the last
    one listed for its side and price, whatever the book held.  A delta sets,
    replaces or (at quantity zero) deletes the listed levels, keeps the others,
    and then drops every bid not below the best ask, so the book it leaves is
    uncrossed.  The calculation thread is marked for waking, and the logger is
    called exactly when both best prices are positive, with those prices. *)
Theorem update_order_book_spec clock ts_ns logging snap e :
  engine_wf e -> priced_snapshot snap ->
  let '(e', tick) := update_order_book clock ts_ns logging snap e in
  books_dirty_ e' = true /\ fix_books_ e' = fix_books_ e /\
  (forall key, key <> book_key snap -> ws_books_ e' !! key = ws_books_ e !! key) /\
  exists b, ws_books_ e' !! book_key snap = Some b /\ book_wf b /\
    (forall s p, is_nan p = false ->
       level_at s p b =
         let old := ws_books_ e !! book_key snap ≫= level_at s p in
         if sn_is_snapshot snap then feed_level false p None (feed_side s snap)
         else if uncrossed (asks_ b) s p then feed_level true p old (feed_side s snap) else None) /\
    (sn_is_snapshot snap = false -> bids_ b <> [] -> asks_ b <> [] -> dlt (best_bid b) (best_ask b) = true) /\
    tick = if logging && (dgt (best_bid b) dzero && dgt (best_ask b) dzero)
           then Some (mkBboTick (sn_exchange snap) (normalize_symbol (sn_symbol snap))
                        (best_bid b) (best_ask b) (mid_price b) (spread_bps b) ts_ns)
           else None.
Proof using.
  intros [Hw _] Hs. unfold update_order_book.
  set (b0 := default (new_book (sn_symbol snap) (sn_exchange snap)) (ws_books_ e !! book_key snap)).
  assert (Hb0 : book_wf b0).
  { unfold b0. destruct (ws_books_ e !! book_key snap) as [b|] eqn:Eb; [by apply (Hw _ _ Eb)|apply new_book_wf]. }
  assert (Hold : forall s p, level_at s p b0 = ws_books_ e !! book_key snap ≫= level_at s p).
  { intros s p. unfold b0. destruct (ws_books_ e !! book_key snap); [done|by destruct s]. }
  split; [done|]. split; [done|]. split.
  { intros key Hk. simpl. by rewrite lookup_insert_ne. }
  exists (apply_feed clock snap b0). split; [apply lookup_insert_eq|].
  pose proof (apply_feed_wf clock snap b0 Hs Hb0) as Hwf. split; [done|]. split; [|split].
  - intros s p Hp. rewrite apply_feed_levels, Hold by done. done.
  - intros Hd Hbid Hask. unfold apply_feed in *. rewrite Hd in *. cbv zeta in *.
    refine (prune_uncrossed _ _ Hbid Hask). destruct Hs as [Hpb Hpa].
    by do 2 (apply (level_at_feed true Bid _ dzero); [done|done|]).
  - destruct logging; [|done]. unfold bbo_tick. cbn [update_books ws_books_ set_field].
    rewrite lookup_insert_eq. done.
Qed.

(** ** Queries *)

Lemma get_snapshots_elem sym e s :
  s ∈ get_snapshots sym e <->
  exists v b, venue_book e v = Some b /\ empty b = false /\ s = get_snapshot b /\
    normalize_symbol (match v with WsBook k => key_symbol k | FixBook k => k end) = sym.
Proof using.
  unfold get_snapshots. rewrite elem_of_app, !list_elem_of_filter, !list_elem_of_fmap. split.
  - intros [(Hs & ([k b] & -> & Hk))|(Hs & ([k b] & -> & Hk))];
      apply list_elem_of_filter in Hk as [Hk Hin%elem_of_iter_map]; rewrite empty_snapshot in Hs;
      [exists (WsBook k), b|exists (FixBook k), b]; by split_and!.
  - intros ([k|k] & b & Hb & He & -> & Hk); rewrite <-empty_snapshot in He; [left|right];
      (split; [done|]); exists (k, b); (split; [done|]); apply list_elem_of_filter;
      (split; [done|by apply elem_of_iter_map]).
Qed.

Lemma seen_symbols_elem sym e :
  sym ∈ seen_symbols e <->
  exists v b, venue_book e v = Some b /\ empty b = false /\
    sym = normalize_symbol (match v with WsBook k => key_symbol k | FixBook k => k end).
Proof using.
  unfold seen_symbols. rewrite elem_of_list_to_set, elem_of_app, !list_elem_of_fmap. split.
  - intros [([k b] & -> & Hk)|([k b] & -> & Hk)];
      apply list_elem_of_filter in Hk as [Hk Hin%elem_of_iter_map];
      [exists (WsBook k), b|exists (FixBook k), b]; by split_and!.
  - intros ([k|k] & b & Hb & He & ->); [left|right]; exists (k, b); (split; [done|]);
      apply list_elem_of_filter; (split; [done|by apply elem_of_iter_map]).
Qed.

Lemma list_symbols_elem sym e : sym ∈ list_symbols e <-> sym ∈ seen_symbols e.
Proof using.
  unfold list_symbols. rewrite list_elem_of_fmap. split.
  - intros ([s []] & -> & Hin%elem_of_iter_map). apply lookup_set_to_map in Hin as (s' & Hs & [= ->]); [done|].
    by intros ? ? _ _ [=].
  - intros Hs. exists (sym, tt). split; [done|]. apply elem_of_iter_map, lookup_set_to_map; [|by exists sym].
    by intros ? ? _ _ [=].
Qed.

(** The two symbol queries agree: [list_symbols] lists every symbol once,
    and a symbol is listed exactly when [get_snapshots] returns something for
    it; every snapshot returned is the current content of a stored book, is
    not empty, and belongs to a key that normalizes to the symbol asked for. *)
Theorem symbol_queries_agree e :
  NoDup (list_symbols e) /\
  (forall sym, sym ∈ list_symbols e <-> get_snapshots sym e <> []) /\
  (forall sym s, s ∈ get_snapshots sym e ->
     snap_empty s = false /\
     exists v b, venue_book e v = Some b /\ s = get_snapshot b /\
       normalize_symbol (match v with WsBook k => key_symbol k | FixBook k => k end) = sym).
Proof using.
  split; [apply NoDup_iter_map_keys|]. split.
  - intros sym. rewrite list_symbols_elem, seen_symbols_elem. split.
    + intros (v & b & Hb & He & ->) E.
      assert (Hin : get_snapshot b ∈ get_snapshots (normalize_symbol (match v with WsBook k => key_symbol k | FixBook k => k end)) e)
        by (apply get_snapshots_elem; by exists v, b).
      rewrite E in Hin. by apply elem_of_nil in Hin.
    + intros Hne. destruct (get_snapshots sym e) as [|s l] eqn:E; [done|].
      assert (Hin : s ∈ get_snapshots sym e) by (rewrite E; apply list_elem_of_here).
      apply get_snapshots_elem in Hin as (v & b & Hb & He & _ & <-). by exists v, b.
  - intros sym s (v & b & Hb & He & -> & Hk)%get_snapshots_elem. rewrite empty_snapshot.
    split; [done|]. by exists v, b.
Qed.

(** ** Staleness *)

(** The staleness of one book. *)
Definition book_staleness (now : Z) (b : OrderBook) : Z :=
  if last_update_ms_ b <=? now then now - last_update_ms_ b else 0.

Definition venue_exchange (v : venue) : bytes :=
  match v with WsBook k => key_exchange k | FixBook _ => $"FIX" end.

Lemma staleness_fold (now : Z) (l : list (bytes * OrderBook)) (m : gmap bytes Z) (x : bytes) :
  is_Some (m !! x) ->
  exists n, foldl (staleness_step now) m l !! x = Some n /\
    (forall b, (x, b) ∈ l -> last_update_ms_ b <> 0 -> n <= book_staleness now b) /\
    (m !! x = Some n \/ exists b, (x, b) ∈ l /\ last_update_ms_ b <> 0 /\ n = book_staleness now b) /\
    (forall n0, m !! x = Some n0 -> n <= n0).
Proof using.
  revert m. induction l as [|[y b] l IH]; intros m [n0 Hn0].
  { exists n0. split_and!; [done|by intros ? ?%elem_of_nil|by left|].
    intros n1 ?. simplify_eq. lia. }
  cbn [foldl]. unfold staleness_step at 2. cbn [fst snd]. fold (book_staleness now b).
  destruct (Z.eqb_spec (last_update_ms_ b) 0) as [E0|E0].
  { destruct (IH m ltac:(by exists n0)) as (n & H1 & H2 & H3 & H4). exists n. split_and!; [done| | |done].
    - intros b' [[= -> ->]|Hin]%elem_of_cons Hb'; [done|by apply H2].
    - destruct H3 as [?|(b' & ? & ? & ?)]; [by left|right]. exists b'. rewrite elem_of_cons. by auto. }
  destruct (decide (y = x)) as [->|Hne].
  - rewrite Hn0. cbn [default]. 
    set (m' := <[x := _]> m).
    destruct (IH m') as (n & H1 & H2 & H3 & H4); [unfold m'; rewrite lookup_insert_eq; by eexists|].
    assert (Hm' : m' !! x = Some (if book_staleness now b <? n0 then book_staleness now b else n0))
      by apply lookup_insert_eq.
    specialize (H4 _ Hm'). exists n. destruct (Z.ltb_spec (book_staleness now b) n0) as [Hlt|Hge]; split_and!; try done.
    + intros b' [[= ->]|Hin]%elem_of_cons Hb'; [done|by apply H2].
    + right. destruct H3 as [H3|(b' & ? & ? & ?)]; [exists b|exists b']; rewrite elem_of_cons; [|by auto].
      simplify_eq. by auto.
    + intros n1 ?. simplify_eq. lia.
    + intros b' [[= ->]|Hin]%elem_of_cons Hb'; [lia|by apply H2].
    + destruct H3 as [H3|(b' & ? & ? & ?)]; [left|right]; [simplify_eq; congruence|].
      exists b'. rewrite elem_of_cons. by auto.
    + intros n1 ?. simplify_eq. lia.
  - set (m' := <[y := _]> m). assert (Em : m' !! x = m !! x) by by apply lookup_insert_ne.
    destruct (IH m') as (n & H1 & H2 & H3 & H4); [rewrite Em; by eexists|]. rewrite Em in H3, H4.
    exists n. split_and!; [done| | |done].
    + intros b' [[= -> ->]|Hin]%elem_of_cons Hb'; [done|by apply H2].
    + destruct H3 as [?|(b' & ? & ? & ?)]; [by left|right]. exists b'. rewrite elem_of_cons. by auto.
Qed.

Lemma elem_of_staleness_input e x b :
  (x, b) ∈ map (fun kv => (key_exchange (fst kv), snd kv)) (iter_map (ws_books_ e)) ++
           map (fun kv => ($"FIX", snd kv)) (iter_map (fix_books_ e)) <->
  exists v, venue_book e v = Some b /\ venue_exchange v = x.
Proof using.
  rewrite elem_of_app, !list_elem_of_fmap. split.
  - intros [([k b'] & [= -> ->] & Hin%elem_of_iter_map)|([k b'] & [= -> ->] & Hin%elem_of_iter_map)];
      [by exists (WsBook k)|by exists (FixBook k)].
  - intros ([k|k] & Hb & <-); [left|right]; exists (k, b); (split; [done|by apply elem_of_iter_map]).
Qed.

(** Feed staleness is total over the five known feeds and exact: each of
    them has an entry, which is the least age of its updated books, and is the
    largest 64-bit number when none of its books was ever updated. *)
Theorem feed_staleness_exact now e x :
  x ∈ feed_names -> 0 <= now < two64 ->
  (forall v b, venue_book e v = Some b -> 0 <= last_update_ms_ b) ->
  exists n, get_feed_staleness_ms now e !! x = Some n /\
    (forall v b, venue_book e v = Some b -> venue_exchange v = x -> last_update_ms_ b <> 0 ->
       n <= book_staleness now b) /\
    ((n = UINT64_MAX /\
      forall v b, venue_book e v = Some b -> venue_exchange v = x -> last_update_ms_ b <> 0 ->
        book_staleness now b = UINT64_MAX) \/
     exists v b, venue_book e v = Some b /\ venue_exchange v = x /\ last_update_ms_ b <> 0 /\
       n = book_staleness now b).
Proof using.
  intros Hx Hnow Hlu. unfold get_feed_staleness_ms.
  set (m0 := list_to_map _). set (l := map _ _ ++ map _ _).
  assert (Hm0 : m0 !! x = Some UINT64_MAX).
  { unfold m0, feed_names in *. repeat (apply elem_of_cons in Hx as [->|Hx]; [done|]). by apply elem_of_nil in Hx. }
  destruct (staleness_fold now l m0 x ltac:(by eexists)) as (n & H1 & H2 & H3 & H4).
  exists n. split; [done|]. split.
  { intros v b Hb Hv Hu. apply H2; [|done]. apply elem_of_staleness_input. by exists v. }
  destruct H3 as [H3|(b & Hin & Hu & ->)].
  - left. rewrite Hm0 in H3. injection H3 as <-. split; [done|]. intros v b Hb Hv Hu.
    assert (Hle : UINT64_MAX <= book_staleness now b).
    { apply H2; [|done]. apply elem_of_staleness_input. by exists v. }
    specialize (Hlu v b Hb). unfold book_staleness, UINT64_MAX in *.
    destruct (Z.leb_spec (last_update_ms_ b) now); lia.
  - right. apply elem_of_staleness_input in Hin as (v & Hb & Hv). by exists v, b.
Qed.

(** ** Canonical symbols *)

Lemma cut_suffix (c t : bytes) :
  drop (length (c ++ t) - length t) (c ++ t) = t /\ take (length (c ++ t) - length t) (c ++ t) = c.
Proof using.
  replace (length (c ++ t) - length t)%nat with (length c) by (rewrite length_app; lia).
  by rewrite drop_app_length, take_app_length.
Qed.

(** [normalize_symbol] maps the four spellings of an instrument (Coinbase
    "BTC-USD", Kraken "BTC/USD", Binance and Bybit "BTCUSDT", FIX "BTCUSD") to
    the same canonical base, in upper case, for every non-empty base without a
    separator. *)
Theorem normalize_symbol_spellings base :
  base <> [] -> "-"%char ∉ map toupper base -> "/"%char ∉ map toupper base ->
  let canonical := map toupper base in
  normalize_symbol (base ++ $"-USD") = canonical /\
  normalize_symbol (base ++ $"/USD") = canonical /\
  normalize_symbol (base ++ $"USDT") = canonical /\
  normalize_symbol (base ++ $"USD") = canonical.
Proof using.
  intros Hne Hd Hs canonical. unfold normalize_symbol. rewrite !map_app. fold canonical.
  assert (Hno : forall c t, c ∉ canonical -> c ∉ t -> find_char c (canonical ++ t) = None).
  { intros c t H1 H2. apply find_char_none. rewrite not_elem_of_app. done. }
  assert (Hl : length canonical <> 0%nat) by (unfold canonical; destruct base; [done|simpl; lia]).
  split_and!.
  - change (map toupper $"-USD") with ("-"%char :: $"USD"). rewrite find_char_app by done. apply take_app_length.
  - change (map toupper $"/USD") with ("/"%char :: $"USD").
    rewrite Hno by (done || by apply (bool_decide_eq_false_1 _)). rewrite find_char_app by done. apply take_app_length.
  - change (map toupper $"USDT") with $"USDT". rewrite !Hno by (done || by apply (bool_decide_eq_false_1 _)).
    destruct (cut_suffix canonical $"USDT") as [E1 E2]. change (length $"USDT") with 4%nat in E1, E2. rewrite E1, E2.
    rewrite bool_decide_true by done.
    by rewrite (proj2 (Nat.ltb_lt 4 _)) by (rewrite length_app; simpl; lia).
  - change (map toupper $"USD") with $"USD". rewrite !Hno by (done || by apply (bool_decide_eq_false_1 _)).
    destruct (cut_suffix canonical $"USD") as [E1 E2]. change (length $"USD") with 3%nat in E1, E2. rewrite E1, E2.
    rewrite (bool_decide_true ($"USD" = $"USD")) by done.
    rewrite (proj2 (Nat.ltb_lt 3 _)) by (rewrite length_app; simpl; lia).
    rewrite bool_decide_false; [by rewrite andb_false_r|].
    destruct canonical as [|x c' _] using rev_ind; [done|]. rewrite <-app_assoc.
    destruct (cut_suffix c' ([x] ++ $"USD")) as [E3 _]. change (length ([x] ++ $"USD")) with 4%nat in E3. rewrite E3.
    by intros [=].
Qed.
End calculation.

(** ** Witnesses *)

Definition ex_feed (snapshot : bool) (exch sym : bytes) (bid ask : Z) : OrderBookSnapshot :=
  mkOrderBookSnapshot sym exch 0 snapshot [mkPriceLevel (dZ bid) (dZ 2) 1] [mkPriceLevel (dZ ask) (dZ 3) 1].

Definition ex_e1 : Engine := update_books (fun _ => 1000) (ex_feed true $"Binance" $"BTCUSDT" 100 101) new_engine.
Definition ex_e2 : Engine := update_books (fun _ => 1200) (ex_feed true $"Coinbase" $"BTC-USD" 110 111) ex_e1.

(** Buying at 101 on Binance and selling at 110 on Coinbase is reported. *)
Example ex_calculation :
  map (fun o => (opp_buy_exchange o, opp_sell_exchange o, opp_buy_price o, opp_sell_price o))
    (snd (@calculate_arbitrage default_order 1300 ex_e2)) =
  [($"Binance", $"Coinbase", dZ 101, dZ 110)].
Proof. vm_compute. reflexivity. Qed.

Lemma ex_priced_feed snapshot exch sym : priced_snapshot (ex_feed snapshot exch sym 100 101).
Proof. split; repeat constructor. Qed.

Lemma ex_e2_reachable : rtc (@engine_step default_order) new_engine ex_e2.
Proof.
  eapply rtc_l; [apply (es_books (fun _ => 1000) (ex_feed true $"Binance" $"BTCUSDT" 100 101))|apply rtc_once].
  - split; repeat constructor.
  - apply es_books. split; repeat constructor.
Qed.

Lemma reachable_engine_wf_witness : size (ws_books_ ex_e2) = 2%nat /\ engine_wf ex_e2.
Proof. split; [vm_compute; reflexivity|]. apply (@reachable_engine_wf default_order ex_e2 ex_e2_reachable). Defined.

Lemma update_order_book_spec_witness :
  let '(e', tick) := update_order_book (fun _ => 5) 7 true (ex_feed true $"Binance" $"BTCUSDT" 100 101) new_engine in
  books_dirty_ e' = true /\ tick <> None.
Proof.
  pose proof (@update_order_book_spec (fun _ => 5) 7 true (ex_feed true $"Binance" $"BTCUSDT" 100 101)
    new_engine new_engine_wf (ex_priced_feed _ _ _)) as H.
  split; [exact (proj1 H)|by vm_compute].
Defined.

Lemma feed_staleness_exact_witness :
  exists n, @get_feed_staleness_ms default_order 1300 ex_e2 !! $"Coinbase" = Some n /\ n = 100.
Proof.
  destruct (@feed_staleness_exact default_order 1300 ex_e2 $"Coinbase") as (n & Hn & _).
  - by apply (bool_decide_eq_true_1 _).
  - done.
  - intros v b Hb. destruct v as [k|k]; [|done]. simpl in Hb.
    apply lookup_insert_Some in Hb as [[_ <-]|[_ Hb]]; [done|].
    apply lookup_insert_Some in Hb as [[_ <-]|[_ Hb]]; [done|]. done.
  - exists n. split; [exact Hn|]. vm_compute in Hn. by injection Hn as <-.
Defined.

Lemma normalize_symbol_spellings_witness :
  normalize_symbol $"btc-USD" = $"BTC" /\ normalize_symbol $"btcUSD" = $"BTC".
Proof.
  destruct (@normalize_symbol_spellings $"btc") as (H1 & _ & _ & H2);
    [done|by apply (bool_decide_eq_false_1 _)|by apply (bool_decide_eq_false_1 _)|].
  by split.
Defined.
