(* ===== verification/Wakeup.v ===== *)
(** * The wake-up protocol of the arbitrage engine (src/arbitrage_engine.cpp)

    Producers ([update_order_book], [update_fix_data]), the calculation thread
    ([calculation_loop]) and [stop], at the grain of the individual accesses to
    [books_dirty_], [running_] and the condition variable.  Only the
    calculation thread ever locks [cv_mutex_]; the producers and [stop] change
    the flags and notify without it.  So the wait splits into evaluating the
    predicate (two loads), starting to block, and being blocked, and a
    notification that arrives before the thread is blocked is not remembered.

    Books are abstracted to a version number, which every update increments;
    a calculation reads the current version.  The producers are anonymous: the
    state counts those that have updated a book but not yet set the flag, and
    those that have set the flag but not yet notified. *)

From S2P Require Import Prelude.

(** Where the calculation thread is. *)
Inductive CalcPc :=
  | CTop        (* about to test [running_] of the while loop *)
  | CPred       (* in [cv_.wait], about to load [books_dirty_] *)
  | CPred2      (* flag was false, about to load [running_] *)
  | CBlock      (* predicate was false, about to block *)
  | CAsleep     (* blocked on the condition variable *)
  | CClear      (* predicate was true, about to clear the flag *)
  | CCheck      (* about to test [running_] after the wait *)
  | CCalc       (* about to run [calculate_arbitrage] *)
  | CReport     (* after the calculation, before the periodic report *)
  | CDone.      (* the thread function has returned *)

(** Where the caller of [stop] is. *)
Inductive StopPc := SIdle | SDirty | SNotify | SJoin | SReturned.

#[export] Instance CalcPc_eq_dec : EqDecision CalcPc.
Proof. solve_decision. Defined.
#[export] Instance StopPc_eq_dec : EqDecision StopPc.
Proof. solve_decision. Defined.

Record WState := mkWState {
  dirty : bool;
  running : bool;
  version : Z;
  seen : Z;
  n_updated : nat;   (* producers between the book update and the flag *)
  n_flagged : nat;   (* producers between the flag and the notification *)
  calc : CalcPc;
  stopper : StopPc;
}.
#[export] Instance WState_settable : Settable WState :=
  fun s => mkWState (dirty s) (running s) (version s) (seen s) (n_updated s) (n_flagged s)
    (calc s) (stopper s).

(** After [start]. *)
Definition started : WState := mkWState false true 0 0 0 0 CTop SIdle.

Inductive Act :=
  | AUpdate | AFlag | ANotify      (* a producer *)
  | ACalc                          (* the calculation thread *)
  | ASpurious                      (* a wake-up nobody asked for *)
  | ALimit                         (* the report that reaches [max_reports_] *)
  | AStop.                         (* the caller of [stop] *)

(** [cv_.notify_one()] *)
Definition notify (s : WState) : WState :=
  if bool_decide (calc s = CAsleep) then s <| calc := CPred |> else s.

Definition calc_step (s : WState) : option WState :=
  match calc s with
  | CTop => Some (s <| calc := if running s then CPred else CDone |>)
  | CPred => Some (s <| calc := if dirty s then CClear else CPred2 |>)
  | CPred2 => Some (s <| calc := if running s then CBlock else CClear |>)
  | CBlock => Some (s <| calc := CAsleep |>)
  | CAsleep => None
  | CClear => Some (s <| dirty := false |> <| calc := CCheck |>)
  | CCheck => Some (s <| calc := if running s then CCalc else CDone |>)
  | CCalc => Some (s <| seen := version s |> <| calc := CReport |>)
  | CReport => Some (s <| calc := CTop |>)
  | CDone => None
  end.

Definition stop_step (s : WState) : option WState :=
  match stopper s with
  | SIdle => Some (s <| running := false |> <| stopper := SDirty |>)
  | SDirty => Some (s <| dirty := true |> <| stopper := SNotify |>)
  | SNotify => Some (notify s <| stopper := SJoin |>)
  | SJoin => if bool_decide (calc s = CDone) then Some (s <| stopper := SReturned |>) else None
  | SReturned => None
  end.

Definition act (a : Act) (s : WState) : option WState :=
  match a with
  | AUpdate => Some (s <| version := version s + 1 |> <| n_updated := S (n_updated s) |>)
  | AFlag =>
      match n_updated s with
      | O => None
      | S n => Some (s <| dirty := true |> <| n_updated := n |> <| n_flagged := S (n_flagged s) |>)
      end
  | ANotify =>
      match n_flagged s with
      | O => None
      | S n => Some (notify s <| n_flagged := n |>)
      end
  | ACalc => calc_step s
  | ASpurious => if bool_decide (calc s = CAsleep) then Some (s <| calc := CPred |>) else None
  | ALimit => if bool_decide (calc s = CReport) then Some (s <| running := false |> <| calc := CDone |>) else None
  | AStop => stop_step s
  end.

Definition wstep (s s' : WState) : Prop := exists a, act a s = Some s'.

Fixpoint acts (l : list Act) (s : WState) : option WState :=
  match l with [] => Some s | a :: l' => s' ← act a s; acts l' s' end.

(** ** Invariants *)

(** Something still to be calculated is remembered: by the flag, by a producer
    about to set it, or by the calculation thread on its way. *)
Definition remembered (s : WState) : Prop :=
  seen s = version s \/ (0 < n_updated s)%nat \/ dirty s = true \/
  calc s = CCheck \/ calc s = CCalc \/ calc s = CDone.

(** After [stop] has cleared [running_] and set the flag, nothing but the
    calculation thread clears the flag, and it then sees the request. *)
Definition stop_seen (s : WState) : Prop :=
  (stopper s <> SIdle -> running s = false) /\
  (stopper s = SNotify \/ stopper s = SJoin ->
     dirty s = true \/ calc s = CCheck \/ calc s = CDone).

Lemma acts_rtc l s s' : acts l s = Some s' -> rtc wstep s s'.
Proof.
  revert s. induction l as [|a l IH]; simpl; intros s; [by intros [= ->]|].
  intros (s1 & H1 & H2)%bind_Some. eapply rtc_l; [by exists a|by apply IH].
Qed.

Ltac wstep_cases :=
  unfold act, calc_step, stop_step, notify in *;
  repeat (case_match || case_bool_decide); simplify_eq/=.

Lemma remembered_step s s' : remembered s -> wstep s s' -> remembered s'.
Proof.
  unfold remembered. intros H [a Ha]. destruct s. simpl in *.
  destruct a; wstep_cases; intuition (try congruence; auto with lia).
Qed.

Lemma stop_seen_step s s' : stop_seen s -> wstep s s' -> stop_seen s'.
Proof.
  unfold stop_seen. intros (H1 & H2) [a Ha]. destruct s. simpl in *.
  destruct a; wstep_cases; (split_and!; [intros; intuition (try congruence)..]).
Qed.

Lemma reachable_remembered s : rtc wstep started s -> remembered s.
Proof.
  intros H. eapply (rtc_invariant wstep remembered); [|exact H|by left].
  intros ? ?; apply remembered_step.
Qed.

Lemma reachable_stop_seen s : rtc wstep started s -> stop_seen s.
Proof.
  intros H. eapply (rtc_invariant wstep stop_seen); [|exact H|].
  - intros ? ?; apply stop_seen_step.
  - split; simpl; [done|by intros [?|?]].
Qed.

(** ** Properties *)

(** No book update is forgotten by the flag protocol: in every reachable
    state in which the calculation thread is still running and outside its
    calculation, the flag is clear and no producer is between its update and
    the flag, the last calculation saw every update there has been. *)
Theorem no_update_forgotten s :
  rtc wstep started s -> dirty s = false -> n_updated s = 0%nat ->
  calc s <> CCheck -> calc s <> CCalc -> calc s <> CDone -> seen s = version s.
Proof.
  intros [H|[H|[H|[H|[H|H]]]]]%reachable_remembered Hd Hn; intros; try done; [lia|congruence].
Qed.

(** C37: [stop] ends whenever the calculation thread is not caught between its
    predicate and its sleep: in every reachable state in which [stop] waits for
    the thread and the thread is neither about to block nor blocked, five of
    its own steps at most bring it to its end. *)
Theorem stop_terminates s :
  rtc wstep started s -> stopper s = SJoin -> calc s <> CBlock -> calc s <> CAsleep ->
  exists n s', (n <= 5)%nat /\ acts (replicate n ACalc) s = Some s' /\ calc s' = CDone.
Proof.
  intros (H1 & H2)%reachable_stop_seen Hs Hb Ha.
  specialize (H1 ltac:(by rewrite Hs)). specialize (H2 (or_intror Hs)).
  destruct s as [d r v sn nu nf c st]. simpl in *. subst.
  destruct c; try done.
  - exists 1%nat; eexists. split; [lia|]. by split.
  - destruct H2 as [->|[?|?]]; [|done|done]. exists 3%nat; eexists. split; [lia|]. by split.
  - exists 3%nat; eexists. split; [lia|]. by split.
  - exists 2%nat; eexists. split; [lia|]. by split.
  - exists 1%nat; eexists. split; [lia|]. by split.
  - exists 3%nat; eexists. split; [lia|]. by split.
  - exists 2%nat; eexists. split; [lia|]. by split.
  - exists 0%nat; eexists. split; [lia|]. by split.
Qed.

(** An update that falls between the predicate and the block. *)
Definition lost_wakeup_trace : list Act := [ACalc; ACalc; ACalc; AUpdate; AFlag; ANotify; ACalc].

(** A wake-up can be lost: there is an execution after which an update is
    waiting (the flag is set, the last calculation did not see it), every
    producer has finished, and the calculation thread is blocked; only another
    update, a call of [stop] or a spurious wake-up can then happen. *)
Theorem lost_wakeup :
  exists s, rtc wstep started s /\
    dirty s = true /\ seen s < version s /\ n_updated s = 0%nat /\ n_flagged s = 0%nat /\
    calc s = CAsleep /\ forall a s', act a s = Some s' -> a = AUpdate \/ a = AStop \/ a = ASpurious.
Proof.
  destruct (acts lost_wakeup_trace started) as [s|] eqn:E; [|done].
  exists s. split; [by eapply acts_rtc|]. injection E as <-. simpl. split_and!; try done.
  intros []; naive_solver.
Qed.

Definition stop_hangs_trace : list Act := [ACalc; ACalc; ACalc; AStop; AStop; AStop; ACalc].

(** [stop] can hang: there is an execution without any producer after
    which [stop] waits for the calculation thread, the thread is blocked on the
    condition variable, and neither can take a step; only a spurious wake-up or
    a further update from a producer can end the wait. *)
Theorem stop_can_hang :
  exists s, rtc wstep started s /\
    stopper s = SJoin /\ calc s = CAsleep /\ running s = false /\
    n_updated s = 0%nat /\ n_flagged s = 0%nat /\
    forall a s', act a s = Some s' -> a = AUpdate \/ a = ASpurious.
Proof.
  destruct (acts stop_hangs_trace started) as [s|] eqn:E; [|done].
  exists s. split; [by eapply acts_rtc|]. injection E as <-. simpl. split_and!; try done.
  intros []; naive_solver.
Qed.

(** ** Witnesses *)

Lemma ex_trace_reachable l s : acts l started = Some s -> rtc wstep started s.
Proof. apply acts_rtc. Qed.

Lemma no_update_forgotten_witness :
  exists s, acts [AUpdate; AFlag; ACalc; ACalc; ACalc; ACalc; ACalc; ANotify] started = Some s /\
    version s = 1 /\ seen s = version s.
Proof.
  destruct (acts [AUpdate; AFlag; ACalc; ACalc; ACalc; ACalc; ACalc; ANotify] started) as [s|] eqn:E; [|done].
  exists s. pose proof (acts_rtc _ _ _ E) as Hr. vm_compute in E. injection E as <-. split_and!; [done|done|].
  by apply (no_update_forgotten _ Hr).
Defined.

Lemma stop_terminates_witness :
  exists s n s', acts [ACalc; AStop; AStop; AStop] started = Some s /\ (n <= 5)%nat /\
    acts (replicate n ACalc) s = Some s' /\ calc s' = CDone.
Proof.
  destruct (acts [ACalc; AStop; AStop; AStop] started) as [s|] eqn:E; [|done].
  exists s. pose proof (acts_rtc _ _ _ E) as Hr. vm_compute in E. injection E as <-.
  edestruct (stop_terminates _ Hr) as (n & s' & H); [done..|]. by exists n, s'.
Defined.
