(* ===== verification/EngineThreads.v ===== *)
(** * The threads of the arbitrage engine (src/arbitrage_engine.cpp)

    The engine of [ArbEngine], run by its threads: any number of producers in
    [update_order_book] and [update_fix_data], the calculation thread in
    [calculation_loop], callers of [get_snapshots] and one caller of [stop].
    A step is one locked block, or one access to [running_], [books_dirty_] or
    the condition variable.  So a calculation is several steps (the clock, the
    WebSocket books, the FIX books, the result), and so is a query, and
    producers may come in between.

    The protocol of the flags is that of [Wakeup], of which this machine is a
    refinement: [abs] forgets the data, [abs_step] is the simulation.  The
    fields [history], [clock_at], [ws_at], [fix_at] and [published] are not in the
    code: they record the books there have been, which of them were read, and
    the clock the last calculation began with. *)

From S2P Require Import Prelude Float64 SortedMap Str Types FixParser OrderBook ArbEngine Wakeup.

(** ** The calculation over snapshots already taken *)

Section calculation.
Context `{IterOrder}.

Definition opportunities_of (min_profit : double) (now : Z) (ws_snaps fix_snaps : list OrderBookSnapshot)
    : list ArbitrageOpportunity :=
  iter_map (foldl bucket ∅ (filter (fun x => fresh now x = true)
    (map (fun s => (sn_exchange s, s)) ws_snaps ++ map (fun s => ($"FIX", s)) fix_snaps)))
  ≫= symbol_opportunities min_profit now.

Lemma new_opportunities_of now e :
  new_opportunities now e =
  opportunities_of (min_profit_bps_ e) now (live_snapshots (ws_books_ e)) (live_snapshots (fix_books_ e)).
Proof using. reflexivity. Qed.

(** The two halves of [get_snapshots]. *)
Definition ws_answer (canonical_sym : bytes) (ws : gmap bytes OrderBook) : list OrderBookSnapshot :=
  filter (fun s => snap_empty s = false)
    (map (fun kv => get_snapshot (snd kv))
       (filter (fun kv => normalize_symbol (key_symbol (fst kv)) = canonical_sym) (iter_map ws))).
Definition fix_answer (canonical_sym : bytes) (fix_ : gmap bytes OrderBook) : list OrderBookSnapshot :=
  filter (fun s => snap_empty s = false)
    (map (fun kv => get_snapshot (snd kv))
       (filter (fun kv => normalize_symbol (fst kv) = canonical_sym) (iter_map fix_))).

Lemma get_snapshots_halves sym e :
  get_snapshots sym e = ws_answer sym (ws_books_ e) ++ fix_answer sym (fix_books_ e).
Proof using. reflexivity. Qed.
End calculation.

(** ** State *)

(** Where a producer is, after it has updated its book. *)
Inductive Producer :=
  | ToLog (snap : OrderBookSnapshot)   (* about to read the best prices back *)
  | ToCall (tick : BboTick)            (* about to call [log_bbo] *)
  | ToFlag                             (* about to set [books_dirty_] *)
  | ToNotify.                          (* about to notify *)

(** Where the calculation thread is, with its local variables. *)
Inductive LoopPc :=
  | LTop | LPred | LPred2 | LBlock | LAsleep | LClear | LCheck
  | LStart                             (* entering [calculate_arbitrage] *)
  | LWs (now : Z)                      (* about to read the WebSocket books *)
  | LFix (now : Z) (ws_snaps : list OrderBookSnapshot)
  | LPublish (now : Z) (ws_snaps fix_snaps : list OrderBookSnapshot)
  | LReport
  | LDone.

(** A call of [get_snapshots] between its two blocks. *)
Record Query := mkQuery {
  q_symbol : bytes;
  q_result : list OrderBookSnapshot;
  q_ws_at : nat;
}.
Record Answer := mkAnswer {
  a_symbol : bytes;
  a_result : list OrderBookSnapshot;
  a_ws_at : nat;
  a_fix_at : nat;
}.

(** The two maps of books. *)
Abbreviation Books := (gmap bytes OrderBook * gmap bytes OrderBook)%type.
Definition books (e : Engine) : Books := (ws_books_ e, fix_books_ e).

Record Threads := mkThreads {
  eng : Engine;
  logging : bool;                      (* [tick_logger_] is set *)
  producers : list Producer;
  loop : LoopPc;
  stop_pc : StopPc;
  queries : list Query;
  answers : list Answer;
  ticks : list BboTick;                (* the calls of [log_bbo] *)
  called : list ArbitrageOpportunity;  (* the calls of the callback *)
  history : list Books;
  clock_at : Z;                        (* the clock the last calculation began with *)
  ws_at : nat;                         (* what it has read *)
  fix_at : nat;
  published : Z * nat * nat;           (* what [opportunities_] was made from *)
}.
#[export] Instance Threads_settable : Settable Threads :=
  fun t => mkThreads (eng t) (logging t) (producers t) (loop t) (stop_pc t) (queries t) (answers t)
    (ticks t) (called t) (history t) (clock_at t) (ws_at t) (fix_at t) (published t).

(** The number of book updates there have been. *)
Definition moment (t : Threads) : nat := length (history t) - 1.

(** After [start]. *)
Definition threads_start (logging : bool) (min_profit : double) (max_reports : Z) : Threads :=
  let e := (set_max_reports max_reports (set_min_profit_bps min_profit new_engine)) <| running_ := true |> in
  mkThreads e logging [] LTop SIdle [] [] [] [] [books e] 0 0%nat 0%nat (0, 0%nat, 0%nat).

(** ** Steps *)

Section machine.
Context `{IterOrder}.

(** A producer's locked block, and what the producer does next. *)
Definition produce (e : Engine) (p : Producer) (t : Threads) : Threads :=
  t <| eng := e |> <| history := history t ++ [books e] |> <| producers := producers t ++ [p] |>.

Definition feed_step (clock : nat -> Z) (snap : OrderBookSnapshot) (t : Threads) : Threads :=
  produce (update_books clock snap (eng t)) (if logging t then ToLog snap else ToFlag) t.

Definition fix_step (now : Z) (msg : FIXMessage) (t : Threads) : Threads :=
  if negb (is_market_data msg) then t else produce (update_fix_books now msg (eng t)) ToFlag t.

(** [cv_.notify_one()] *)
Definition notify_one (t : Threads) : Threads :=
  match loop t with LAsleep => t <| loop := LPred |> | _ => t end.

(** The next step of producer [i]; [ts_ns] is the clock reading of a tick. *)
Definition producer_step (i : nat) (ts_ns : Z) (t : Threads) : option Threads :=
  p ← producers t !! i;
  let goto p t := t <| producers := <[i := p]> (producers t) |> in
  match p with
  | ToLog snap =>
      Some (goto (match bbo_tick ts_ns snap (eng t) with Some k => ToCall k | None => ToFlag end) t)
  | ToCall k => Some (goto ToFlag (t <| ticks := ticks t ++ [k] |>))
  | ToFlag => Some (goto ToNotify (t <| eng := mark_dirty (eng t) |>))
  | ToNotify => Some (notify_one (t <| producers := delete i (producers t) |>))
  end.

(** The next step of the calculation thread; [now] is what the clock of
    [calculate_arbitrage] reads, [elapsed] whether the report interval is
    over. *)
Definition loop_step (now : Z) (elapsed : bool) (t : Threads) : option Threads :=
  let e := eng t in
  match loop t with
  | LTop => Some (t <| loop := if running_ e then LPred else LDone |>)
  | LPred => Some (t <| loop := if books_dirty_ e then LClear else LPred2 |>)
  | LPred2 => Some (t <| loop := if running_ e then LBlock else LClear |>)
  | LBlock => Some (t <| loop := LAsleep |>)
  | LAsleep => None
  | LClear => Some (t <| eng := e <| books_dirty_ := false |> |> <| loop := LCheck |>)
  | LCheck => Some (t <| loop := if running_ e then LStart else LDone |>)
  | LStart => Some (t <| eng := e <| calculation_count_ := wrap64 (calculation_count_ e + 1) |> |>
                     <| loop := LWs now |> <| clock_at := now |>)
  | LWs now => Some (t <| loop := LFix now (live_snapshots (ws_books_ e)) |> <| ws_at := moment t |>)
  | LFix now ws_snaps =>
      Some (t <| loop := LPublish now ws_snaps (live_snapshots (fix_books_ e)) |> <| fix_at := moment t |>)
  | LPublish now ws_snaps fix_snaps =>
      let opps := opportunities_of (min_profit_bps_ e) now ws_snaps fix_snaps in
      Some (t <| eng := e <| opportunity_count_ := wrap64 (opportunity_count_ e + Z.of_nat (length opps)) |>
                          <| opportunities_ := opps |> |>
              <| called := called t ++ opps |> <| published := (now, ws_at t, fix_at t) |> <| loop := LReport |>)
  | LReport =>
      let '(e', go) := report_step elapsed e in
      Some (t <| eng := e' |> <| loop := if go : bool then LTop else LDone |>)
  | LDone => None
  end.

Definition stopping_step (t : Threads) : option Threads :=
  match stop_pc t with
  | SIdle => Some (t <| eng := (eng t) <| running_ := false |> |> <| stop_pc := SDirty |>)
  | SDirty => Some (t <| eng := mark_dirty (eng t) |> <| stop_pc := SNotify |>)
  | SNotify => Some ((notify_one t) <| stop_pc := SJoin |>)
  | SJoin => match loop t with LDone => Some (t <| stop_pc := SReturned |>) | _ => None end
  | SReturned => None
  end.

(** The first block of [get_snapshots], and the second. *)
Definition query_begin (sym : bytes) (t : Threads) : Threads :=
  t <| queries := queries t ++ [mkQuery sym (ws_answer sym (ws_books_ (eng t))) (moment t)] |>.
Definition query_end (i : nat) (t : Threads) : option Threads :=
  q ← queries t !! i;
  Some (t <| queries := delete i (queries t) |>
    <| answers := answers t ++
         [mkAnswer (q_symbol q) (q_result q ++ fix_answer (q_symbol q) (fix_books_ (eng t))) (q_ws_at q) (moment t)] |>).

Inductive TAct :=
  | TFeed (clock : nat -> Z) (snap : OrderBookSnapshot)
  | TFix (now : Z) (msg : FIXMessage)
  | TProducer (i : nat) (ts_ns : Z)
  | TLoop (now : Z) (elapsed : bool)
  | TSpurious
  | TStop
  | TQuery (sym : bytes)
  | TAnswer (i : nat).

Definition tact (a : TAct) (t : Threads) : option Threads :=
  match a with
  | TFeed clock snap => Some (feed_step clock snap t)
  | TFix now msg => Some (fix_step now msg t)
  | TProducer i ts_ns => producer_step i ts_ns t
  | TLoop now elapsed => loop_step now elapsed t
  | TSpurious => match loop t with LAsleep => Some (t <| loop := LPred |>) | _ => None end
  | TStop => stopping_step t
  | TQuery sym => Some (query_begin sym t)
  | TAnswer i => query_end i t
  end.

Definition tstep (t t' : Threads) : Prop := exists a, tact a t = Some t'.

Fixpoint tacts (l : list TAct) (t : Threads) : option Threads :=
  match l with [] => Some t | a :: l' => t' ← tact a t; tacts l' t' end.

Lemma tacts_rtc l t t' : tacts l t = Some t' -> rtc tstep t t'.
Proof using.
  revert t. induction l as [|a l IH]; simpl; intros t; [by intros [= ->]|].
  intros (t1 & H1 & H2)%bind_Some. eapply rtc_l; [by exists a|by apply IH].
Qed.

(** ** Simulation *)

Definition to_flag (p : Producer) : nat := match p with ToNotify => 0 | _ => 1 end.
Definition to_notify (p : Producer) : nat := match p with ToNotify => 1 | _ => 0 end.

Definition abs_loop (l : LoopPc) : CalcPc :=
  match l with
  | LTop => CTop | LPred => CPred | LPred2 => CPred2 | LBlock => CBlock | LAsleep => CAsleep
  | LClear => CClear | LCheck => CCheck | LStart | LWs _ => CCalc
  | LFix _ _ | LPublish _ _ _ | LReport => CReport
  | LDone => CDone
  end.

Definition abs (t : Threads) : WState :=
  mkWState (books_dirty_ (eng t)) (running_ (eng t)) (Z.of_nat (moment t)) (Z.of_nat (ws_at t))
    (sum_list_with to_flag (producers t)) (sum_list_with to_notify (producers t))
    (abs_loop (loop t)) (stop_pc t).

(** ** Invariant *)

(** [snaps] are the snapshots of the WebSocket books as they were at moment
    [i] of the history; likewise for the FIX books. *)
Definition ws_read (h : list Books) (i : nat) (snaps : list OrderBookSnapshot) : Prop :=
  exists b, h !! i = Some b /\ snaps = live_snapshots (fst b).
Definition fix_read (h : list Books) (i : nat) (snaps : list OrderBookSnapshot) : Prop :=
  exists b, h !! i = Some b /\ snaps = live_snapshots (snd b).

Definition published_ok (min_profit : double) (h : list Books) (opps : list ArbitrageOpportunity)
    (p : Z * nat * nat) : Prop :=
  let '(now, i, j) := p in
  exists ws fix_, ws_read h i ws /\ fix_read h j fix_ /\ (i <= j)%nat /\
    opps = opportunities_of min_profit now ws fix_.

Definition query_ok (h : list Books) (q : Query) : Prop :=
  exists b, h !! q_ws_at q = Some b /\ q_result q = ws_answer (q_symbol q) (fst b).
Definition answer_ok (h : list Books) (a : Answer) : Prop :=
  exists b b', h !! a_ws_at a = Some b /\ h !! a_fix_at a = Some b' /\ (a_ws_at a <= a_fix_at a)%nat /\
    a_result a = ws_answer (a_symbol a) (fst b) ++ fix_answer (a_symbol a) (snd b').

(** What the calculation thread holds: [c] is the clock it began with. *)
Definition loop_ok (h : list Books) (c : Z) (wsi fixi : nat) (p : Z * nat * nat) (l : LoopPc) : Prop :=
  match l with
  | LWs now => now = c /\ p.1.2 = wsi /\ p.2 = fixi
  | LFix now ws => now = c /\ ws_read h wsi ws
  | LPublish now ws fix_ => now = c /\ ws_read h wsi ws /\ fix_read h fixi fix_ /\ (wsi <= fixi)%nat
  | _ => p = (c, wsi, fixi)
  end.

Record threads_inv (min_profit : double) (t : Threads) : Prop := {
  ti_current : history t !! moment t = Some (books (eng t));
  ti_profit : min_profit_bps_ (eng t) = min_profit;
  ti_published : published_ok min_profit (history t) (opportunities_ (eng t)) (published t);
  ti_loop : loop_ok (history t) (clock_at t) (ws_at t) (fix_at t) (published t) (loop t);
  ti_queries : Forall (query_ok (history t)) (queries t);
  ti_answers : Forall (answer_ok (history t)) (answers t);
}.

Lemma ws_read_snoc h b i s : ws_read h i s -> ws_read (h ++ [b]) i s.
Proof using. intros (x & Hx & ->). exists x. split; [by apply lookup_app_l_Some|done]. Qed.
Lemma fix_read_snoc h b i s : fix_read h i s -> fix_read (h ++ [b]) i s.
Proof using. intros (x & Hx & ->). exists x. split; [by apply lookup_app_l_Some|done]. Qed.
Lemma published_ok_snoc mp h b o p : published_ok mp h o p -> published_ok mp (h ++ [b]) o p.
Proof using.
  destruct p as [[now i] j]. intros (ws & fx & H1 & H2 & H3 & H4).
  exists ws, fx. split_and!; [by apply ws_read_snoc|by apply fix_read_snoc|done|done].
Qed.
Lemma query_ok_snoc h b q : query_ok h q -> query_ok (h ++ [b]) q.
Proof using. intros (x & Hx & Hr). exists x. split; [by apply lookup_app_l_Some|done]. Qed.
Lemma answer_ok_snoc h b a : answer_ok h a -> answer_ok (h ++ [b]) a.
Proof using.
  intros (x & y & Hx & Hy & Hle & Hr). exists x, y.
  split_and!; [by apply lookup_app_l_Some|by apply lookup_app_l_Some|done|done].
Qed.
Lemma loop_ok_snoc h b c i j p l : loop_ok h c i j p l -> loop_ok (h ++ [b]) c i j p l.
Proof using.
  destruct l; simpl; try done.
  - intros [H1 H2]. split; [done|by apply ws_read_snoc].
  - intros (H1 & H2 & H3 & H4). split_and!; [done|by apply ws_read_snoc|by apply fix_read_snoc|done].
Qed.

Lemma moment_current mp t : threads_inv mp t -> length (history t) = S (moment t).
Proof using. intros [H0 _ _ _ _ _]. apply lookup_lt_Some in H0. unfold moment in *. lia. Qed.

(** Every moment of the history is past or present. *)
Lemma past mp t i b : threads_inv mp t -> history t !! i = Some b -> (i <= moment t)%nat.
Proof using. intros Hi Hb. apply moment_current in Hi. apply lookup_lt_Some in Hb. lia. Qed.

Lemma produce_inv mp t e p :
  threads_inv mp t -> min_profit_bps_ e = min_profit_bps_ (eng t) -> opportunities_ e = opportunities_ (eng t) ->
  threads_inv mp (produce e p t).
Proof using.
  intros Hi Hp Ho. pose proof (moment_current mp t Hi) as Hlen. destruct Hi as [H0 H1 H2 H3 H4 H5]. constructor.
  - unfold moment, produce. cbn [history eng set_field]. rewrite length_app, Hlen. cbn [length].
    replace (S (moment t) + 1 - 1)%nat with (length (history t)) by lia. by rewrite list_lookup_middle.
  - by rewrite <-H1.
  - cbn [produce eng history published set_field]. rewrite Ho. by apply published_ok_snoc.
  - by apply loop_ok_snoc.
  - eapply Forall_impl; [exact H4|]. intros q. apply query_ok_snoc.
  - eapply Forall_impl; [exact H5|]. intros a. apply answer_ok_snoc.
Qed.

(** A step that leaves the history and the data alone. *)
Lemma flags_inv mp t t' :
  threads_inv mp t -> history t' = history t -> books (eng t') = books (eng t) ->
  min_profit_bps_ (eng t') = min_profit_bps_ (eng t) -> opportunities_ (eng t') = opportunities_ (eng t) ->
  published t' = published t -> clock_at t' = clock_at t -> ws_at t' = ws_at t -> fix_at t' = fix_at t ->
  loop_ok (history t) (clock_at t) (ws_at t) (fix_at t) (published t) (loop t') ->
  queries t' = queries t -> answers t' = answers t -> threads_inv mp t'.
Proof using.
  intros [H0 H1 H2 H3 H4 H5] Eh Eb Em Eo Ep Ec Ew Ef Hl Eq Ea.
  constructor; unfold moment in *; rewrite ?Eh, ?Eb, ?Em, ?Eo, ?Ep, ?Ec, ?Ew, ?Ef, ?Eq, ?Ea; done.
Qed.

Lemma loop_ok_notify h c i j p t : loop_ok h c i j p (loop t) -> loop_ok h c i j p (loop (notify_one t)).
Proof using. unfold notify_one. by destruct (loop t) eqn:E; rewrite ?E. Qed.

Lemma notify_one_inv mp t : threads_inv mp t -> threads_inv mp (notify_one t).
Proof using.
  intros Hi. pose proof (ti_loop mp t Hi) as Hl. apply loop_ok_notify in Hl.
  by apply (flags_inv mp t); try done; unfold notify_one; destruct (loop t).
Qed.

Lemma producer_step_inv mp i ts t t' : threads_inv mp t -> producer_step i ts t = Some t' -> threads_inv mp t'.
Proof using.
  intros Hi (p & Hp & E)%bind_Some. destruct p; injection E as <-.
  - apply (flags_inv mp t); try done. by apply ti_loop with mp.
  - apply (flags_inv mp t); try done. by apply ti_loop with mp.
  - apply (flags_inv mp t); try done. by apply ti_loop with mp.
  - apply notify_one_inv, (flags_inv mp t); try done. by apply ti_loop with mp.
Qed.

Lemma loop_step_inv mp now elapsed t t' :
  threads_inv mp t -> loop_step now elapsed t = Some t' -> threads_inv mp t'.
Proof using.
  intros Hi E. pose proof (ti_loop mp t Hi) as Hl. unfold loop_step in E.
  destruct (loop t) eqn:El; simpl in E; simplify_eq; simpl in Hl;
    try (apply (flags_inv mp t); try done; cbn [loop set_field]; by repeat case_match).
  - destruct Hi as [H0 H1 H2 H3 H4 H5]. constructor; try done. cbn. by rewrite Hl.
  - destruct Hl as (-> & _). destruct Hi as [H0 H1 H2 H3 H4 H5]. constructor; try done. cbn.
    split; [done|]. by exists (books (eng t)).
  - destruct Hl as (-> & b & Hb & ->). pose proof (past mp t _ _ Hi Hb) as Hle.
    destruct Hi as [H0 H1 H2 H3 H4 H5]. constructor; try done. cbn.
    split_and!; [done|by exists b|by exists (books (eng t))|done].
  - destruct Hl as (-> & Hw & Hf & Hle). destruct Hi as [H0 H1 H2 H3 H4 H5]. constructor; try done. cbn.
    eexists _, _. split_and!; [exact Hw|exact Hf|done|by rewrite <-H1].
  - destruct (report_step elapsed (eng t)) as [e' go] eqn:Er. injection E as <-.
    assert (books e' = books (eng t) /\ min_profit_bps_ e' = min_profit_bps_ (eng t) /\
      opportunities_ e' = opportunities_ (eng t)) as (? & ? & ?).
    { unfold report_step in Er. repeat case_match; simplify_eq/=; done. }
    apply (flags_inv mp t); try done. destruct go; done.
Qed.

Lemma stopping_step_inv mp t t' : threads_inv mp t -> stopping_step t = Some t' -> threads_inv mp t'.
Proof using.
  intros Hi E. pose proof (ti_loop mp t Hi) as Hl. unfold stopping_step in E.
  destruct (stop_pc t); simplify_eq/=.
  - by apply (flags_inv mp t).
  - by apply (flags_inv mp t).
  - pose proof (notify_one_inv mp t Hi) as Hn. apply (flags_inv mp (notify_one t)); try done. by apply ti_loop with mp.
  - destruct (loop t) eqn:El; simplify_eq. apply (flags_inv mp t); try done.
Qed.

Lemma query_begin_inv mp sym t : threads_inv mp t -> threads_inv mp (query_begin sym t).
Proof using.
  intros [H0 H1 H2 H3 H4 H5]. constructor; try done. cbn. apply Forall_app. split; [done|].
  apply Forall_singleton. by exists (books (eng t)).
Qed.

Lemma query_end_inv mp i t t' : threads_inv mp t -> query_end i t = Some t' -> threads_inv mp t'.
Proof using.
  intros Hi (q & Hq & E)%bind_Some. injection E as <-.
  destruct (Forall_lookup_1 _ _ _ _ (ti_queries mp t Hi) Hq) as (b & Hb & Hr).
  pose proof (past mp t _ _ Hi Hb) as Hle. destruct Hi as [H0 H1 H2 H3 H4 H5]. constructor; try done; cbn.
  - by apply Forall_delete.
  - apply Forall_app. split; [done|]. apply Forall_singleton. exists b, (books (eng t)).
    split_and!; [done|done|done|]. cbn. by rewrite Hr.
Qed.

Lemma tstep_inv mp t t' : threads_inv mp t -> tstep t t' -> threads_inv mp t'.
Proof using.
  intros Hi [a Ha]. destruct a; simpl in Ha.
  - injection Ha as <-. by apply produce_inv.
  - injection Ha as <-. unfold fix_step. destruct (negb _); [done|]. by apply produce_inv.
  - by eapply producer_step_inv.
  - by eapply loop_step_inv.
  - destruct (loop t) eqn:El; simplify_eq. apply (flags_inv mp t); try done.
    pose proof (ti_loop mp t Hi) as Hl. by rewrite El in Hl.
  - by eapply stopping_step_inv.
  - injection Ha as <-. by apply query_begin_inv.
  - by eapply query_end_inv.
Qed.

Lemma iter_map_empty {V} : iter_map (∅ : gmap bytes V) = [].
Proof using. apply Permutation_nil_r. by rewrite iter_map_perm, map_to_list_empty. Qed.

Lemma start_inv lg mp n : threads_inv mp (threads_start lg mp n).
Proof using.
  constructor; try done; try constructor.
  exists [], []. split_and!; [| |done|].
  - exists (∅, ∅). split; [done|]. unfold live_snapshots. cbn [fst]. by rewrite iter_map_empty.
  - exists (∅, ∅). split; [done|]. unfold live_snapshots. cbn [snd]. by rewrite iter_map_empty.
  - unfold opportunities_of. cbn. by rewrite iter_map_empty.
Qed.

Lemma reachable_inv lg mp n t : rtc tstep (threads_start lg mp n) t -> threads_inv mp t.
Proof using.
  intros H'. eapply (rtc_invariant tstep (threads_inv mp)); [|exact H'|apply start_inv].
  intros ? ?; apply tstep_inv.
Qed.

(** ** Simulation of the flags *)

Lemma abs_notify t : abs (notify_one t) = notify (abs t).
Proof using. unfold notify_one, notify, abs. simpl. by destruct (loop t) eqn:E; rewrite ?E. Qed.

Lemma abs_produce mp t e p :
  threads_inv mp t -> books_dirty_ e = books_dirty_ (eng t) -> running_ e = running_ (eng t) ->
  to_flag p = 1%nat -> to_notify p = 0%nat -> act AUpdate (abs t) = Some (abs (produce e p t)).
Proof using.
  intros Hi Hd Hr Hp Hn. pose proof (moment_current mp t Hi) as Hlen. unfold act, abs, produce. simpl.
  rewrite Hd, Hr, !sum_list_with_app. simpl. rewrite Hp, Hn. unfold set_field, moment at 2. simpl.
  rewrite length_app, Hlen. simpl. do 2 f_equal; lia.
Qed.

Lemma abs_producer i ts t t' :
  producer_step i ts t = Some t' -> abs t' = abs t \/ act AFlag (abs t) = Some (abs t') \/ act ANotify (abs t) = Some (abs t').
Proof using.
  intros (p & Hp & E)%bind_Some.
  assert (Hsame : forall p', to_flag p = to_flag p' -> to_notify p = to_notify p' ->
    sum_list_with to_flag (<[i := p']> (producers t)) = sum_list_with to_flag (producers t) /\
    sum_list_with to_notify (<[i := p']> (producers t)) = sum_list_with to_notify (producers t)).
  { intros p' H1 H2. pose proof (sum_list_insert to_flag _ _ p p' Hp).
    pose proof (sum_list_insert to_notify _ _ p p' Hp). lia. }
  destruct p; injection E as <-.
  - left. unfold abs. cbn. destruct (Hsame (match bbo_tick ts snap (eng t) with Some k => ToCall k | None => ToFlag end))
      as [-> ->]; by try case_match.
  - left. unfold abs. cbn. destruct (Hsame ToFlag) as [-> ->]; done.
  - right. left. pose proof (sum_list_insert to_flag _ _ _ ToNotify Hp). pose proof (sum_list_insert to_notify _ _ _ ToNotify Hp).
    simpl in *. unfold act, abs. simpl. destruct (sum_list_with to_flag (producers t)) as [|k]; [lia|].
    unfold set_field. simpl. do 2 f_equal; lia.
  - right. right. rewrite abs_notify. pose proof (sum_list_delete to_flag _ _ _ Hp). pose proof (sum_list_delete to_notify _ _ _ Hp).
    simpl in *. unfold act. cbn [abs n_flagged]. destruct (sum_list_with to_notify (producers t)) as [|k] eqn:Ek; [lia|].
    unfold notify, abs. simpl. unfold set_field. simpl.
    case_bool_decide; simpl; do 2 f_equal; lia.
Qed.

Lemma abs_loop_step now elapsed t t' :
  loop_step now elapsed t = Some t' -> abs t' = abs t \/ calc_step (abs t) = Some (abs t') \/ act ALimit (abs t) = Some (abs t').
Proof using.
  unfold loop_step. intros E. destruct (loop t) eqn:El; simpl in E; simplify_eq;
    try (right; left; unfold calc_step, abs; simpl; rewrite El; simpl; by repeat case_match);
    try (left; unfold abs; simpl; by rewrite El).
  destruct (report_step elapsed (eng t)) as [e' go] eqn:Er. injection E as <-. right.
  unfold report_step in Er. unfold act, calc_step, abs. simpl. rewrite El. simpl.
  repeat case_match; simplify_eq/=; auto.
Qed.

Lemma abs_stopping_step t t' : stopping_step t = Some t' -> stop_step (abs t) = Some (abs t').
Proof using.
  unfold stopping_step, stop_step. cbn [abs stopper]. intros E.
  destruct (stop_pc t); simplify_eq/=; try done.
  - f_equal. unfold notify_one, notify, abs. simpl. by destruct (loop t) eqn:El; simpl; rewrite ?El.
  - destruct (loop t) eqn:El; simplify_eq. done.
Qed.

Lemma abs_step mp t t' : threads_inv mp t -> tstep t t' -> abs t' = abs t \/ wstep (abs t) (abs t').
Proof using.
  intros Hi [a Ha]. destruct a; simpl in Ha.
  - injection Ha as <-. right. exists AUpdate. eapply abs_produce; try done; by destruct (logging t).
  - injection Ha as <-. unfold fix_step. destruct (negb _); [by left|].
    right. exists AUpdate. by eapply abs_produce.
  - destruct (abs_producer _ _ _ _ Ha) as [E|[E|E]]; [by left|right; by eexists..].
  - destruct (abs_loop_step _ _ _ _ Ha) as [E|[E|E]]; [by left|right; by exists ACalc|right; by exists ALimit].
  - destruct (loop t) eqn:El; simplify_eq. right. exists ASpurious. unfold act, abs. simpl. by rewrite El.
  - right. exists AStop. by apply abs_stopping_step.
  - injection Ha as <-. by left.
  - apply bind_Some in Ha as (q & _ & E). injection E as <-. by left.
Qed.

Lemma reachable_abs lg mp n t : rtc tstep (threads_start lg mp n) t -> rtc wstep started (abs t).
Proof using.
  intros H'. change started with (abs (threads_start lg mp n)). pose proof (start_inv lg mp n) as Hi. revert Hi.
  induction H' as [t|t t1 t2 Ht Hr IH]; intros Hi; [done|].
  specialize (IH (tstep_inv _ _ _ Hi Ht)).
  destruct (abs_step _ _ _ Hi Ht) as [<-|Hs]; [done|by eapply rtc_l].
Qed.

(** No calculation is under way. *)
Definition calculating (l : LoopPc) : bool :=
  match l with LCheck | LStart | LWs _ | LFix _ _ | LPublish _ _ _ => true | _ => false end.

(** The opportunities the engine holds are those of the current books, at the
    clock the last calculation began with. *)
Definition up_to_date (t : Threads) : Prop :=
  opportunities_ (eng t) = new_opportunities (clock_at t) (eng t).

(** What has been read is what there is now. *)
Lemma read_current mp t i b : threads_inv mp t -> history t !! i = Some b -> i = moment t -> b = books (eng t).
Proof using. intros [H0 _ _ _ _ _] Hb ->. congruence. Qed.

Lemma read_all lg mp n t :
  rtc tstep (threads_start lg mp n) t -> books_dirty_ (eng t) = false -> sum_list_with to_flag (producers t) = 0%nat ->
  loop t <> LCheck -> loop t <> LStart -> (forall now, loop t <> LWs now) -> loop t <> LDone -> ws_at t = moment t.
Proof using.
  intros Hr Hd Hn H1 H2 H3 H4. pose proof (reachable_remembered _ (reachable_abs _ _ _ _ Hr)) as Hm.
  unfold remembered in Hm. simpl in Hm. rewrite Hd, Hn in Hm.
  destruct (loop t) eqn:El; simpl in Hm; naive_solver lia.
Qed.

Lemma published_current mp t :
  threads_inv mp t -> published t = (clock_at t, moment t, moment t) -> up_to_date t.
Proof using.
  intros Hi Ep. pose proof (ti_published mp t Hi) as Hp. rewrite Ep in Hp.
  destruct Hp as (ws & fx & (b & Hb & ->) & (b' & Hb' & ->) & _ & Ho).
  unfold up_to_date. rewrite Ho, new_opportunities_of, (ti_profit mp t Hi).
  by rewrite (read_current mp t _ b Hi Hb eq_refl), (read_current mp t _ b' Hi Hb' eq_refl).
Qed.

(** ** Uninterrupted operations *)

Lemma loop_first now elapsed k t t1 t' :
  loop_step now elapsed t = Some t1 -> tacts (replicate k (TLoop now elapsed)) t1 = Some t' ->
  tacts (replicate (S k) (TLoop now elapsed)) t = Some t'.
Proof using. intros Hs Hr. cbn [replicate tacts tact]. by rewrite Hs. Qed.

(** A calculation that nothing interrupts. *)
Lemma calculation_alone now elapsed t :
  loop t = LStart -> exists t', tacts (replicate 4 (TLoop now elapsed)) t = Some t' /\
    eng t' = fst (calculate_arbitrage now (eng t)) /\ called t' = called t ++ snd (calculate_arbitrage now (eng t)) /\
    loop t' = LReport.
Proof using.
  intros El. eexists. split.
  { eapply loop_first; [by unfold loop_step; rewrite El|]. eapply loop_first; [reflexivity|].
    eapply loop_first; [reflexivity|]. eapply loop_first; reflexivity. }
  unfold calculate_arbitrage. rewrite new_opportunities_of.
  cbn [eng called loop set_field fst snd min_profit_bps_ ws_books_ fix_books_ opportunity_count_]. by split_and!.
Qed.

(** A call of [update_order_book] that nothing interrupts: the steps of the
    producer just added, to its notification. *)
Definition feed_calls (clock : nat -> Z) (ts_ns : Z) (snap : OrderBookSnapshot) (t : Threads) : list TAct :=
  let p := TProducer (length (producers t)) ts_ns in
  let tick := bbo_tick ts_ns snap (update_books clock snap (eng t)) in
  TFeed clock snap :: replicate (if logging t then if decide (tick = None) then 3 else 4 else 2) p.

Lemma producer_goto l (p p' : Producer) : <[length l := p']> (l ++ [p]) = l ++ [p'].
Proof using. induction l as [|x l IH]; simpl; [done|by rewrite IH]. Qed.
Lemma producer_gone l (p : Producer) : delete (length l) (l ++ [p]) = l.
Proof using. induction l as [|x l IH]; simpl; [done|by rewrite IH]. Qed.

(** The step of the producer that was added last. *)
Lemma last_producer_step l p ts t :
  producers t = l ++ [p] -> producer_step (length l) ts t =
    let goto p' t := t <| producers := l ++ [p'] |> in
    match p with
    | ToLog snap => Some (goto (match bbo_tick ts snap (eng t) with Some k => ToCall k | None => ToFlag end) t)
    | ToCall k => Some (goto ToFlag (t <| ticks := ticks t ++ [k] |>))
    | ToFlag => Some (goto ToNotify (t <| eng := mark_dirty (eng t) |>))
    | ToNotify => Some (notify_one (t <| producers := l |>))
    end.
Proof using.
  intros E. unfold producer_step. rewrite E, list_lookup_middle by done. simpl.
  destruct p; unfold set_field; rewrite ?producer_goto, ?producer_gone; simpl; rewrite ?E, ?producer_goto; done.
Qed.

Lemma feed_alone clock ts_ns snap t :
  exists t', tacts (feed_calls clock ts_ns snap t) t = Some t' /\
    let '(e', tick) := update_order_book clock ts_ns (logging t) snap (eng t) in
    eng t' = e' /\ ticks t' = ticks t ++ option_list tick /\ producers t' = producers t /\
    loop t' = loop (notify_one t).
Proof using.
  unfold feed_calls, update_order_book.
  destruct (logging t) eqn:Elog; [destruct (bbo_tick _ _ _) as [k|] eqn:Etick; cbn [decide]|];
  [destruct (decide _) as [[=]|_]|destruct (decide _) as [_|[]]; [|done]|];
  cbn [replicate tacts tact mbind option_bind]; unfold feed_step; rewrite Elog;
  repeat (erewrite last_producer_step by reflexivity; cbn; rewrite ?Etick).
  all: eexists; split; [reflexivity|]; rewrite ?app_nil_r; unfold notify_one;
    by destruct (loop t) eqn:El; simpl; rewrite ?El.
Qed.

Lemma fix_alone now msg t :
  is_market_data msg = true ->
  exists t', tacts (TFix now msg :: replicate 2 (TProducer (length (producers t)) 0)) t = Some t' /\
    eng t' = update_fix_data now msg (eng t) /\ producers t' = producers t /\ loop t' = loop (notify_one t).
Proof using.
  intros Hm. unfold update_fix_data. cbn [replicate tacts tact mbind option_bind]. unfold fix_step. rewrite Hm. cbn [negb].
  repeat (erewrite last_producer_step by reflexivity; cbn [mbind option_bind]).
  eexists. split; [reflexivity|]. unfold notify_one. by destruct (loop t) eqn:El; simpl; rewrite ?El.
Qed.

Lemma query_alone sym i t :
  i = length (queries t) ->
  exists t', tacts [TQuery sym; TAnswer i] t = Some t' /\ eng t' = eng t /\ queries t' = queries t /\
    answers t' = answers t ++ [mkAnswer sym (get_snapshots sym (eng t)) (moment t) (moment t)].
Proof using.
  intros ->. cbn [tacts tact mbind option_bind]. unfold query_end, query_begin. cbn [queries set_field].
  rewrite list_lookup_middle by done. eexists. split; [reflexivity|]. split; [done|]. split; [|done]. cbn [queries set_field].
  clear. induction (queries t) as [|q l IH]; simpl; [done|by rewrite IH].
Qed.

(** ** Properties *)

(** No producer is between its book update and the flag. *)
Definition flagged (t : Threads) : Prop := Forall (eq ToNotify) (producers t).

Lemma flagged_none t : flagged t -> sum_list_with to_flag (producers t) = 0%nat.
Proof using. unfold flagged. by induction 1 as [|p l <- _ IH]. Qed.

(** Outside a calculation that has seen everything, what is published is
    current. *)
Lemma at_rest mp t : threads_inv mp t -> ws_at t = moment t -> calculating (loop t) = false -> up_to_date t.
Proof using.
  intros Hi Hw Hc.
  assert (Hp : published t = (clock_at t, ws_at t, fix_at t)).
  { pose proof (ti_loop _ _ Hi) as Hk. by destruct (loop t). }
  pose proof (ti_published _ _ Hi) as Ho. apply published_current with mp; [done|].
  rewrite Hp in Ho |- *. destruct Ho as (ws & fx & _ & (b & Hb & _) & Hij & _).
  pose proof (past _ _ _ _ Hi Hb). do 2 f_equal; lia.
Qed.

(** After [k] more steps of the calculation thread the opportunities are those
    of a calculation on the books at the clock [c]. *)
Definition caught_up (c now : Z) (k : nat) (t : Threads) : Prop :=
  exists t', tacts (replicate k (TLoop now false)) t = Some t' /\ books (eng t') = books (eng t) /\
    up_to_date t' /\ clock_at t' = c.

(** One more step in front. *)
Lemma caught_up_step c now k t t' :
  loop_step now false t = Some t' -> books (eng t') = books (eng t) -> caught_up c now k t' -> caught_up c now (S k) t.
Proof using.
  intros Hs Hb (t2 & H1 & H2 & H3 & H4). exists t2. cbn [replicate tacts tact]. rewrite Hs.
  split_and!; [exact H1|congruence|done|done].
Qed.

Lemma caught_up_ws now t : loop t = LWs (clock_at t) -> caught_up (clock_at t) now 3 t.
Proof using.
  intros El. eapply caught_up_step; [by unfold loop_step; rewrite El|done|].
  eapply caught_up_step; [reflexivity|done|]. eapply caught_up_step; [reflexivity|done|].
  eexists. split; [reflexivity|]. split; [done|]. split; [|done]. unfold up_to_date. by rewrite new_opportunities_of.
Qed.

Ltac one_step El := eapply caught_up_step; [by unfold loop_step; rewrite El|done|].

(** A calculation that has not read the books yet. *)
Lemma caught_up_start now t : loop t = LStart -> caught_up now now 4 t.
Proof using.
  intros El. one_step El. match goal with |- caught_up _ _ _ ?t' => change (caught_up (clock_at t') now 3 t') end.
  by apply caught_up_ws.
Qed.
Lemma caught_up_check now t : running_ (eng t) = true -> loop t = LCheck -> caught_up now now 5 t.
Proof using. intros Hr El. one_step El. apply caught_up_start. simpl. by rewrite Hr. Qed.

(** With the flag set, the next calculation is sure to come. *)
Lemma caught_up_clear now t : running_ (eng t) = true -> loop t = LClear -> caught_up now now 6 t.
Proof using. intros Hr El. one_step El. by apply caught_up_check. Qed.
Lemma caught_up_pred now t :
  running_ (eng t) = true -> books_dirty_ (eng t) = true -> loop t = LPred -> caught_up now now 7 t.
Proof using. intros Hr Hd El. one_step El. apply caught_up_clear; [done|]. simpl. by rewrite Hd. Qed.
Lemma caught_up_top now t :
  running_ (eng t) = true -> books_dirty_ (eng t) = true -> loop t = LTop -> caught_up now now 8 t.
Proof using. intros Hr Hd El. one_step El. apply caught_up_pred; [done..|]. simpl. by rewrite Hr. Qed.
Lemma caught_up_report now t :
  running_ (eng t) = true -> books_dirty_ (eng t) = true -> loop t = LReport -> caught_up now now 9 t.
Proof using. intros Hr Hd El. one_step El. by apply caught_up_top. Qed.
Lemma caught_up_publish now now0 ws fx t :
  running_ (eng t) = true -> books_dirty_ (eng t) = true -> loop t = LPublish now0 ws fx -> caught_up now now 10 t.
Proof using. intros Hr Hd El. one_step El. by apply caught_up_report. Qed.
Lemma caught_up_fix now now0 ws t :
  running_ (eng t) = true -> books_dirty_ (eng t) = true -> loop t = LFix now0 ws -> caught_up now now 11 t.
Proof using. intros Hr Hd El. one_step El. by eapply caught_up_publish. Qed.

(** A calculation that has read the current books publishes their
    opportunities. *)
Lemma catch_up_published mp now t :
  threads_inv mp t -> ws_at t = moment t ->
  match loop t with
  | LPublish _ _ _ => caught_up (clock_at t) now 1 t
  | LFix _ _ => caught_up (clock_at t) now 2 t
  | _ => True
  end.
Proof using.
  intros Hi Hw. pose proof (ti_loop _ _ Hi) as Hl. pose proof (ti_profit _ _ Hi) as Hm.
  destruct (loop t) as [| | | | | | | | |now0 ws|now0 ws fx| |] eqn:El; try done.
  - destruct Hl as (-> & b & Hb & ->). apply (read_current _ _ _ _ Hi) in Hb as ->; [|done].
    eexists. split; [cbn; unfold loop_step; rewrite El; reflexivity|]. by split_and!.
  - destruct Hl as (-> & (b & Hb & ->) & (b' & Hb' & ->) & Hij).
    pose proof (past _ _ _ _ Hi Hb'). apply (read_current _ _ _ _ Hi) in Hb as ->; [|done].
    apply (read_current _ _ _ _ Hi) in Hb' as ->; [|lia].
    eexists. split; [cbn; unfold loop_step; rewrite El; reflexivity|]. by split_and!.
Qed.

(** C22: What the engine publishes is up to date when it is at rest: in every
    state its threads reach in which the flag is clear, no producer is between
    its book update and the flag, and the calculation thread runs and is not
    inside a calculation, the stored opportunities are exactly those that a
    calculation on the current books finds with the clock reading the last
    calculation began with. *)
Theorem opportunities_current lg mp n t :
  rtc tstep (threads_start lg mp n) t ->
  books_dirty_ (eng t) = false -> flagged t -> calculating (loop t) = false -> loop t <> LDone ->
  get_opportunities (eng t) = new_opportunities (clock_at t) (eng t).
Proof using.
  intros Hr Hd Hf Hc Hl. apply (at_rest mp); [by eapply reachable_inv| |done].
  eapply read_all; try done; [by apply flagged_none|..]; intros; intros E; by rewrite E in Hc.
Qed.

(** C24: The two maps of books are read one after the other, in an order that is
    always the same: in every state the threads reach, the stored opportunities
    come from the WebSocket books as they were at one moment and the FIX books
    as they were at the same or a later moment (outside a calculation, with the
    clock the last one began with), and so does every answer of
    [get_snapshots]; an answer whose two moments coincide is that of
    [get_snapshots] on the books of that moment. *)
Theorem reads_in_order lg mp n t :
  rtc tstep (threads_start lg mp n) t ->
  (exists now i j bi bj, (calculating (loop t) = false -> now = clock_at t) /\ (i <= j <= moment t)%nat /\ history t !! i = Some bi /\ history t !! j = Some bj /\
     get_opportunities (eng t) = opportunities_of mp now (live_snapshots (fst bi)) (live_snapshots (snd bj))) /\
  (forall a, a ∈ answers t -> exists bi bj, (a_ws_at a <= a_fix_at a <= moment t)%nat /\
     history t !! a_ws_at a = Some bi /\ history t !! a_fix_at a = Some bj /\
     a_result a = ws_answer (a_symbol a) (fst bi) ++ fix_answer (a_symbol a) (snd bj) /\
     (a_ws_at a = a_fix_at a -> forall e, books e = bi -> a_result a = get_snapshots (a_symbol a) e)).
Proof using.
  intros Hr%reachable_inv. split.
  - pose proof (ti_published _ _ Hr) as Ho. pose proof (ti_loop _ _ Hr) as Hk. destruct (published t) as [[now i] j].
    destruct Ho as (ws & fx & (bi & Hbi & ->) & (bj & Hbj & ->) & Hij & Ho).
    exists now, i, j, bi, bj. pose proof (past _ _ _ _ Hr Hbj). split_and!; try done.
    intros Hc. destruct (loop t); try done; by injection Hk.
  - intros a Ha. pose proof (proj1 (Forall_forall _ _) (ti_answers _ _ Hr) a Ha) as (bi & bj & Hbi & Hbj & Hij & E).
    exists bi, bj. pose proof (past _ _ _ _ Hr Hbj). split_and!; try done.
    intros Eij e Ee. rewrite get_snapshots_halves, E. rewrite Eij in Hbi. by simplify_eq.
Qed.

(** Between its predicate and the end of its sleep. *)
Definition waiting (l : LoopPc) : bool :=
  match l with LPred2 | LBlock | LAsleep => true | _ => false end.

(** C23: The calculation thread catches up: from every state the threads reach
    in which the thread runs, no producer is between its book update and the
    flag, and the thread is not caught waiting with the flag set, eleven of its
    own steps at most, with the clock reading [now], bring the stored
    opportunities up to date: they are those of a calculation on the books with
    the reading [now], or, where nothing is flagged or the calculation under way
    has not read the books yet, with the reading that calculation, or else the
    last one, began with. *)
Theorem engine_catches_up lg mp n t now :
  rtc tstep (threads_start lg mp n) t ->
  running_ (eng t) = true -> loop t <> LDone -> flagged t ->
  (books_dirty_ (eng t) = true -> waiting (loop t) = false) ->
  exists k t', (k <= 11)%nat /\ tacts (replicate k (TLoop now false)) t = Some t' /\
    books (eng t') = books (eng t) /\
    get_opportunities (eng t') = new_opportunities (clock_at t') (eng t') /\
    (clock_at t' = now \/ clock_at t' = clock_at t /\ (books_dirty_ (eng t) = false \/ loop t = LWs (clock_at t))).
Proof using.
  intros Hr Hrun Hdone Hf Hwait. pose proof (reachable_inv _ _ _ _ Hr) as Hi.
  assert (exists k c, (k <= 11)%nat /\ caught_up c now k t /\
    (c = now \/ c = clock_at t /\ (books_dirty_ (eng t) = false \/ loop t = LWs (clock_at t))))
    as (k & c & Hk & (t' & H1 & H2 & H3 & <-) & Hc); [|by exists k, t'].
  assert (Hws : forall now0, loop t = LWs now0 -> loop t = LWs (clock_at t)).
  { intros now0 E. pose proof (ti_loop _ _ Hi) as Hl. rewrite E in Hl |- *. by destruct Hl as [-> _]. }
  destruct (books_dirty_ (eng t)) eqn:Hd.
  - specialize (Hwait eq_refl). destruct (loop t) eqn:El; try done;
      try (eexists _, _; split; [|split; [first [by eapply caught_up_fix|by eapply caught_up_publish|by eapply caught_up_report|
        by eapply caught_up_top|by eapply caught_up_pred|by eapply caught_up_clear|by eapply caught_up_check|
        by eapply caught_up_start]|by left]]; lia).
    rewrite (Hws now0 eq_refl). exists 3%nat, (clock_at t). split; [lia|]. split; [|right; by auto].
    apply caught_up_ws. by rewrite El, (Hws now0 eq_refl).
  - assert (Hw : (forall now0, loop t <> LWs now0) -> loop t <> LCheck -> loop t <> LStart -> ws_at t = moment t)
      by (intros; eapply read_all; try done; by apply flagged_none).
    destruct (calculating (loop t)) eqn:Ec; cycle 1.
    { exists 0%nat, (clock_at t). split; [lia|]. split; [|by auto]. exists t. split_and!; [done..| |done].
      apply (at_rest mp); [done| |done]. apply Hw; intros; intros E; by rewrite E in Ec. }
    destruct (loop t) eqn:El; try done;
      try (eexists _, _; split; [|split; [by eauto using caught_up_check, caught_up_start|by left]]; lia).
    { exists 3%nat, (clock_at t). split; [lia|]. split; [|by auto]. apply caught_up_ws. rewrite El. by eapply Hws. }
    all: specialize (Hw ltac:(done) ltac:(done) ltac:(done)).
    all: pose proof (catch_up_published mp now t Hi Hw) as Hp; rewrite El in Hp.
    all: eexists _, _; split; [|split; [exact Hp|by auto]]; lia.
Qed.

(** Run without interruption, the steps of a thread are the operations of
    [ArbEngine]: those of the calculation thread are [calculate_arbitrage],
    those of a producer are [update_order_book] or [update_fix_data], those of
    a query are [get_snapshots]. *)
Theorem threads_refine_engine :
  (forall now elapsed t, loop t = LStart -> exists t', tacts (replicate 4 (TLoop now elapsed)) t = Some t' /\
     (eng t', called t') = (fst (calculate_arbitrage now (eng t)), called t ++ snd (calculate_arbitrage now (eng t))) /\
     loop t' = LReport) /\
  (forall clock ts_ns snap t, exists t', tacts (feed_calls clock ts_ns snap t) t = Some t' /\
     let '(e', tick) := update_order_book clock ts_ns (logging t) snap (eng t) in
     eng t' = e' /\ ticks t' = ticks t ++ option_list tick /\ producers t' = producers t /\
     loop t' = loop (notify_one t)) /\
  (forall now msg t, is_market_data msg = true ->
     exists t', tacts (TFix now msg :: replicate 2 (TProducer (length (producers t)) 0)) t = Some t' /\
     eng t' = update_fix_data now msg (eng t) /\ producers t' = producers t /\ loop t' = loop (notify_one t)) /\
  (forall sym t, exists t', tacts [TQuery sym; TAnswer (length (queries t))] t = Some t' /\ eng t' = eng t /\
     queries t' = queries t /\
     answers t' = answers t ++ [mkAnswer sym (get_snapshots sym (eng t)) (moment t) (moment t)]).
Proof using.
  split_and!.
  - intros now elapsed t El. destruct (calculation_alone now elapsed t El) as (t' & H1 & H2 & H3 & H4).
    exists t'. by rewrite <-H2, <-H3.
  - intros. apply feed_alone.
  - intros now msg t Hm. by apply fix_alone.
  - intros sym t. by apply query_alone.
Qed.
End machine.

(** ** Examples *)

#[local] Existing Instance default_order.

Definition ex_fix (bid ask : Z) : FIXMessage :=
  FIXMessage_default <| msg_type := MarketDataSnapshot |> <| num_entries := 2 |> <| fix_symbol := $"BTC/USD" |>
    <| entries := [mkMDEntry 0 0 (dZ bid) (dZ 5); mkMDEntry 1 0 (dZ ask) (dZ 6)] |>.
Definition ex_ws (bid ask : Z) : TAct := TFeed (fun _ => 1000) (ex_feed true $"Binance" $"BTCUSDT" bid ask).
Definition ex_loop : TAct := TLoop 1200 false.

(** The state a sequence of steps leads to. *)
Definition ex_state (l : list TAct) : Threads :=
  default (threads_start false (dZ 5) 0) (tacts l (threads_start false (dZ 5) 0)).

Lemma ex_run l :
  match tacts l (threads_start false (dZ 5) 0) with Some _ => true | None => false end = true ->
  tacts l (threads_start false (dZ 5) 0) = Some (ex_state l).
Proof. unfold ex_state. by destruct (tacts l _). Qed.

Lemma ex_run_reachable l :
  match tacts l (threads_start false (dZ 5) 0) with Some _ => true | None => false end = true ->
  rtc tstep (threads_start false (dZ 5) 0) (ex_state l).
Proof. intros Hl. by apply tacts_rtc with l, ex_run. Qed.

Ltac by_vm := vm_compute; reflexivity.

(** Both books are updated between the two reads of a calculation. *)
Definition skewed_calls : list TAct :=
  [ex_ws 100 102; TFix 1000 (ex_fix 80 101); TProducer 0 0] ++ replicate 6 ex_loop ++
  [ex_ws 90 92; TFix 1100 (ex_fix 80 95)] ++ replicate 2 ex_loop.

(** A calculation can report an opportunity that never existed: it buys at the
    FIX ask of 95 and sells at the Binance bid of 100, though the bid had gone
    when the ask came, and the books of no moment hold an opportunity. *)
Example skewed_opportunity :
  exists t, tacts skewed_calls (threads_start false (dZ 5) 0) = Some t /\
    map (fun o => (opp_buy_exchange o, opp_sell_exchange o, opp_buy_price o, opp_sell_price o))
      (opportunities_ (eng t)) = [($"FIX", $"Binance", dZ 95, dZ 100)] /\
    map (fun b => length (opportunities_of (dZ 5) 1200 (live_snapshots (fst b)) (live_snapshots (snd b)))) (history t) =
      replicate 5 0%nat.
Proof. exists (ex_state skewed_calls). split; [apply ex_run; by_vm|]. split; by_vm. Qed.

(** An update between the predicate of the wait and the sleep. *)
Definition missed_calls : list TAct :=
  replicate 3 ex_loop ++ [ex_ws 100 101; TFix 1000 (ex_fix 110 111)] ++
  [TProducer 0 0; TProducer 0 0; TProducer 0 0; TProducer 0 0; ex_loop].

(** The engine can rest on books whose opportunities it has not published: the
    thread sleeps, every producer is done, the flag is set, and the books hold
    an opportunity that is not stored. *)
Example missed_opportunity :
  exists t, tacts missed_calls (threads_start false (dZ 5) 0) = Some t /\
    loop t = LAsleep /\ producers t = [] /\ books_dirty_ (eng t) = true /\
    length (opportunities_ (eng t)) = 0%nat /\ length (new_opportunities 1200 (eng t)) = 1%nat.
Proof. exists (ex_state missed_calls). split; [apply ex_run; by_vm|]. split_and!; by_vm. Qed.

(** ** Witnesses *)

Definition ex_calls : list TAct :=
  [ex_ws 100 101; TFix 1000 (ex_fix 110 111); TProducer 0 0; TProducer 1 0].
Definition ex_flagged : Threads := ex_state ex_calls.
Definition ex_rested : Threads := ex_state (ex_calls ++ replicate 9 ex_loop).
Definition ex_asked : Threads :=
  ex_state [TQuery $"BTC"; ex_ws 100 101; TFix 1000 (ex_fix 110 111); TAnswer 0].

Lemma ex_flagged_ready : flagged ex_flagged.
Proof. unfold flagged. replace (producers ex_flagged) with [ToNotify; ToNotify] by by_vm. by repeat constructor. Qed.
Lemma ex_rested_ready : flagged ex_rested.
Proof. unfold flagged. replace (producers ex_rested) with [ToNotify; ToNotify] by by_vm. by repeat constructor. Qed.
Lemma ex_top_running t : loop t = LTop -> loop t <> LDone.
Proof. by intros ->. Qed.

Lemma opportunities_current_witness :
  length (get_opportunities (eng ex_rested)) = 1%nat /\
  clock_at ex_rested = 1200 /\
  get_opportunities (eng ex_rested) = new_opportunities (clock_at ex_rested) (eng ex_rested).
Proof.
  split; [by_vm|]. split; [by_vm|]. apply (opportunities_current false (dZ 5) 0).
  - apply ex_run_reachable. by_vm.
  - by_vm.
  - apply ex_rested_ready.
  - by_vm.
  - apply ex_top_running. by_vm.
Defined.

Lemma reads_in_order_witness :
  map (fun a => (a_ws_at a, a_fix_at a)) (answers ex_asked) = [(0%nat, 2%nat)] /\
  forall a, a ∈ answers ex_asked -> (a_ws_at a <= a_fix_at a <= moment ex_asked)%nat.
Proof.
  split; [by_vm|]. intros a Ha.
  destruct (reads_in_order false (dZ 5) 0 ex_asked) as [_ Hans]; [apply ex_run_reachable; by_vm|].
  destruct (Hans a Ha) as (bi & bj & Hij & _). exact Hij.
Defined.

Lemma engine_catches_up_witness :
  get_opportunities (eng ex_flagged) = [] /\
  exists k t', (k <= 11)%nat /\ tacts (replicate k ex_loop) ex_flagged = Some t' /\
    get_opportunities (eng t') = new_opportunities 1200 (eng t').
Proof.
  split; [by_vm|].
  destruct (engine_catches_up false (dZ 5) 0 ex_flagged 1200) as (k & t' & Hk & Ht & _ & Ho & Hc).
  - apply ex_run_reachable. by_vm.
  - by_vm.
  - apply ex_top_running. by_vm.
  - apply ex_flagged_ready.
  - intros _. by_vm.
  - exists k, t'. split; [exact Hk|]. split; [exact Ht|]. rewrite Ho.
    destruct Hc as [->|(_ & [Hd|Hd])]; [reflexivity|..]; exfalso; vm_compute in Hd; discriminate Hd.
Defined.

Lemma threads_refine_engine_witness :
  exists t', tacts (feed_calls (fun _ => 1000) 7 (ex_feed true $"Binance" $"BTCUSDT" 100 101) (threads_start true (dZ 5) 0))
      (threads_start true (dZ 5) 0) = Some t' /\ length (ticks t') = 1%nat.
Proof.
  destruct (proj1 (proj2 threads_refine_engine) (fun _ => 1000) 7 (ex_feed true $"Binance" $"BTCUSDT" 100 101)
    (threads_start true (dZ 5) 0)) as (t' & Ht & Hr).
  exists t'. split; [exact Ht|]. clear Ht. destruct t'. vm_compute in Hr. by destruct Hr as (_ & -> & _).
Defined.
