(* ===== verification/ThreadAffinity.v ===== *)
(** * Pinning threads to cores (src/thread_affinity.hpp)

    The tags of the three platforms, [set_thread_affinity] with the answer of
    the operating system as an input, and the machine the header describes:
    Linux, four logical cores of which [0] and [2] are one physical core taken
    away from the scheduler.  A thread starts with the mask of the thread that
    creates it, as [clone] documents, and a successful call replaces it. *)

From Stdlib Require Import ZArith Lia.
From stdpp Require Import gmap.
From S2P Require Import Prelude Str.

Inductive Platform := Linux | MacOS | OtherPlatform.

Inductive Role := ARBITRAGE_ENGINE | BINANCE_WS | COINBASE_WS | KRAKEN_WS | BYBIT_WS | DASHBOARD | QUERY_SERVER.

#[export] Instance Platform_eq_dec : EqDecision Platform.
Proof. solve_decision. Defined.
#[export] Instance Role_eq_dec : EqDecision Role.
Proof. solve_decision. Defined.

Definition all_roles : list Role :=
  [ARBITRAGE_ENGINE; BINANCE_WS; COINBASE_WS; KRAKEN_WS; BYBIT_WS; DASHBOARD; QUERY_SERVER].

(** The constants [TAG_…]. *)
Definition linux_tag (r : Role) : Z :=
  match r with
  | ARBITRAGE_ENGINE => 0 | BINANCE_WS => 1 | COINBASE_WS => 1 | KRAKEN_WS => 3 | BYBIT_WS => 3
  | DASHBOARD => 1 | QUERY_SERVER => 3
  end.

Definition macos_tag (r : Role) : Z :=
  match r with
  | ARBITRAGE_ENGINE => 1 | BINANCE_WS => 2 | COINBASE_WS => 3 | KRAKEN_WS => 4 | BYBIT_WS => 5
  | DASHBOARD => 6 | QUERY_SERVER => 7
  end.

Definition tag (p : Platform) (r : Role) : Z :=
  match p with Linux => linux_tag r | MacOS | OtherPlatform => macos_tag r end.

(** [cpu_set_t] has 1024 bits; [CPU_SET] leaves it alone past the end. *)
Definition CPU_SETSIZE : Z := 1024.

Definition CPU_SET (cpu set : Z) : Z :=
  if (0 <=? cpu) && (cpu <? CPU_SETSIZE) then Z.lor set (Z.shiftl 1 cpu) else set.

(** [set_thread_affinity]: what it asks of the operating system (a mask on
    Linux, a tag on macOS), the line it writes when that fails, its result. *)
Inductive Request := AskMask (mask : Z) | AskTag (affinity_tag : Z) | AskNothing.

Record Pinned := mkPinned { request : Request; warning : option bytes; pinned : bool }.

Definition warning_text (call code : bytes) (tag ret : Z) : bytes :=
  $"Warning: " ++ call ++ $" failed for tag " ++ to_string tag ++ code ++ to_string ret ++ $")".

Definition set_thread_affinity (p : Platform) (ret : Z) (tag : Z) : Pinned :=
  let answer req call code :=
    if ret =? 0 then mkPinned req None true else mkPinned req (Some (warning_text call code tag ret)) false in
  match p with
  | MacOS => answer (AskTag tag) $"thread_policy_set" $" (kern_return="
  | Linux => answer (AskMask (CPU_SET tag 0)) $"pthread_setaffinity_np" $" (errno="
  | OtherPlatform => mkPinned AskNothing None true
  end.

(** ** The threads of the process on Linux *)

(** [Spawn parent child]; [Pin t r ret]: thread [t] pins itself for role [r]
    and the kernel answers [ret]. *)
Inductive ThreadEvent := Spawn (parent child : nat) | Pin (t : nat) (r : Role) (ret : Z).

(** The mask of each thread, and the role it last asked for. *)
Record Threads := mkThreads { affinity : gmap nat Z; role : gmap nat Role }.

Definition thread_event (e : ThreadEvent) (w : Threads) : Threads :=
  match e with
  | Spawn parent child =>
      match affinity w !! parent with
      | Some m => mkThreads (<[child := m]> (affinity w)) (delete child (role w))
      | None => w
      end
  | Pin t r ret =>
      let res := set_thread_affinity Linux ret (linux_tag r) in
      mkThreads
        (match request res, pinned res with
         | AskMask m, true => alter (fun _ => m) t (affinity w)
         | _, _ => affinity w
         end)
        (<[t := r]> (role w))
  end.

Definition run_threads (es : list ThreadEvent) (w : Threads) : Threads := foldl (fun w e => thread_event e w) w es.

(** Thread [0] is [main], with the mask the kernel gives a process. *)
Definition process (mask : Z) : Threads := mkThreads {[0%nat := mask]} ∅.

Definition is_engine (w : Threads) (t : nat) : bool := bool_decide (role w !! t = Some ARBITRAGE_ENGINE).

(** The engine's thread creates no thread and takes no second role. *)
Fixpoint engine_alone (es : list ThreadEvent) (w : Threads) : bool :=
  match es with
  | [] => true
  | e :: es =>
      match e with
      | Spawn parent child => negb (is_engine w parent) && negb (is_engine w child)
      | Pin t _ _ => negb (is_engine w t)
      end && engine_alone es (thread_event e w)
  end.

(** The logical cores of the physical core the engine is given. *)
Definition on_engine_core (mask : Z) : bool := Z.testbit mask 0 || Z.testbit mask 2.

Definition reserved (w : Threads) : Prop :=
  forall t m, affinity w !! t = Some m ->
    if is_engine w t then m = 1 \/ on_engine_core m = false else on_engine_core m = false.

Lemma linux_mask r :
  on_engine_core (CPU_SET (linux_tag r) 0) = bool_decide (r = ARBITRAGE_ENGINE) /\
  (r = ARBITRAGE_ENGINE -> CPU_SET (linux_tag r) 0 = 1).
Proof. by destruct r. Qed.

Lemma pin_reserved t r ret w :
  is_engine w t = false -> reserved w -> reserved (thread_event (Pin t r ret) w).
Proof.
  intros Ht Hw t' m. unfold is_engine in *. unfold thread_event, set_thread_affinity.
  destruct (linux_mask r) as [H1 H2].
  destruct (decide (t' = t)) as [->|Hne].
  - specialize (Hw t). unfold is_engine in Hw. rewrite Ht in Hw.
    destruct (ret =? 0); cbn [request pinned affinity role]; rewrite lookup_insert_eq.
    + rewrite lookup_alter_eq. destruct (affinity w !! t); [|done]. intros [= <-].
      clear. destruct r; vm_compute; auto.
    + intros Hm%Hw. rewrite Hm. destruct (bool_decide (Some r = _)); auto.
  - destruct (ret =? 0); cbn [request pinned affinity role]; rewrite lookup_insert_ne, ?lookup_alter_ne by done;
      apply Hw.
Qed.

Lemma spawn_reserved p c w :
  is_engine w p = false -> reserved w -> reserved (thread_event (Spawn p c) w).
Proof.
  intros Hp Hw t m. unfold thread_event. destruct (affinity w !! p) as [mp|] eqn:Ep; [|apply Hw].
  pose proof (Hw p mp Ep) as Hm. rewrite Hp in Hm. unfold is_engine. cbn [affinity role].
  destruct (decide (t = c)) as [->|Hne].
  - rewrite lookup_insert_eq, lookup_delete_eq. by intros [= <-].
  - rewrite lookup_insert_ne, lookup_delete_ne by done. apply Hw.
Qed.

(** the core the engine is given stays its own.  On a Linux process that
    starts without the logical cores [0] and [2] (isolcpus=0,2), however the
    threads are created and whichever of their calls the kernel refuses, no
    thread but the engine's may run on either logical core of that physical
    core, and the engine's thread, once its call succeeded, runs on core [0]
    and nowhere else; a refused call writes one warning and leaves the thread
    the mask it had.  Elsewhere the seven tags differ, as the hint needs. *)
Theorem engine_core_reserved mask es :
  on_engine_core mask = false -> engine_alone es (process mask) = true ->
  (forall t m, affinity (run_threads es (process mask)) !! t = Some m ->
    if is_engine (run_threads es (process mask)) t then m = 1 \/ on_engine_core m = false
    else on_engine_core m = false) /\
  (forall t ret w m, affinity w !! t = Some m ->
    let res := set_thread_affinity Linux ret (linux_tag ARBITRAGE_ENGINE) in
    affinity (thread_event (Pin t ARBITRAGE_ENGINE ret) w) !! t = Some (if pinned res then 1 else m) /\
    (pinned res = false <-> warning res <> None)) /\
  NoDup (map (tag MacOS) all_roles).
Proof.
  intros Hm Ha. split_and!.
  - assert (H0 : reserved (process mask)).
    { intros t m. simpl. intros [<- <-]%lookup_singleton_Some. done. }
    revert Ha H0. generalize (process mask). unfold run_threads.
    induction es as [|e es IH]; intros w Ha Hw; [exact Hw|]. simpl in Ha. apply andb_true_iff in Ha as [He Ha].
    apply (IH _ Ha). destruct e as [p c|t r ret].
    + apply andb_true_iff in He as [Hp%negb_true_iff _]. by apply spawn_reserved.
    + apply negb_true_iff in He. by apply pin_reserved.
  - intros t ret w m Ht. cbn. destruct (ret =? 0); cbn; rewrite ?lookup_alter_eq, Ht; naive_solver.
  - by apply (bool_decide_unpack (NoDup _)).
Qed.

(** The start-up of src/main.cpp on four cores, Bybit's call refused. *)
Definition ex_startup : list ThreadEvent :=
  [Spawn 0 1; Pin 1 BINANCE_WS 0; Spawn 0 2; Pin 2 BYBIT_WS 22; Spawn 0 3; Pin 3 ARBITRAGE_ENGINE 0;
   Spawn 0 4; Pin 4 QUERY_SERVER 0].

Lemma engine_core_reserved_witness :
  map (fun t => affinity (run_threads ex_startup (process 10)) !! t) [0; 1; 2; 3; 4]%nat =
    map Some [10; 2; 10; 1; 8] /\
  (forall m, affinity (run_threads ex_startup (process 10)) !! 2%nat = Some m -> on_engine_core m = false).
Proof.
  destruct (engine_core_reserved 10 ex_startup) as (H1 & _); [reflexivity|vm_compute; reflexivity|].
  split; [vm_compute; reflexivity|]. intros m Hm. apply H1 in Hm.
  replace (is_engine _ 2) with false in Hm by (vm_compute; reflexivity). exact Hm.
Defined.

(** With isolcpus=2,3 instead, the process starts on cores [0] and [1], and a
    refused call leaves a feed thread on the engine's core. *)
Example other_isolation : 
  (affinity (run_threads ex_startup (process 3)) !! 2%nat) = Some 3 /\ on_engine_core 3 = true.
Proof. by vm_compute. Qed.
