(* ===== verification/FeedClients.v ===== *)
(** * Exchange feed clients (src/binance_client.cpp, src/kraken_client.cpp,
    src/bybit_client.cpp, src/coinbase_client.cpp)

    What each WebSocket client does with a message: it reads the JSON, builds
    an [OrderBookSnapshot], keeps a book of its own to take the best prices
    from (all but Binance), and fires its two callbacks.  The callbacks are
    recorded as the events they are called with, in order.  An exception leaves
    the message with what was already applied; undefined behaviour is [None].

    The JSON library is the interface [JsonLib].  [std::sort] is not stable:
    it is any function that returns a sorted permutation when its comparison
    orders the elements (file [StdSort]).  Connecting, subscribing
    and reading are in [ClientLifecycle] and [FeedTransport], authentication in
    [CoinbaseAuth].  Clock readings are arguments. *)

From Stdlib Require Import Sorted.
From S2P Require Import Prelude Float64 SortedMap StdSort Str Stod Json Types OrderBook ArbEngine.

(** ** Sorting levels *)

Definition sort_levels `{!StdSort lv_price} (before : double -> double -> bool) (ls : list PriceLevel)
    : res (list PriceLevel) :=
  if sortable lv_price before ls then Ret (std_sort lv_price before ls) else Undef.

(** ** State and callbacks *)

Record Callbacks := mkCallbacks { message_callback : bool; depth_callback : bool }.

Inductive FeedEvent :=
  | FDepth (snap : OrderBookSnapshot)
  | FBbo (ticker : TickerData).

Record FeedClient := mkFeedClient {
  message_count : Z;
  local_books : gmap bytes OrderBook;
  fired : list FeedEvent;
}.
#[export] Instance FeedClient_settable : Settable FeedClient :=
  fun c => mkFeedClient (message_count c) (local_books c) (fired c).

Definition new_client : FeedClient := mkFeedClient 0 ∅ [].

Definition front_quantity (ls : list PriceLevel) : double :=
  match ls with [] => dzero | l :: _ => lv_quantity l end.

(** The ticker of the best levels of a book. *)
Definition ticker_of (exchange sym : bytes) (now_ms : Z) (bbo : OrderBookSnapshot) : TickerData :=
  mkTickerData sym exchange (snap_best_bid bbo) (snap_best_ask bbo)
    (front_quantity (sn_bids bbo)) (front_quantity (sn_asks bbo)) now_ms 0.

Definition positive (l : PriceLevel) : bool := dgt (lv_quantity l) dzero.

(** ** Reading levels *)

Section clients.
Context `{JsonLib} `{StrtodUnderflow} `{!StdSort lv_price}.

Definition get_string (j : json) : res bytes := or_throw (json_string j).

(** [["65000.00","1.5"]] *)
Definition string_level (level : json) : res PriceLevel :=
  p ← json_index level 0; ps ← get_string p; price ← stod ps;
  q ← json_index level 1; qs ← get_string q; qty ← stod qs;
  Ret (mkPriceLevel price qty 0).

(** [{"price":65000.0,"qty":0.5}] *)
Definition number_level (lvl : json) : res PriceLevel :=
  p ← json_at lvl $"price"; price ← or_throw (json_double p);
  q ← json_at lvl $"qty"; qty ← or_throw (json_double q);
  Ret (mkPriceLevel price qty 0).

(** ** Binance *)

Definition binance_symbol (stream : bytes) : bytes :=
  map toupper (take (default (length stream) (find_char "@"%char stream)) stream).

(** The body of [parse_depth_message]: the callbacks it fires. *)
Definition binance_depth (cb : Callbacks) (now_ms : Z) (message : bytes) : res (list FeedEvent) :=
  j ← or_throw (json_parse message);
  if negb (json_contains j $"data") || negb (json_contains j $"stream") then Ret [] else
  st ← json_ref j $"stream"; stream ← get_string st;
  match find_sub $"@depth" stream with
  | None => Ret []
  | Some _ =>
      let sym := binance_symbol stream in
      data ← json_ref j $"data";
      if negb (json_contains data $"bids") || negb (json_contains data $"asks") then Ret [] else
      jb ← json_at data $"bids"; bids ← map_res string_level (json_items jb);
      ja ← json_at data $"asks"; asks ← map_res string_level (json_items ja);
      let snap := mkOrderBookSnapshot sym $"Binance" now_ms true
                    (List.filter positive bids) (List.filter positive asks) in
      Ret ((if depth_callback cb then [FDepth snap] else []) ++
           (if message_callback cb && negb (bool_decide (sn_bids snap = []))
                && negb (bool_decide (sn_asks snap = []))
            then [FBbo (ticker_of $"Binance" sym now_ms snap)] else []))
  end.

(** [on_read]: the message is counted, an exception is swallowed. *)
Definition binance_on_read (cb : Callbacks) (now_ms : Z) (message : bytes) (c : FeedClient)
    : ub FeedClient :=
  let c := c <| message_count := wrap64 (message_count c + 1) |> in
  match binance_depth cb now_ms message with
  | Ret evs => Some (c <| fired := fired c ++ evs |>)
  | Throw => Some c
  | Undef => None
  end.

(** ** The book a client keeps *)

(** The exchange, which levels of a snapshot enter the book, and whether an
    empty message fires the depth callback. *)
Record FeedStyle := mkFeedStyle {
  fs_exchange : bytes;
  fs_keep : PriceLevel -> bool;
  fs_fire_empty : bool;
}.
Definition kraken_style : FeedStyle := mkFeedStyle $"Kraken" positive false.
Definition bybit_style : FeedStyle := mkFeedStyle $"Bybit" (fun _ => true) true.
Definition coinbase_style : FeedStyle := mkFeedStyle $"Coinbase" positive false.

Definition local_update (st : FeedStyle) (clock : nat -> Z) (snap : OrderBookSnapshot) (b : OrderBook)
    : OrderBook :=
  if sn_is_snapshot snap then
    let bids := List.filter (fs_keep st) (sn_bids snap) in
    let asks := List.filter (fs_keep st) (sn_asks snap) in
    let b := clear (clock 0%nat) b in
    let b := feed_levels (replace_level Bid) clock 1 bids b in
    feed_levels (replace_level Ask) clock (1 + length bids) asks b
  else
    let b := feed_levels (delta_level Bid) clock 0 (sn_bids snap) b in
    feed_levels (delta_level Ask) clock (length (sn_bids snap)) (sn_asks snap) b.

(** From the finished [snap] to the callbacks. *)
Definition client_apply (st : FeedStyle) (cb : Callbacks) (clock : nat -> Z)
    (snap : OrderBookSnapshot) (c : FeedClient) : FeedClient :=
  let sym := sn_symbol snap in
  let book := default (new_book sym (fs_exchange st)) (local_books c !! sym) in
  let book := local_update st clock snap book in
  let bbo := get_snapshot book in
  c <| local_books := <[sym := book]> (local_books c) |>
    <| fired := fired c ++
         (if depth_callback cb && (fs_fire_empty st || negb (snap_empty snap)) then [FDepth snap] else []) ++
         (if message_callback cb && negb (snap_empty bbo)
          then [FBbo (ticker_of (fs_exchange st) sym (sn_timestamp_ms snap) bbo)] else []) |>.

(** ** Bybit *)

Definition BYBIT_PREFIX : bytes := $"orderbook.50.".

(** [parse_depth_message] up to the finished [snap]; [None] is an early return. *)
Definition bybit_snapshot (now_ms : Z) (message : bytes) : res (option OrderBookSnapshot) :=
  j ← or_throw (json_parse message);
  op ← (if json_contains j $"op" then o ← json_ref j $"op"; Some <$> get_string o else Ret None);
  if bool_decide (op = Some $"subscribe") || bool_decide (op = Some $"pong") then Ret None else
  if negb (json_contains j $"topic") then Ret None else
  t ← json_ref j $"topic"; topic ← get_string t;
  match find_sub BYBIT_PREFIX topic with
  | None => Ret None
  | Some _ =>
      let sym := drop (length BYBIT_PREFIX) topic in
      if negb (json_contains j $"data") || negb (json_contains j $"type") then Ret None else
      ty ← json_ref j $"type"; msg_type ← get_string ty;
      let is_snap := bool_decide (msg_type = $"snapshot") in
      data ← json_ref j $"data";
      if negb (json_contains data $"b") || negb (json_contains data $"a") then Ret None else
      jb ← json_ref data $"b"; bids ← map_res string_level (json_items jb);
      ja ← json_ref data $"a"; asks ← map_res string_level (json_items ja);
      Ret (Some (mkOrderBookSnapshot sym $"Bybit" now_ms is_snap bids asks))
  end.

(** ** Messages that carry several books

    The loop of a message over its items: [read] builds the snapshot of an
    item ([None]: the item is skipped), [apply] does the rest with the clock of
    the item.  What was applied stays when a later item throws. *)
Fixpoint item_loop {C} (read : json -> res (option OrderBookSnapshot))
    (apply : (nat -> Z) -> OrderBookSnapshot -> C -> C) (clocks : nat -> nat -> Z) (i : nat)
    (items : list json) (c : C) : C * res unit :=
  match items with
  | [] => (c, Ret tt)
  | item :: items' =>
      match read item with
      | Ret (Some snap) => item_loop read apply clocks (S i) items' (apply (clocks i) snap c)
      | Ret None => item_loop read apply clocks (S i) items' c
      | Throw => (c, Throw)
      | Undef => (c, Undef)
      end
  end.

(** ** Kraken *)

(** The checks before the loop: kind of message and items. *)
Definition kraken_message (message : bytes) : res (option (bool * list json)) :=
  j ← or_throw (json_parse message);
  method ← (if json_contains j $"method" then Some <$> json_ref j $"method" else Ret None);
  if match method with Some m => json_is m $"subscribe" | None => false end then Ret None else
  channel ← (if json_contains j $"channel" then Some <$> json_ref j $"channel" else Ret None);
  if match channel with Some ch => json_is ch $"status" | None => false end then Ret None else
  if match method with Some m => json_is m $"pong" | None => false end then Ret None else
  if negb (match channel with Some ch => json_is ch $"book" | None => false end) then Ret None else
  if negb (json_contains j $"type") || negb (json_contains j $"data") then Ret None else
  ty ← json_ref j $"type"; msg_type ← get_string ty;
  let is_snap := bool_decide (msg_type = $"snapshot") in
  if negb is_snap && negb (bool_decide (msg_type = $"update")) then Ret None else
  data_array ← json_ref j $"data";
  if json_empty data_array then Ret None else Ret (Some (is_snap, json_items data_array)).

Definition kraken_side (item : json) (side : bytes) : res (list PriceLevel) :=
  if json_contains item side then ls ← json_at item side; map_res number_level (json_items ls) else Ret [].

Definition kraken_item (now_ms : Z) (is_snap : bool) (item : json) : res (option OrderBookSnapshot) :=
  if negb (json_contains item $"symbol") then Ret None else
  s ← json_at item $"symbol"; sym ← get_string s;
  bids ← kraken_side item $"bids";
  asks ← kraken_side item $"asks";
  bids ← sort_levels dgt bids;
  asks ← sort_levels dlt asks;
  Ret (Some (mkOrderBookSnapshot sym $"Kraken" now_ms is_snap bids asks)).

(** ** Coinbase *)

Definition coinbase_message (message : bytes) : res (list json) :=
  j ← or_throw (json_parse message);
  if negb (json_contains j $"channel") then Ret [] else
  ch ← json_ref j $"channel"; channel ← get_string ch;
  if bool_decide (channel = $"subscriptions") || bool_decide (channel = $"heartbeats") then Ret [] else
  error ← (if bool_decide (channel = $"error") then Ret true
           else if json_contains j $"type" then t ← json_ref j $"type"; Ret (json_is t $"error")
           else Ret false);
  if error : bool then Ret [] else
  if negb (bool_decide (channel = $"l2_data")) || negb (json_contains j $"events") then Ret [] else
  events ← json_ref j $"events"; Ret (json_items events).

(** One element of "updates": its side and level; [None]: skipped. *)
Definition coinbase_update (upd : json) : res (option (bytes * PriceLevel)) :=
  if negb (json_contains upd $"side") || negb (json_contains upd $"price_level")
     || negb (json_contains upd $"new_quantity") then Ret None else
  p ← json_at upd $"price_level"; ps ← get_string p; price ← stod ps;
  q ← json_at upd $"new_quantity"; qs ← get_string q; qty ← stod qs;
  s ← json_at upd $"side"; side ← get_string s;
  Ret (Some (side, mkPriceLevel price qty 0)).

(** The levels pushed to one side, in order. *)
Definition coinbase_side (side : bytes) (us : list (option (bytes * PriceLevel))) : list PriceLevel :=
  omap (fun u => match u with
    | Some (s, l) => if bool_decide (s = side) then Some l else None
    | None => None
    end) us.

Definition coinbase_event (now_ms : Z) (event : json) : res (option OrderBookSnapshot) :=
  if negb (json_contains event $"type") || negb (json_contains event $"product_id") then Ret None else
  t ← json_at event $"type"; event_type ← get_string t;
  let is_snap := bool_decide (event_type = $"snapshot") in
  if negb is_snap && negb (bool_decide (event_type = $"update")) then Ret None else
  if negb (json_contains event $"updates") then Ret None else
  pid ← json_at event $"product_id"; product_id ← get_string pid;
  ju ← json_at event $"updates"; us ← map_res coinbase_update (json_items ju);
  bids ← sort_levels dgt (coinbase_side $"bid" us);
  asks ← sort_levels dlt (coinbase_side $"offer" us);
  Ret (Some (mkOrderBookSnapshot product_id $"Coinbase" now_ms is_snap bids asks)).

(** ** One message *)

Definition finish (r : FeedClient * res unit) : ub FeedClient :=
  match snd r with Undef => None | _ => Some (fst r) end.

Inductive FeedVenue := Kraken | Bybit | Coinbase.

Definition style_of (v : FeedVenue) : FeedStyle :=
  match v with Kraken => kraken_style | Bybit => bybit_style | Coinbase => coinbase_style end.

Definition bybit_message {C} (apply : (nat -> Z) -> OrderBookSnapshot -> C -> C)
    (clocks : nat -> nat -> Z) (now_ms : Z) (message : bytes) (c : C) : C * res unit :=
  match bybit_snapshot now_ms message with
  | Ret (Some snap) => (apply (clocks 0%nat) snap c, Ret tt)
  | Ret None => (c, Ret tt)
  | Throw => (c, Throw)
  | Undef => (c, Undef)
  end.

(** [parse_depth_message] of the three clients that keep books. *)
Definition parse_depth_message {C} (v : FeedVenue) (apply : (nat -> Z) -> OrderBookSnapshot -> C -> C)
    (clocks : nat -> nat -> Z) (now_ms : Z) (message : bytes) (c : C) : C * res unit :=
  match v with
  | Bybit => bybit_message apply clocks now_ms message c
  | Kraken =>
      match kraken_message message with
      | Ret (Some (is_snap, items)) => item_loop (kraken_item now_ms is_snap) apply clocks 0 items c
      | Ret None => (c, Ret tt)
      | Throw => (c, Throw)
      | Undef => (c, Undef)
      end
  | Coinbase =>
      match coinbase_message message with
      | Ret events => item_loop (coinbase_event now_ms) apply clocks 0 events c
      | Throw => (c, Throw)
      | Undef => (c, Undef)
      end
  end.

(** [on_read]: the message is counted, an exception is swallowed. *)
Definition on_read (v : FeedVenue) (cb : Callbacks) (clocks : nat -> nat -> Z) (now_ms : Z)
    (message : bytes) (c : FeedClient) : ub FeedClient :=
  finish (parse_depth_message v (client_apply (style_of v) cb) clocks now_ms message
    (c <| message_count := wrap64 (message_count c + 1) |>)).

(** The snapshots a message is read as, in order. *)
Definition decoded (v : FeedVenue) (now_ms : Z) (message : bytes) : list OrderBookSnapshot :=
  fst (parse_depth_message v (fun _ snap l => l ++ [snap]) (fun _ _ => 0) now_ms message []).
End clients.

(** ** Symbols *)

Definition symbol_to_stream (symbol : bytes) : bytes := map tolower symbol ++ $"@depth20@100ms".

Definition binance_to_bybit_topic (symbol : bytes) : bytes := $"orderbook.50." ++ symbol.

(** The tables of the two converters agree with the rule that follows them
    (see [kraken_table] and [coinbase_table]); the tables are kept as lists. *)
Definition kraken_symbols : list (bytes * bytes) :=
  [($"BTCUSDT", $"BTC/USD"); ($"ETHUSDT", $"ETH/USD"); ($"ADAUSDT", $"ADA/USD"); ($"DOTUSDT", $"DOT/USD");
   ($"SOLUSDT", $"SOL/USD"); ($"MATICUSDT", $"MATIC/USD"); ($"AVAXUSDT", $"AVAX/USD"); ($"LTCUSDT", $"LTC/USD");
   ($"LINKUSDT", $"LINK/USD"); ($"XLMUSDT", $"XLM/USD"); ($"XRPUSDT", $"XRP/USD"); ($"UNIUSDT", $"UNI/USD");
   ($"AAVEUSDT", $"AAVE/USD"); ($"ATOMUSDT", $"ATOM/USD"); ($"ALGOUSDT", $"ALGO/USD")].

Definition coinbase_symbols : list (bytes * bytes) :=
  [($"BTCUSDT", $"BTC-USD"); ($"ETHUSDT", $"ETH-USD"); ($"BNBUSDT", $"BNB-USD"); ($"ADAUSDT", $"ADA-USD");
   ($"DOTUSDT", $"DOT-USD"); ($"SOLUSDT", $"SOL-USD"); ($"MATICUSDT", $"MATIC-USD"); ($"AVAXUSDT", $"AVAX-USD");
   ($"LTCUSDT", $"LTC-USD"); ($"LINKUSDT", $"LINK-USD"); ($"XLMUSDT", $"XLM-USD"); ($"XRPUSDT", $"XRP-USD");
   ($"UNIUSDT", $"UNI-USD"); ($"AAVEUSDT", $"AAVE-USD"); ($"ATOMUSDT", $"ATOM-USD"); ($"ALGOUSDT", $"ALGO-USD")].

(** The generic rule: strip USDT, add the separator and USD. *)
Definition dollar_symbol (separator : bytes) (symbol : bytes) : bytes :=
  if (4 <? length symbol)%nat && bool_decide (drop (length symbol - 4) symbol = $"USDT")
  then take (length symbol - 4) symbol ++ separator ++ $"USD" else symbol.

Definition binance_to_kraken_symbol (symbol : bytes) : bytes :=
  match assoc symbol kraken_symbols with Some s => s | None => dollar_symbol $"/" symbol end.

Definition binance_to_coinbase_symbol (symbol : bytes) : bytes :=
  match assoc symbol coinbase_symbols with Some s => s | None => dollar_symbol $"-" symbol end.

(** ** The snapshots of a message *)

Section feeds.
Context `{JsonLib} `{StrtodUnderflow} `{!StdSort lv_price}.

(** Apply snapshots in order, each with the clock of its item. *)
Definition apply_all {C} (apply : (nat -> Z) -> OrderBookSnapshot -> C -> C) (clocks : nat -> nat -> Z)
    (xs : list (nat * OrderBookSnapshot)) (c : C) : C :=
  foldl (fun c x => apply (clocks (fst x)) (snd x) c) c xs.

Lemma item_loop_spec read i items :
  exists xs r, Forall (fun x => exists item, read item = Ret (Some (snd x))) xs /\
    forall C (apply : (nat -> Z) -> OrderBookSnapshot -> C -> C) clocks c,
      item_loop read apply clocks i items c = (apply_all apply clocks xs c, r).
Proof.
  revert i. induction items as [|item items IH]; intros i; [by exists [], (Ret tt)|].
  destruct (IH (S i)) as (xs & r & Hr & Hxs). destruct (read item) as [[snap|]| |] eqn:E.
  - exists ((i, snap) :: xs), r. split; [constructor; [by exists item|done]|].
    intros C apply clocks c. simpl. by rewrite E, Hxs.
  - exists xs, r. split; [done|]. intros C apply clocks c. simpl. by rewrite E, Hxs.
  - exists [], Throw. split; [done|]. intros C apply clocks c. simpl. by rewrite E.
  - exists [], Undef. split; [done|]. intros C apply clocks c. simpl. by rewrite E.
Qed.

Ltac invert_read H :=
  unfold mbind, res_bind in H; repeat (case_match; try discriminate H); injection H as <-.

Lemma kraken_item_exchange now_ms is_snap item snap :
  kraken_item now_ms is_snap item = Ret (Some snap) -> sn_exchange snap = $"Kraken".
Proof. unfold kraken_item. intros H2. by invert_read H2. Qed.

Lemma bybit_exchange now_ms message snap :
  bybit_snapshot now_ms message = Ret (Some snap) -> sn_exchange snap = $"Bybit".
Proof. unfold bybit_snapshot. intros H2. by invert_read H2. Qed.

Lemma coinbase_event_exchange now_ms event snap :
  coinbase_event now_ms event = Ret (Some snap) -> sn_exchange snap = $"Coinbase".
Proof. unfold coinbase_event. intros H2. by invert_read H2. Qed.

Definition from_venue (v : FeedVenue) (snap : OrderBookSnapshot) : Prop :=
  sn_exchange snap = fs_exchange (style_of v).

Lemma parse_depth_spec v now_ms message :
  exists xs r, Forall (fun x => from_venue v (snd x)) xs /\
    forall C (apply : (nat -> Z) -> OrderBookSnapshot -> C -> C) clocks c,
      parse_depth_message v apply clocks now_ms message c = (apply_all apply clocks xs c, r).
Proof.
  assert (Hnone : forall r (f : forall C, C -> C * res unit), (forall C c, f C c = (c, r)) ->
    exists xs r, Forall (fun x => from_venue v (snd x)) xs /\
      forall C (apply : (nat -> Z) -> OrderBookSnapshot -> C -> C) clocks c,
        f C c = (apply_all apply clocks xs c, r)).
  { intros r f Hf. exists [], r. split; [constructor|]. intros. apply Hf. }
  destruct v; simpl.
  - destruct (kraken_message message) as [[[is_snap items]|]| |]; [|by apply (Hnone (Ret tt))|by apply (Hnone Throw)|by apply (Hnone Undef)].
    destruct (item_loop_spec (kraken_item now_ms is_snap) 0 items) as (xs & r & Hr & Hxs). exists xs, r. split; [|done].
    eapply Forall_impl; [exact Hr|]. intros x [item Hi]. by eapply kraken_item_exchange.
  - unfold bybit_message.
    destruct (bybit_snapshot now_ms message) as [[snap|]| |] eqn:E; [|by apply (Hnone (Ret tt))|by apply (Hnone Throw)|by apply (Hnone Undef)].
    exists [(0%nat, snap)], (Ret tt). split; [|done]. constructor; [by eapply bybit_exchange|constructor].
  - destruct (coinbase_message message) as [events| |]; [|by apply (Hnone Throw)|by apply (Hnone Undef)].
    destruct (item_loop_spec (coinbase_event now_ms) 0 events) as (xs & r & Hr & Hxs). exists xs, r. split; [|done].
    eapply Forall_impl; [exact Hr|]. intros x [item Hi]. by eapply coinbase_event_exchange.
Qed.

(** Reading a message applies exactly the snapshots it decodes to. *)
Lemma on_read_decoded v cb clocks now_ms message c c' :
  on_read v cb clocks now_ms message c = Some c' ->
  exists xs, decoded v now_ms message = map snd xs /\ Forall (fun x => from_venue v (snd x)) xs /\
    c' = apply_all (client_apply (style_of v) cb) clocks xs
           (c <| message_count := wrap64 (message_count c + 1) |>).
Proof.
  unfold on_read, decoded. destruct (parse_depth_spec v now_ms message) as (xs & r & Hv & E). rewrite !E.
  unfold finish. simpl. intros Hc. exists xs. split.
  - clear. unfold apply_all. induction xs as [|x xs IH] using rev_ind; [done|].
    by rewrite foldl_snoc, map_app, IH.
  - split; [done|]. by destruct r; simplify_eq/=.
Qed.

(** ** Local books against the engine's *)

Lemma filter_keep_all (keep : PriceLevel -> bool) ls :
  Forall (fun l => keep l = true) ls -> List.filter keep ls = ls.
Proof. induction 1 as [|l ls Hl Hls IH]; [done|]. simpl. by rewrite Hl, IH. Qed.

(** A snapshot whose levels all enter the client's book, and that is not
    withheld from the engine when it is empty. *)
Definition faithful (st : FeedStyle) (snap : OrderBookSnapshot) : Prop :=
  priced_snapshot snap /\
  (sn_is_snapshot snap = true ->
     (fs_fire_empty st = true \/ snap_empty snap = false) /\
     Forall (fun l => fs_keep st l = true) (sn_bids snap ++ sn_asks snap)).

Lemma local_update_levels st clock snap b s p :
  faithful st snap -> book_wf b -> is_nan p = false ->
  level_at s p (local_update st clock snap b) =
    if sn_is_snapshot snap then feed_level false p None (feed_side s snap)
    else feed_level true p (level_at s p b) (feed_side s snap).
Proof.
  intros [[Hpb Hpa] Hk] Hb Hp. unfold local_update. destruct (sn_is_snapshot snap); cbv zeta.
  - destruct (Hk eq_refl) as [_ [Hkb Hka]%Forall_app]. rewrite !filter_keep_all by done.
    assert (Hc : book_wf (clear (clock 0%nat) b)) by (split; apply side_wf_nil).
    destruct (level_at_feed false s Bid p clock 1 (sn_bids snap) _ Hp Hpb Hc) as [W1 E1].
    destruct (level_at_feed false s Ask p clock (1 + length (sn_bids snap)) (sn_asks snap) _ Hp Hpa W1) as [_ E2].
    cbn [feed_op] in E1, E2. rewrite E2, E1. by destruct s.
  - destruct (level_at_feed true s Bid p clock 0 (sn_bids snap) b Hp Hpb Hb) as [W1 E1].
    destruct (level_at_feed true s Ask p clock (length (sn_bids snap)) (sn_asks snap) _ Hp Hpa W1) as [W2 E2].
    cbn [feed_op] in E1, E2, W2. rewrite E2, E1. by destruct s.
Qed.

Lemma priced_filter keep ls : priced_levels ls -> priced_levels (List.filter keep ls).
Proof.
  induction 1 as [|l ls Hl Hls IH]; [constructor|]. simpl. destruct (keep l); [by constructor|done].
Qed.

Lemma feed_wf delta s clock k ls b :
  priced_levels ls -> book_wf b -> book_wf (feed_levels (feed_op delta s) clock k ls b).
Proof. intros Hls Hb. by apply (level_at_feed delta s s dzero). Qed.

Lemma local_update_wf st clock snap b :
  priced_snapshot snap -> book_wf b -> book_wf (local_update st clock snap b).
Proof.
  intros [Hpb Hpa] Hb. unfold local_update. destruct (sn_is_snapshot snap); cbv zeta.
  - apply (feed_wf false Ask); [by apply priced_filter|]. apply (feed_wf false Bid); [by apply priced_filter|].
    split; apply side_wf_nil.
  - apply (feed_wf true Ask); [done|]. by apply (feed_wf true Bid).
Qed.

(** [extends o o']: [o'] is [o], or [o] is empty. *)
Definition extends {A} (o o' : option A) : Prop := forall a, o = Some a -> o' = Some a.

Lemma feed_level_extends p old old' ls :
  extends old old' -> extends (feed_level true p old ls) (feed_level true p old' ls).
Proof.
  revert old old'. induction ls as [|l ls IH]; intros old old' Ho; [done|].
  unfold feed_level. simpl. apply IH. destruct (deq p (lv_price l)); [by intros a|exact Ho].
Qed.

(** The engine's book [be] shows the client's book [bl]: the same asks, and no
    bid the client does not have. *)
Definition mirrors (bl be : OrderBook) : Prop :=
  forall p, is_nan p = false ->
    level_at Ask p be = level_at Ask p bl /\ extends (level_at Bid p be) (level_at Bid p bl).

Lemma mirrors_feed st clock clock' snap bl be :
  faithful st snap -> book_wf bl -> book_wf be -> mirrors bl be ->
  mirrors (local_update st clock snap bl) (apply_feed clock' snap be).
Proof.
  intros Hf Hbl Hbe Hm p Hp. destruct (Hm p Hp) as [Ha Hb].
  rewrite !local_update_levels, !apply_feed_levels by (done || apply (proj1 Hf)).
  destruct (sn_is_snapshot snap); [split; [done|by intros a]|].
  split.
  - unfold uncrossed. by rewrite Ha.
  - destruct (uncrossed _ Bid p); [by apply feed_level_extends|by intros a].
Qed.

(** A message that is withheld leaves the client's book as it is. *)
Lemma mirrors_withheld st clock snap bl be :
  faithful st snap -> book_wf bl -> snap_empty snap = true -> fs_fire_empty st = false -> mirrors bl be ->
  mirrors (local_update st clock snap bl) be.
Proof.
  intros Hf Hbl He Hs Hm p Hp. rewrite !local_update_levels by done.
  destruct Hf as [_ Hf]. destruct (sn_is_snapshot snap).
  { destruct (Hf eq_refl) as [[?|?] _]; congruence. }
  apply andb_true_iff in He as [E1%bool_decide_eq_true_1 E2%bool_decide_eq_true_1].
  simpl. rewrite E1, E2. by apply Hm.
Qed.
End feeds.

(** ** A client wired to the engine *)

(** The depth callback installed by [main] hands the snapshot to
    [update_order_book]; the ticker callback goes to the dashboard. *)
Definition deliver_one (clock : nat -> Z) (e : Engine) (ev : FeedEvent) : Engine :=
  match ev with FDepth snap => update_books clock snap e | FBbo _ => e end.

Fixpoint deliver (clocks : nat -> nat -> Z) (evs : list FeedEvent) (e : Engine) : Engine :=
  match evs with
  | [] => e
  | ev :: evs' => deliver (fun i => clocks (S i)) evs' (deliver_one (clocks 0%nat) e ev)
  end.

(** A client and the engine: the client reads a message, the engine is given
    another exchange's message, or the engine does anything else that leaves
    its WebSocket books alone. *)
Inductive wired_step `{JsonLib} `{StrtodUnderflow} `{!StdSort lv_price} (v : FeedVenue) (cb : Callbacks) :
    FeedClient * Engine -> FeedClient * Engine -> Prop :=
  | wired_read clocks now_ms message eclocks evs c c' e :
      Forall (faithful (style_of v)) (decoded v now_ms message) ->
      on_read v cb clocks now_ms message c = Some c' -> fired c' = fired c ++ evs ->
      wired_step v cb (c, e) (c', deliver eclocks evs e)
  | wired_other clock snap c e :
      priced_snapshot snap -> sn_exchange snap <> fs_exchange (style_of v) -> ":"%char ∉ sn_exchange snap ->
      wired_step v cb (c, e) (c, update_books clock snap e)
  | wired_engine c e e' :
      ws_books_ e' = ws_books_ e -> wired_step v cb (c, e) (c, e').

Section wired.
Context `{JsonLib} `{StrtodUnderflow} `{!StdSort lv_price} (v : FeedVenue) (cb : Callbacks).
Local Abbreviation st := (style_of v).

Definition local_book (c : FeedClient) (sym : bytes) : OrderBook :=
  default (new_book sym (fs_exchange st)) (local_books c !! sym).

Definition engine_book (e : Engine) (sym : bytes) : OrderBook :=
  default (new_book sym (fs_exchange st)) (ws_books_ e !! make_ticker_key (fs_exchange st) sym).

Definition mirrored (x : FeedClient * Engine) : Prop :=
  forall sym, book_wf (local_book (fst x) sym) /\ book_wf (engine_book (snd x) sym) /\
    mirrors (local_book (fst x) sym) (engine_book (snd x) sym).

Lemma venue_no_colon : ":"%char ∉ fs_exchange st.
Proof using. destruct v; by apply (bool_decide_eq_false_1 _). Qed.

Lemma ticker_key_inj ex ex' sym sym' :
  ":"%char ∉ ex -> ":"%char ∉ ex' -> make_ticker_key ex sym = make_ticker_key ex' sym' -> ex = ex' /\ sym = sym'.
Proof using.
  unfold make_ticker_key. simpl. intros Hx Hx' E.
  assert (Hl : length ex = length ex').
  { apply (f_equal (find_char ":"%char)) in E. rewrite !find_char_app in E by done. by injection E. }
  apply app_inj_1 in E as [-> E]; [|done]. by injection E.
Qed.

Lemma local_book_apply clock snap c sym :
  local_book (client_apply st cb clock snap c) sym =
    if bool_decide (sn_symbol snap = sym) then local_update st clock snap (local_book c sym) else local_book c sym.
Proof using.
  unfold local_book. simpl. case_bool_decide as E; [subst; by rewrite lookup_insert_eq|by rewrite lookup_insert_ne].
Qed.

Lemma engine_book_update clock snap e sym :
  from_venue v snap ->
  engine_book (update_books clock snap e) sym =
    if bool_decide (sn_symbol snap = sym) then apply_feed clock snap (engine_book e sym) else engine_book e sym.
Proof using.
  intros Hv. unfold engine_book. simpl. unfold book_key. rewrite Hv. case_bool_decide as E.
  - subst. by rewrite lookup_insert_eq.
  - rewrite lookup_insert_ne; [done|]. intros (_ & ?)%ticker_key_inj; [done|apply venue_no_colon..].
Qed.

(** The events one snapshot fires. *)
Lemma client_apply_fired clock snap c :
  exists bbos, fired (client_apply st cb clock snap c) =
    fired c ++ (if depth_callback cb && (fs_fire_empty st || negb (snap_empty snap)) then [FDepth snap] else [])
      ++ map FBbo bbos.
Proof using.
  simpl. set (b := _ && negb (snap_empty (get_snapshot _))). destruct b; [by eexists [_]|by exists []].
Qed.

Lemma deliver_app clocks evs evs' e :
  deliver clocks (evs ++ evs') e = deliver (fun i => clocks (length evs + i)%nat) evs' (deliver clocks evs e).
Proof using. revert clocks e. induction evs as [|ev evs IH]; intros clocks e; [done|]. simpl. by rewrite IH. Qed.

Lemma deliver_bbos clocks ts e : deliver clocks (map FBbo ts) e = e.
Proof using. revert clocks. by induction ts as [|t ts IH]; intros clocks; [|apply IH]. Qed.

Lemma mirrored_apply clock snap clocks evs c e :
  depth_callback cb = true -> faithful st snap -> from_venue v snap ->
  fired (client_apply st cb clock snap c) = fired c ++ evs ->
  mirrored (c, e) -> mirrored (client_apply st cb clock snap c, deliver clocks evs e).
Proof using.
  intros Hcb Hf Hv He Hm sym. destruct (Hm sym) as (W1 & W2 & M). cbn [fst snd] in *.
  destruct (client_apply_fired clock snap c) as [ts Ets]. rewrite Ets, Hcb in He.
  apply app_inv_head in He as <-. rewrite deliver_app, deliver_bbos, local_book_apply. cbn [andb].
  destruct (fs_fire_empty st || negb (snap_empty snap)) eqn:Efire; cbn [deliver deliver_one].
  - rewrite engine_book_update by done. case_bool_decide; [|by split_and!].
    split_and!; [by apply local_update_wf; [apply Hf|]|by apply apply_feed_wf; [apply Hf|]|by apply mirrors_feed].
  - apply orb_false_iff in Efire as [E1 E2%negb_false_iff]. case_bool_decide; [|by split_and!].
    split_and!; [by apply local_update_wf; [apply Hf|]|done|by apply mirrors_withheld].
Qed.

Lemma fired_apply_all clocks xs c :
  exists evs, fired (apply_all (client_apply st cb) clocks xs c) = fired c ++ evs.
Proof using.
  revert c. induction xs as [|[i snap] xs IH]; intros c; [exists []; by rewrite app_nil_r|].
  destruct (IH (client_apply st cb (clocks i) snap c)) as [evs E].
  exists (drop (length (fired c)) (fired (client_apply st cb (clocks i) snap c)) ++ evs).
  change (apply_all _ _ (_ :: _) c) with (apply_all (client_apply st cb) clocks xs (client_apply st cb (clocks i) snap c)).
  rewrite E.
  destruct (client_apply_fired (clocks i) snap c) as [ts ->]. by rewrite drop_app_length, <-!app_assoc.
Qed.

Lemma mirrored_apply_all clocks eclocks xs evs c e :
  depth_callback cb = true -> Forall (fun x => faithful st (snd x) /\ from_venue v (snd x)) xs ->
  fired (apply_all (client_apply st cb) clocks xs c) = fired c ++ evs ->
  mirrored (c, e) -> mirrored (apply_all (client_apply st cb) clocks xs c, deliver eclocks evs e).
Proof using.
  intros Hcb Hxs. revert eclocks evs c e. induction Hxs as [|[i snap] xs [Hf Hv] Hxs IH]; intros eclocks evs c e He Hm.
  { change (fired c = fired c ++ evs) in He. rewrite <-(app_nil_r (fired c)) in He at 1. by apply app_inv_head in He as <-. }
  change (apply_all _ _ (_ :: _) c) with (apply_all (client_apply st cb) clocks xs (client_apply st cb (clocks i) snap c)) in *.
  destruct (client_apply_fired (clocks i) snap c) as [ts E1].
  set (evs1 := (if _ && _ then _ else _) ++ _) in E1.
  destruct (fired_apply_all clocks xs (client_apply st cb (clocks i) snap c)) as [evs2 E2].
  rewrite E2, E1, <-app_assoc in He. apply app_inv_head in He as <-.
  rewrite deliver_app. apply IH; [exact E2|]. by apply mirrored_apply.
Qed.

Lemma mirrored_step x y : depth_callback cb = true -> mirrored x -> wired_step v cb x y -> mirrored y.
Proof using.
  intros Hcb Hm Hs. destruct Hs as [clocks now_ms message eclocks evs c c' e Hf Hr He|clock snap c e Hp Hne Hc|c e e' Hws].
  - apply on_read_decoded in Hr as (xs & Exs & Hv & ->). apply mirrored_apply_all; [done| |exact He|exact Hm].
    rewrite Exs, Forall_map in Hf. apply Forall_and. by split.
  - intros sym. destruct (Hm sym) as (W1 & W2 & M). cbn [fst snd] in *.
    assert (E : engine_book (update_books clock snap e) sym = engine_book e sym).
    { unfold engine_book. simpl. rewrite lookup_insert_ne; [done|]. unfold book_key.
      intros [? _]%ticker_key_inj; [done|done|apply venue_no_colon]. }
    by rewrite E.
  - intros sym. destruct (Hm sym) as (W1 & W2 & M). unfold engine_book in *. cbn [fst snd] in *. by rewrite Hws.
Qed.

Lemma mirrored_start : mirrored (new_client, new_engine).
Proof using.
  intros sym. unfold local_book, engine_book. simpl. rewrite !lookup_empty.
  split_and!; [apply new_book_wf..|]. intros p _. split; [done|by intros a].
Qed.

(** C7: The engine's copy of a feed never drifts from the client's own book.
    Whatever messages a Kraken, Bybit or Coinbase client reads, interleaved
    with the other feeds and everything else the engine does, if every price is
    a number, and no Kraken or Coinbase snapshot is empty or lists a level
    without quantity, then for every symbol both books are well formed, the
    engine's asks are exactly the client's, and each of the engine's bids is
    the client's bid at that price (the engine drops crossed bids, the client
    does not). *)
Theorem feeds_mirrored c e :
  depth_callback cb = true -> rtc (wired_step v cb) (new_client, new_engine) (c, e) ->
  forall sym, book_wf (local_book c sym) /\ book_wf (engine_book e sym) /\
    forall p, is_nan p = false ->
      level_at Ask p (engine_book e sym) = level_at Ask p (local_book c sym) /\
      (forall lv, level_at Bid p (engine_book e sym) = Some lv -> level_at Bid p (local_book c sym) = Some lv).
Proof using.
  intros Hcb Hr. apply (rtc_invariant (wired_step v cb) mirrored (new_client, new_engine) (c, e)); [|exact Hr|apply mirrored_start].
  intros x y Hx. by apply mirrored_step.
Qed.
End wired.

(** ** Wire formats *)

Lemma sort_levels_priced `{!StdSort lv_price} before ls :
  KeyOrder before -> priced_levels ls ->
  exists ls', sort_levels before ls = Ret ls' /\ ls' ≡ₚ ls /\ in_order lv_price before ls'.
Proof.
  intros Ho Hls. exists (std_sort lv_price before ls). unfold sort_levels. rewrite numbered_sortable by done.
  split_and!; [done|apply std_sort_perm|by apply std_sort_sorted].
Qed.


Lemma toupper_tolower c : toupper (tolower c) = toupper c.
Proof. by destruct c as [[] [] [] [] [] [] [] []]. Qed.

Lemma tolower_at c : tolower c = "@"%char -> c = "@"%char.
Proof. by destruct c as [[] [] [] [] [] [] [] []]. Qed.

Lemma binance_symbol_of_stream sym :
  "@"%char ∉ sym -> map toupper sym = sym -> binance_symbol (symbol_to_stream sym) = sym.
Proof.
  intros Hat Hup. unfold binance_symbol, symbol_to_stream.
  change $"@depth20@100ms" with ("@"%char :: $"depth20@100ms").
  rewrite find_char_app.
  - simpl. rewrite take_app_length, map_map. rewrite <-Hup at 2. apply map_ext. apply toupper_tolower.
  - intros (c & Hc%eq_sym%tolower_at & Hin)%list_elem_of_fmap. by subst.
Qed.

Section wire.
Context (parse : bytes -> option jtree) `{StrtodUnderflow} `{!StdSort lv_price} (now_ms : Z) (message : bytes).
#[local] Instance wire_json : JsonLib := tree_json parse.

(** The texts of a level and the level they stand for. *)
Definition reads (t : bytes * bytes) (l : PriceLevel) : Prop :=
  stod (fst t) = Ret (lv_price l) /\ stod (snd t) = Ret (lv_quantity l) /\ lv_order_count l = 0.

Definition pair_json (t : bytes * bytes) : jtree := JArr [JStr (fst t); JStr (snd t)].

(** A JSON number, with or without a fraction, and the price it stands for. *)
Definition numeric (t : jtree) (d : double) : Prop := t = JFloat d \/ exists n, t = JInt n /\ d = dZ n.

(** The numbers of a level and the level they stand for. *)
Definition reads_number (t : jtree * jtree) (l : PriceLevel) : Prop :=
  numeric (fst t) (lv_price l) /\ numeric (snd t) (lv_quantity l) /\ lv_order_count l = 0.

Definition number_json (t : jtree * jtree) : jtree := JObj [($"price", fst t); ($"qty", snd t)].

Definition binance_wire (sym : bytes) (id : Z) (bids asks : list (bytes * bytes)) : jtree :=
  JObj [($"stream", JStr (symbol_to_stream sym));
        ($"data", JObj [($"lastUpdateId", JInt id); ($"bids", JArr (map pair_json bids));
                        ($"asks", JArr (map pair_json asks))])].

Definition bybit_wire (ty sym : bytes) (ts : Z) (bids asks : list (bytes * bytes)) : jtree :=
  JObj [($"topic", JStr (binance_to_bybit_topic sym)); ($"type", JStr ty); ($"ts", JInt ts);
        ($"data", JObj [($"s", JStr sym); ($"b", JArr (map pair_json bids)); ($"a", JArr (map pair_json asks))])].

(** A Kraken book: symbol, bids, asks. *)
Definition kraken_book (b : bytes * list (jtree * jtree) * list (jtree * jtree)) : jtree :=
  let '(sym, bids, asks) := b in
  JObj [($"symbol", JStr sym); ($"bids", JArr (map number_json bids)); ($"asks", JArr (map number_json asks))].

Definition kraken_wire (ty : bytes) (books : list (bytes * list (jtree * jtree) * list (jtree * jtree))) : jtree :=
  JObj [($"channel", JStr $"book"); ($"type", JStr ty); ($"data", JArr (map kraken_book books))].

Definition update_json (u : bytes * (bytes * bytes)) : jtree :=
  JObj [($"side", JStr (fst u)); ($"event_time", JStr []); ($"price_level", JStr (fst (snd u)));
        ($"new_quantity", JStr (snd (snd u)))].

Definition event_json (ev : bytes * bytes * list (bytes * (bytes * bytes))) : jtree :=
  let '(ty, product_id, us) := ev in
  JObj [($"type", JStr ty); ($"product_id", JStr product_id); ($"updates", JArr (map update_json us))].

Definition coinbase_wire (time : bytes) (seq : Z) (evs : list (bytes * bytes * list (bytes * (bytes * bytes)))) : jtree :=
  JObj [($"channel", JStr $"l2_data"); ($"timestamp", JStr time); ($"sequence_num", JInt seq);
        ($"events", JArr (map event_json evs))].

Lemma string_levels ts ls : Forall2 reads ts ls -> map_res string_level (map pair_json ts) = Ret ls.
Proof using.
  intros Hr. apply map_res_ret, Forall2_fmap_l. eapply Forall2_impl; [exact Hr|].
  intros [p q] [price qty n] (Hp & Hq & Hn). simpl in *. unfold string_level. simpl. rewrite Hp. simpl. rewrite Hq. simpl. by subst.
Qed.

Lemma number_levels ts ls : Forall2 reads_number ts ls -> map_res number_level (map number_json ts) = Ret ls.
Proof using.
  intros Hr. apply map_res_ret, Forall2_fmap_l. eapply Forall2_impl; [exact Hr|].
  intros [p q] [price qty n] (Hp & Hq & Hn). simpl in *. subst. unfold number_level. simpl.
  destruct Hp as [->|(x & -> & ->)], Hq as [->|(y & -> & ->)]; reflexivity.
Qed.

Lemma binance_wire_read cb sym id tbids tasks bids asks :
  parse message = Some (binance_wire sym id tbids tasks) ->
  "@"%char ∉ sym -> map toupper sym = sym -> Forall2 reads tbids bids -> Forall2 reads tasks asks ->
  let snap := mkOrderBookSnapshot sym $"Binance" now_ms true (List.filter positive bids) (List.filter positive asks) in
  binance_depth cb now_ms message =
    Ret ((if depth_callback cb then [FDepth snap] else []) ++
         (if message_callback cb && negb (bool_decide (sn_bids snap = [])) && negb (bool_decide (sn_asks snap = []))
          then [FBbo (ticker_of $"Binance" sym now_ms snap)] else [])).
Proof using.
  intros Hp Hat Hup Hb Ha snap.
  transitivity (match find_sub $"@depth" (symbol_to_stream sym) with
    | None => Ret []
    | Some _ =>
        bids ← map_res string_level (map pair_json tbids);
        asks ← map_res string_level (map pair_json tasks);
        let snap := mkOrderBookSnapshot (binance_symbol (symbol_to_stream sym)) $"Binance" now_ms true
                      (List.filter positive bids) (List.filter positive asks) in
        Ret ((if depth_callback cb then [FDepth snap] else []) ++
             (if message_callback cb && negb (bool_decide (sn_bids snap = []))
                  && negb (bool_decide (sn_asks snap = []))
              then [FBbo (ticker_of $"Binance" (binance_symbol (symbol_to_stream sym)) now_ms snap)] else []))
    end).
  - unfold binance_depth. cbn [json_parse wire_json tree_json]. rewrite Hp. reflexivity.
  - rewrite (string_levels _ _ Hb), (string_levels _ _ Ha), binance_symbol_of_stream by done.
    destruct (find_sub_app $"@depth" (map tolower sym) $"20@100ms") as [n En].
    change ($"@depth" ++ $"20@100ms") with $"@depth20@100ms" in En. unfold symbol_to_stream. rewrite En. reflexivity.
Qed.

Lemma bybit_wire_read ty sym ts tbids tasks bids asks :
  parse message = Some (bybit_wire ty sym ts tbids tasks) ->
  Forall2 reads tbids bids -> Forall2 reads tasks asks ->
  decoded Bybit now_ms message =
    [mkOrderBookSnapshot sym $"Bybit" now_ms (bool_decide (ty = $"snapshot")) bids asks].
Proof using.
  intros Hp Hb Ha. unfold decoded, parse_depth_message, bybit_message.
  assert (E : bybit_snapshot now_ms message =
    match find_sub BYBIT_PREFIX (BYBIT_PREFIX ++ sym) with
    | None => Ret None
    | Some _ =>
        bids ← map_res string_level (map pair_json tbids);
        asks ← map_res string_level (map pair_json tasks);
        Ret (Some (mkOrderBookSnapshot (drop (length BYBIT_PREFIX) (BYBIT_PREFIX ++ sym)) $"Bybit" now_ms
                     (bool_decide (ty = $"snapshot")) bids asks))
    end).
  { unfold bybit_snapshot. cbn [json_parse wire_json tree_json]. rewrite Hp. reflexivity. }
  rewrite E, (string_levels _ _ Hb), (string_levels _ _ Ha), drop_app_length.
  destruct (find_sub_app BYBIT_PREFIX [] sym) as [n En]. change ([] ++ BYBIT_PREFIX ++ sym) with (BYBIT_PREFIX ++ sym) in En. rewrite En. reflexivity.
Qed.

(** Every item is read as a snapshot. *)
Lemma item_loop_all {B} (item : B -> @json wire_json) (read : @json wire_json -> res (option OrderBookSnapshot))
    (P : B -> OrderBookSnapshot -> Prop) bs :
  Forall (fun b => exists snap, read (item b) = Ret (Some snap) /\ P b snap) bs ->
  exists snaps, Forall2 P bs snaps /\
    forall i l, item_loop read (fun _ snap l => l ++ [snap]) (fun _ _ => 0) i (map item bs) l = (l ++ snaps, Ret tt).
Proof using.
  induction 1 as [|b bs (snap & Hr & HP) _ (snaps & Hs & IH)].
  - exists []. split; [constructor|]. intros i l. by rewrite app_nil_r.
  - exists (snap :: snaps). split; [by constructor|]. intros i l. cbn [item_loop map]. rewrite Hr, IH. by rewrite <-app_assoc.
Qed.

(** A snapshot holds the levels of a book, each side in its order. *)
Definition holds_book (exchange : bytes) (is_snap : bool) (b : bytes * list PriceLevel * list PriceLevel)
    (snap : OrderBookSnapshot) : Prop :=
  let '(sym, bids, asks) := b in
  sn_symbol snap = sym /\ sn_exchange snap = exchange /\ sn_timestamp_ms snap = now_ms /\
  sn_is_snapshot snap = is_snap /\ sn_bids snap ≡ₚ bids /\ in_order lv_price dgt (sn_bids snap) /\
  sn_asks snap ≡ₚ asks /\ in_order lv_price dlt (sn_asks snap).

(** A Kraken book with the levels its numbers stand for. *)
Definition readable_book
    (b : bytes * list (jtree * jtree) * list (jtree * jtree) * (list PriceLevel * list PriceLevel)) : Prop :=
  let '(sym, tbids, tasks, (bids, asks)) := b in
  Forall2 reads_number tbids bids /\ Forall2 reads_number tasks asks /\ priced_levels bids /\ priced_levels asks.

Definition holds_levels (is_snap : bool)
    (b : bytes * list (jtree * jtree) * list (jtree * jtree) * (list PriceLevel * list PriceLevel))
    (snap : OrderBookSnapshot) : Prop :=
  let '(sym, _, _, (bids, asks)) := b in holds_book $"Kraken" is_snap (sym, bids, asks) snap.

Lemma kraken_item_read is_snap b :
  readable_book b ->
  exists snap, kraken_item now_ms is_snap (kraken_book (fst b)) = Ret (Some snap) /\ holds_levels is_snap b snap.
Proof using.
  destruct b as [[[sym tbids] tasks] [bids asks]]. intros (Rb & Ra & Pb & Pa).
  destruct (sort_levels_priced dgt bids _ Pb) as (bids' & Sb & ? & ?).
  destruct (sort_levels_priced dlt asks _ Pa) as (asks' & Sa & ? & ?).
  exists (mkOrderBookSnapshot sym $"Kraken" now_ms is_snap bids' asks'). split; [|by split_and!].
  transitivity (bids ← map_res number_level (map number_json tbids);
    asks ← map_res number_level (map number_json tasks);
    bids ← sort_levels dgt bids; asks ← sort_levels dlt asks;
    Ret (Some (mkOrderBookSnapshot sym $"Kraken" now_ms is_snap bids asks))); [reflexivity|].
  rewrite (number_levels _ _ Rb), (number_levels _ _ Ra). simpl. rewrite Sb. simpl. by rewrite Sa.
Qed.

Lemma kraken_wire_read ty books :
  parse message = Some (kraken_wire ty (map fst books)) -> ty = $"snapshot" \/ ty = $"update" ->
  Forall readable_book books ->
  Forall2 (holds_levels (bool_decide (ty = $"snapshot"))) books (decoded Kraken now_ms message).
Proof using.
  intros Hp Hty Hb. unfold decoded, parse_depth_message.
  destruct (item_loop_all (fun b => kraken_book (fst b)) (kraken_item now_ms (bool_decide (ty = $"snapshot")))
    (holds_levels (bool_decide (ty = $"snapshot"))) books) as (snaps & Hs & E).
  { eapply Forall_impl; [exact Hb|]. intros b. apply kraken_item_read. }
  rewrite <-map_map in E. set (bs := map fst books) in *.
  assert (Em : kraken_message message =
    if bool_decide (map kraken_book bs = []) then Ret None
    else Ret (Some (bool_decide (ty = $"snapshot"), map kraken_book bs))).
  { unfold kraken_message. cbn [json_parse wire_json tree_json]. rewrite Hp. by destruct Hty as [-> | ->]. }
  rewrite Em. case_bool_decide as Enil.
  - unfold bs in Enil. apply map_eq_nil, map_eq_nil in Enil as ->. constructor.
  - by rewrite E.
Qed.

(** An update of a Coinbase event: its texts and the level they stand for. *)
Definition reads_update (u : bytes * (bytes * bytes)) (x : bytes * PriceLevel) : Prop :=
  fst u = fst x /\ reads (snd u) (snd x).

(** The levels of one side of an event. *)
Definition side_levels (side : bytes) (us : list (bytes * PriceLevel)) : list PriceLevel :=
  map snd (filter (fun x => fst x = side) us).

Lemma coinbase_updates us xs :
  Forall2 reads_update us xs -> map_res coinbase_update (map update_json us) = Ret (map Some xs).
Proof using.
  intros Hr. apply map_res_ret, Forall2_fmap_l, Forall2_fmap_r. eapply Forall2_impl; [exact Hr|].
  intros [s [p q]] [s' [price qty n]] (Hs & Hp & Hq & Hn). simpl in *. subst.
  transitivity (price' ← stod p; qty' ← stod q; Ret (Some (s', mkPriceLevel price' qty' 0))); [reflexivity|].
  rewrite Hp. simpl. by rewrite Hq.
Qed.

Lemma coinbase_side_levels side xs : coinbase_side side (map Some xs) = side_levels side xs.
Proof using.
  induction xs as [|[s l] xs IH]; [done|]. unfold coinbase_side, side_levels in *. rewrite filter_cons. csimpl.
  case_bool_decide as E; [rewrite decide_True by done|rewrite decide_False by done]; simpl; by rewrite <-IH.
Qed.

Lemma coinbase_event_read ty product_id us xs :
  ty = $"snapshot" \/ ty = $"update" -> Forall2 reads_update us xs ->
  priced_levels (map snd xs) ->
  exists snap, coinbase_event now_ms (event_json (ty, product_id, us)) = Ret (Some snap) /\
    holds_book $"Coinbase" (bool_decide (ty = $"snapshot"))
      (product_id, side_levels $"bid" xs, side_levels $"offer" xs) snap.
Proof using.
  intros Hty Hu Hp.
  assert (Hside : forall side, priced_levels (side_levels side xs)).
  { intros side. apply Forall_fmap, Forall_filter_keep. by apply Forall_fmap in Hp. }
  destruct (sort_levels_priced dgt _ _ (Hside $"bid")) as (bids & Sb & ? & ?).
  destruct (sort_levels_priced dlt _ _ (Hside $"offer")) as (asks & Sa & ? & ?).
  exists (mkOrderBookSnapshot product_id $"Coinbase" now_ms (bool_decide (ty = $"snapshot")) bids asks).
  split; [|by split_and!].
  transitivity (us ← map_res coinbase_update (map update_json us);
    bids ← sort_levels dgt (coinbase_side $"bid" us);
    asks ← sort_levels dlt (coinbase_side $"offer" us);
    Ret (Some (mkOrderBookSnapshot product_id $"Coinbase" now_ms (bool_decide (ty = $"snapshot")) bids asks)));
    [by destruct Hty as [-> | ->]|].
  rewrite (coinbase_updates _ _ Hu). cbn [mbind res_bind]. rewrite !coinbase_side_levels, Sb. cbn [mbind res_bind].
  by rewrite Sa.
Qed.

(** An event with the levels its updates stand for. *)
Definition readable_event (ev : bytes * bytes * list (bytes * (bytes * bytes)) * list (bytes * PriceLevel)) : Prop :=
  let '(ty, product_id, us, xs) := ev in
  (ty = $"snapshot" \/ ty = $"update") /\ Forall2 reads_update us xs /\ priced_levels (map snd xs).

Definition holds_event (ev : bytes * bytes * list (bytes * (bytes * bytes)) * list (bytes * PriceLevel))
    (snap : OrderBookSnapshot) : Prop :=
  let '(ty, product_id, us, xs) := ev in
  holds_book $"Coinbase" (bool_decide (ty = $"snapshot"))
    (product_id, side_levels $"bid" xs, side_levels $"offer" xs) snap.

Lemma coinbase_wire_read time seq evs :
  parse message = Some (coinbase_wire time seq (map fst evs)) -> Forall readable_event evs ->
  Forall2 holds_event evs (decoded Coinbase now_ms message).
Proof using.
  intros Hp Hev. unfold decoded, parse_depth_message.
  destruct (item_loop_all (fun ev => event_json (fst ev)) (coinbase_event now_ms) holds_event evs) as (snaps & Hs & E).
  { eapply Forall_impl; [exact Hev|]. intros [[[ty product_id] us] xs] (Hty & Hu & Hx). by apply coinbase_event_read. }
  assert (Em : coinbase_message message = Ret (map (fun ev => event_json (fst ev)) evs)).
  { unfold coinbase_message. cbn [json_parse wire_json tree_json]. rewrite Hp, <-(map_map fst event_json). reflexivity. }
  by rewrite Em, E.
Qed.

(** C18: Each client reads its exchange's wire format as documented, for any
    number of levels, on well-formed messages: price and quantity texts that
    [std::stod] reads (Binance, Bybit, Coinbase), JSON numbers with or without a
    fraction (Kraken), and for Kraken and Coinbase, which sort the levels, no
    level whose price is NaN.  Binance, for a symbol in upper case without an at
    sign: the stream the symbol was subscribed under gives the symbol back, and
    one full snapshot of the levels with a positive quantity, in the order sent,
    fires the depth callback, and the ticker callback when both sides are left.
    Bybit, for any symbol: one snapshot or delta of all the levels, in the order
    sent, under the subscribed symbol.  Kraken and Coinbase, for any symbols and
    messages of type snapshot or update: one snapshot or update per book or
    event, in order, each with exactly the listed levels of each side (Coinbase:
    the updates whose side is bid, and those whose side is offer), bids sorted
    from the highest and asks from the lowest price. *)
Theorem wire_formats_decoded :
  (forall cb sym id tbids tasks bids asks,
     parse message = Some (binance_wire sym id tbids tasks) ->
     "@"%char ∉ sym -> map toupper sym = sym -> Forall2 reads tbids bids -> Forall2 reads tasks asks ->
     let snap := mkOrderBookSnapshot sym $"Binance" now_ms true
                   (List.filter (fun l => dgt (lv_quantity l) dzero) bids) (List.filter (fun l => dgt (lv_quantity l) dzero) asks) in
     binance_depth cb now_ms message =
       Ret ((if depth_callback cb then [FDepth snap] else []) ++
            (if message_callback cb && negb (bool_decide (sn_bids snap = [])) && negb (bool_decide (sn_asks snap = []))
             then [FBbo (ticker_of $"Binance" sym now_ms snap)] else []))) /\
  (forall ty sym ts tbids tasks bids asks,
     parse message = Some (bybit_wire ty sym ts tbids tasks) -> Forall2 reads tbids bids -> Forall2 reads tasks asks ->
     decoded Bybit now_ms message =
       [mkOrderBookSnapshot sym $"Bybit" now_ms (bool_decide (ty = $"snapshot")) bids asks]) /\
  (forall ty books,
     parse message = Some (kraken_wire ty (map fst books)) -> ty = $"snapshot" \/ ty = $"update" ->
     Forall readable_book books ->
     Forall2 (holds_levels (bool_decide (ty = $"snapshot"))) books (decoded Kraken now_ms message)) /\
  (forall time seq evs,
     parse message = Some (coinbase_wire time seq (map fst evs)) -> Forall readable_event evs ->
     Forall2 holds_event evs (decoded Coinbase now_ms message)).
Proof using.
  split_and!.
  - intros cb sym id tbids tasks bids asks. apply binance_wire_read.
  - intros ty sym ts tbids tasks bids asks. apply bybit_wire_read.
  - intros ty books. apply kraken_wire_read.
  - intros time seq evs. apply coinbase_wire_read.
Qed.
End wire.

(** ** Symbols across venues *)

Lemma assoc_in {A} k (ms : list (bytes * A)) v : assoc k ms = Some v -> (k, v) ∈ ms.
Proof.
  induction ms as [|[k' v'] ms IH]; [done|]. simpl. case_decide as E.
  - intros [= <-]. subst. apply list_elem_of_here.
  - intros Hv. by apply list_elem_of_further, IH.
Qed.

(** The tables of the converters only spell out their general rule. *)
Lemma kraken_table symbol : binance_to_kraken_symbol symbol = dollar_symbol $"/" symbol.
Proof.
  unfold binance_to_kraken_symbol. destruct (assoc symbol kraken_symbols) as [s|] eqn:E; [|done].
  apply assoc_in in E.
  assert (H : Forall (fun p => snd p = dollar_symbol $"/" (fst p)) kraken_symbols) by (repeat constructor).
  rewrite Forall_forall in H. exact (H _ E).
Qed.

Lemma coinbase_table symbol : binance_to_coinbase_symbol symbol = dollar_symbol $"-" symbol.
Proof.
  unfold binance_to_coinbase_symbol. destruct (assoc symbol coinbase_symbols) as [s|] eqn:E; [|done].
  apply assoc_in in E.
  assert (H : Forall (fun p => snd p = dollar_symbol $"-" (fst p)) coinbase_symbols) by (repeat constructor).
  rewrite Forall_forall in H. exact (H _ E).
Qed.

Lemma dollar_symbol_usdt separator base :
  base <> [] -> dollar_symbol separator (base ++ $"USDT") = base ++ separator ++ $"USD".
Proof.
  intros Hb. unfold dollar_symbol. destruct (cut_suffix base $"USDT") as [E1 E2].
  change (length $"USDT") with 4%nat in E1, E2. rewrite E1, E2, bool_decide_true by done.
  rewrite (proj2 (Nat.ltb_lt 4 _)); [done|]. rewrite length_app. destruct base; [done|simpl; lia].
Qed.

(** The spellings of an instrument meet: the symbol [base ++ "USDT"] the
    program is configured with, translated for Kraken and Coinbase by the
    converters and used as it is for Binance and Bybit, is normalized by the
    engine to one canonical symbol, the base in upper case, so the books of the
    four exchanges are compared with each other. *)
Theorem venue_symbols_meet base :
  base <> [] -> "-"%char ∉ map toupper base -> "/"%char ∉ map toupper base ->
  let symbol := base ++ $"USDT" in
  normalize_symbol symbol = map toupper base /\
  normalize_symbol (binance_to_kraken_symbol symbol) = map toupper base /\
  normalize_symbol (binance_to_coinbase_symbol symbol) = map toupper base.
Proof.
  intros Hb Hd Hs symbol. destruct (normalize_symbol_spellings base Hb Hd Hs) as (E1 & E2 & E3 & _).
  unfold symbol. rewrite kraken_table, coinbase_table, !dollar_symbol_usdt by done. by split_and!.
Qed.

(** ** Witnesses *)

Section witnesses.
#[local] Instance ex_underflow : StrtodUnderflow := fun _ _ => true.
#[local] Instance ex_sort : StdSort lv_price := insertion_std_sort lv_price.

(** Two messages: a Bybit snapshot and a Bybit delta. *)
Definition ex_parse (s : bytes) : option jtree :=
  if bool_decide (s = $"snapshot") then
    Some (bybit_wire $"snapshot" $"BTCUSDT" 1 [($"100", $"2"); ($"99.5", $"1")] [($"101", $"3")])
  else if bool_decide (s = $"delta") then
    Some (bybit_wire $"delta" $"BTCUSDT" 2 [($"100", $"0"); ($"101.5", $"4")] [])
  else if bool_decide (s = $"binance") then
    Some (binance_wire $"ETHUSDT" 7 [($"10", $"1"); ($"9", $"0")] [($"11", $"2")])
  else if bool_decide (s = $"kraken") then
    Some (kraken_wire $"update" [($"BTC/USD", [(JInt 1, JFloat (dZ 2)); (JFloat (dZ 3), JInt 2)], [])])
  else if bool_decide (s = $"coinbase") then
    Some (coinbase_wire $"t" 1 [($"snapshot", $"BTC-USD", [($"bid", ($"1", $"2")); ($"offer", ($"4", $"1"))])])
  else None.
#[local] Instance ex_json : JsonLib := tree_json ex_parse.

Definition ex_cb : Callbacks := mkCallbacks true true.
Definition ex_clocks (i k : nat) : Z := 1000 + Z.of_nat (10 * i + k).

Definition ex_c1 : FeedClient := default new_client (on_read Bybit ex_cb ex_clocks 5 $"snapshot" new_client).
Definition ex_c2 : FeedClient := default ex_c1 (on_read Bybit ex_cb ex_clocks 6 $"delta" ex_c1).
Definition ex_events2 : list FeedEvent := drop (length (fired ex_c1)) (fired ex_c2).
Definition ex_engine1 : Engine := deliver ex_clocks (fired ex_c1) new_engine.
Definition ex_engine2 : Engine := deliver ex_clocks ex_events2 ex_engine1.

(** After the delta the client's book is crossed, the engine's is not. *)
Example ex_crossed :
  (map fst (bids_ (local_book Bybit ex_c2 $"BTCUSDT")), map fst (bids_ (engine_book Bybit ex_engine2 $"BTCUSDT")))
  = ([dlit 203 2; dlit 199 2], [dlit 199 2]).
Proof. vm_compute. reflexivity. Qed.

Example ex_tickers :
  map (fun ev => match ev with FBbo t => Some (td_bid_price t, td_ask_price t) | _ => None end) (fired ex_c2) =
  [None; Some (dZ 100, dZ 101); None; Some (dlit 203 2, dZ 101)].
Proof. vm_compute. reflexivity. Qed.

(** A message that is not JSON is counted and nothing else. *)
Example ex_malformed :
  on_read Bybit ex_cb ex_clocks 7 $"garbage" ex_c1 = Some (ex_c1 <| message_count := 2 |>).
Proof. vm_compute. reflexivity. Qed.

Lemma feeds_mirrored_witness :
  level_at Ask (dZ 101) (engine_book Bybit ex_engine2 $"BTCUSDT") = Some (mkPriceLevel (dZ 101) (dZ 3) 0) /\
  level_at Ask (dZ 101) (local_book Bybit ex_c2 $"BTCUSDT") = Some (mkPriceLevel (dZ 101) (dZ 3) 0).
Proof.
  assert (Hr : rtc (wired_step Bybit ex_cb) (new_client, new_engine) (ex_c2, ex_engine2)).
  { eapply rtc_l; [|eapply rtc_once].
    - apply (wired_read Bybit ex_cb ex_clocks 5 $"snapshot" ex_clocks (fired ex_c1) new_client ex_c1 new_engine);
        [|vm_compute; reflexivity..].
      repeat constructor.
    - apply (wired_read Bybit ex_cb ex_clocks 6 $"delta" ex_clocks ex_events2 ex_c1 ex_c2 ex_engine1);
        [|vm_compute; reflexivity..].
      repeat constructor; vm_compute; congruence. }
  destruct (feeds_mirrored Bybit ex_cb ex_c2 ex_engine2 eq_refl Hr $"BTCUSDT") as (_ & _ & H).
  destruct (H (dZ 101) eq_refl) as [E _]. rewrite E. split; vm_compute; reflexivity.
Defined.

Lemma wire_formats_decoded_witness :
  decoded Bybit 5 $"snapshot" = [mkOrderBookSnapshot $"BTCUSDT" $"Bybit" 5 true
    [mkPriceLevel (dZ 100) (dZ 2) 0; mkPriceLevel (dlit 199 2) (dZ 1) 0] [mkPriceLevel (dZ 101) (dZ 3) 0]] /\
  exists snap, decoded Kraken 5 $"kraken" = [snap] /\
    sn_bids snap ≡ₚ [mkPriceLevel (dZ 1) (dZ 2) 0; mkPriceLevel (dZ 3) (dZ 2) 0].
Proof.
  split.
  - destruct (wire_formats_decoded ex_parse 5 $"snapshot") as (_ & H & _).
    apply (H $"snapshot" $"BTCUSDT" 1 [($"100", $"2"); ($"99.5", $"1")] [($"101", $"3")]);
      [reflexivity|repeat constructor..].
  - destruct (wire_formats_decoded ex_parse 5 $"kraken") as (_ & _ & H & _).
    specialize (H $"update" [(($"BTC/USD", [(JInt 1, JFloat (dZ 2)); (JFloat (dZ 3), JInt 2)], []),
      ([mkPriceLevel (dZ 1) (dZ 2) 0; mkPriceLevel (dZ 3) (dZ 2) 0], []))] eq_refl (or_intror eq_refl)).
    assert (Hb : Forall readable_book [(($"BTC/USD", [(JInt 1, JFloat (dZ 2)); (JFloat (dZ 3), JInt 2)], []),
      ([mkPriceLevel (dZ 1) (dZ 2) 0; mkPriceLevel (dZ 3) (dZ 2) 0], [] : list PriceLevel))]).
    { constructor; [|constructor]. split_and!; [|constructor|by repeat constructor|constructor].
      constructor; [split_and!; [right; by exists 1|by left|done]|].
      constructor; [split_and!; [by left|right; by exists 2|done]|constructor]. }
    specialize (H Hb). apply Forall2_cons_inv_l in H as (snap & l & Hs & Hl & E).
    apply Forall2_nil_inv_l in Hl as ->. exists snap. split; [exact E|]. apply Hs.
Defined.
End witnesses.

Lemma venue_symbols_meet_witness :
  normalize_symbol (binance_to_kraken_symbol $"solUSDT") = $"SOL" /\
  normalize_symbol (binance_to_coinbase_symbol $"solUSDT") = $"SOL".
Proof.
  destruct (venue_symbols_meet $"sol") as (_ & H);
    [done|by apply (bool_decide_eq_false_1 _)|by apply (bool_decide_eq_false_1 _)|exact H].
Defined.

(** An empty Kraken snapshot clears the client's book and is not passed on: the
    engine keeps the levels it had. *)
Example empty_snapshot_withheld :
  let snap := mkOrderBookSnapshot $"BTC/USD" $"Kraken" 1 true [mkPriceLevel (dZ 1) (dZ 2) 0] [mkPriceLevel (dZ 3) (dZ 2) 0] in
  let cb := mkCallbacks false true in
  let c1 := client_apply kraken_style cb (fun _ => 1) snap new_client in
  let c2 := client_apply kraken_style cb (fun _ => 2) (snap <| sn_bids := [] |> <| sn_asks := [] |>) c1 in
  let e := deliver (fun _ _ => 3) (fired c2) new_engine in
  bids_ (local_book Kraken c2 $"BTC/USD") = [] /\ length (bids_ (engine_book Kraken e $"BTC/USD")) = 1%nat.
Proof. vm_compute. split; reflexivity. Qed.
