(* ===== verification/LivePrices.v ===== *)
(** * Live prices (src/main.cpp)

    The map of mid prices that the depth callbacks fill and the FIX simulator's
    oracle reads, keyed by the FIX spelling of a symbol, and the callbacks
    [main] wires: every depth snapshot updates the map and then the engine's
    book, every simulated message goes to the engine. *)

From Stdlib Require Import ZArith Lia.
From S2P Require Import Prelude Float64 Str Types FixParser FixBuilder OrderBook ArbEngine FeedClients FeedSimulator.

(** [s.erase(std::remove(s.begin(), s.end(), c), s.end())] *)
Definition erase_char (c : ascii) (s : bytes) : bytes := filter (fun x => x <> c) s.

(** [s.pop_back()] *)
Definition drop_last (s : bytes) : bytes := take (length s - 1) s.

Definition to_fix_key (s : bytes) : bytes :=
  let s := erase_char "-"%char (erase_char "/"%char s) in
  if (4 <? length s)%nat && bool_decide (drop (length s - 4) s = $"USDT") then drop_last s else s.

(** [g_live_mid] *)
Abbreviation LiveMid := (gmap bytes double).

Definition two_sided (snap : OrderBookSnapshot) : bool :=
  negb (bool_decide (sn_bids snap = [])) && negb (bool_decide (sn_asks snap = [])).

Definition front_mid (snap : OrderBookSnapshot) : double := ddiv (dadd (snap_best_bid snap) (snap_best_ask snap)) (dZ 2).

Definition update_live_mid (snap : OrderBookSnapshot) (m : LiveMid) : LiveMid :=
  if two_sided snap then <[to_fix_key (sn_symbol snap) := front_mid snap]> m else m.

(** The price oracle: zero when no price is known. *)
Definition oracle (m : LiveMid) (fix_symbol : bytes) : double := default dzero (m !! fix_symbol).

(** What a depth callback does, for the engine with its tick logger; the timer
    around the second call only records metrics. *)
Definition on_depth (clock : nat -> Z) (ts_ns : Z) (snap : OrderBookSnapshot) (x : LiveMid * Engine)
    : (LiveMid * Engine) * option BboTick :=
  let '(e, tick) := update_order_book clock ts_ns true snap (snd x) in
  ((update_live_mid snap (fst x), e), tick).

(** The symbols of the WebSocket feeds, and the symbols simulated. *)
Definition symbols : list bytes :=
  [$"BTCUSDT"; $"ETHUSDT"; $"ADAUSDT"; $"DOTUSDT"; $"SOLUSDT"; $"MATICUSDT"; $"AVAXUSDT"; $"LTCUSDT";
   $"LINKUSDT"; $"XLMUSDT"; $"XRPUSDT"; $"UNIUSDT"; $"AAVEUSDT"; $"ATOMUSDT"; $"ALGOUSDT"].

(** A symbol given by name, mid price and spread, the rest by default. *)
Definition simulated (name : bytes) (mid spread : double) : SimulatedSymbol := mkSimulatedSymbol name mid spread dzero 5 dzero.

Definition fix_symbols : list SimulatedSymbol :=
  [simulated $"BTCUSD" (dZ 65000) (dlit 1 1000); simulated $"ETHUSD" (dZ 3500) (dlit 1 1000);
   simulated $"SOLUSD" (dZ 140) (dlit 2 1000); simulated $"LTCUSD" (dZ 85) (dlit 2 1000);
   simulated $"XRPUSD" (dlit 52 100) (dlit 2 1000); simulated $"ADAUSD" (dlit 45 100) (dlit 2 1000);
   simulated $"ATOMUSD" (dZ 10) (dlit 2 1000); simulated $"AVAXUSD" (dZ 35) (dlit 2 1000);
   simulated $"LINKUSD" (dZ 14) (dlit 2 1000); simulated $"UNIUSD" (dZ 8) (dlit 2 1000)].

(** The simulator as [main] configures it, before [set_callback] and
    [start]. *)
Definition configured (burst_interval_ms burst_multiplier burst_duration_ms : Z) : Simulator :=
  let s := set_hz 20 (set_snapshot_interval_ms 5000 (foldl (fun s sym => add_symbol sym s) new_simulator fix_symbols)) in
  if 0 <? burst_interval_ms then set_burst_params burst_interval_ms burst_multiplier burst_duration_ms s else s.

(** ** The oracle *)

(** The snapshots that set the price of [key]. *)
Definition prices (key : bytes) (snap : OrderBookSnapshot) : Prop :=
  two_sided snap = true /\ to_fix_key (sn_symbol snap) = key.
#[export] Instance prices_dec key snap : Decision (prices key snap).
Proof. unfold prices. apply _. Defined.

Lemma live_mid_last (key : bytes) (snaps : list OrderBookSnapshot) :
  foldl (fun m snap => update_live_mid snap m) ∅ snaps !! key = front_mid <$> last (filter (prices key) snaps).
Proof.
  induction snaps as [|snap snaps IH] using rev_ind; [done|].
  rewrite foldl_snoc, filter_app. unfold update_live_mid at 1.
  destruct (decide (prices key snap)) as [Hp|Hp].
  - rewrite filter_cons_True by done. destruct Hp as [-> <-]. rewrite lookup_insert_eq, filter_nil, last_snoc. reflexivity.
  - rewrite filter_cons_False, filter_nil, app_nil_r by done. rewrite <-IH.
    destruct (two_sided snap) eqn:E; [|done]. rewrite lookup_insert_ne; [done|]. intros E'. by apply Hp.
Qed.

(** ** One key for every spelling *)

Lemma erase_char_id c s : c ∉ s -> erase_char c s = s.
Proof.
  intros Hc. unfold erase_char. induction s as [|x s IH]; [done|]. apply not_elem_of_cons in Hc as [Hx Hc].
  rewrite filter_cons_True by congruence. by rewrite IH.
Qed.

Lemma to_fix_key_plain s : "-"%char ∉ s -> "/"%char ∉ s -> drop (length s - 4) s <> $"USDT" -> to_fix_key s = s.
Proof.
  intros Hd Hs H. unfold to_fix_key. rewrite (erase_char_id "/"), (erase_char_id "-") by done.
  rewrite bool_decide_eq_false_2 by done.
  by rewrite andb_false_r.
Qed.

Lemma drop_suffix (s t : bytes) : drop (length (s ++ t) - length t) (s ++ t) = t.
Proof. rewrite length_app. replace (length s + length t - length t)%nat with (length s) by lia. apply drop_app_length. Qed.

Lemma not_in_upper c s : is_upper c = false -> c ∉ s -> c ∉ map toupper s.
Proof.
  intros Hc Hn (x & -> & Hx)%list_elem_of_fmap. unfold toupper in *. destruct (is_lower x) eqn:E; [|done].
  revert Hc. unfold is_upper, is_lower in *. bool_to_prop. rewrite byte_val_of by lia.
  rewrite !(proj2 (Z.leb_le _ _)) by lia. done.
Qed.

(** One price per instrument, whatever the venue's spelling.  The four
    spellings of an instrument with base [base] (Binance and Bybit, Coinbase,
    Kraken, FIX) share one key of the live price map, the FIX symbol, and the
    engine gives all four the same canonical symbol, so it compares their
    books. *)
Theorem fix_keys_meet base :
  base <> [] -> "-"%char ∉ base -> "/"%char ∉ base ->
  Forall (fun s => to_fix_key s = base ++ $"USD" /\ normalize_symbol s = map toupper base)
    [base ++ $"USDT"; base ++ $"-USD"; base ++ $"/USD"; base ++ $"USD"].
Proof.
  intros Hb Hd Hs.
  assert (Hn : forall t, "-"%char ∉ t -> "/"%char ∉ t -> ("-"%char ∉ base ++ t) /\ ("/"%char ∉ base ++ t)).
  { intros t Ht Ht'. rewrite !not_elem_of_app. by split_and!. }
  assert (Eu : to_fix_key (base ++ $"USD") = base ++ $"USD").
  { destruct (Hn $"USD") as [H1 H2]; try by apply (bool_decide_eq_false_1 _). apply to_fix_key_plain; [done..|].
    intros E. pose proof (take_drop (length (base ++ $"USD") - 4) (base ++ $"USD")) as Et. rewrite E in Et.
    apply (f_equal last) in Et. rewrite !last_app in Et. discriminate Et. }
  assert (Es : forall c, c = "-"%char \/ c = "/"%char -> to_fix_key (base ++ c :: $"USD") = to_fix_key (base ++ $"USD")).
  { intros c Hc. unfold to_fix_key, erase_char. rewrite !filter_app. by destruct Hc as [-> | ->]. }
  destruct (normalize_symbol_spellings base) as (N1 & N2 & N3 & N4); [done|by apply not_in_upper..|].
  apply Forall_and. split; [|by repeat constructor].
  constructor; [|constructor; [|constructor; [|by constructor]]].
  2: { rewrite <-Eu. apply (Es "-"%char). by left. }
  2: { rewrite <-Eu. apply (Es "/"%char). by right. }
  destruct (Hn $"USDT") as [H1 H2]; try by apply (bool_decide_eq_false_1 _).
  unfold to_fix_key. rewrite (erase_char_id "/"), (erase_char_id "-") by done. change 4%nat with (length $"USDT") at 2.
  rewrite bool_decide_eq_true_2 by apply drop_suffix. rewrite (proj2 (Nat.ltb_lt _ _)).
  - cbn [andb]. unfold drop_last. change $"USDT" with ($"USD" ++ ["T"%char]). rewrite app_assoc, length_app. simpl.
    rewrite Nat.add_sub. apply take_app_length.
  - rewrite length_app. destruct base; [done|simpl; lia].
Qed.

Lemma fix_keys_meet_witness :
  to_fix_key $"BTC-USD" = $"BTCUSD" /\ to_fix_key $"BTCUSDT" = $"BTCUSD" /\ normalize_symbol $"BTCUSD" = $"BTC".
Proof.
  assert (H : Forall (fun s => to_fix_key s = $"BTCUSD" /\ normalize_symbol s = $"BTC")
                [$"BTCUSDT"; $"BTC-USD"; $"BTC/USD"; $"BTCUSD"]).
  { apply (fix_keys_meet $"BTC"); [done|by apply (bool_decide_eq_false_1 _)..]. }
  inversion_clear H as [|? ? [H1 _] H']. inversion_clear H' as [|? ? [H2 _] H''].
  inversion_clear H'' as [|? ? _ H3]. inversion_clear H3 as [|? ? [_ H4] _]. by split_and!.
Defined.

(** Every simulated symbol is one of the instruments the feeds monitor. *)
Lemma fix_symbols_monitored : map ss_symbol fix_symbols ⊆ map to_fix_key symbols.
Proof. by apply (bool_decide_eq_true_1 _). Qed.

(** ** The simulator follows the market *)

Lemma move_mid_mid o s :
  current_mid (move_mid o s) =
    dmul (match o_oracle o with Some m => if dgt m dzero then m else current_mid s | None => current_mid s end)
      (dadd (dZ 1) (o_drift o)).
Proof. unfold move_mid. by destruct (o_oracle o) as [m|]; [destruct (dgt m dzero)|]. Qed.

(** C34: The simulated feed is anchored to the market.  After any sequence of
    depth snapshots, a tick whose oracle is the live price map moves a
    symbol's mid price to the front mid of the last two-sided snapshot of that
    instrument on any venue (under any spelling with the same key) when it is
    positive, and otherwise leaves it where it was; then it applies the
    drift.  The message the tick emits is built around that price. *)
Theorem fix_feed_follows_market interval_ms now (snaps : list OrderBookSnapshot) o s :
  simulable s -> drawn o s ->
  o_oracle o = Some (oracle (foldl (fun m snap => update_live_mid snap m) ∅ snaps) (ss_symbol (config s))) ->
  let anchor :=
    match last (filter (prices (ss_symbol (config s))) snaps) with
    | Some snap => if dgt (front_mid snap) dzero then front_mid snap else current_mid s
    | None => current_mid s
    end in
  exists s' raw msg, tick_symbol interval_ms now o s = Some (s', [(raw, msg)]) /\
    current_mid s' = dmul anchor (dadd (dZ 1) (o_drift o)) /\
    due_message (snapshot_due interval_ms now s) o s msg /\
    offset_mid (move_mid o s) = dmul (current_mid s') (dadd (dZ 1) (ddiv (ss_price_offset_bps (config s)) (dZ 10000))).
Proof.
  intros Hs Hd Ho anchor. destruct (tick_symbol_due interval_ms now o s Hs Hd) as (raw & msg & Hdue & _ & E).
  exists (ticked interval_ms now o s), raw, msg. split; [exact E|].
  assert (Em : current_mid (ticked interval_ms now o s) = current_mid (move_mid o s)) by done.
  rewrite Em. split; [|split; [done|]].
  - rewrite move_mid_mid, Ho. unfold oracle, anchor. rewrite live_mid_last.
    by destruct (last (filter _ snaps)).
  - unfold offset_mid. by rewrite (proj1 (move_mid_config o s)).
Qed.

Definition ex_snap (symbol : bytes) (bid ask : Z) : OrderBookSnapshot :=
  mkOrderBookSnapshot symbol $"V" 1 true [mkPriceLevel (dZ bid) (dZ 1) 0] [mkPriceLevel (dZ ask) (dZ 1) 0].

Lemma fix_feed_follows_market_witness :
  exists o s s' out, o_drift o = dzero /\ tick_symbol 5000 9000000000 o s = Some (s', out) /\ current_mid s' = dZ 102.
Proof.
  set (snaps := [ex_snap $"BTCUSDT" 98 100; ex_snap $"BTC-USD" 101 103; ex_snap $"ETHUSDT" 1 2]).
  set (s := new_symbol (simulated $"BTCUSD" (dZ 65000) (dlit 1 1000))).
  set (o := mkOutside (Some (oracle (foldl (fun m snap => update_live_mid snap m) ∅ snaps) $"BTCUSD"))
              dzero 1 2 dzero (mktm 125 0 2 3 4 5) 6).
  destruct (fix_feed_follows_market 5000 9000000000 snaps o s) as (s' & raw & msg & E & Ec & _).
  - split_and!; [by apply (bool_decide_eq_false_1 _)|simpl; lia|simpl; lia|done|done].
  - split; done.
  - reflexivity.
  - exists o, s, s', [(raw, msg)]. split; [done|]. split; [exact E|]. rewrite Ec. vm_compute. reflexivity.
Defined.

(** A delta sets the live price from whatever levels it carries: here a deleted
    bid far below the market and one ask, in a book whose mid is 100.5. *)
Example delta_mid :
  let full := ex_snap $"BTC-USD" 100 101 in
  let delta := mkOrderBookSnapshot $"BTC-USD" $"V" 2 false [mkPriceLevel (dZ 50) dzero 0] [mkPriceLevel (dZ 110) (dZ 1) 0] in
  let b := apply_feed (fun _ => 2) delta (apply_feed (fun _ => 1) full (new_book $"BTC-USD" $"V")) in
  mid_price b = dlit 1005 10 /\
  oracle (update_live_mid delta (update_live_mid full ∅)) $"BTCUSD" = dZ 80.
Proof. vm_compute. split; reflexivity. Qed.
