(* ===== verification/Scenario.v ===== *)
(** * Chaos-test scenario (src/main.cpp)

    The scenario thread of [--chaos-test]: a fixed list of actions that pauses
    the FIX simulator and changes its rate, marks measurement windows, and
    shuts the program down.  It runs beside the simulator's thread; a sleep is
    a loop over seconds that ends early on shutdown.  The thread is a step
    machine on the actions left to do. *)

From Stdlib Require Import ZArith Lia.
From S2P Require Import Prelude Float64 Str FixBuilder FeedSimulator LivePrices.

Inductive Action :=
  | SetPaused (paused : bool)
  | SetHz (hz : Z)
  | RecordEvent (phase event : bytes)
  | Sleep (seconds : nat)
  | Finish.                     (* [g_shutdown = true], then the engine and the dashboard stop *)

(** The body of the thread, without the lines it prints. *)
Definition scenario : list Action :=
  [Sleep 30;
   SetPaused true; Sleep 30;
   SetHz 20; SetPaused false; RecordEvent $"baseline" $"start"; Sleep 30; RecordEvent $"baseline" $"end";
   SetPaused true; Sleep 30;
   SetHz 200; SetPaused false; RecordEvent $"burst_10x" $"start"; Sleep 2; RecordEvent $"burst_10x" $"end";
   SetPaused true; Sleep 30;
   SetHz 400; SetPaused false; RecordEvent $"burst_20x" $"start"; Sleep 3; RecordEvent $"burst_20x" $"end";
   SetPaused true; RecordEvent $"recovery" $"start"; Sleep 30; RecordEvent $"recovery" $"end";
   Finish].

Record World := mkWorld {
  todo : list Action;
  slept : nat;                  (* seconds slept so far *)
  sim : Simulator;
  g_shutdown : bool;
  events : list (bytes * bytes);
}.
#[export] Instance World_settable : Settable World :=
  fun w => mkWorld (todo w) (slept w) (sim w) (g_shutdown w) (events w).

(** One step of the scenario thread; [None] once it has ended. *)
Definition scenario_step (w : World) : option World :=
  match todo w with
  | [] => None
  | SetPaused p :: rest => Some (w <| sim := set_paused p (sim w) |> <| todo := rest |>)
  | SetHz hz :: rest => Some (w <| sim := set_hz hz (sim w) |> <| todo := rest |>)
  | RecordEvent phase event :: rest => Some (w <| events := events w ++ [(phase, event)] |> <| todo := rest |>)
  | Sleep n :: rest =>
      match n with
      | S k => if g_shutdown w then Some (w <| todo := rest |>)
               else Some (w <| slept := S (slept w) |> <| todo := Sleep k :: rest |>)
      | O => Some (w <| todo := rest |>)
      end
  | Finish :: rest => Some (w <| g_shutdown := true |> <| todo := rest |>)
  end.

(** The program with [--chaos-test]: the simulator configured, given its
    callback and started. *)
Definition chaos_start (burst_interval_ms burst_multiplier burst_duration_ms : Z) : World :=
  mkWorld scenario 0 (start (set_callback (configured burst_interval_ms burst_multiplier burst_duration_ms))) false [].

(** The scenario thread, a turn of the simulator's loop, or a shutdown request
    from a signal or the report counter. *)
Inductive world_step : World -> World -> Prop :=
  | w_scenario w w' : scenario_step w = Some w' -> world_step w w'
  | w_simulator now os w s' : loop_step now os (sim w) = Some s' -> world_step w (w <| sim := s' |>)
  | w_shutdown w : world_step w (w <| g_shutdown := true |>).

Inductive reachable (w0 : World) : World -> Prop :=
  | r_start : reachable w0 w0
  | r_step w w' : reachable w0 w -> world_step w w' -> reachable w0 w'.

(** ** Where the thread is *)

(** Pause, rate and marks after a prefix of the scenario. *)
Definition play_one (x : bool * Z * list (bytes * bytes)) (a : Action) : bool * Z * list (bytes * bytes) :=
  let '(p, hz, ev) := x in
  match a with
  | SetPaused p' => (p', hz, ev)
  | SetHz hz' => (p, if 0 <? hz' then hz' else 1, ev)
  | RecordEvent phase event => (p, hz, ev ++ [(phase, event)])
  | Sleep _ | Finish => x
  end.
Definition played (l : list Action) : bool * Z * list (bytes * bytes) := foldl play_one (false, 20, []) l.

Definition seconds_of (a : Action) : nat := match a with Sleep n => n | _ => 0 end.
Definition total_seconds (l : list Action) : nat := sum_list_with seconds_of l.

(** The thread is at action [i], with [spent] of its seconds slept. *)
Definition at_action (i spent : nat) (w : World) : Prop :=
  (spent = 0%nat /\ todo w = drop i scenario \/
   exists n rest, drop i scenario = Sleep n :: rest /\ (spent <= n)%nat /\ todo w = Sleep (n - spent) :: rest) /\
  played (take i scenario) = (paused_ (sim w), incremental_hz_ (sim w), events w) /\
  (slept w <= total_seconds (take i scenario) + spent)%nat /\
  (g_shutdown w = false -> slept w = (total_seconds (take i scenario) + spent)%nat) /\
  (todo w = [] -> g_shutdown w = true).

(** The simulator is in its continuous loop, or before or after it. *)
Definition continuous (s : Simulator) : Prop :=
  burst_interval_ms_ s <= 0 /\ (loop s = LIdle \/ loop s = LStart \/ loop s = LContinuous).

Lemma loop_step_continuous now os s s' :
  loop_step now os s = Some s' -> continuous s ->
  continuous s' /\ paused_ s' = paused_ s /\ incremental_hz_ s' = incremental_hz_ s /\
  (paused_ s = true -> emitted s' = emitted s).
Proof.
  intros E [Hb Hl]. unfold loop_step in E. destruct Hl as [Hl|[Hl|Hl]]; rewrite Hl in E.
  - injection E as <-. repeat split; auto.
  - rewrite (proj2 (Z.ltb_ge _ _)) in E by lia. injection E as <-. repeat split; auto.
  - destruct (running_ s); cbn [negb] in E; [|injection E as <-; repeat split; auto].
    destruct (paused_ s) eqn:Ep; [injection E as <-; repeat split; simpl; auto|].
    apply bind_Some in E as (s1 & Et & E). apply bind_Some in E as (ms & _ & [= <-]).
    apply tick_fields in Et as (ss & out & -> & _). repeat split; simpl; auto. done.
Qed.

Lemma drop_next (i : nat) (a : Action) (rest : list Action) :
  drop i scenario = a :: rest -> drop (S i) scenario = rest /\ take (S i) scenario = take i scenario ++ [a].
Proof.
  intros E. split.
  - replace (S i) with (i + 1)%nat by lia. by rewrite <-drop_drop, E.
  - apply take_S_r. rewrite <-(Nat.add_0_r i), <-lookup_drop, E. done.
Qed.

(** Moving on to the next action. *)
Lemma at_next i spent a rest w w' :
  drop i scenario = a :: rest -> at_action i spent w -> todo w' = rest ->
  play_one (paused_ (sim w), incremental_hz_ (sim w), events w) a =
    (paused_ (sim w'), incremental_hz_ (sim w'), events w') ->
  (slept w' = slept w) -> (spent <= seconds_of a)%nat ->
  (g_shutdown w' = false -> g_shutdown w = false /\ spent = seconds_of a) ->
  (rest = [] -> g_shutdown w' = true) -> at_action (S i) 0 w'.
Proof.
  intros Ed (_ & Hp & Hle & Heq & _) Et Hplay Hs Hsp Hsd Hend. destruct (drop_next i a rest Ed) as [Ed' Ek].
  assert (Htot : total_seconds (take (S i) scenario) = (total_seconds (take i scenario) + seconds_of a)%nat).
  { rewrite Ek. unfold total_seconds. rewrite sum_list_with_app. simpl. lia. }
  split_and!.
  - left. by rewrite Ed'.
  - rewrite Ek. unfold played in *. rewrite foldl_snoc, Hp. done.
  - rewrite Hs, Htot. lia.
  - intros H. destruct (Hsd H) as [H' ->]. rewrite Hs, Htot, Heq by done. lia.
  - rewrite Et. exact Hend.
Qed.

Lemma last_action i a rest : drop i scenario = a :: rest -> rest = [] -> a = Finish.
Proof.
  intros E ->. assert (H : last scenario = last (take i scenario ++ [a])) by (by rewrite <-E, take_drop).
  rewrite last_snoc in H. by injection H.
Qed.

Lemma scenario_step_at i spent w w' :
  at_action i spent w -> scenario_step w = Some w' -> exists i' spent', at_action i' spent' w'.
Proof.
  intros Hat E. pose proof Hat as (Hpos & Hp & Hle & Heq & Hend).
  assert (Hnext : forall a rest, drop i scenario = a :: rest -> spent = 0%nat -> todo w' = rest ->
    play_one (paused_ (sim w), incremental_hz_ (sim w), events w) a =
      (paused_ (sim w'), incremental_hz_ (sim w'), events w') ->
    slept w' = slept w -> seconds_of a = 0%nat -> (g_shutdown w' = false -> g_shutdown w = false) ->
    (a = Finish -> g_shutdown w' = true) -> exists i' spent', at_action i' spent' w').
  { intros a rest Ed -> Et Hpl Hs Ha Hsd Hf. exists (S i), 0%nat. eapply at_next; try done; [lia|by rewrite Ha; auto|].
    intros Hr. by apply Hf, (last_action i a rest). }
  destruct Hpos as [[-> Et]|(n & rest & Ed & Hsp & Et)].
  - unfold scenario_step in E. rewrite Et in E. destruct (drop i scenario) as [|[p|hz|ph ev|n|] rest] eqn:Ed; [done|..].
    + injection E as <-. by eapply Hnext.
    + injection E as <-. by eapply Hnext.
    + injection E as <-. by eapply Hnext.
    + destruct n as [|k]; [injection E as <-; by eapply Hnext|]. destruct (g_shutdown w) eqn:Esd; injection E as <-.
      * exists (S i), 0%nat. eapply at_next; try done; simpl; rewrite ?Esd; try done; lia.
      * exists i, 1%nat. split_and!; [|done|simpl; lia|simpl; intros _; rewrite Heq; [lia|done]|done].
        right. exists (S k), rest. split_and!; [done|lia|]. simpl. by rewrite Nat.sub_0_r.
    + injection E as <-. by eapply Hnext.
  - unfold scenario_step in E. rewrite Et in E. destruct (n - spent)%nat as [|k] eqn:Ek.
    + injection E as <-. assert (spent = n) as -> by lia. exists (S i), 0%nat.
      eapply at_next; try done. intros Hr. by pose proof (last_action i _ _ Ed Hr).
    + destruct (g_shutdown w) eqn:Esd; injection E as <-.
      * exists (S i), 0%nat. eapply at_next; try done; simpl; rewrite ?Esd; try done; lia.
      * exists i, (S spent). split_and!; [|done|simpl; lia|simpl; intros _; rewrite Heq; [lia|done]|done].
        right. exists n, rest. split_and!; [done|lia|]. simpl. by replace (n - S spent)%nat with k by lia.
Qed.

Lemma at_shutdown i spent w : at_action i spent w -> at_action i spent (w <| g_shutdown := true |>).
Proof. intros (H1 & H2 & H3 & H4 & H5). by split_and!. Qed.

Lemma at_simulator i spent w s' :
  paused_ s' = paused_ (sim w) -> incremental_hz_ s' = incremental_hz_ (sim w) ->
  at_action i spent w -> at_action i spent (w <| sim := s' |>).
Proof. intros E1 E2 (H1 & H2 & H3 & H4 & H5). split_and!; try done. simpl. by rewrite E1, E2. Qed.

Definition world_ok (w : World) : Prop := continuous (sim w) /\ exists i spent, at_action i spent w.

Lemma scenario_step_continuous w w' : scenario_step w = Some w' -> continuous (sim w) -> continuous (sim w').
Proof.
  intros E Hc. unfold scenario_step in E. destruct (todo w) as [|[| | |[|]|] rest]; repeat case_match; by simplify_eq.
Qed.

Lemma scenario_ok m d w : reachable (chaos_start 0 m d) w -> world_ok w.
Proof.
  induction 1 as [|w w' _ [Hc (i & spent & Hat)] Hs].
  - split; [split; [done|right; by left]|]. exists 0%nat, 0%nat. split_and!; [by left|done|done|done|done].
  - destruct Hs as [w w' E|now os w s' E|w].
    + split; [by eapply scenario_step_continuous|by eapply scenario_step_at].
    + destruct (loop_step_continuous _ _ _ _ E Hc) as (Hc' & Ep & Eh & _).
      split; [done|]. exists i, spent. by apply at_simulator.
    + split; [done|]. exists i, spent. by apply at_shutdown.
Qed.

(** ** The measurement windows *)

(** Pause and rate the marks stand for. *)
Definition window (phase : bytes) : option (bool * Z) :=
  if bool_decide (phase = $"baseline") then Some (false, 20)
  else if bool_decide (phase = $"burst_10x") then Some (false, 200)
  else if bool_decide (phase = $"burst_20x") then Some (false, 400)
  else if bool_decide (phase = $"recovery") then Some (true, 400)
  else None.

(** What holds while the thread sleeps: before the first mark the base rate,
    inside a window its pause and rate, after one the feed is paused. *)
Definition sleeping_settings (events : list (bytes * bytes)) (paused : bool) (hz : Z) : bool :=
  match last events with
  | None => hz =? 20
  | Some (phase, event) =>
      if bool_decide (event = $"end") then paused else bool_decide (window phase = Some (paused, hz))
  end.

Lemma sleeps_marked i n rest :
  drop i scenario = Sleep n :: rest ->
  let '(p, hz, ev) := played (take i scenario) in sleeping_settings ev p hz = true.
Proof.
  intros E. assert (Hi : (i < length scenario)%nat).
  { destruct (decide (i < length scenario)%nat); [done|]. rewrite drop_ge in E by lia. done. }
  assert (H : forallb (fun i => match drop i scenario with
      | Sleep _ :: _ => let '(p, hz, ev) := played (take i scenario) in sleeping_settings ev p hz
      | _ => true end) (seq 0 (length scenario)) = true) by reflexivity.
  rewrite forallb_forall in H. specialize (H i). rewrite E in H.
  destruct (played (take i scenario)) as [[p hz] ev]. apply H. apply in_seq. lia.
Qed.

(** C36: The chaos test measures what its marks say.  Under any interleaving of
    the scenario thread with the simulator's turns and a shutdown request, and
    with no burst mode configured: while the thread sleeps, the simulator has
    the rate and pause of the window last started (baseline at 20 Hz, bursts
    at 200 and 400 Hz, recovery paused) and is paused after a window's end, and
    a paused simulator emits nothing.  At most 185 seconds are slept, exactly
    185 if nothing asked for a shutdown before the scenario does. *)
Theorem chaos_windows multiplier duration_ms w :
  reachable (chaos_start 0 multiplier duration_ms) w ->
  (forall n rest, todo w = Sleep n :: rest ->
     sleeping_settings (events w) (paused_ (sim w)) (incremental_hz_ (sim w)) = true) /\
  (forall now os s', loop_step now os (sim w) = Some s' -> paused_ (sim w) = true -> emitted s' = emitted (sim w)) /\
  (slept w <= 185)%nat /\
  (todo w = [Finish] -> g_shutdown w = false -> slept w = 185%nat).
Proof.
  intros Hw. destruct (scenario_ok _ _ _ Hw) as [Hc (i & spent & Hpos & Hp & Hle & Heq & _)].
  assert (Htot : (total_seconds (take i scenario) + total_seconds (drop i scenario) = 185)%nat).
  { unfold total_seconds. by rewrite <-sum_list_with_app, take_drop. }
  split_and!.
  - intros n rest Et. assert (Hs : exists n' rest', drop i scenario = Sleep n' :: rest').
    { destruct Hpos as [[_ E]|(n' & rest' & E & _)]; [|by exists n', rest']. exists n, rest. by rewrite <-E. }
    destruct Hs as (n' & rest' & E). pose proof (sleeps_marked i n' rest' E) as H. by rewrite Hp in H.
  - intros now os s' E Hpa. destruct (loop_step_continuous _ _ _ _ E Hc) as (_ & _ & _ & H). by apply H.
  - destruct Hpos as [[-> _]|(n' & rest' & E & Hn & _)]; [lia|]. rewrite E in Htot. simpl in Htot. lia.
  - intros Et Hsd. rewrite Heq by done. destruct Hpos as [[-> E]|(n' & rest' & _ & _ & E)]; [|congruence].
    rewrite <-E, Et in Htot. simpl in Htot. lia.
Qed.

Lemma chaos_windows_witness :
  exists w, todo w = Sleep 29 :: drop 1 scenario /\ incremental_hz_ (sim w) = 20 /\ (slept w <= 185)%nat.
Proof.
  set (w0 := chaos_start 0 10 2000).
  set (w := w0 <| slept := 1%nat |> <| todo := Sleep 29 :: drop 1 scenario |>).
  assert (Hw : reachable w0 w) by (eapply r_step; [constructor|by apply w_scenario]).
  destruct (chaos_windows 10 2000 w Hw) as (H1 & _ & H3 & _). specialize (H1 29%nat _ eq_refl).
  exists w. split; [done|]. split; [reflexivity|exact H3].
Defined.

(** ** The thread ends *)

Definition action_size (a : Action) : nat := S (seconds_of a).
Definition todo_size (w : World) : nat := sum_list_with action_size (todo w).

(** The scenario ends.  Whatever the other threads do, at every moment the
    thread has either finished, having asked for shutdown, or can take a step
    that brings it nearer to its end; from the start that is at most 212
    steps, and a shutdown request makes every remaining sleep a single step. *)
Theorem chaos_ends multiplier duration_ms w :
  reachable (chaos_start 0 multiplier duration_ms) w ->
  todo_size (chaos_start 0 multiplier duration_ms) = 212%nat /\
  ((todo w = [] /\ g_shutdown w = true) \/
   exists w', scenario_step w = Some w' /\ (todo_size w' < todo_size w)%nat /\
     (g_shutdown w = true -> length (todo w') = (length (todo w) - 1)%nat)).
Proof.
  intros Hw. split; [done|]. destruct (scenario_ok _ _ _ Hw) as [_ (i & spent & _ & _ & _ & _ & Hend)].
  unfold scenario_step, todo_size. destruct (todo w) as [|[p|hz|ph ev|[|n]|] rest] eqn:Et; [by left; auto|right..].
  1-4, 6: eexists; split; [done|]; simpl; split; [unfold action_size; simpl; lia|lia].
  destruct (g_shutdown w); eexists; (split; [done|]); simpl; (split; [unfold action_size; simpl; lia|]); [lia|done].
Qed.

Lemma chaos_ends_witness :
  exists w', scenario_step (chaos_start 0 10 2000) = Some w' /\ (todo_size w' < 212)%nat.
Proof.
  destruct (chaos_ends 10 2000 (chaos_start 0 10 2000)) as (Hsz & [[H _]|(w' & E & Hlt & _)]);
    [constructor|discriminate H|].
  exists w'. split; [exact E|]. rewrite <-Hsz. exact Hlt.
Defined.

(** With a burst interval on the same command line the simulator is in its
    burst loop, where a pause has no effect: it emits while paused. *)
Example pause_ignored_in_bursts :
  let w := chaos_start 1 2 1000 in
  let os := map (fun _ => mkOutside None dzero 0 0 dzero (mktm 125 0 2 3 4 5) 6) fix_symbols in
  let s := set_paused true (sim w) in
  (s1 ← loop_step 0 [] s; s2 ← loop_step 1000000 [] s1; s3 ← loop_step 1000000 os s2; Some (paused_ s3, length (emitted s3)))
    = Some (true, 10%nat).
Proof. vm_compute. reflexivity. Qed.
