(* ===== verification/QueryProtocol.v ===== *)
(** * Query wire protocol (src/query_server.hpp, src/query_server.cpp)

    Parsing of one request line and the three response builders.  A response
    is one line of JSON; the properties are about that framing, about the
    recognition of commands, and about the content of the health response. *)

From S2P Require Import Prelude Float64 Str Fmt Types OrderBook.

(** A byte string between double quotes, and literals that need them: in the
    literals of this file a backquote stands for the double quote. *)
Definition unquote_char (c : ascii) : ascii := if bool_decide (c = "`"%char) then QUOTE else c.
Definition lit (s : bytes) : bytes := map unquote_char s.

(** ** Formatting *)

(** [fmt_dbl]: [snprintf] with ["%.8g"] into 32 bytes, which always fits. *)
Definition fmt_dbl (v : double) : bytes := fmt_g 8 v.

Definition jstr (s : bytes) : bytes := [QUOTE] ++ s ++ [QUOTE].

Definition level_pair (l : PriceLevel) : bytes :=
  $"[" ++ fmt_dbl (lv_price l) ++ $"," ++ fmt_dbl (lv_quantity l) ++ $"]".

(** Elements separated by commas: the loops with [if (i > 0) s += ','] or a
    [first] flag. *)
Fixpoint commas (l : list bytes) : bytes :=
  match l with
  | [] => []
  | [x] => x
  | x :: l' => x ++ $"," ++ commas l'
  end.

(** ** Requests *)

Inductive RequestType := SNAPSHOT | HEALTH | REPORT | LISTREPORTS | UNKNOWN.

#[export] Instance RequestType_eq_dec : EqDecision RequestType.
Proof. solve_decision. Defined.

Record ParsedRequest := mkParsedRequest {
  req_type : RequestType;
  req_symbol : bytes;
  req_report_name : bytes;
}.

Definition is_trailing (c : ascii) : bool := bool_decide (c = CR) || bool_decide (c = " "%char).

Definition upper (s : bytes) : bytes := map toupper s.

(** [parse_request] *)
Definition parse_request (line : bytes) : ParsedRequest :=
  let line := rtrim is_trailing line in
  let up := upper line in
  if bool_decide (up = $"HEALTH") then mkParsedRequest HEALTH [] []
  else if bool_decide (up = $"LISTREPORTS") then mkParsedRequest LISTREPORTS [] []
  else if (9 <? length up)%nat && bool_decide (take 9 up = $"SNAPSHOT ") then
    mkParsedRequest SNAPSHOT (upper (drop 9 line)) []
  else if (7 <? length up)%nat && bool_decide (take 7 up = $"REPORT ") then
    mkParsedRequest REPORT [] (rtrim is_trailing (drop 7 line))
  else mkParsedRequest UNKNOWN [] [].

(** ** Responses *)

(** [(c == QUOTE) ? quote : c] with the apostrophe. *)
Definition escape_char (c : ascii) : ascii := if bool_decide (c = QUOTE) then "'"%char else c.

Definition error_response (message : bytes) : bytes :=
  lit $"{`status`:`error`,`message`:`" ++ map escape_char message ++ lit $"`}" ++ [NL].

(** The first [std::min(max_levels, size)] levels. *)
Definition level_list (max_levels : Z) (ls : list PriceLevel) : bytes :=
  commas (map level_pair (take (Z.to_nat (Z.min max_levels (Z.of_nat (length ls)))) ls)).

Definition book_json (max_levels : Z) (b : OrderBookSnapshot) : bytes :=
  lit $"{`exchange`:" ++ jstr (sn_exchange b) ++ lit $",`symbol`:" ++ jstr (sn_symbol b) ++
  lit $",`bids`:[" ++ level_list max_levels (sn_bids b) ++
  lit $"],`asks`:[" ++ level_list max_levels (sn_asks b) ++
  lit $"],`timestamp_ms`:" ++ to_string (sn_timestamp_ms b) ++ $"}".

Definition snapshot_response (canonical_sym : bytes) (books : list OrderBookSnapshot)
    (max_levels : Z) : bytes :=
  match books with
  | [] => error_response ($"symbol not found: " ++ canonical_sym)
  | _ =>
      lit $"{`status`:`ok`,`symbol`:" ++ jstr canonical_sym ++ lit $",`books`:[" ++
      commas (map (book_json max_levels) books) ++ $"]}" ++ [NL]
  end.

Definition feed_order : list bytes := [$"Binance"; $"Coinbase"; $"Kraken"; $"Bybit"; $"FIX"].

Definition feed_live (live_threshold_ms ms : Z) : bool :=
  negb (ms =? UINT64_MAX) && (ms <? live_threshold_ms).

Definition feed_json (live_threshold_ms : Z) (ex : bytes) (ms : Z) : bytes :=
  lit $"{`exchange`:" ++ jstr ex ++ lit $",`staleness_ms`:" ++
  (if ms =? UINT64_MAX then $"-1" else to_string ms) ++ lit $",`live`:" ++
  (if feed_live live_threshold_ms ms then $"true" else $"false") ++ $"}".

Definition health_response (staleness_ms : gmap bytes Z) (live_threshold_ms : Z) : bytes :=
  lit $"{`status`:`ok`,`feeds`:[" ++
  commas (omap (fun ex => feed_json live_threshold_ms ex <$> (staleness_ms !! ex)) feed_order) ++
  $"]}" ++ [NL].

(** ** Framing *)

(** One line: exactly one newline, at the end. *)
Definition framed (s : bytes) : Prop := exists body, s = body ++ [NL] /\ (NL ∉ body).

(** A book whose names can be put on a line. *)
Definition plain_book (b : OrderBookSnapshot) : Prop := (NL ∉ sn_exchange b) /\ (NL ∉ sn_symbol b).

Example health_example :
  health_response (<[$"Kraken" := 45]> ∅) 2000 =
  lit $"{`status`:`ok`,`feeds`:[{`exchange`:`Kraken`,`staleness_ms`:45,`live`:true}]}"
  ++ [NL].
Proof. vm_compute. reflexivity. Qed.

Lemma framed_app a : NL ∉ a -> framed (a ++ [NL]).
Proof. intros H. by exists a. Qed.

Lemma NL_literal (s : bytes) : bool_decide (NL ∈ s) = false -> NL ∉ s.
Proof. apply bool_decide_eq_false_1. Qed.

Lemma NL_to_string n : NL ∉ to_string n.
Proof.
  unfold to_string. destruct (Z.ltb_spec n 0).
  - apply not_elem_of_cons. split; [done|]. apply digits_not_in; [done|apply dec_of_digits; lia].
  - apply digits_not_in; [done|apply dec_of_digits; lia].
Qed.

Lemma NL_fmt_dbl v : NL ∉ fmt_dbl v.
Proof. by apply fmt_g_not_in. Qed.

Lemma NL_jstr s : NL ∉ s -> NL ∉ jstr s.
Proof.
  intros H. unfold jstr. rewrite !not_elem_of_app. by repeat split; [apply NL_literal| |apply NL_literal].
Qed.

Lemma NL_commas l : Forall (fun x => NL ∉ x) l -> NL ∉ commas l.
Proof.
  induction l as [|x [|y l] IH]; [intros _; apply not_elem_of_nil|by intros [? _]%Forall_cons|].
  intros [Hx Hl]%Forall_cons. cbn [commas]. rewrite !not_elem_of_app.
  repeat split; [done|by apply NL_literal|by apply IH].
Qed.

#[export] Hint Resolve NL_to_string NL_fmt_dbl NL_jstr NL_commas : tickplant.

(** Split an absence into the absences in the parts of a concatenation. *)
Ltac no_newline :=
  rewrite ?not_elem_of_app; repeat split;
  try first [by apply NL_literal | by auto with tickplant].

Lemma NL_map f s : (forall c, f c = NL -> c = NL) -> NL ∉ s -> NL ∉ map f s.
Proof. intros Hf Hs (c & Hc & Hin)%list_elem_of_fmap. apply Hs. by rewrite <-(Hf c). Qed.

Lemma error_response_framed m : NL ∉ m -> framed (error_response m).
Proof.
  intros Hm. unfold error_response. rewrite !app_assoc. apply framed_app. no_newline.
  apply NL_map; [|done]. intros c. unfold escape_char. by case_bool_decide.
Qed.

Lemma NL_level_list n ls : NL ∉ level_list n ls.
Proof.
  apply NL_commas, Forall_forall. intros x (l & -> & _)%list_elem_of_fmap.
  unfold level_pair. no_newline.
Qed.

Lemma NL_book_json n b : plain_book b -> NL ∉ book_json n b.
Proof. intros [H1 H2]. pose proof (NL_level_list n). unfold book_json. no_newline. Qed.

Lemma snapshot_response_framed sym books n :
  NL ∉ sym -> Forall plain_book books -> framed (snapshot_response sym books n).
Proof.
  intros Hs Hb. destruct books as [|b bs]; [apply error_response_framed; no_newline|].
  unfold snapshot_response. rewrite !app_assoc. apply framed_app. no_newline.
  apply NL_commas, Forall_forall. intros x (y & -> & Hy)%list_elem_of_fmap.
  rewrite Forall_forall in Hb. by apply NL_book_json, Hb.
Qed.

Lemma health_response_framed m t : framed (health_response m t).
Proof.
  unfold health_response. rewrite !app_assoc. apply framed_app. no_newline.
  apply NL_commas, Forall_forall. intros x (ex & Hex & (ms & _ & ->)%fmap_Some)%list_elem_of_omap.
  unfold feed_json. assert (NL ∉ ex).
  { unfold feed_order in Hex. repeat (apply elem_of_cons in Hex as [->|Hex]; [by apply NL_literal|]).
    by apply elem_of_nil in Hex. }
  no_newline; [destruct (ms =? UINT64_MAX)|destruct (feed_live t ms)]; no_newline.
Qed.

(** ** Requests *)

(** An argument: it is not empty and does not end in white space. *)
Definition argument (s : bytes) : Prop := exists u c, s = u ++ [c] /\ is_trailing c = false.

Lemma argument_trimmed kw s t :
  argument s -> Forall (fun c => is_trailing c = true) t -> rtrim is_trailing (kw ++ s ++ t) = kw ++ s.
Proof.
  intros (u & c & -> & Hc) Ht. rewrite app_assoc, rtrim_app_trailing by done.
  rewrite app_assoc. by rewrite rtrim_last.
Qed.

Lemma trailing_upper c : is_trailing (toupper c) = false -> is_trailing c = false.
Proof.
  unfold is_trailing at 2. intros H. case_bool_decide; [by subst|]. case_bool_decide; [by subst|done].
Qed.

(** A keyword ends in no blank. *)
Lemma keyword_trimmed kw w c :
  upper kw = w ++ [c] -> is_trailing c = false -> rtrim is_trailing kw = kw.
Proof.
  destruct kw as [|d u _] using rev_ind; [done|]. unfold upper. rewrite map_app.
  intros [_ <-]%app_inj_tail Hc. by apply rtrim_last, trailing_upper.
Qed.

Lemma is_prefix_take p s : take (length p) s = p -> is_prefix p s = true.
Proof.
  revert s. induction p as [|a p IH]; intros [|b s]; simpl; try done.
  intros [= -> H]. by rewrite bool_decide_true, IH.
Qed.

Lemma argument_nonempty s : argument s -> (0 < length s)%nat.
Proof. intros (u & c & -> & _). rewrite length_app. simpl. lia. Qed.

(** ** Properties *)

(** Commands are recognised in any letter case and with any trailing
    blanks or carriage returns: HEALTH and LISTREPORTS alone on the line,
    SNAPSHOT with its symbol put in upper case, REPORT with its name left in
    the case it was written in.  A line that trims to anything not starting
    with one of the four keywords is UNKNOWN. *)
Theorem parse_request_commands kw arg t :
  Forall (fun c => is_trailing c = true) t -> argument arg ->
  (upper kw = $"HEALTH" -> parse_request (kw ++ t) = mkParsedRequest HEALTH [] []) /\
  (upper kw = $"LISTREPORTS" -> parse_request (kw ++ t) = mkParsedRequest LISTREPORTS [] []) /\
  (upper kw = $"SNAPSHOT " ->
     parse_request (kw ++ arg ++ t) = mkParsedRequest SNAPSHOT (upper arg) []) /\
  (upper kw = $"REPORT " -> parse_request (kw ++ arg ++ t) = mkParsedRequest REPORT [] arg) /\
  (let line := upper (rtrim is_trailing kw) in
   line <> $"HEALTH" -> line <> $"LISTREPORTS" ->
   is_prefix $"SNAPSHOT " line = false -> is_prefix $"REPORT " line = false ->
   parse_request kw = mkParsedRequest UNKNOWN [] []).
Proof.
  intros Ht Ha. unfold parse_request. pose proof (argument_nonempty _ Ha) as Hl.
  split; [|split; [|split; [|split]]].
  - intros Hk. rewrite rtrim_app_trailing by done.
    rewrite (keyword_trimmed kw $"HEALT" "H"%char) by done. by rewrite Hk, bool_decide_true.
  - intros Hk. rewrite rtrim_app_trailing by done.
    rewrite (keyword_trimmed kw $"LISTREPORT" "S"%char) by done. by rewrite Hk.
  - intros Hk. rewrite argument_trimmed by done.
    assert (Hlen : length kw = 9%nat) by (rewrite <-(length_map toupper); by apply (f_equal length) in Hk).
    replace (drop 9 (kw ++ arg)) with arg by (by rewrite <-Hlen, drop_app_length).
    unfold upper in *. rewrite map_app, Hk, length_app, length_map.
    rewrite (proj2 (Nat.ltb_lt 9 _)) by (simpl; lia). done.
  - intros Hk. rewrite argument_trimmed by done.
    assert (Hlen : length kw = 7%nat) by (rewrite <-(length_map toupper); by apply (f_equal length) in Hk).
    replace (drop 7 (kw ++ arg)) with arg by (by rewrite <-Hlen, drop_app_length).
    unfold upper in *. rewrite map_app, Hk, length_app, length_map.
    rewrite (proj2 (Nat.ltb_lt 7 _)) by (simpl; lia). rewrite andb_true_l.
    destruct Ha as (u & c & -> & Hc). rewrite rtrim_last by done.
    destruct (_ && _) eqn:E; [apply andb_true_iff in E as [_ E]; by apply bool_decide_eq_true_1 in E|done].
  - cbv zeta. set (line := upper (rtrim is_trailing kw)). intros H1 H2 H3 H4. rewrite !bool_decide_false by done.
    rewrite (bool_decide_false (take 9 line = _)), (bool_decide_false (take 7 line = _)), !andb_false_r; [done|..].
    + intros E. pose proof (is_prefix_take $"REPORT " line E). congruence.
    + intros E. pose proof (is_prefix_take $"SNAPSHOT " line E). congruence.
Qed.

Lemma parse_request_commands_witness :
  parse_request ($"snapshot btc" ++ [" "%char; CR]) = mkParsedRequest SNAPSHOT $"BTC" [].
Proof.
  apply (parse_request_commands $"snapshot " $"btc" [" "%char; CR]).
  - by repeat constructor.
  - by exists $"bt", "c"%char.
  - done.
Defined.
