(* ===== verification/CommandLine.v ===== *)
(** * Command line and report client (src/main.cpp)

    The options [main] reads from [argv], and the interactive loop of the
    [report-client] mode.  [None] is an exception nothing catches: [std::stoi]
    on a value that is not a number or does not fit an [int]. *)

From Stdlib Require Import ZArith Lia.
From S2P Require Import Prelude Str QueryProtocol.

(** ** [std::stoi] *)

(** The leading digits of [s], negated if [neg]. *)
Definition stoi_digits (neg : bool) (s : bytes) : option Z :=
  match fst (span is_digit s) with
  | [] => None
  | ds => let n := if neg then - digits_value ds 0 else digits_value ds 0 in
          if in_int n then Some n else None
  end.

(** [strtol] in base ten, then the checks of [stoi]. *)
Definition stoi (str : bytes) : option Z :=
  match ltrim is_space (c_str str) with
  | "+"%char :: r => stoi_digits false r
  | "-"%char :: r => stoi_digits true r
  | s => stoi_digits false s
  end.

(** ** Options *)

Record RemoteSpec := mkRemoteSpec { rs_label : bytes; rs_host : bytes; rs_port : Z }.

Record Options := mkOptions {
  mode : bytes;
  max_reports : Z;
  burst_interval_ms : Z;
  burst_multiplier : Z;
  burst_duration_ms : Z;
  chaos_test : bool;
  query_server_mode : bytes;
  query_server_port : Z;
  fix_server_port : Z;
  remote_specs : list RemoteSpec;
  questdb_host : bytes;
  questdb_port : Z;
  pretty : bool;
}.
#[export] Instance Options_settable : Settable Options :=
  fun o => mkOptions (mode o) (max_reports o) (burst_interval_ms o) (burst_multiplier o)
    (burst_duration_ms o) (chaos_test o) (query_server_mode o) (query_server_port o)
    (fix_server_port o) (remote_specs o) (questdb_host o) (questdb_port o) (pretty o).

Definition default_options : Options :=
  mkOptions $"full" 0 0 10 2000 false [] 9092 9093 [] $"127.0.0.1" 9000 false.

(** [static_cast<uint16_t>(std::stoi(s))] *)
Definition port_of (s : bytes) : option Z := n ← stoi s; Some (n mod 2 ^ 16).

(** Position of the last [c], as [std::string::rfind]. *)
Definition rfind_char (c : ascii) (s : bytes) : option nat :=
  match find_char c (reverse s) with Some n => Some (length s - 1 - n)%nat | None => None end.

(** [label:host:port], split at the first and at the last colon. *)
Definition parse_remote (spec : bytes) : option (option RemoteSpec) :=
  match find_char ":"%char spec, rfind_char ":"%char spec with
  | Some p1, Some p2 =>
      if bool_decide (p2 = p1) then Some None
      else p ← port_of (drop (p2 + 1) spec);
           Some (Some (mkRemoteSpec (take p1 spec) (take (p2 - p1 - 1) (drop (p1 + 1) spec)) p))
  | _, _ => Some None
  end.

(** The options that take the next argument; [None] for any other argument. *)
Definition valued_option (arg v : bytes) (o : Options) : option (option Options) :=
  if bool_decide (arg = $"--mode") then Some (Some (o <| mode := v |>))
  else if bool_decide (arg = $"--max-reports") then Some (n ← stoi v; Some (o <| max_reports := n |>))
  else if bool_decide (arg = $"--burst-interval-ms") then Some (n ← stoi v; Some (o <| burst_interval_ms := n |>))
  else if bool_decide (arg = $"--burst-multiplier") then Some (n ← stoi v; Some (o <| burst_multiplier := n |>))
  else if bool_decide (arg = $"--burst-duration-ms") then Some (n ← stoi v; Some (o <| burst_duration_ms := n |>))
  else if bool_decide (arg = $"--query-server") then Some (Some (o <| query_server_mode := v |>))
  else if bool_decide (arg = $"--query-port") then Some (p ← port_of v; Some (o <| query_server_port := p |>))
  else if bool_decide (arg = $"--fix-port") then Some (p ← port_of v; Some (o <| fix_server_port := p |>))
  else if bool_decide (arg = $"--add-remote") then
    Some (r ← parse_remote v;
          Some (match r with Some rs => o <| remote_specs := remote_specs o ++ [rs] |> | None => o end))
  else if bool_decide (arg = $"--questdb-host") then Some (Some (o <| questdb_host := v |>))
  else if bool_decide (arg = $"--questdb-port") then Some (p ← port_of v; Some (o <| questdb_port := p |>))
  else None.

(** The options that stand alone; anything else is ignored. *)
Definition plain_option (arg : bytes) (o : Options) : Options :=
  if bool_decide (arg = $"--chaos-test") then o <| chaos_test := true |>
  else if bool_decide (arg = $"--pretty") then o <| pretty := true |>
  else o.

(** The loop over [argv[1..]]. *)
Fixpoint parse_args (args : list bytes) (o : Options) : option Options :=
  match args with
  | [] => Some o
  | arg :: rest =>
      match rest with
      | [] => Some (plain_option arg o)
      | v :: rest' =>
          match valued_option arg v o with
          | Some r => match r with Some o' => parse_args rest' o' | None => None end
          | None => parse_args rest (plain_option arg o)
          end
      end
  end.

(** ** The report client *)

Definition REPL_ERROR : bytes := lit $"{`status`:`error`,`message`:`use LISTREPORTS or REPORT <name>`}" ++ [NL].

Section client.
(** Pretty-printing by the JSON library ([None]: it throws), and the two calls
    of the pipeline. *)
Variable indent : bytes -> option bytes.
Variable list_reports : bytes.
Variable run : bytes -> bytes.

Definition print_json (pretty : bool) (raw : bytes) : bytes :=
  if negb pretty then raw
  else match indent raw with Some s => s ++ [NL] | None => raw end.

(** The answer to one line of input. *)
Definition client_answer (pretty : bool) (line : bytes) : bytes :=
  if bool_decide (line = $"LISTREPORTS") || bool_decide (line = $"listreports") then print_json pretty list_reports
  else if is_prefix $"REPORT " line || is_prefix $"report " line then
    print_json pretty (run (rtrim (fun c => bool_decide (c = " "%char)) (drop 7 line)))
  else REPL_ERROR.

(** What is printed for the lines of standard input, prompts included. *)
Fixpoint client_loop (pretty : bool) (input : list bytes) : bytes :=
  $"> " ++
  match input with
  | [] => []
  | line :: input' =>
      if bool_decide (line = $"quit") || bool_decide (line = $"exit") then []
      else (if bool_decide (line = []) then [] else client_answer pretty line) ++ client_loop pretty input'
  end.
End client.

(** ** Reading numbers *)

Lemma digits_c_str ds : Forall (fun c => is_digit c = true) ds -> c_str ds = ds.
Proof. intros H. apply c_str_id. by apply digits_not_in. Qed.

Lemma digit_head c s : is_digit c = true ->
  ltrim is_space (c :: s) = c :: s /\ c <> "+"%char /\ c <> "-"%char.
Proof.
  intros Hc. split_and!; [|by intros ->|by intros ->]. simpl. unfold is_digit, is_space in *.
  bool_to_prop. rewrite (proj2 (Z.eqb_neq _ _)) by lia. rewrite (proj2 (Z.leb_gt (byte_val c) 13)) by lia.
  by rewrite andb_false_r.
Qed.

Lemma stoi_digits_value (neg : bool) (ds : bytes) :
  Forall (fun c => is_digit c = true) ds -> ds <> [] ->
  let n := if neg then - digits_value ds 0 else digits_value ds 0 in
  in_int n = true -> stoi_digits neg ds = Some n.
Proof.
  intros Hd Hne n Hi. unfold stoi_digits. rewrite <-(app_nil_r ds) at 1. rewrite (span_all _ ds []) by done.
  cbn [fst]. destruct ds as [|c ds]; [done|]. fold n. by rewrite Hi.
Qed.

Lemma stoi_unsigned ds : Forall (fun c => is_digit c = true) ds -> ds <> [] -> stoi ds = stoi_digits false ds.
Proof.
  intros Hd Hne. unfold stoi. rewrite digits_c_str by done. destruct ds as [|c ds]; [done|].
  destruct (digit_head c ds (Forall_inv Hd)) as (-> & Hp & Hm). by destruct c as [[] [] [] [] [] [] [] []].
Qed.

Lemma stoi_minus ds : Forall (fun c => is_digit c = true) ds -> stoi ($"-" ++ ds) = stoi_digits true ds.
Proof.
  intros Hd. unfold stoi. rewrite c_str_id; [done|].
  apply not_elem_of_cons. split; [done|]. by apply digits_not_in.
Qed.

(** [stoi] reads back what [to_string] writes. *)
Lemma stoi_to_string n : in_int n = true -> stoi (to_string n) = Some n.
Proof.
  intros Hn. unfold to_string. destruct (Z.ltb_spec n 0).
  - rewrite stoi_minus by (apply dec_of_digits; lia).
    rewrite stoi_digits_value; rewrite ?dec_of_value, ?Z.opp_involutive by lia; auto with tickplant lia.
  - rewrite stoi_unsigned by auto with tickplant.
    rewrite stoi_digits_value; rewrite ?dec_of_value by lia; auto with tickplant lia.
Qed.

Lemma port_of_to_string p : 0 <= p < 2 ^ 16 -> port_of (to_string p) = Some p.
Proof.
  intros Hp. unfold port_of. rewrite stoi_to_string.
  - cbn [mbind option_bind]. by rewrite Z.mod_small.
  - unfold in_int, INT_MIN, INT_MAX. rewrite !(proj2 (Z.leb_le _ _)) by lia. done.
Qed.

(** ** Splitting a remote *)

Lemma rfind_char_app c l r : c ∉ r -> rfind_char c (l ++ c :: r) = Some (length l).
Proof.
  intros Hr. unfold rfind_char. rewrite reverse_app, reverse_cons, <-app_assoc. simpl.
  rewrite find_char_app by (by rewrite elem_of_reverse). rewrite length_reverse, length_app. simpl. f_equal. lia.
Qed.

(** The argument that names a remote. *)
Definition remote_arg (r : RemoteSpec) : bytes :=
  rs_label r ++ $":" ++ rs_host r ++ $":" ++ to_string (rs_port r).

Lemma to_string_no_colon n : 0 <= n -> ":"%char ∉ to_string n.
Proof.
  intros Hn. unfold to_string. rewrite (proj2 (Z.ltb_ge _ _)) by lia.
  apply digits_not_in; [done|auto with tickplant].
Qed.

(** A remote is read back from its argument; the host may hold colons. *)
Lemma parse_remote_arg r :
  ":"%char ∉ rs_label r -> 0 <= rs_port r < 2 ^ 16 -> parse_remote (remote_arg r) = Some (Some r).
Proof.
  intros Hl Hp. destruct r as [label host port]. unfold parse_remote, remote_arg. simpl in *.
  set (spec := label ++ ":"%char :: host ++ ":"%char :: to_string port).
  assert (E : spec = (label ++ ":"%char :: host) ++ ":"%char :: to_string port) by (unfold spec; by rewrite <-app_assoc).
  assert (Elen : length (label ++ ":"%char :: host) = (length label + S (length host))%nat) by (by rewrite length_app).
  assert (E1 : find_char ":"%char spec = Some (length label)) by by apply find_char_app.
  assert (E2 : rfind_char ":"%char spec = Some (length label + S (length host))%nat).
  { rewrite E, rfind_char_app, Elen; [done|]. apply to_string_no_colon. lia. }
  rewrite E1, E2, bool_decide_eq_false_2 by lia.
  assert (E3 : drop (length label + S (length host) + 1) spec = to_string port).
  { rewrite E, <-Elen, <-drop_drop, drop_app_length. done. }
  assert (E4 : drop (length label + 1) spec = host ++ ":"%char :: to_string port).
  { unfold spec. rewrite <-drop_drop, drop_app_length. done. }
  rewrite E3, port_of_to_string by done. cbn [mbind option_bind]. rewrite E4.
  replace (length label + S (length host) - length label - 1)%nat with (length host) by lia.
  unfold spec. by rewrite !take_app_length.
Qed.

(** ** The whole command line *)

Lemma parse_args_valued arg v rest o o' :
  valued_option arg v o = Some (Some o') -> parse_args (arg :: v :: rest) o = parse_args rest o'.
Proof. intros E. cbn [parse_args]. by rewrite E. Qed.

(** The arguments that set every option. *)
Definition remote_args (l : list RemoteSpec) : list bytes := l ≫= fun r => [$"--add-remote"; remote_arg r].

Definition flag (b : bool) (name : bytes) : list bytes := if b then [name] else [].

Definition args_of (o : Options) : list bytes :=
  [$"--mode"; mode o; $"--max-reports"; to_string (max_reports o);
   $"--burst-interval-ms"; to_string (burst_interval_ms o);
   $"--burst-multiplier"; to_string (burst_multiplier o);
   $"--burst-duration-ms"; to_string (burst_duration_ms o);
   $"--query-server"; query_server_mode o; $"--query-port"; to_string (query_server_port o);
   $"--fix-port"; to_string (fix_server_port o);
   $"--questdb-host"; questdb_host o; $"--questdb-port"; to_string (questdb_port o)] ++
  remote_args (remote_specs o) ++ flag (chaos_test o) $"--chaos-test" ++ flag (pretty o) $"--pretty".

(** Options an invocation can give: [int]s, ports, and labels without a colon. *)
Definition expressible (o : Options) : Prop :=
  in_int (max_reports o) = true /\ in_int (burst_interval_ms o) = true /\
  in_int (burst_multiplier o) = true /\ in_int (burst_duration_ms o) = true /\
  0 <= query_server_port o < 2 ^ 16 /\ 0 <= fix_server_port o < 2 ^ 16 /\ 0 <= questdb_port o < 2 ^ 16 /\
  Forall (fun r => (":"%char ∉ rs_label r) /\ 0 <= rs_port r < 2 ^ 16) (remote_specs o).

Ltac read_option :=
  erewrite parse_args_valued;
  [|unfold valued_option; cbn [mbind option_bind];
    rewrite ?(bool_decide_eq_false_2 (_ = _)) by done; rewrite bool_decide_eq_true_2 by done;
    rewrite ?stoi_to_string, ?port_of_to_string by done; reflexivity].

Lemma parse_remote_args l rest o :
  Forall (fun r => (":"%char ∉ rs_label r) /\ 0 <= rs_port r < 2 ^ 16) l ->
  parse_args (remote_args l ++ rest) o = parse_args rest (o <| remote_specs := remote_specs o ++ l |>).
Proof.
  intros Hl. revert o. induction Hl as [|r l [Hr Hp] _ IH]; intros o.
  - rewrite app_nil_r. by destruct o.
  - change (remote_args (r :: l) ++ rest) with ($"--add-remote" :: remote_arg r :: remote_args l ++ rest).
    erewrite parse_args_valued.
    2: { unfold valued_option. rewrite ?(bool_decide_eq_false_2 (_ = _)) by done. rewrite bool_decide_eq_true_2 by done.
         rewrite parse_remote_arg by done. reflexivity. }
    rewrite IH. simpl. rewrite <-app_assoc. done.
Qed.

(** C35: The command line carries every option.  For options an invocation can
    express, parsing the arguments that set them (numbers in decimal, a remote
    as label, host and port between colons, where the host may hold colons of
    its own) gives back exactly those options, the remotes in order. *)
Theorem command_line_roundtrip o :
  expressible o -> parse_args (args_of o) default_options = Some o.
Proof.
  intros (H1 & H2 & H3 & H4 & H5 & H6 & H7 & Hr). unfold args_of. cbn [app].
  do 10 read_option. rewrite parse_remote_args by done.
  destruct o as [m n bi bm bd [] qm qp fp rs qh qq []]; reflexivity.
Qed.

Definition ex_options : Options :=
  mkOptions $"report-client" 3 (-1) 10 2000 true $"uring" 9092 65535
    [mkRemoteSpec $"Mac-FIX" $"127.0.0.1" 9093; mkRemoteSpec $"v6" $"fe80::1" 9092] $"192.168.88.9" 9000 true.

Lemma command_line_roundtrip_witness : parse_args (args_of ex_options) default_options = Some ex_options.
Proof.
  apply command_line_roundtrip. unfold expressible. simpl. split_and!; try done.
  repeat constructor; simpl; try lia; apply (bool_decide_eq_true_1 _); vm_compute; reflexivity.
Defined.

(** A command line fails only on a number.  If parsing ends in an uncaught
    exception, some option that takes a number has a value [stoi] rejects, or
    [--add-remote] a port it rejects; unknown arguments, an option at the end
    without its value, and remotes without two colons are passed over. *)
Theorem command_line_errors args o :
  parse_args args o = None ->
  exists pre opt v post, args = pre ++ opt :: v :: post /\
    ((opt ∈ [$"--max-reports"; $"--burst-interval-ms"; $"--burst-multiplier"; $"--burst-duration-ms";
             $"--query-port"; $"--fix-port"; $"--questdb-port"] /\ stoi v = None) \/
     (opt = $"--add-remote" /\ parse_remote v = None)).
Proof.
  revert o. induction args as [args IH] using (induction_ltof1 _ length). intros o E.
  destruct args as [|arg [|v rest]]; [done|done|]. cbn [parse_args] in E.
  destruct (valued_option arg v o) as [[o'|]|] eqn:Ev.
  - destruct (IH rest ltac:(unfold ltof; simpl; lia) o' E) as (pre & opt & w & post & -> & H).
    by exists (arg :: v :: pre), opt, w, post.
  - clear E. exists [], arg, v, rest. split; [done|]. unfold valued_option, port_of in Ev.
    repeat (case_bool_decide; [subst arg|]; [try discriminate Ev|]); try discriminate Ev.
    all: first [right; split; [done|]; destruct (parse_remote v); [discriminate Ev|done]
               |left; split; [by apply (bool_decide_eq_true_1 _); vm_compute|]; destruct (stoi v); [discriminate Ev|done]].
  - destruct (IH (v :: rest) ltac:(unfold ltof; simpl; lia) _ E) as (pre & opt & w & post & Eq & H).
    exists (arg :: pre), opt, w, post. by rewrite Eq.
Qed.

Lemma command_line_errors_witness :
  exists opt v, parse_args [$"--pretty"; $"--max-reports"; $"--mode"; $"full"] default_options = None /\
    opt ∈ [$"--pretty"; $"--max-reports"; $"--mode"; $"full"] /\ v ∈ [$"--pretty"; $"--max-reports"; $"--mode"; $"full"] /\
    (stoi v = None \/ parse_remote v = None).
Proof.
  destruct (command_line_errors [$"--pretty"; $"--max-reports"; $"--mode"; $"full"] default_options ltac:(reflexivity))
    as (pre & opt & v & post & E & H).
  exists opt, v. split; [reflexivity|]. rewrite E. split; [set_solver|]. split; [set_solver|]. tauto.
Defined.

(** Ports wrap, a trailing option and a remote with one colon are ignored, and
    a value may look like an option. *)
Example ex_lenient :
  parse_args [$"--query-port"; $"65537"; $"--add-remote"; $"a:1"; $"--mode"; $"--pretty"; $"--fix-port"] default_options =
  Some (default_options <| query_server_port := 1 |> <| mode := $"--pretty" |>).
Proof. reflexivity. Qed.

(** ** The report client's loop *)

Lemma client_loop_app indent reports run pretty pre line post :
  Forall (fun l => l <> $"quit" /\ l <> $"exit") pre -> line ∈ [$"quit"; $"exit"] ->
  client_loop indent reports run pretty (pre ++ line :: post) =
  (concat (map (fun l => $"> " ++ if bool_decide (l = []) then [] else client_answer indent reports run pretty l) pre)) ++ $"> ".
Proof.
  intros Hpre Hline. induction Hpre as [|l pre [Hq He] _ IH]; simpl.
  - rewrite <-bool_decide_or, bool_decide_eq_true_2; [done|]. set_solver.
  - rewrite (bool_decide_eq_false_2 (l = $"quit")), (bool_decide_eq_false_2 (l = $"exit")) by done.
    cbn [orb]. by rewrite IH, <-app_assoc.
Qed.

Example ex_client :
  client_loop (fun _ => None) $"[]" (fun name => $"<" ++ name ++ $">") false
    [$"listreports"; []; $"REPORT bbo  "; $"quit"; $"LISTREPORTS"] = $"> []> > <bbo>> ".
Proof. reflexivity. Qed.
