(* ===== verification/Reports.v ===== *)
(** * Reporting pipeline

    The report types (src/report_types.hpp), the data source interface
    (src/data_source.hpp), its registry (src/data_source_registry.cpp), the
    exchange data source (src/exchange_data_source.cpp) and the three-phase
    pipeline (src/report_pipeline.cpp).

    The data source interface is a record of operations ([DataSource]); the
    pipeline is proved against it, and [ExchangeDataSource] implements it over
    the engine.  A source's answers are those of the moment it is called.  The
    resolution and fetch tasks of one phase run concurrently but share nothing
    and are all awaited in the order of the configuration, so each phase is a
    map over the configured sources. *)

From S2P Require Import Prelude Float64 Str Fmt Types OrderBook ArbEngine QueryProtocol.

(** ** Data *)

Record BboData := mkBboData {
  bbo_bid : double;
  bbo_ask : double;
  bbo_mid : double;
  bbo_spread_bps : double;
  bbo_timestamp_ms : Z;
}.

Record HistoricalStats := mkHistoricalStats {
  hs_avg_spread_bps : double;
  hs_min_bid : double;
  hs_max_ask : double;
  hs_sample_count : Z;
}.

Inductive ResolutionStatus := OK | STALE | UNREACHABLE.

#[export] Instance ResolutionStatus_eq_dec : EqDecision ResolutionStatus.
Proof. solve_decision. Defined.

Record ResolutionResult := mkResolutionResult {
  rr_status : ResolutionStatus;
  rr_message : bytes;
}.

Record SourceData := mkSourceData {
  sd_source_name : bytes;
  sd_live : gmap bytes (gmap bytes BboData);
  sd_historical : gmap bytes HistoricalStats;
}.
#[export] Instance SourceData_settable : Settable SourceData :=
  fun d => mkSourceData (sd_source_name d) (sd_live d) (sd_historical d).

Record SourceConfig := mkSourceConfig {
  sc_name : bytes;
  sc_required : bool;
  sc_max_staleness_ms : Z;
}.

Record ReportConfig := mkReportConfig {
  rc_name : bytes;
  rc_symbols : list bytes;
  rc_sources : list SourceConfig;
}.

(** ** The interface of a data source *)

Record DataSource := mkDataSource {
  ds_name : bytes;
  ds_resolve : list bytes -> Z -> ResolutionResult;
  ds_fetch : list bytes -> SourceData;
}.

(** ** Registry *)

Abbreviation DataSourceRegistry := (gmap bytes DataSource).

(** [None] is the null pointer. *)
Definition register_source (src : option DataSource) (reg : DataSourceRegistry) : DataSourceRegistry :=
  match src with None => reg | Some s => <[ds_name s := s]> reg end.

Definition registry_get (n : bytes) (reg : DataSourceRegistry) : option DataSource := reg !! n.

Definition registry_names `{IterOrder} (reg : DataSourceRegistry) : list bytes := map fst (iter_map reg).

(** ** Exchange data source *)

Definition exchange_resolve `{IterOrder} (now : Z) (e : Engine) (name : bytes)
    (symbols : list bytes) (max_staleness_ms : Z) : ResolutionResult :=
  match get_feed_staleness_ms now e !! name with
  | None => mkResolutionResult UNREACHABLE (name ++ $": no data received yet")
  | Some ms =>
      if ms =? UINT64_MAX then mkResolutionResult UNREACHABLE (name ++ $": no data received yet")
      else if max_staleness_ms <? ms then
        mkResolutionResult STALE
          (name ++ $": staleness " ++ to_string ms ++ $"ms > threshold " ++
           to_string max_staleness_ms ++ $"ms")
      else mkResolutionResult OK []
  end.

Definition bbo_of (s : OrderBookSnapshot) : BboData :=
  mkBboData (snap_best_bid s) (snap_best_ask s) (snap_mid_price s) (snap_spread_bps s)
    (sn_timestamp_ms s).

(** [sd.live[sym][snap.exchange] = bbo] for the snapshots of this exchange. *)
Definition fetch_snapshot (name sym : bytes) (sd : SourceData) (s : OrderBookSnapshot) : SourceData :=
  if bool_decide (sn_exchange s = name) then
    sd <| sd_live := <[sym := <[sn_exchange s := bbo_of s]> (default ∅ (sd_live sd !! sym))]> (sd_live sd) |>
  else sd.

Definition exchange_fetch `{IterOrder} (e : Engine) (name : bytes) (symbols : list bytes) : SourceData :=
  foldl (fun sd sym => foldl (fetch_snapshot name sym) sd (get_snapshots sym e))
    (mkSourceData name ∅ ∅) symbols.

Definition ExchangeDataSource `{IterOrder} (now : Z) (e : Engine) (name : bytes) : DataSource :=
  mkDataSource name (exchange_resolve now e name) (exchange_fetch e name).

(** ** The pipeline *)

Record ReportPipeline := mkReportPipeline {
  registry_ : DataSourceRegistry;
  configs_ : gmap bytes ReportConfig;
}.

Definition list_reports `{IterOrder} (p : ReportPipeline) : bytes :=
  lit $"{`status`:`ok`,`reports`:[" ++
  commas (map (fun kv => [QUOTE] ++ fst kv ++ [QUOTE]) (iter_map (configs_ p))) ++ $"]}" ++ [NL].

(** The outcome of one source in the first phase. *)
Definition resolve_source (reg : DataSourceRegistry) (cfg : ReportConfig) (sc : SourceConfig)
    : ResolutionResult :=
  match registry_get (sc_name sc) reg with
  | None => mkResolutionResult UNREACHABLE (sc_name sc ++ $": not registered")
  | Some src => ds_resolve src (rc_symbols cfg) (sc_max_staleness_ms sc)
  end.

Definition resolve_phase (reg : DataSourceRegistry) (cfg : ReportConfig) : gmap bytes ResolutionResult :=
  foldl (fun results sc => <[sc_name sc := resolve_source reg cfg sc]> results) ∅ (rc_sources cfg).

Definition resolved_ok (res : gmap bytes ResolutionResult) (n : bytes) : bool :=
  match res !! n with Some r => bool_decide (rr_status r = OK) | None => false end.

Definition pipeline_phase (reg : DataSourceRegistry) (cfg : ReportConfig)
    (res : gmap bytes ResolutionResult) : list SourceData :=
  omap (fun sc =>
    if negb (resolved_ok res (sc_name sc)) then None
    else match registry_get (sc_name sc) reg with
         | None => None
         | Some src => Some (ds_fetch src (rc_symbols cfg))
         end) (rc_sources cfg).

(** ** Generation *)

Definition status_str (s : ResolutionStatus) : bytes :=
  match s with OK => $"ok" | STALE => $"stale" | UNREACHABLE => $"unreachable" end.

Definition source_json (res : gmap bytes ResolutionResult) (sc : SourceConfig) : bytes :=
  [QUOTE] ++ sc_name sc ++ lit $"`:{`status`:`" ++
  match res !! sc_name sc with
  | Some r =>
      status_str (rr_status r) ++ [QUOTE] ++
      (if bool_decide (rr_message r = []) then []
       else lit $",`message`:`" ++ map escape_char (rr_message r) ++ [QUOTE])
  | None => lit $"unreachable`"
  end ++ $"}".

Definition bbo_json (ex : bytes) (b : BboData) : bytes :=
  [QUOTE] ++ ex ++ lit $"`:{`bid`:" ++ fmt_dbl (bbo_bid b) ++ lit $",`ask`:" ++ fmt_dbl (bbo_ask b) ++
  lit $",`mid`:" ++ fmt_dbl (bbo_mid b) ++ lit $",`spread_bps`:" ++ fmt_dbl (bbo_spread_bps b) ++
  lit $",`timestamp_ms`:" ++ to_string (bbo_timestamp_ms b) ++ $"}".

(** The live entries of a symbol, over all sources in order. *)
Definition live_entries `{IterOrder} (sym : bytes) (data : list SourceData) : list bytes :=
  data ≫= fun sd =>
    match sd_live sd !! sym with
    | None => []
    | Some m => map (fun kv => bbo_json (fst kv) (snd kv)) (iter_map m)
    end.

Definition historical_json (sym : bytes) (data : list SourceData) : bytes :=
  match omap (fun sd => sd_historical sd !! sym) data with
  | [] => []
  | hs :: _ =>
      lit $",`historical`:{" ++
      lit $"`avg_spread_bps`:" ++ fmt_dbl (hs_avg_spread_bps hs) ++
      lit $",`min_bid`:" ++ fmt_dbl (hs_min_bid hs) ++
      lit $",`max_ask`:" ++ fmt_dbl (hs_max_ask hs) ++
      lit $",`sample_count`:" ++ to_string (hs_sample_count hs) ++ $"}"
  end.

Definition symbol_json `{IterOrder} (data : list SourceData) (sym : bytes) : bytes :=
  [QUOTE] ++ sym ++ lit $"`:{" ++ lit $"`live`:{" ++ commas (live_entries sym data) ++ $"}" ++
  historical_json sym data ++ $"}".

Definition generate_phase `{IterOrder} (now : Z) (cfg : ReportConfig) (res : gmap bytes ResolutionResult)
    (data : list SourceData) : bytes :=
  lit $"{`status`:`ok`" ++ lit $",`report`:`" ++ rc_name cfg ++ [QUOTE] ++
  lit $",`generated_at_ms`:" ++ to_string now ++
  lit $",`resolution`:{" ++ commas (map (source_json res) (rc_sources cfg)) ++ $"}" ++
  lit $",`symbols`:{" ++ commas (map (symbol_json data) (rc_symbols cfg)) ++ $"}" ++ $"}" ++ [NL].

(** ** run *)

Definition unknown_report (report_name : bytes) : bytes :=
  lit $"{`status`:`error`,`message`:`unknown report: " ++ report_name ++ lit $"`}" ++ [NL].

(** The check of one required source: the error it leads to, if any. *)
Definition required_error (res : gmap bytes ResolutionResult) (sc : SourceConfig) : option bytes :=
  if negb (sc_required sc) then None
  else if resolved_ok res (sc_name sc) then None
  else
    let msg := $"required source '" ++ sc_name sc ++ $"' unavailable" in
    let msg :=
      match res !! sc_name sc with
      | Some r => if bool_decide (rr_message r = []) then msg else msg ++ $": " ++ rr_message r
      | None => msg
      end in
    Some (lit $"{`status`:`error`,`message`:`" ++ msg ++ lit $"`}" ++ [NL]).

Definition run `{IterOrder} (now : Z) (report_name : bytes) (p : ReportPipeline) : bytes :=
  match configs_ p !! report_name with
  | None => unknown_report report_name
  | Some cfg =>
      let resolution := resolve_phase (registry_ p) cfg in
      match omap (required_error resolution) (rc_sources cfg) with
      | err :: _ => err
      | [] => generate_phase now cfg resolution (pipeline_phase (registry_ p) cfg resolution)
      end
  end.

(** ** Resolution *)

(** What one source resolves to, and whether it can be fetched from. *)
Definition source_ok (reg : DataSourceRegistry) (cfg : ReportConfig) (sc : SourceConfig) : bool :=
  bool_decide (rr_status (resolve_source reg cfg sc) = OK).

Definition blocks (reg : DataSourceRegistry) (cfg : ReportConfig) (sc : SourceConfig) : bool :=
  sc_required sc && negb (source_ok reg cfg sc).

Lemma resolve_phase_lookup reg cfg sc :
  NoDup (map sc_name (rc_sources cfg)) -> sc ∈ rc_sources cfg ->
  resolve_phase reg cfg !! sc_name sc = Some (resolve_source reg cfg sc).
Proof.
  unfold resolve_phase. generalize (rc_sources cfg) as l. intros l.
  induction l as [|x l IH] using rev_ind; intros Hnd Hin; [by apply elem_of_nil in Hin|].
  rewrite foldl_snoc. rewrite map_app in Hnd. apply NoDup_app in Hnd as (Hnd & Hd & _).
  apply elem_of_app in Hin as [Hin|Hin%list_elem_of_singleton]; [|by subst; apply lookup_insert_eq].
  rewrite lookup_insert_ne; [by apply IH|]. intros E. apply (Hd (sc_name sc)).
  - apply list_elem_of_fmap. by exists sc.
  - simpl. rewrite E. apply list_elem_of_here.
Qed.

Lemma resolved_ok_source reg cfg sc :
  NoDup (map sc_name (rc_sources cfg)) -> sc ∈ rc_sources cfg ->
  resolved_ok (resolve_phase reg cfg) (sc_name sc) = source_ok reg cfg sc.
Proof. intros Hnd Hin. unfold resolved_ok. by rewrite resolve_phase_lookup. Qed.

(** The error text a blocking source leads to. *)
Definition blocked_response (reg : DataSourceRegistry) (cfg : ReportConfig) (sc : SourceConfig) : bytes :=
  let m := rr_message (resolve_source reg cfg sc) in
  lit $"{`status`:`error`,`message`:`" ++
  ($"required source '" ++ sc_name sc ++ $"' unavailable" ++
   if bool_decide (m = []) then [] else $": " ++ m) ++ lit $"`}" ++ [NL].

Lemma required_error_source reg cfg sc :
  NoDup (map sc_name (rc_sources cfg)) -> sc ∈ rc_sources cfg ->
  required_error (resolve_phase reg cfg) sc =
    if blocks reg cfg sc then Some (blocked_response reg cfg sc) else None.
Proof.
  intros Hnd Hin. unfold required_error, blocks. rewrite resolved_ok_source by done.
  destruct (sc_required sc); [|done]. cbn [negb andb]. destruct (source_ok reg cfg sc); [done|]. cbn [negb].
  rewrite resolve_phase_lookup by done. unfold blocked_response.
  case_bool_decide; by rewrite <-?app_assoc, ?app_nil_r.
Qed.

Lemma omap_guard {A B} (f g : A -> option B) (l : list A) : (forall x, x ∈ l -> f x = g x) -> omap f l = omap g l.
Proof.
  induction l as [|x l IH]; intros H; [done|]. csimpl. rewrite (H x) by apply list_elem_of_here.
  rewrite IH; [done|]. intros y Hy. apply H. by apply list_elem_of_further.
Qed.

(** The first source that blocks the report. *)
Definition first_blocking (reg : DataSourceRegistry) (cfg : ReportConfig) : option SourceConfig :=
  head (filter (fun sc => blocks reg cfg sc = true) (rc_sources cfg)).

(** What is fetched: from the sources that resolved to OK, in order. *)
Definition fetched (reg : DataSourceRegistry) (cfg : ReportConfig) : list SourceData :=
  omap (fun sc => if source_ok reg cfg sc
                  then (fun src => ds_fetch src (rc_symbols cfg)) <$> (reg !! sc_name sc) else None)
    (rc_sources cfg).

Lemma pipeline_phase_fetched reg cfg :
  NoDup (map sc_name (rc_sources cfg)) -> pipeline_phase reg cfg (resolve_phase reg cfg) = fetched reg cfg.
Proof.
  intros Hnd. apply omap_guard. intros sc Hin. rewrite resolved_ok_source by done.
  destruct (source_ok reg cfg sc); [|done]. unfold registry_get. by destruct (reg !! sc_name sc).
Qed.

Lemma omap_required_error reg cfg l :
  (forall sc, sc ∈ l -> required_error (resolve_phase reg cfg) sc =
     if blocks reg cfg sc then Some (blocked_response reg cfg sc) else None) ->
  omap (required_error (resolve_phase reg cfg)) l =
  map (blocked_response reg cfg) (filter (fun sc => blocks reg cfg sc = true) l).
Proof.
  induction l as [|sc l IH]; intros H; [done|]. rewrite filter_cons. csimpl.
  rewrite H by apply list_elem_of_here. rewrite IH by (intros; apply H; by apply list_elem_of_further).
  by destruct (blocks reg cfg sc).
Qed.

(** ** Exchange source *)

Section exchange.
Context `{IterOrder}.

Definition live_bbo (sd : SourceData) (sym ex : bytes) : option BboData := sd_live sd !! sym ≫= (fun m => m !! ex).

(** The last snapshot of an exchange in a list. *)
Definition last_of (name : bytes) (l : list OrderBookSnapshot) : option OrderBookSnapshot :=
  last (filter (fun s => sn_exchange s = name) l).

Lemma fetch_snapshots_live name sym l sd sym' ex :
  live_bbo (foldl (fetch_snapshot name sym) sd l) sym' ex =
    if bool_decide (sym' = sym /\ ex = name)
    then match last_of name l with Some s => Some (bbo_of s) | None => live_bbo sd sym' ex end
    else live_bbo sd sym' ex.
Proof using.
  induction l as [|s l IH] using rev_ind; [by case_bool_decide|].
  rewrite foldl_snoc. unfold fetch_snapshot at 1, last_of. rewrite filter_app, filter_cons, filter_nil.
  destruct (decide (sn_exchange s = name)) as [E|E].
  2: { rewrite bool_decide_false by done. by rewrite IH, app_nil_r. }
  rewrite bool_decide_true by done. rewrite last_snoc. unfold live_bbo at 1. simpl.
  destruct (decide (sym' = sym)) as [->|Hs].
  - rewrite lookup_insert_eq. simpl. destruct (decide (ex = name)) as [->|Hx].
    + rewrite <-E at 1. rewrite lookup_insert_eq. by rewrite bool_decide_true.
    + rewrite lookup_insert_ne by congruence. rewrite bool_decide_false in IH |- * by (intros [? ?]; congruence).
      rewrite <-IH. unfold live_bbo. by destruct (sd_live _ !! sym).
  - rewrite lookup_insert_ne by done. rewrite bool_decide_false in IH |- * by (intros [? ?]; congruence). exact IH.
Qed.

Lemma exchange_fetch_live e name symbols sym ex :
  live_bbo (exchange_fetch e name symbols) sym ex =
    if bool_decide (sym ∈ symbols /\ ex = name) then bbo_of <$> last_of name (get_snapshots sym e) else None.
Proof using.
  unfold exchange_fetch. induction symbols as [|s l IH] using rev_ind.
  { rewrite bool_decide_false; [done|]. by intros [?%elem_of_nil _]. }
  rewrite foldl_snoc, fetch_snapshots_live, IH. clear IH.
  destruct (decide (ex = name)) as [->|Hx].
  2: { rewrite !bool_decide_false; [done|intros [? ?]; congruence..]. }
  destruct (decide (sym = s)) as [->|Hs].
  - rewrite bool_decide_true by done. rewrite (bool_decide_true (s ∈ l ++ [s] /\ _)).
    2: { split; [|done]. rewrite elem_of_app, list_elem_of_singleton. by right. }
    destruct (last_of name (get_snapshots s e)); [done|]. by case_bool_decide.
  - rewrite (bool_decide_false (sym = s /\ _)) by (intros [? ?]; congruence).
    rewrite (bool_decide_ext (sym ∈ l ++ [s] /\ name = name) (sym ∈ l /\ name = name)); [done|].
    rewrite elem_of_app, list_elem_of_singleton. by intuition congruence.
Qed.

Lemma last_of_some name l s : last_of name l = Some s -> s ∈ l /\ sn_exchange s = name.
Proof using.
  intros Hs%last_Some_elem_of. unfold last_of in Hs. apply list_elem_of_filter in Hs as [? ?]. done.
Qed.

(** ** Properties *)

(** C27: A report is produced exactly from the sources that are fit, or refused
    by the first unfit one it requires.  For a configuration whose source names
    differ: an unknown report name is an error; when some required source does
    not resolve to OK (unregistered, stale or unreachable) under its own
    staleness limit, the answer is the error of the first such source and
    nothing is generated; otherwise the report is generated from the data of
    exactly the registered sources that resolved to OK, in their order. *)
Theorem run_spec now name p :
  (forall cfg, configs_ p !! name = Some cfg -> NoDup (map sc_name (rc_sources cfg))) ->
  run now name p =
    match configs_ p !! name with
    | None => unknown_report name
    | Some cfg =>
        match first_blocking (registry_ p) cfg with
        | Some sc => blocked_response (registry_ p) cfg sc
        | None => generate_phase now cfg (resolve_phase (registry_ p) cfg) (fetched (registry_ p) cfg)
        end
    end.
Proof using.
  intros Hnd. unfold run. destruct (configs_ p !! name) as [cfg|]; [|done]. specialize (Hnd cfg eq_refl).
  rewrite omap_required_error by (intros; by apply required_error_source).
  unfold first_blocking. destruct (filter _ (rc_sources cfg)) as [|sc l]; simpl; [|done].
  by rewrite pipeline_phase_fetched.
Qed.

(** The exchange source promises what the pipeline relies on: it resolves
    to OK exactly when its feed has a known staleness within the limit, and
    then with an empty message; and the data it fetches holds, for each
    requested symbol and under its own name only, the best prices of the last
    of its non-empty books that [get_snapshots] returns for the symbol, and
    nothing else. *)
Theorem exchange_source_spec now e name symbols limit :
  let src := ExchangeDataSource now e name in
  (rr_status (ds_resolve src symbols limit) = OK <->
     exists ms, get_feed_staleness_ms now e !! name = Some ms /\ ms <> UINT64_MAX /\ ms <= limit) /\
  (rr_status (ds_resolve src symbols limit) = OK -> rr_message (ds_resolve src symbols limit) = []) /\
  (forall sym ex, live_bbo (ds_fetch src symbols) sym ex =
     if bool_decide (sym ∈ symbols /\ ex = name)
     then bbo_of <$> last_of name (get_snapshots sym e) else None) /\
  (forall sym s, last_of name (get_snapshots sym e) = Some s ->
     snap_empty s = false /\ sn_exchange s = name).
Proof using.
  cbn [ExchangeDataSource ds_resolve ds_fetch]. unfold exchange_resolve.
  split; [|split; [|split]].
  - destruct (get_feed_staleness_ms now e !! name) as [ms|]; [|split; [done|by intros (? & ? & _)]].
    destruct (Z.eqb_spec ms UINT64_MAX), (Z.ltb_spec limit ms); simpl.
    + split; [done|]. by intros (? & [= <-] & ? & _).
    + split; [done|]. by intros (? & [= <-] & ? & _).
    + split; [done|]. intros (? & [= <-] & _ & ?). lia.
    + split; [|done]. intros _. by exists ms.
  - destruct (get_feed_staleness_ms now e !! name) as [ms|]; [|done].
    by destruct (ms =? UINT64_MAX), (limit <? ms).
  - intros sym ex. apply exchange_fetch_live.
  - intros sym s [Hin Hs]%last_of_some. split; [|done].
    apply get_snapshots_elem in Hin as (v & b & _ & He & -> & _). by rewrite empty_snapshot.
Qed.

(** ** Framing *)

(** A source whose answers can be put on a line. *)
Definition plain_source (src : DataSource) : Prop :=
  forall symbols limit,
    (NL ∉ rr_message (ds_resolve src symbols limit)) /\
    forall sym ex b, live_bbo (ds_fetch src symbols) sym ex = Some b -> NL ∉ ex.

Definition plain_config (cfg : ReportConfig) : Prop :=
  (NL ∉ rc_name cfg) /\ Forall (fun s => NL ∉ s) (rc_symbols cfg) /\
  Forall (fun sc => NL ∉ sc_name sc) (rc_sources cfg).

Definition plain_pipeline (p : ReportPipeline) : Prop :=
  (forall n cfg, configs_ p !! n = Some cfg -> (NL ∉ n) /\ plain_config cfg) /\
  (forall n src, registry_ p !! n = Some src -> plain_source src).

Lemma NL_escape m : NL ∉ m -> NL ∉ map escape_char m.
Proof using. apply NL_map. intros c. unfold escape_char. by case_bool_decide. Qed.

Lemma plain_resolve_source p cfg sc :
  plain_pipeline p -> NL ∉ sc_name sc -> NL ∉ rr_message (resolve_source (registry_ p) cfg sc).
Proof using.
  intros [_ Hs] Hn. unfold resolve_source, registry_get.
  destruct (registry_ p !! sc_name sc) as [src|] eqn:E; [by apply (Hs _ _ E)|]. simpl. no_newline.
Qed.

Lemma resolve_phase_plain p cfg n r :
  plain_pipeline p -> plain_config cfg -> resolve_phase (registry_ p) cfg !! n = Some r -> NL ∉ rr_message r.
Proof using.
  intros Hp (_ & _ & Hc). unfold resolve_phase.
  revert n r. induction (rc_sources cfg) as [|sc l IH] using rev_ind; intros n r; [by simpl; rewrite lookup_empty|].
  apply Forall_app in Hc as [Hl [Hsc _]%Forall_cons]. rewrite foldl_snoc.
  intros [[_ <-]|[_ Hr]]%lookup_insert_Some; [by apply plain_resolve_source|by apply (IH Hl n)].
Qed.

Lemma NL_source_json res sc :
  NL ∉ sc_name sc -> (forall r, res !! sc_name sc = Some r -> NL ∉ rr_message r) -> NL ∉ source_json res sc.
Proof using.
  intros Hn Hr. unfold source_json. destruct (res !! sc_name sc) as [r|]; no_newline.
  - by destruct (rr_status r); apply NL_literal.
  - case_bool_decide; [apply not_elem_of_nil|]. specialize (Hr r eq_refl). pose proof (NL_escape _ Hr). no_newline.
Qed.

Lemma NL_bbo_json ex b : NL ∉ ex -> NL ∉ bbo_json ex b.
Proof using. intros Hx. unfold bbo_json. no_newline. Qed.

Lemma NL_symbol_json data sym :
  NL ∉ sym ->
  Forall (fun sd => forall ex b, live_bbo sd sym ex = Some b -> NL ∉ ex) data ->
  NL ∉ symbol_json data sym.
Proof using.
  intros Hs Hd. unfold symbol_json, historical_json.
  destruct (omap (fun sd => sd_historical sd !! sym) data) as [|hs l]; no_newline.
  all: apply NL_commas, Forall_forall; intros x (sd & Hx & Hsd)%list_elem_of_bind;
    rewrite Forall_forall in Hd; specialize (Hd _ Hsd); unfold live_bbo in Hd;
    destruct (sd_live sd !! sym) as [m|]; [|by apply elem_of_nil in Hx];
    apply list_elem_of_fmap in Hx as ([ex b] & -> & Hin%elem_of_iter_map); by apply NL_bbo_json, (Hd ex b).
Qed.

(** Whatever the outcome, the answer to a REPORT request is exactly one
    line, provided the configured names, the answers of the sources and the
    requested name hold no newline. *)
Theorem run_framed now name p : plain_pipeline p -> NL ∉ name -> framed (run now name p).
Proof using.
  intros Hp Hn. unfold run. destruct (configs_ p !! name) as [cfg|] eqn:Ec.
  2: { unfold unknown_report. rewrite !app_assoc. apply framed_app. no_newline. }
  destruct (proj1 Hp _ _ Ec) as [_ Hc]. pose proof Hc as (Hc1 & Hc2 & Hc3).
  assert (Hres := fun n r => resolve_phase_plain p cfg n r Hp Hc).
  destruct (omap (required_error (resolve_phase (registry_ p) cfg)) (rc_sources cfg)) as [|err l] eqn:Eo.
  - unfold generate_phase. rewrite !app_assoc. apply framed_app. no_newline.
    + apply NL_commas, Forall_forall. intros x (sc & -> & Hin)%list_elem_of_fmap.
      rewrite Forall_forall in Hc3. apply NL_source_json; [by apply Hc3|]. intros r. apply Hres.
    + apply NL_commas, Forall_forall. intros x (sym & -> & Hin)%list_elem_of_fmap.
      rewrite Forall_forall in Hc2. apply NL_symbol_json; [by apply Hc2|].
      apply Forall_forall. intros sd Hsd ex b Hb.
      apply list_elem_of_omap in Hsd as (sc & Hsc & Hf). destruct (negb _); [done|].
      destruct (registry_get (sc_name sc) (registry_ p)) as [src|] eqn:Er; [|done]. injection Hf as <-.
      by apply (proj2 (proj2 Hp _ _ Er (rc_symbols cfg) 0) sym ex b).
  - assert (Hin : err ∈ omap (required_error (resolve_phase (registry_ p) cfg)) (rc_sources cfg))
      by (rewrite Eo; apply list_elem_of_here).
    apply list_elem_of_omap in Hin as (sc & Hsc & Hf). unfold required_error in Hf.
    destruct (negb _); [done|]. destruct (resolved_ok _ _); [done|].
    cbv zeta in Hf. apply (inj Some) in Hf. rewrite <-Hf.
    rewrite Forall_forall in Hc3. specialize (Hc3 _ Hsc). rewrite !app_assoc. apply framed_app.
    destruct (resolve_phase (registry_ p) cfg !! sc_name sc) as [r|] eqn:Er; [specialize (Hres _ _ Er); case_bool_decide|];
      no_newline.
Qed.
End exchange.

(** ** Witnesses *)

Definition ex_config (required : bool) : ReportConfig :=
  mkReportConfig $"bbo" [$"BTC"] [mkSourceConfig $"Binance" required 500; mkSourceConfig $"Kraken" false 500].

Definition ex_pipeline : ReportPipeline :=
  mkReportPipeline
    (register_source (Some (@ExchangeDataSource default_order 1300 ex_e2 $"Binance")) ∅)
    (<[$"bbo" := ex_config true]> ∅).

Lemma ex_pipeline_config n cfg : configs_ ex_pipeline !! n = Some cfg -> n = $"bbo" /\ cfg = ex_config true.
Proof. unfold ex_pipeline. cbn [configs_]. by intros [[<- <-]|[_ Hn]]%lookup_insert_Some; [|rewrite lookup_empty in Hn]. Qed.

Lemma run_spec_witness :
  @run default_order 1300 $"bbo" ex_pipeline =
    @generate_phase default_order 1300 (ex_config true) (resolve_phase (registry_ ex_pipeline) (ex_config true))
      (fetched (registry_ ex_pipeline) (ex_config true)) /\
  length (fetched (registry_ ex_pipeline) (ex_config true)) = 1%nat.
Proof.
  split; [|vm_compute; reflexivity].
  rewrite (@run_spec default_order 1300 $"bbo" ex_pipeline).
  - by vm_compute.
  - intros cfg [_ ->]%ex_pipeline_config. by apply (bool_decide_eq_true_1 _).
Defined.

Lemma run_framed_witness : framed (@run default_order 1300 $"nope" (mkReportPipeline ∅ (<[$"bbo" := ex_config true]> ∅))).
Proof.
  apply (@run_framed default_order); [|by apply NL_literal]. split; [|cbn [registry_]; intros n src Hn; by rewrite lookup_empty in Hn].
  cbn [configs_]. intros n cfg [[<- <-]|[_ Hn]]%lookup_insert_Some; [|by rewrite lookup_empty in Hn].
  split; [by apply NL_literal|]. split; [by apply NL_literal|]. by split; repeat constructor; apply NL_literal.
Defined.
