(* ===== verification/RemoteSources.v ===== *)
(** * Remote data sources (src/remote_data_source.cpp,
    src/questdb_data_source.cpp)

    The two sources of the report pipeline that ask another process: another
    TickPlant's query server, one line per request, and QuestDB over HTTP.  The
    network is an argument: the bytes received for a request.  JSON is read
    through the interface [JsonLib]; an exception is caught and leaves what was
    already stored. *)

From S2P Require Import Prelude Float64 Str Json Types OrderBook ArbEngine QueryProtocol Reports.

(** ** One-line requests *)

(** What a request meets: no connection or a failed send ([None]), or the
    results of [recv] until the peer closes; each is one chunk of bytes. *)
Abbreviation LineNetwork := (bytes -> option (list bytes)).

Definition ends_line (s : bytes) : bool := bool_decide (last s = Some NL).

(** The receive loop: an empty chunk is end of stream, an error or a timeout. *)
Fixpoint recv_line (chunks : list bytes) (resp : bytes) : bytes :=
  match chunks with
  | [] => resp
  | d :: chunks' =>
      if bool_decide (d = []) then resp
      else if ends_line (resp ++ d) then resp ++ d
      else recv_line chunks' (resp ++ d)
  end.

Definition strip_newline (resp : bytes) : bytes :=
  if ends_line resp then take (length resp - 1) resp else resp.

Definition send_command (net : LineNetwork) (cmd : bytes) : bytes :=
  match net (cmd ++ [NL]) with
  | None => []
  | Some chunks => strip_newline (recv_line chunks [])
  end.

Section json.
Context `{JsonLib}.

(** ** RemoteDataSource *)

Record RemoteDataSource := mkRemoteDataSource { rm_name : bytes; rm_host : bytes; rm_port : Z }.

(** The loop over the feeds: it stops at the first that is fresh enough. *)
Fixpoint any_live (max_staleness_ms : Z) (feeds : list json) : res bool :=
  match feeds with
  | [] => Ret false
  | feed :: feeds' =>
      ms ← json_value_int feed $"staleness_ms" (-1);
      if (0 <=? ms) && (ms <=? max_staleness_ms) then Ret true else any_live max_staleness_ms feeds'
  end.

(** The [try] block of [resolve]. *)
Definition remote_health (src : RemoteDataSource) (max_staleness_ms : Z) (resp : bytes) : res ResolutionResult :=
  j ← or_throw (json_parse resp);
  status ← or_throw (json_value_string j $"status" []);
  if negb (bool_decide (status = $"ok"))
  then Ret (mkResolutionResult UNREACHABLE (rm_name src ++ $": HEALTH not ok")) else
  feeds ← json_ref j $"feeds";
  live ← any_live max_staleness_ms (json_items feeds);
  Ret (if live : bool then mkResolutionResult OK []
       else mkResolutionResult STALE (rm_name src ++ $": all remote feeds stale beyond threshold")).

(** [catch (...)] *)
Definition catch_all {A} (r : res A) (a : A) : ub A :=
  match r with Ret x => Some x | Throw => Some a | Undef => None end.

Definition remote_resolve (net : LineNetwork) (src : RemoteDataSource) (max_staleness_ms : Z) : ub ResolutionResult :=
  let resp := send_command net $"HEALTH" in
  if bool_decide (resp = []) then
    Some (mkResolutionResult UNREACHABLE
      (rm_name src ++ $": no response from " ++ rm_host src ++ $":" ++ to_string (rm_port src)))
  else catch_all (remote_health src max_staleness_ms resp)
         (mkResolutionResult UNREACHABLE (rm_name src ++ $": HEALTH parse error")).

Definition first_book_price (side : json) : res double :=
  if json_empty side then Ret dzero
  else l ← json_index side 0; p ← json_index l 0; or_throw (json_double p).

(** One element of "books": the exchange and its best prices. *)
Definition remote_book (book : json) : res (option (bytes * BboData)) :=
  exchange ← or_throw (json_value_string book $"exchange" []);
  if bool_decide (exchange = []) then Ret None else
  ts ← json_value_uint book $"timestamp_ms" 0;
  jb ← json_at book $"bids"; bid ← first_book_price jb;
  ja ← json_at book $"asks"; ask ← first_book_price ja;
  let both := dgt bid dzero && dgt ask dzero in
  Ret (Some (exchange, mkBboData bid ask
    (if both then ddiv (dadd bid ask) (dZ 2) else dzero)
    (if both then bps_over ask bid else dzero) ts)).

Definition store_live (sym : bytes) (sd : SourceData) (x : bytes * BboData) : SourceData :=
  sd <| sd_live := <[sym := <[fst x := snd x]> (default ∅ (sd_live sd !! sym))]> (sd_live sd) |>.

(** The loop over the books of one response. *)
Fixpoint remote_books (sym : bytes) (books : list json) (sd : SourceData) : SourceData * res unit :=
  match books with
  | [] => (sd, Ret tt)
  | book :: books' =>
      match remote_book book with
      | Ret (Some x) => remote_books sym books' (store_live sym sd x)
      | Ret None => remote_books sym books' sd
      | Throw => (sd, Throw)
      | Undef => (sd, Undef)
      end
  end.

(** The books of a response that says "ok"; [None]: [continue]. *)
Definition remote_response (resp : bytes) : res (list json) :=
  j ← or_throw (json_parse resp);
  status ← or_throw (json_value_string j $"status" []);
  if negb (bool_decide (status = $"ok")) then Ret [] else
  books ← json_ref j $"books"; Ret (json_items books).

Definition remote_fetch_symbol (net : LineNetwork) (sym : bytes) (sd : SourceData) : ub SourceData :=
  let resp := send_command net ($"SNAPSHOT " ++ sym) in
  if bool_decide (resp = []) then Some sd else
  match remote_response resp with
  | Ret books => match remote_books sym books sd with (_, Undef) => None | (sd', _) => Some sd' end
  | Throw => Some sd
  | Undef => None
  end.

Definition remote_fetch (net : LineNetwork) (src : RemoteDataSource) (symbols : list bytes) : ub SourceData :=
  foldl (fun r sym => r ≫= remote_fetch_symbol net sym) (Some (mkSourceData (rm_name src) ∅ ∅)) symbols.
End json.

(** ** QuestDB: HTTP *)

Definition unreserved (c : ascii) : bool :=
  is_upper c || is_lower c || is_digit c ||
  bool_decide (c = "-"%char) || bool_decide (c = "_"%char) || bool_decide (c = "."%char) || bool_decide (c = "~"%char).

(** [%02X] *)
Definition hex_digit (d : Z) : ascii := if d <? 10 then digit d else byte_of (55 + d).
Definition percent (c : ascii) : bytes :=
  ["%"%char; hex_digit (byte_val c / 16); hex_digit (byte_val c mod 16)].

Definition url_encode (s : bytes) : bytes := concat (map (fun c => if unreserved c then [c] else percent c) s).

Definition CRLF : bytes := [CR; NL].

(** [std::stoul(s, nullptr, 16)]: white space, sign, optional [0x], digits;
    a minus sign negates modulo [2^64]; [None] is an exception. *)
Definition stoul16 (s : bytes) : option Z :=
  let s := ltrim is_space (c_str s) in
  let '(neg, s) :=
    match s with
    | "+"%char :: r => (false, r)
    | "-"%char :: r => (true, r)
    | _ => (false, s)
    end in
  let s :=
    match s with
    | "0"%char :: x :: d :: r => if bool_decide (tolower x = "x"%char) && is_hex d then d :: r else s
    | _ => s
    end in
  let ds := fst (span is_hex s) in
  if bool_decide (ds = []) then None
  else if hex_value ds <=? UINT64_MAX
       then Some (if neg then wrap64 (- hex_value ds) else hex_value ds) else None.

(** The size of the chunk announced by a line, extensions cut off. *)
Definition chunk_size (size_str : bytes) : option Z :=
  stoul16 (match find_char ";"%char size_str with Some semi => take semi size_str | None => size_str end).

(** The decoder's loop from [pos]; positions are 64 bits wide and wrap.  The
    fuel counts iterations, [None] is fuel run out. *)
Fixpoint decode_loop (fuel : nat) (body : bytes) (pos : Z) (result : bytes) : option bytes :=
  match fuel with
  | O => None
  | S fuel' =>
      if Z.of_nat (length body) <=? pos then Some result
      else match find_sub_from CRLF body (Z.to_nat pos) with
      | None => Some result
      | Some nl =>
          match chunk_size (take (nl - Z.to_nat pos) (drop (Z.to_nat pos) body)) with
          | None => Some result
          | Some n =>
              if n =? 0 then Some result
              else
                let pos := wrap64 (Z.of_nat nl + 2) in
                if Z.of_nat (length body) <? wrap64 (pos + n) then Some result
                else decode_loop fuel' body (wrap64 (wrap64 (pos + n) + 2))
                       (result ++ take (Z.to_nat n) (drop (Z.to_nat pos) body))
          end
      end
  end.

Definition decode_chunked (fuel : nat) (body : bytes) : option bytes := decode_loop fuel body 0 [].

(** The network of an HTTP request: the whole response until the server closes
    the connection, [None] when connecting or sending fails. *)
Abbreviation HttpNetwork := (bytes -> option bytes).

Definition http_request (host path : bytes) : bytes :=
  $"GET " ++ path ++ $" HTTP/1.1" ++ CRLF ++ $"Host: " ++ host ++ CRLF ++ $"Connection: close" ++ CRLF ++ CRLF.

(** The body of a response, decoded if it is chunked; the empty string when
    there is no blank line. *)
Definition response_body (fuel : nat) (resp : bytes) : option bytes :=
  match find_sub (CRLF ++ CRLF) resp with
  | None => Some []
  | Some sep =>
      let headers := take sep resp in
      let body := drop (sep + 4) resp in
      match find_sub $"transfer-encoding: chunked" (map tolower headers) with
      | Some _ => decode_chunked fuel body
      | None => Some body
      end
  end.

Definition http_get (net : HttpNetwork) (fuel : nat) (host path : bytes) : option bytes :=
  match net (http_request host path) with
  | None => Some []
  | Some resp => response_body fuel resp
  end.

(** ** QuestDbDataSource *)

Definition count_query : bytes := $"SELECT count() FROM order_book LIMIT 1".
Definition history_query : bytes :=
  $"SELECT symbol, avg(spread_bps), min(bid), max(ask), count() FROM order_book WHERE timestamp > dateadd('h',-1,now())".

Section questdb.
Context `{JsonLib}.

Definition stale_table : ResolutionResult := mkResolutionResult STALE $"QuestDB: order_book table is empty".

(** The [try] block of [resolve]. *)
Definition questdb_count (body : bytes) : res ResolutionResult :=
  j ← or_throw (json_parse body);
  if json_contains j $"error" then
    e ← json_ref j $"error"; msg ← or_throw (json_string e);
    Ret (mkResolutionResult UNREACHABLE ($"QuestDB error: " ++ msg))
  else if negb (json_contains j $"dataset") then Ret stale_table else
  dataset ← json_ref j $"dataset";
  if json_empty dataset then Ret stale_table else
  row ← json_ref_index dataset 0;
  if json_empty row then Ret stale_table else
  cell ← json_ref_index row 0; cnt ← json_uint cell;
  Ret (if cnt =? 0 then stale_table else mkResolutionResult OK []).

Definition questdb_resolve (net : HttpNetwork) (fuel : nat) (host : bytes) : option ResolutionResult :=
  body ← http_get net fuel host ($"/exec?query=" ++ url_encode count_query ++ $"&limit=1");
  if bool_decide (body = []) then Some (mkResolutionResult UNREACHABLE $"QuestDB HTTP endpoint unreachable")
  else catch_all (questdb_count body)
         (mkResolutionResult UNREACHABLE ($"QuestDB: parse error — body preview: " ++ take 120 body)).

Definition null_or {A} (get : json -> res A) (d : A) (cell : json) : res A :=
  if json_is_null cell then Ret d else get cell.

(** One row: [[symbol, avg_spread_bps, min_bid, max_ask, count]]. *)
Definition questdb_row (symbols : list bytes) (row : json) : res (option (bytes * HistoricalStats)) :=
  if (json_size row <? 5)%nat then Ret None else
  s ← json_index row 0; sym ← or_throw (json_string s);
  if negb (bool_decide (sym ∈ symbols)) then Ret None else
  c1 ← json_index row 1; avg ← null_or (fun c => or_throw (json_double c)) dzero c1;
  c2 ← json_index row 2; lo ← null_or (fun c => or_throw (json_double c)) dzero c2;
  c3 ← json_index row 3; hi ← null_or (fun c => or_throw (json_double c)) dzero c3;
  c4 ← json_index row 4; n ← null_or json_uint 0 c4;
  Ret (Some (sym, mkHistoricalStats avg lo hi n)).

Fixpoint questdb_rows (symbols : list bytes) (rows : list json) (sd : SourceData) : SourceData * res unit :=
  match rows with
  | [] => (sd, Ret tt)
  | row :: rows' =>
      match questdb_row symbols row with
      | Ret (Some (sym, hs)) =>
          questdb_rows symbols rows' (sd <| sd_historical := <[sym := hs]> (sd_historical sd) |>)
      | Ret None => questdb_rows symbols rows' sd
      | Throw => (sd, Throw)
      | Undef => (sd, Undef)
      end
  end.

Definition questdb_dataset (body : bytes) : res (list json) :=
  j ← or_throw (json_parse body);
  if negb (json_contains j $"dataset") then Ret [] else
  dataset ← json_ref j $"dataset"; Ret (json_items dataset).

Definition questdb_fetch (net : HttpNetwork) (fuel : nat) (host : bytes) (symbols : list bytes) : option SourceData :=
  let sd := mkSourceData $"QuestDB" ∅ ∅ in
  body ← http_get net fuel host ($"/exec?query=" ++ url_encode history_query ++ $"&limit=10000");
  if bool_decide (body = []) then Some sd else
  match questdb_dataset body with
  | Ret rows => match questdb_rows symbols rows sd with (_, Undef) => None | (sd', _) => Some sd' end
  | Throw => Some sd
  | Undef => None
  end.
End questdb.

(** ** Requests *)

Lemma ends_line_snoc s : ends_line (s ++ [NL]) = true.
Proof. unfold ends_line. by rewrite last_snoc, bool_decide_true. Qed.

Lemma ends_line_true s : ends_line s = true -> exists t, s = t ++ [NL].
Proof. intros Hl%bool_decide_eq_true_1. by apply last_Some in Hl. Qed.

Lemma recv_line_whole chunks resp body :
  Forall (fun d => d <> []) chunks -> (NL ∉ body) -> (NL ∉ resp) ->
  resp ++ concat chunks = body ++ [NL] -> recv_line chunks resp = body ++ [NL].
Proof.
  intros Hc Hb. revert resp. induction Hc as [|d chunks Hd Hc IH]; intros resp Hr E.
  { simpl in E. rewrite app_nil_r in E. subst. exfalso. apply Hr. rewrite elem_of_app. right. apply list_elem_of_here. }
  simpl in *. rewrite bool_decide_false by done. rewrite app_assoc in E.
  destruct (concat chunks) as [|x l _] eqn:El using rev_ind.
  { rewrite app_nil_r in E. by rewrite E, ends_line_snoc. }
  rewrite app_assoc in E. apply app_inj_tail in E as [E ->].
  assert (Hrd : NL ∉ resp ++ d) by (intros Hin; apply Hb; rewrite <-E, elem_of_app; by left).
  destruct (ends_line (resp ++ d)) eqn:Ee.
  { apply ends_line_true in Ee as [t Et]. exfalso. apply Hrd. rewrite Et, elem_of_app. right. apply list_elem_of_here. }
  apply IH; [done|]. by rewrite app_assoc, E.
Qed.

Lemma strip_newline_snoc body : strip_newline (body ++ [NL]) = body.
Proof.
  unfold strip_newline. rewrite ends_line_snoc, length_app. simpl.
  replace (length body + 1 - 1)%nat with (length body) by lia. apply take_app_length.
Qed.

(** A request gets the server's answer back, however the network cuts it
    into pieces: when the peer is sent the command and a newline and replies
    with one line, [send_command] returns that line without its newline. *)
Theorem send_command_line net cmd chunks body :
  net (cmd ++ [NL]) = Some chunks -> Forall (fun d => d <> []) chunks ->
  (NL ∉ body) -> concat chunks = body ++ [NL] -> send_command net cmd = body.
Proof.
  intros Hn Hc Hb E. unfold send_command. rewrite Hn.
  rewrite (recv_line_whole chunks [] body) by (done || apply not_elem_of_nil). apply strip_newline_snoc.
Qed.

(** ** URL encoding *)

(** Percent-decoding, as a server does it. *)
Fixpoint url_decode (s : bytes) : option bytes :=
  match s with
  | [] => Some []
  | "%"%char :: h :: l :: s' =>
      a ← hex_val h; b ← hex_val l; t ← url_decode s'; Some (byte_of (16 * a + b) :: t)
  | c :: s' => t ← url_decode s'; Some (c :: t)
  end.

Lemma hex_digit_val d : 0 <= d < 16 -> hex_val (hex_digit d) = Some d.
Proof.
  intros Hd. assert (H : Forall (fun d => hex_val (hex_digit d) = Some d) (seqZ 0 16)) by (repeat constructor).
  rewrite Forall_forall in H. apply H, elem_of_seqZ. lia.
Qed.

Lemma url_decode_plain c s : c <> "%"%char -> url_decode (c :: s) = t ← url_decode s; Some (c :: t).
Proof. intros Hc. destruct c as [[] [] [] [] [] [] [] []]; try reflexivity. done. Qed.

Lemma unreserved_not_percent c : unreserved c = true -> c <> "%"%char.
Proof. by intros H ->. Qed.

(** URL encoding loses nothing and leaves nothing special in the URL:
    percent-decoding gives the string back, for every string of bytes, and the
    encoded text consists of unreserved characters and percent signs. *)
Theorem url_encode_decode s :
  url_decode (url_encode s) = Some s /\
  Forall (fun c => unreserved c = true \/ c = "%"%char) (url_encode s).
Proof.
  induction s as [|c s [IHd IHc]]; [by split|].
  change (url_encode (c :: s)) with ((if unreserved c then [c] else percent c) ++ url_encode s).
  destruct (unreserved c) eqn:E.
  - cbn [app]. split; [|apply Forall_cons; split; [by left|done]]. rewrite url_decode_plain by (by apply unreserved_not_percent).
    by rewrite IHd.
  - pose proof (byte_val_range c) as Hc.
    assert (H1 : 0 <= byte_val c / 16 < 16) by (split; [apply Z.div_pos; lia|apply Z.div_lt_upper_bound; lia]).
    assert (H2 : 0 <= byte_val c mod 16 < 16) by (apply Z.mod_pos_bound; lia).
    split.
    + unfold percent. cbn [app url_decode]. rewrite !hex_digit_val by done. cbn [mbind option_bind].
      rewrite IHd. cbn [mbind option_bind]. rewrite <-Z.div_mod by lia. by rewrite byte_of_val.
    + assert (H : Forall (fun d => unreserved (hex_digit d) = true) (seqZ 0 16)) by (repeat constructor).
      rewrite Forall_forall in H. unfold percent. cbn [app].
      rewrite !Forall_cons. split_and!; [by right|left; apply H, elem_of_seqZ; lia..|done].
Qed.

(** ** Chunked transfer encoding *)

(** A chunk: the line that announces it and its data. *)
Definition chunk_text (x : bytes * bytes) : bytes := fst x ++ CRLF ++ snd x ++ CRLF.

Definition chunked_body (xs : list (bytes * bytes)) : bytes := concat (map chunk_text xs) ++ $"0" ++ CRLF ++ CRLF.

Definition good_chunk (x : bytes * bytes) : Prop :=
  chunk_size (fst x) = Some (Z.of_nat (length (snd x))) /\ snd x <> [] /\ CR ∉ fst x.

Lemma find_crlf (h s : bytes) : CR ∉ h -> find_sub CRLF (h ++ CRLF ++ s) = Some (length h).
Proof.
  induction h as [|c h IH]; intros Hc; [done|]. apply not_elem_of_cons in Hc as [Hne Hc].
  assert (E : is_prefix CRLF ((c :: h) ++ CRLF ++ s) = false).
  { unfold CRLF. simpl. by rewrite (bool_decide_false (CR = c)) by congruence. }
  transitivity (S <$> find_sub CRLF (h ++ CRLF ++ s)); [|by rewrite IH].
  cbn [app find_sub] in *. by rewrite E.
Qed.

Lemma find_crlf_from pre h s :
  CR ∉ h -> find_sub_from CRLF (pre ++ h ++ CRLF ++ s) (length pre) = Some (length pre + length h)%nat.
Proof.
  intros Hh. unfold find_sub_from. rewrite (proj2 (Nat.ltb_ge _ _)) by (rewrite length_app; lia).
  by rewrite drop_app_length, find_crlf.
Qed.

Lemma decode_chunk fuel pre h d rest result :
  good_chunk (h, d) -> Z.of_nat (length (pre ++ chunk_text (h, d) ++ rest)) < two64 ->
  decode_loop (S fuel) (pre ++ chunk_text (h, d) ++ rest) (Z.of_nat (length pre)) result =
  decode_loop fuel (pre ++ chunk_text (h, d) ++ rest) (Z.of_nat (length (pre ++ chunk_text (h, d)))) (result ++ d).
Proof.
  intros (Hs & Hd & Hh). cbn [fst snd] in *. set (body := pre ++ chunk_text (h, d) ++ rest). intros Hlen.
  assert (Eb : body = pre ++ h ++ CRLF ++ d ++ CRLF ++ rest).
  { unfold body, chunk_text. cbn [fst snd]. by rewrite <-!app_assoc. }
  assert (El : length body = (length pre + length h + 2 + length d + 2 + length rest)%nat).
  { rewrite Eb, !length_app. simpl. lia. }
  assert (Ed : (0 < length d)%nat) by (destruct d; [done|simpl; lia]).
  cbn [decode_loop]. rewrite (proj2 (Z.leb_gt _ _)) by lia. rewrite Nat2Z.id, Eb, find_crlf_from by done.
  rewrite drop_app_length, Nat.add_comm, Nat.add_sub, take_app_length, Hs.
  rewrite (proj2 (Z.eqb_neq _ _)) by lia. rewrite <-Eb.
  rewrite !wrap64_small by (unfold in_u64; rewrite ?wrap64_small by (unfold in_u64; lia); lia).
  rewrite (proj2 (Z.ltb_ge _ _)) by lia. f_equal.
  - rewrite length_app. unfold chunk_text. rewrite !length_app. simpl. lia.
  - f_equal. rewrite Nat2Z.id, Eb.
    replace (Z.to_nat (Z.of_nat (length h + length pre) + 2)) with (length (pre ++ h ++ CRLF))
      by (rewrite !length_app; simpl; lia).
    replace (pre ++ h ++ CRLF ++ d ++ CRLF ++ rest) with ((pre ++ h ++ CRLF) ++ d ++ CRLF ++ rest)
      by (by rewrite <-!app_assoc).
    by rewrite drop_app_length, take_app_length.
Qed.

Lemma decode_chunks xs pre result :
  Forall good_chunk xs -> Z.of_nat (length (pre ++ chunked_body xs)) < two64 ->
  decode_loop (S (length xs)) (pre ++ chunked_body xs) (Z.of_nat (length pre)) result =
    Some (result ++ concat (map snd xs)).
Proof.
  intros Hxs. revert pre result. induction Hxs as [|[h d] xs Hx Hxs IH]; intros pre result Hlen.
  - cbn [decode_loop length]. unfold chunked_body. cbn [map concat app].
    rewrite (proj2 (Z.leb_gt _ _)) by (rewrite length_app; simpl; lia). rewrite Nat2Z.id.
    rewrite (find_crlf_from pre $"0" CRLF) by (by apply (bool_decide_eq_false_1 _)).
    rewrite drop_app_length, Nat.add_comm, Nat.add_sub. by rewrite app_nil_r.
  - unfold chunked_body in *. cbn [map concat] in *. rewrite <-!app_assoc in *.
    cbn [length]. rewrite decode_chunk by done.
    rewrite (app_assoc pre) in Hlen |- *. rewrite IH by done. by rewrite <-app_assoc.
Qed.

(** C28: Decoding a chunked body gives the data back: for any chunks, announced
    by any lines that read as their sizes (hexadecimal in either case, with
    extensions), the decoder stops within one iteration per chunk and one for
    the end, with exactly the concatenated data. *)
Theorem chunked_roundtrip xs :
  Forall good_chunk xs -> Z.of_nat (length (chunked_body xs)) < two64 ->
  decode_chunked (S (length xs)) (chunked_body xs) = Some (concat (map snd xs)).
Proof. intros Hxs Hlen. exact (decode_chunks xs [] [] Hxs Hlen). Qed.

(** A hostile body: the announced size wraps the position around to the line
    that announced it, and the decoder never ends. *)
Example decode_never_ends fuel : decode_chunked fuel ($"  ffffffffffffffec" ++ CRLF) = None.
Proof.
  assert (H : forall pos, pos = 0 \/ pos = 2 -> decode_loop fuel ($"  ffffffffffffffec" ++ CRLF) pos [] = None).
  { induction fuel as [|fuel IH]; intros pos Hp; [done|].
    transitivity (decode_loop fuel ($"  ffffffffffffffec" ++ CRLF) 2 []); [|apply IH; by right].
    by destruct Hp as [-> | ->]. }
  apply H. by left.
Qed.

(** ** What a response makes of the source *)

Section reading.
Context `{JsonLib}.

(** The books of a response that are stored, and whether a malformed one ended
    the loop. *)
Lemma remote_books_stored sym books sd :
  exists xs r, remote_books sym books sd = (foldl (store_live sym) sd xs, r) /\
    Forall (fun x => fst x <> []) xs /\
    exists read rest, books = read ++ rest /\ (r = Ret tt -> rest = []) /\
      xs = omap (fun b => match remote_book b with Ret o => o | _ => None end) read.
Proof.
  revert sd. induction books as [|b books IH]; intros sd.
  { exists [], (Ret tt). split_and!; [done|done|]. by exists [], []. }
  cbn [remote_books]. destruct (remote_book b) as [[x|]| |] eqn:E.
  - destruct (IH (store_live sym sd x)) as (xs & r & Hr & Hne & read & rest & -> & Hd & ->).
    exists (x :: omap (fun b => match remote_book b with Ret o => o | _ => None end) read), r. split_and!; [done| |].
    + constructor; [|done]. unfold remote_book in E. apply bind_ret in E as (ex & _ & E).
      case_bool_decide as Hex; [done|]. do 5 apply bind_ret in E as (? & _ & E). by injection E as <-.
    + exists (b :: read), rest. split_and!; [done|done|]. csimpl. by rewrite E.
  - destruct (IH sd) as (xs & r & Hr & Hne & read & rest & -> & Hd & ->).
    eexists _, r. split_and!; [exact Hr|done|].
    exists (b :: read), rest. split_and!; [done|done|]. csimpl. by rewrite E.
  - exists [], Throw. split_and!; [done|done|]. by exists [], (b :: books).
  - exists [], Undef. split_and!; [done|done|]. by exists [], (b :: books).
Qed.

(** Storing books of one symbol leaves the other symbols and the history
    alone; under each exchange the last book stays. *)
Lemma store_live_all sym sd xs :
  let sd' := foldl (store_live sym) sd xs in
  (forall sym', sym' <> sym -> sd_live sd' !! sym' = sd_live sd !! sym') /\
  sd_historical sd' = sd_historical sd /\ sd_source_name sd' = sd_source_name sd /\
  (forall ex, sd_live sd' !! sym ≫= (fun m => m !! ex) =
     match last (filter (fun x => fst x = ex) xs) with
     | Some x => Some (snd x)
     | None => sd_live sd !! sym ≫= (fun m => m !! ex)
     end).
Proof.
  induction xs as [|[ex0 b] xs IH] using rev_ind; [done|]. rewrite foldl_snoc.
  destruct IH as (H1 & H2 & H3 & H4). cbv zeta in *. split_and!; [| exact H2 | exact H3 |].
  - intros sym' Hne. simpl. by rewrite lookup_insert_ne, H1.
  - intros ex. simpl. rewrite lookup_insert_eq, filter_app, filter_cons, filter_nil. cbn [mbind option_bind fst].
    destruct (decide (ex0 = ex)) as [->|Hne].
    + by rewrite lookup_insert_eq, last_snoc.
    + rewrite app_nil_r, lookup_insert_ne by done. rewrite <-H4. by destruct (sd_live _ !! sym).
Qed.
End reading.

(** ** Witnesses *)

(** A health response cut into three pieces. *)
Definition ex_net (req : bytes) : option (list bytes) :=
  if bool_decide (req = $"HEALTH" ++ [NL]) then Some [$"{ok"; $"}"; [NL]] else None.

Lemma send_command_line_witness : send_command ex_net $"HEALTH" = $"{ok}".
Proof.
  apply (send_command_line ex_net $"HEALTH" [$"{ok"; $"}"; [NL]]);
    [reflexivity|by repeat constructor|by apply (bool_decide_eq_false_1 _)|reflexivity].
Defined.

Definition ex_chunks : list (bytes * bytes) := [($"3;name=v", $"abc"); ($"A", $"0123456789")].

Lemma chunked_roundtrip_witness : decode_chunked 3 (chunked_body ex_chunks) = Some $"abc0123456789".
Proof.
  apply (chunked_roundtrip ex_chunks); [|vm_compute; reflexivity].
  repeat constructor; try done; by apply (bool_decide_eq_false_1 _).
Defined.

(** A remote server's books, and a table row. *)
Definition ex_remote_parse (s : bytes) : option jtree :=
  if bool_decide (s = $"books") then
    Some (JObj [($"status", JStr $"ok"); ($"books", JArr [
      JObj [($"exchange", JStr $"Kraken"); ($"timestamp_ms", JInt 7);
            ($"bids", JArr [JArr [JInt 100; JInt 1]]); ($"asks", JArr [JArr [JInt 102; JInt 1]])]])])
  else if bool_decide (s = $"rows") then
    Some (JObj [($"dataset", JArr [JArr [JStr $"BTC"; JNull; JInt 1; JInt 2; JInt 9]; JArr [JStr $"ETH"]])])
  else None.

Example ex_remote_fetch :
  @remote_fetch (tree_json ex_remote_parse) (fun req => if bool_decide (req = $"SNAPSHOT BTC" ++ [NL]) then Some [$"books" ++ [NL]] else None)
    (mkRemoteDataSource $"NYC" $"10.0.0.1" 9092) [$"BTC"; $"ETH"] =
  Some (mkSourceData $"NYC" {[$"BTC" := {[$"Kraken" := mkBboData (dZ 100) (dZ 102) (dZ 101) (dZ 200) 7]}]} ∅).
Proof. vm_compute. reflexivity. Qed.

Example ex_questdb_fetch :
  @questdb_fetch (tree_json ex_remote_parse) (fun _ => Some ($"HTTP/1.1 200 OK" ++ CRLF ++ CRLF ++ $"rows")) 1 $"127.0.0.1" [$"BTC"] =
  Some (mkSourceData $"QuestDB" ∅ {[$"BTC" := mkHistoricalStats dzero (dZ 1) (dZ 2) 9]}).
Proof. vm_compute. reflexivity. Qed.
