(* ===== verification/ReportLoader.v ===== *)
(** * Report configuration (src/report_pipeline.cpp, [load_config])

    The configuration file of the report pipeline, read once at start.  The
    file's contents are an argument ([None]: it cannot be opened); JSON is read
    through the interface [JsonLib].  An exception ends the loading and leaves
    the reports read before it. *)

From S2P Require Import Prelude Float64 Str Json Reports.

Section load.
Context `{JsonLib}.

Definition uint_default_staleness : Z := 5000.

Definition load_source (sj : json) : res SourceConfig :=
  name ← or_throw (json_value_string sj $"name" []);
  required ← or_throw (json_value_bool sj $"required" false);
  max_staleness_ms ← json_value_uint sj $"max_staleness_ms" uint_default_staleness;
  Ret (mkSourceConfig name required max_staleness_ms).

(** One element of "reports"; [None]: it has no name and is skipped. *)
Definition load_report (rj : json) : res (option ReportConfig) :=
  name ← or_throw (json_value_string rj $"name" []);
  if bool_decide (name = []) then Ret None else
  js ← json_at rj $"symbols"; symbols ← map_res (fun s => or_throw (json_string s)) (json_items js);
  jo ← json_at rj $"sources"; sources ← map_res load_source (json_items jo);
  Ret (Some (mkReportConfig name symbols (List.filter (fun sc => negb (bool_decide (sc_name sc = []))) sources))).

Fixpoint load_reports (rjs : list json) (configs : gmap bytes ReportConfig) : gmap bytes ReportConfig * res unit :=
  match rjs with
  | [] => (configs, Ret tt)
  | rj :: rjs' =>
      match load_report rj with
      | Ret (Some cfg) => load_reports rjs' (<[rc_name cfg := cfg]> configs)
      | Ret None => load_reports rjs' configs
      | Throw => (configs, Throw)
      | Undef => (configs, Undef)
      end
  end.

(** The reports to load; reading "reports" of a document without it gives
    none. *)
Definition report_items (text : bytes) : res (list json) :=
  j ← or_throw (json_parse text); reports ← json_ref j $"reports"; Ret (json_items reports).

Definition load_config (file : option bytes) (configs : gmap bytes ReportConfig)
    : ub (gmap bytes ReportConfig) :=
  match file with
  | None => Some configs
  | Some text =>
      match report_items text with
      | Ret rjs => match load_reports rjs configs with (_, Undef) => None | (configs', _) => Some configs' end
      | Throw => Some configs
      | Undef => None
      end
  end.
End load.

(** ** Loading what was written *)

Definition source_json (sc : SourceConfig) : jtree :=
  JObj [($"name", JStr (sc_name sc)); ($"required", JBool (sc_required sc));
        ($"max_staleness_ms", JInt (sc_max_staleness_ms sc))].

Definition report_json (cfg : ReportConfig) : jtree :=
  JObj [($"name", JStr (rc_name cfg)); ($"symbols", JArr (map JStr (rc_symbols cfg)));
        ($"sources", JArr (map source_json (rc_sources cfg)))].

Definition config_json (cfgs : list ReportConfig) : jtree := JObj [($"reports", JArr (map report_json cfgs))].

(** What a configuration can express: names that are not empty, staleness
    bounds of 64 bits. *)
Definition named_config (cfg : ReportConfig) : Prop :=
  rc_name cfg <> [] /\
  Forall (fun sc => sc_name sc <> [] /\ in_u64 (sc_max_staleness_ms sc)) (rc_sources cfg).

Section wire.
Context (parse : bytes -> option jtree).
#[local] Instance file_json : JsonLib := tree_json parse.

Lemma load_source_json sc : in_u64 (sc_max_staleness_ms sc) -> load_source (source_json sc) = Ret sc.
Proof using.
  intros Hr. destruct sc as [name required ms].
  transitivity (Ret (mkSourceConfig name required (wrap64 ms))); [reflexivity|]. by rewrite wrap64_small.
Qed.

Lemma load_report_json cfg : named_config cfg -> load_report (report_json cfg) = Ret (Some cfg).
Proof using.
  intros [Hn Hs]. destruct cfg as [name symbols sources]. cbn [rc_name rc_sources] in *.
  assert (E1 : map_res (fun s => or_throw (json_string s)) (map JStr symbols) = Ret symbols).
  { apply map_res_ret, Forall2_fmap_l, Forall_Forall2_diag, Forall_true. done. }
  assert (E2 : map_res load_source (map source_json sources) = Ret sources).
  { apply map_res_ret, Forall2_fmap_l, Forall_Forall2_diag. eapply Forall_impl; [exact Hs|].
    intros sc [_ Hu]. by apply load_source_json. }
  assert (E3 : List.filter (fun sc => negb (bool_decide (sc_name sc = []))) sources = sources).
  { clear -Hs. induction Hs as [|sc scs [Hne _] _ IH]; [done|]. simpl. by rewrite bool_decide_false, IH. }
  transitivity (if bool_decide (name = []) then Ret None else
    symbols ← map_res (fun s => or_throw (json_string s)) (map JStr symbols);
    sources ← map_res load_source (map source_json sources);
    Ret (Some (mkReportConfig name symbols (List.filter (fun sc => negb (bool_decide (sc_name sc = []))) sources))));
    [reflexivity|].
  rewrite bool_decide_false, E1, E2 by done. cbn [mbind res_bind]. by rewrite E3.
Qed.

Lemma load_reports_json cfgs configs :
  Forall named_config cfgs ->
  load_reports (map report_json cfgs) configs = (foldl (fun m cfg => <[rc_name cfg := cfg]> m) configs cfgs, Ret tt).
Proof using.
  intros Hc. revert configs. induction Hc as [|cfg cfgs Hcfg _ IH]; intros configs; [done|].
  cbn [map load_reports]. by rewrite load_report_json, IH.
Qed.

Lemma configs_lookup (cfgs : list ReportConfig) (m : gmap bytes ReportConfig) (name : bytes) :
  foldl (fun m cfg => <[rc_name cfg := cfg]> m) m cfgs !! name =
    match last (filter (fun cfg => rc_name cfg = name) cfgs) with Some cfg => Some cfg | None => m !! name end.
Proof using.
  induction cfgs as [|cfg cfgs IH] using rev_ind; [done|].
  rewrite foldl_snoc, filter_app, filter_cons, filter_nil.
  destruct (decide (rc_name cfg = name)) as [<-|Hne].
  - by rewrite lookup_insert_eq, last_snoc.
  - by rewrite lookup_insert_ne, app_nil_r.
Qed.

(** Loading a configuration gives the reports that were written: for any
    list of reports with names that are not empty, the loaded reports are
    exactly those of the file, with their symbols and sources in order; when a
    name is used twice the last report stays, and nothing else appears. *)
Theorem load_config_roundtrip text cfgs :
  parse text = Some (config_json cfgs) -> Forall named_config cfgs ->
  exists configs, load_config (Some text) ∅ = Some configs /\
    forall name, configs !! name = last (filter (fun cfg => rc_name cfg = name) cfgs).
Proof using.
  intros Hp Hc. exists (foldl (fun m cfg => <[rc_name cfg := cfg]> m) ∅ cfgs). split.
  - unfold load_config. assert (E : report_items text = Ret (map report_json cfgs)).
    { unfold report_items. cbn [json_parse file_json tree_json]. rewrite Hp. reflexivity. }
    by rewrite E, load_reports_json.
  - intros name. rewrite configs_lookup, lookup_empty. by destruct (last _).
Qed.
End wire.

(** ** Errors *)

Section errors.
Context `{JsonLib}.

(** C29: A file that cannot be opened or parsed configures nothing, and a
    malformed report ends the loading without undoing it: what is loaded are
    the reports before the first one that cannot be read, each the last of its
    name. *)
Theorem load_config_errors text :
  load_config None ∅ = Some ∅ /\
  (json_parse text = None -> load_config (Some text) ∅ = Some ∅) /\
  (forall rjs good bad rest, report_items text = Ret rjs -> rjs = good ++ bad :: rest ->
     Forall (fun rj => exists o, load_report rj = Ret o) good -> load_report bad = Throw ->
     exists configs, load_config (Some text) ∅ = Some configs /\
       forall name, configs !! name =
         last (filter (fun cfg => rc_name cfg = name)
                 (omap (fun rj => match load_report rj with Ret o => o | _ => None end) good))).
Proof using.
  split; [done|]. split.
  - intros Hp. unfold load_config, report_items. by rewrite Hp.
  - intros rjs good bad rest Hi -> Hg Hb.
    exists (fst (load_reports (good ++ bad :: rest) ∅)).
    assert (E : load_reports (good ++ bad :: rest) ∅ =
      (foldl (fun m cfg => <[rc_name cfg := cfg]> m) ∅
         (omap (fun rj => match load_report rj with Ret o => o | _ => None end) good), Throw)).
    { generalize (∅ : gmap bytes ReportConfig). clear Hi. induction Hg as [|rj good [o Ho] _ IH]; intros m.
      - cbn [app load_reports]. by rewrite Hb.
      - cbn [app load_reports]. csimpl. rewrite Ho. destruct o as [cfg|]; apply IH. }
    split.
    + unfold load_config. by rewrite Hi, E.
    + intros name. rewrite E. cbn [fst]. rewrite configs_lookup, lookup_empty. by destruct (last _).
Qed.
End errors.

(** ** Witnesses *)

Definition ex_cfgs : list ReportConfig :=
  [mkReportConfig $"bbo" [$"BTC"; $"ETH"] [mkSourceConfig $"Binance" true 3000; mkSourceConfig $"QuestDB" false 60000];
   mkReportConfig $"bbo" [$"BTC"] [mkSourceConfig $"FIX" true 5000]].

(** A good report followed by one whose symbols are not strings. *)
Definition ex_config_parse (s : bytes) : option jtree :=
  if bool_decide (s = $"good") then Some (config_json ex_cfgs)
  else if bool_decide (s = $"bad") then
    Some (JObj [($"reports", JArr [report_json (mkReportConfig $"a" [$"BTC"] []);
                                   JObj [($"name", JStr $"b"); ($"symbols", JArr [JInt 3])]])])
  else None.

Lemma load_config_roundtrip_witness :
  exists configs, @load_config (tree_json ex_config_parse) (Some $"good") ∅ = Some configs /\
    (configs !! $"bbo") = Some (mkReportConfig $"bbo" [$"BTC"] [mkSourceConfig $"FIX" true 5000]).
Proof.
  destruct (load_config_roundtrip ex_config_parse $"good" ex_cfgs) as (configs & H1 & H2); [reflexivity| |].
  - repeat constructor; unfold in_u64, two64; simpl; (congruence || lia).
  - exists configs. split; [exact H1|]. rewrite H2. vm_compute. reflexivity.
Defined.

Lemma load_config_errors_witness :
  exists configs, @load_config (tree_json ex_config_parse) (Some $"bad") ∅ = Some configs /\
    (configs !! $"a") = Some (mkReportConfig $"a" [$"BTC"] []) /\ (configs !! $"b") = None.
Proof.
  destruct (@load_config_errors (tree_json ex_config_parse) $"bad") as (_ & _ & H).
  set (good := report_json (mkReportConfig $"a" [$"BTC"] [])).
  set (bad := JObj [($"name", JStr $"b"); ($"symbols", JArr [JInt 3])]).
  destruct (H [good; bad] [good] bad []) as (configs & H1 & H2);
    [reflexivity|reflexivity|by repeat econstructor|reflexivity|].
  exists configs. split; [exact H1|]. rewrite !H2. vm_compute. by split.
Defined.
