(* ===== verification/EnvLoader.v ===== *)
(** * Environment file (src/env_loader.hpp)

    [load_dotenv] reads KEY=VALUE lines into the process environment, which is
    a map from names to values here.  Strings reach [setenv] as C strings; a
    variable that is already set keeps its value. *)

From S2P Require Import Prelude Str QueryProtocol.

(** ** Lines *)

(** [std::getline] until the end of the file: the text between newlines; a
    newline at the end does not start another line. *)
Fixpoint getlines (text : bytes) : list bytes :=
  match text with
  | [] => []
  | c :: text' =>
      if bool_decide (c = NL) then [] :: getlines text'
      else match getlines text' with
           | [] => [[c]]
           | l :: ls => (c :: l) :: ls
           end
  end.

Definition is_blank (c : ascii) : bool :=
  bool_decide (c = " "%char) || bool_decide (c = byte_of 9) || bool_decide (c = CR) || bool_decide (c = NL).

(** The lambda [trim]: [erase] up to [find_first_not_of], then from behind
    [find_last_not_of]. *)
Definition trim (s : bytes) : bytes := rtrim is_blank (ltrim is_blank s).

Definition strip_comment (value : bytes) : bytes :=
  match find_sub $" #" value with Some comment => take comment value | None => value end.

Definition quoted_by (q : ascii) (value : bytes) : bool :=
  bool_decide (head value = Some q) && bool_decide (last value = Some q).

Definition strip_quotes (value : bytes) : bytes :=
  if (2 <=? length value)%nat && (quoted_by QUOTE value || quoted_by "'"%char value)
  then take (length value - 2) (drop 1 value) else value.

(** What a line assigns: [None] for the lines that are skipped. *)
Definition parse_line (line : bytes) : option (bytes * bytes) :=
  if bool_decide (line = []) || bool_decide (head line = Some "#"%char) then None
  else match find_char "="%char line with
  | None => None
  | Some eq =>
      let key := trim (take eq line) in
      let value := strip_quotes (trim (strip_comment (drop (eq + 1) line))) in
      if bool_decide (key = []) then None else Some (key, value)
  end.

(** [setenv(name, value, 0)]; an empty name is refused. *)
Definition setenv (env : gmap bytes bytes) (name value : bytes) : gmap bytes bytes :=
  let name := c_str name in
  if bool_decide (name = []) then env
  else match env !! name with Some _ => env | None => <[name := c_str value]> env end.

Definition load_line (env : gmap bytes bytes) (line : bytes) : gmap bytes bytes :=
  match parse_line line with Some (key, value) => setenv env key value | None => env end.

(** The file's contents, [None] when it cannot be opened. *)
Definition load_dotenv (file : option bytes) (env : gmap bytes bytes) : gmap bytes bytes :=
  match file with
  | None => env
  | Some text => foldl load_line env (getlines text)
  end.

(** ** The lines of a file *)

Lemma getlines_line l text : (NL ∉ l) -> getlines (l ++ NL :: text) = l :: getlines text.
Proof.
  induction l as [|c l IH]; intros Hl; [reflexivity|].
  apply not_elem_of_cons in Hl as [Hc Hl]. simpl. rewrite bool_decide_false by congruence. by rewrite IH.
Qed.

Lemma getlines_last l : (NL ∉ l) -> l <> [] -> getlines l = [l].
Proof.
  induction l as [|c l IH]; intros Hl Hne; [done|].
  apply not_elem_of_cons in Hl as [Hc Hl]. simpl. rewrite bool_decide_false by congruence.
  destruct l as [|d l]; [done|]. by rewrite IH.
Qed.

Lemma getlines_no_newline text : Forall (fun l => NL ∉ l) (getlines text).
Proof.
  induction text as [|c text IH]; [constructor|]. simpl. case_bool_decide as Hc.
  { constructor; [apply not_elem_of_nil|done]. }
  destruct (getlines text) as [|l ls]; [by repeat constructor; apply not_elem_of_cons; split; [|apply not_elem_of_nil]|].
  apply Forall_cons in IH as [Hl Hls]. constructor; [|done]. apply not_elem_of_cons. by split.
Qed.

(** ** Trimming *)

(** A text without blanks at its ends. *)
Definition trimmed (s : bytes) : Prop :=
  (forall c, head s = Some c -> is_blank c = false) /\ (forall c, last s = Some c -> is_blank c = false).

Definition blanks (s : bytes) : Prop := Forall (fun c => is_blank c = true) s.

Lemma ltrim_blanks w s : blanks w -> ltrim is_blank (w ++ s) = ltrim is_blank s.
Proof. induction 1 as [|c w Hc _ IH]; [done|]. simpl. by rewrite Hc. Qed.

Lemma rtrim_blanks w : blanks w -> rtrim is_blank w = [].
Proof. induction 1 as [|c w Hc _ IH]; [done|]. simpl. by rewrite IH, Hc. Qed.

Lemma rtrim_trimmed s w : trimmed s -> blanks w -> rtrim is_blank (s ++ w) = s.
Proof.
  intros [_ Hl] Hw. induction s as [|c s IH]; [by apply rtrim_blanks|]. simpl.
  destruct s as [|d s].
  - simpl. rewrite rtrim_blanks by done. by rewrite (Hl c).
  - rewrite IH; [done|]. intros x Hx. by apply Hl.
Qed.

Lemma trim_padded w1 s w2 : blanks w1 -> trimmed s -> blanks w2 -> trim (w1 ++ s ++ w2) = s.
Proof.
  intros H1 Hs H2. unfold trim. rewrite ltrim_blanks by done.
  destruct s as [|c s].
  - simpl. rewrite <-(app_nil_r w2), ltrim_blanks by done. done.
  - simpl ltrim. rewrite (proj1 Hs c eq_refl). by apply (rtrim_trimmed (c :: s)).
Qed.

Lemma strip_comment_at v rest : ("#"%char ∉ v) -> strip_comment (v ++ $" #" ++ rest) = v.
Proof.
  intros Hv. unfold strip_comment.
  assert (E : find_sub $" #" (v ++ $" #" ++ rest) = Some (length v)).
  { induction v as [|c v IH]; [done|]. apply not_elem_of_cons in Hv as [Hc Hv].
    assert (Ep : is_prefix $" #" ((c :: v) ++ $" #" ++ rest) = false).
    { destruct v as [|d v].
      - simpl. by rewrite andb_comm.
      - apply not_elem_of_cons in Hv as [Hd _]. simpl. rewrite (bool_decide_false ("#"%char = d)) by congruence.
        by rewrite andb_comm. }
    transitivity (S <$> find_sub $" #" (v ++ $" #" ++ rest)); [|by rewrite IH].
    cbn [app find_sub] in *. by rewrite Ep. }
  by rewrite E, take_app_length.
Qed.

Lemma strip_comment_none v : ("#"%char ∉ v) -> strip_comment v = v.
Proof.
  intros Hv. unfold strip_comment.
  assert (E : find_sub $" #" v = None); [|by rewrite E].
  induction v as [|c v IH]; [done|]. apply not_elem_of_cons in Hv as [Hc Hv].
  assert (Ep : is_prefix $" #" (c :: v) = false).
  { destruct v as [|d v]; simpl; [by rewrite andb_comm|]. apply not_elem_of_cons in Hv as [Hd _].
    rewrite (bool_decide_false ("#"%char = d)) by congruence. by rewrite andb_comm. }
  cbn [find_sub]. by rewrite Ep, IH.
Qed.

(** ** What a line assigns *)

(** How a value may be written: as it is, or between quotes. *)
Inductive written : bytes -> bytes -> Prop :=
  | written_plain v : quoted_by QUOTE v || quoted_by "'"%char v = false -> written v v
  | written_quoted q v : q = QUOTE \/ q = "'"%char -> written (q :: v ++ [q]) v.

Lemma strip_quotes_written w v : written w v -> trimmed w -> strip_quotes w = v.
Proof.
  intros [v' Hq|q v' Hq] _; unfold strip_quotes; [by rewrite Hq, andb_false_r|].
  assert (E : quoted_by q (q :: v' ++ [q]) = true).
  { unfold quoted_by. rewrite app_comm_cons, last_snoc. simpl. by rewrite !bool_decide_true. }
  assert (El : length (q :: v' ++ [q]) = (length v' + 2)%nat) by (simpl; rewrite length_app; simpl; lia).
  rewrite El, (proj2 (Nat.leb_le _ _)) by lia.
  assert (Eo : quoted_by QUOTE (q :: v' ++ [q]) || quoted_by "'"%char (q :: v' ++ [q]) = true).
  { destruct Hq as [<- | <-]; rewrite E; [done|apply orb_true_r]. }
  rewrite Eo. simpl. rewrite Nat.add_sub. apply take_app_length.
Qed.

(** A line of the file means what it says: a name and a value separated by
    the first equals sign, each with any blanks around it, the value plain or
    between matching quotes, and possibly a comment after a blank, assigns
    that value to that name.  Empty lines, comment lines and lines without an
    equals sign or a name assign nothing. *)
Theorem parse_line_assigns w1 key w2 w3 text w4 comment value :
  blanks w1 -> blanks w2 -> blanks w3 -> blanks w4 -> trimmed key -> trimmed text ->
  key <> [] -> ("="%char ∉ w1 ++ key ++ w2) -> head key <> Some "#"%char -> ("#"%char ∉ w3 ++ text ++ w4) ->
  written text value -> (comment = [] \/ exists c, comment = $" #" ++ c) ->
  parse_line ((w1 ++ key ++ w2) ++ "="%char :: (w3 ++ text ++ w4) ++ comment) = Some (key, value) /\
  parse_line [] = None /\ (forall c, parse_line ("#"%char :: c) = None) /\
  (forall l, "="%char ∉ l -> parse_line l = None).
Proof.
  intros Hw1 Hw2 Hw3 Hw4 Hk Ht Hne Heq Hh Hn Hv Hc. split_and!; [|done|done|].
  - unfold parse_line.
    rewrite bool_decide_false by (intros [_ ?]%app_nil; done). rewrite bool_decide_false; simpl.
    2: { destruct w1 as [|b w1].
         - destruct key; [done|exact Hh].
         - apply Forall_cons in Hw1 as [Hb _]. by intros [= ->]. }
    rewrite find_char_app, take_app_length by done.
    replace (length (w1 ++ key ++ w2) + 1)%nat with (length ((w1 ++ key ++ w2) ++ ["="%char])) by (rewrite length_app; done).
    change ("="%char :: (w3 ++ text ++ w4) ++ comment) with (["="%char] ++ (w3 ++ text ++ w4) ++ comment).
    rewrite (app_assoc (w1 ++ key ++ w2)), drop_app_length.
    assert (Es : strip_comment ((w3 ++ text ++ w4) ++ comment) = w3 ++ text ++ w4).
    { destruct Hc as [-> |[c ->]]; [rewrite app_nil_r; by apply strip_comment_none|by apply strip_comment_at]. }
    rewrite Es, !trim_padded, (strip_quotes_written text value) by done. by rewrite bool_decide_false.
  - intros l Hl. unfold parse_line. destruct (_ || _); [done|]. by rewrite (proj2 (find_char_none _ _) Hl).
Qed.

(** ** The environment *)

(** The assignments of a file, in order, as C strings. *)
Definition assignments (text : bytes) : list (bytes * bytes) :=
  map (fun kv => (c_str (fst kv), c_str (snd kv))) (omap parse_line (getlines text)).

Lemma load_lines_lookup (ls : list bytes) (env : gmap bytes bytes) (name : bytes) :
  foldl load_line env ls !! name =
    match env !! name with
    | Some v => Some v
    | None => if bool_decide (name = []) then None else
        snd <$> head (filter (fun kv => fst kv = name)
                        (map (fun kv => (c_str (fst kv), c_str (snd kv))) (omap parse_line ls)))
    end.
Proof.
  revert env. induction ls as [|l ls IH]; intros env.
  { simpl. destruct (env !! name); [done|]. by case_bool_decide. }
  cbn [foldl]. rewrite IH. unfold load_line. csimpl. destruct (parse_line l) as [[key value]|]; [|done].
  cbn [fst snd map]. unfold setenv. rewrite filter_cons. cbn [fst].
  destruct (decide (c_str key = name)) as [<-|Hne].
  - case_bool_decide as Hn; [by rewrite Hn|]. destruct (env !! c_str key) as [v|] eqn:E; [by rewrite E|].
    by rewrite lookup_insert_eq.
  - destruct (bool_decide (c_str key = [])); [done|]. destruct (env !! c_str key) as [v|]; [done|].
    by rewrite lookup_insert_ne.
Qed.

(** Loading the file fills in what the environment leaves open: a variable
    that is set keeps its value, any other gets the value of the first line
    that assigns it, and nothing else is set; a file that cannot be opened
    changes nothing. *)
Theorem load_dotenv_fills (text : bytes) (env : gmap bytes bytes) :
  load_dotenv None env = env /\
  forall name, load_dotenv (Some text) env !! name =
    match env !! name with
    | Some v => Some v
    | None => if bool_decide (name = []) then None else
        snd <$> head (filter (fun kv => fst kv = name) (assignments text))
    end.
Proof. split; [done|]. intros name. apply load_lines_lookup. Qed.

(** ** Witnesses *)

Lemma parse_line_assigns_witness :
  parse_line ($" KEY = 'a b' " ++ $" # note") = Some ($"KEY", $"a b").
Proof.
  destruct (parse_line_assigns $" " $"KEY" $" " $" " $"'a b'" $" " $" # note" $"a b") as [H _];
    try (repeat constructor; fail); try (by apply (bool_decide_eq_false_1 _)); try done;
    try (split; intros c [= <-]; reflexivity).
  - exact (written_quoted "'"%char $"a b" (or_intror eq_refl)).
  - right. by exists $" note".
Defined.

(** A comment sign inside quotes cuts the value and leaves the quote. *)
Example quoted_comment_cut : parse_line $"KEY='a #b'" = Some ($"KEY", $"'a").
Proof. vm_compute. reflexivity. Qed.

Example ex_dotenv :
  let env := load_dotenv (Some ($"A=1" ++ [NL] ++ $"#B=2" ++ [NL] ++ $"A=3" ++ [NL] ++ $"C=4")) {[$"C" := $"0"]} in
  (env !! $"A", env !! $"B", env !! $"C") = (Some $"1", None, Some $"0").
Proof. vm_compute. reflexivity. Qed.
