(* ===== verification/CoinbaseAuth.v ===== *)
(** * Coinbase authentication (src/coinbase_client.cpp)

    The base64url helpers and the signed token of the subscription.  OpenSSL
    and the printing of JSON are not part of the repository: they are the
    interface [OpenSSL] and the argument [dump].  What OpenSSL documents of its
    block coder is stated with the RFC 4648 encoding [base64]; keys and
    signatures are only assumed to be functions.  Random numbers and the clock
    are arguments. *)

From Stdlib Require Import ZArith Lia.
From S2P Require Import Prelude Str Json QueryProtocol EnvLoader.

(** ** Base 64 (RFC 4648, section 4) *)

Definition b64_digit (n : Z) : ascii :=
  if n <? 26 then byte_of (65 + n)
  else if n <? 52 then byte_of (71 + n)
  else if n <? 62 then byte_of (n - 4)
  else if n =? 62 then "+"%char else "/"%char.

Fixpoint base64 (s : bytes) : bytes :=
  match s with
  | [] => []
  | [a] =>
      let a := byte_val a in
      [b64_digit (a / 4); b64_digit (a mod 4 * 16); "="%char; "="%char]
  | [a; b] =>
      let a := byte_val a in let b := byte_val b in
      [b64_digit (a / 4); b64_digit (a mod 4 * 16 + b / 16); b64_digit (b mod 16 * 4); "="%char]
  | a :: b :: c :: s' =>
      let a := byte_val a in let b := byte_val b in let c := byte_val c in
      [b64_digit (a / 4); b64_digit (a mod 4 * 16 + b / 16); b64_digit (b mod 16 * 4 + c / 64); b64_digit (c mod 64)]
        ++ base64 s'
  end.

(** The number of padding characters of an encoding. *)
Definition b64_padding (s : bytes) : nat :=
  match (length s mod 3)%nat with 0%nat => 0 | 1%nat => 2 | _ => 1 end.

(** ** OpenSSL *)

Class OpenSSL := {
  EVP_PKEY : Type;
  EVP_EncodeBlock : bytes -> bytes;
  EVP_DecodeBlock : bytes -> option bytes;            (* [None]: -1 *)
  PEM_read_bio_PrivateKey : bytes -> option EVP_PKEY;
  BIO_read_base64 : bytes -> bytes;
  EVP_PKEY_new_raw_private_key : bytes -> option EVP_PKEY;
  (** [EVP_MD_CTX_new], [EVP_DigestSignInit] and [EVP_DigestSign]. *)
  EVP_DigestSign : EVP_PKEY -> bytes -> option bytes;
  (** Encoding is RFC 4648 with padding; decoding gives three bytes for every
      four characters, the padding decoding to zero bytes. *)
  EVP_EncodeBlock_rfc s : EVP_EncodeBlock s = base64 s;
  EVP_DecodeBlock_rfc s : EVP_DecodeBlock (base64 s) = Some (s ++ replicate (b64_padding s) NUL);
}.

(** ** Alphabets *)

Definition to_url (c : ascii) : ascii :=
  if bool_decide (c = "+"%char) then "-"%char else if bool_decide (c = "/"%char) then "_"%char else c.
Definition from_url (c : ascii) : ascii :=
  if bool_decide (c = "-"%char) then "+"%char else if bool_decide (c = "_"%char) then "/"%char else c.

Definition is_pad (c : ascii) : bool := bool_decide (c = "="%char).

(** [while (b64.size() % 4 != 0) b64 += '='] *)
Definition pad_to_four (s : bytes) : bytes := s ++ replicate ((4 - length s mod 4) mod 4) "="%char.

Section auth.
Context `{OpenSSL}.

Definition base64url_encode (data : bytes) : bytes := map to_url (rtrim is_pad (EVP_EncodeBlock data)).

(** How many of the last two characters are padding. *)
Definition padding_count (b64 : bytes) : nat :=
  (if bool_decide (last b64 = Some "="%char) then 1 else 0) +
  (if bool_decide (b64 !! (length b64 - 2)%nat = Some "="%char) && (2 <=? length b64)%nat then 1 else 0).

Definition base64url_decode (encoded : bytes) : bytes :=
  let b64 := pad_to_four (map from_url encoded) in
  match EVP_DecodeBlock b64 with
  | None => []
  | Some out => take (length out - padding_count b64) out
  end.

(** ** The private key *)

(** The two characters backslash and [n] become a newline. *)
Fixpoint unescape_newlines (s : bytes) : bytes :=
  match s with
  | [] => []
  | c :: s' =>
      match s' with
      | d :: s'' => if bool_decide (c = "\"%char) && bool_decide (d = "n"%char) then NL :: unescape_newlines s''
                    else c :: unescape_newlines s'
      | [] => [c]
      end
  end.

Definition occurs (p s : bytes) : bool := bool_decide (is_Some (find_sub p s)).

(** The lines between the first header and the next footer, joined, each
    without a trailing carriage return. *)
Fixpoint pem_body (in_body : bool) (lines : list bytes) : bytes :=
  match lines with
  | [] => []
  | ln :: lines' =>
      if negb in_body then pem_body (occurs $"-----BEGIN" ln) lines'
      else if occurs $"-----END" ln then []
      else (if bool_decide (last ln = Some CR) then take (length ln - 1) ln else ln) ++ pem_body true lines'
  end.

(** The base64 text the second path decodes. *)
Definition raw_key_text (key_str : bytes) : bytes :=
  let b64 := if occurs $"-----BEGIN" key_str then pem_body false (getlines key_str) else key_str in
  pad_to_four (map from_url b64).

(** A PEM key, or the first 32 bytes of a base64 blob. *)
Definition load_key (api_private_key : bytes) : option EVP_PKEY :=
  let key_str := unescape_newlines api_private_key in
  match PEM_read_bio_PrivateKey key_str with
  | Some pkey => Some pkey
  | None =>
      let raw := BIO_read_base64 (raw_key_text key_str) in
      if (32 <=? length raw)%nat then EVP_PKEY_new_raw_private_key (take 32 raw) else None
  end.

(** ** The token *)

Definition hex_lower (d : Z) : ascii := if d <? 10 then digit d else byte_of (87 + d).

(** ["%016llx"] *)
Definition hex16 (n : Z) : bytes := map (fun i => hex_lower (Z.shiftr n (4 * i) mod 16)) (reverse (seqZ 0 16)).

Definition jwt_header (key_name nonce : bytes) : jtree :=
  JObj [($"alg", JStr $"EdDSA"); ($"kid", JStr key_name); ($"nonce", JStr nonce)].

Definition jwt_payload (key_name : bytes) (now : Z) : jtree :=
  JObj [($"sub", JStr key_name); ($"iss", JStr $"cdp"); ($"nbf", JInt now); ($"exp", JInt (now + 120));
        ($"aud", JArr [JStr $"public_websocket_api"])].

Definition signing_input (dump : jtree -> bytes) (n1 n2 now : Z) (key_name : bytes) : bytes :=
  base64url_encode (dump (jwt_header key_name (hex16 n1 ++ hex16 n2))) ++ $"." ++
  base64url_encode (dump (jwt_payload key_name now)).

(** The empty string when there are no credentials, no key or no signature. *)
Definition make_jwt (dump : jtree -> bytes) (n1 n2 now : Z) (api_key_name api_private_key : bytes) : bytes :=
  if bool_decide (api_key_name = []) || bool_decide (api_private_key = []) then []
  else
    let input := signing_input dump n1 n2 now api_key_name in
    match load_key api_private_key with
    | None => []
    | Some pkey =>
        match EVP_DigestSign pkey input with
        | None => []
        | Some sig => input ++ $"." ++ base64url_encode sig
        end
    end.
End auth.

(** ** Encoding and decoding *)

(** Induction by three bytes. *)
Lemma three_ind {A} (P : list A -> Prop) :
  P [] -> (forall a, P [a]) -> (forall a b, P [a; b]) -> (forall a b c s, P s -> P (a :: b :: c :: s)) -> forall s, P s.
Proof.
  intros H0 H1 H2 H3. fix IH 1. intros [|a [|b [|c s]]]; [exact H0|apply H1|apply H2|]. apply H3, IH.
Qed.

Definition b64_char (c : ascii) : bool := is_upper c || is_lower c || is_digit c || bool_decide (c = "+"%char) || bool_decide (c = "/"%char).

Lemma b64_digit_char n : 0 <= n < 64 -> b64_char (b64_digit n) = true.
Proof.
  intros Hn. unfold b64_digit, b64_char, is_upper, is_lower, is_digit.
  destruct (Z.ltb_spec n 26); [|destruct (Z.ltb_spec n 52); [|destruct (Z.ltb_spec n 62); [|by destruct (n =? 62)]]].
  all: rewrite byte_val_of by lia.
  - by rewrite !(proj2 (Z.leb_le _ _)) by lia.
  - rewrite (proj2 (Z.leb_le 97 _)), (proj2 (Z.leb_le _ 122)) by lia. by rewrite orb_true_r.
  - rewrite (proj2 (Z.leb_le 48 _)), (proj2 (Z.leb_le _ 57)) by lia. by rewrite !orb_true_r.
Qed.

Lemma b64_padding_cons a b c s : b64_padding (a :: b :: c :: s) = b64_padding s.
Proof.
  unfold b64_padding. change (length (a :: b :: c :: s)) with (3 + length s)%nat.
  by rewrite (Nat.Div0.add_mod 3), Nat.Div0.mod_same, Nat.add_0_l, Nat.Div0.mod_mod.
Qed.

(** An encoding is a body of alphabet characters and its padding. *)
Lemma base64_body s :
  exists body, base64 s = body ++ replicate (b64_padding s) "="%char /\
    Forall (fun c => b64_char c = true) body /\ ((length body + b64_padding s) mod 4 = 0)%nat.
Proof.
  induction s as [|a|a b|a b c s IH] using three_ind.
  - by exists [].
  - pose proof (byte_val_range a). exists [b64_digit (byte_val a / 4); b64_digit (byte_val a mod 4 * 16)].
    split_and!; [done| |done]. repeat constructor; apply b64_digit_char; Z.to_euclidean_division_equations; lia.
  - pose proof (byte_val_range a). pose proof (byte_val_range b).
    exists [b64_digit (byte_val a / 4); b64_digit (byte_val a mod 4 * 16 + byte_val b / 16); b64_digit (byte_val b mod 16 * 4)].
    split_and!; [done| |done]. repeat constructor; apply b64_digit_char; Z.to_euclidean_division_equations; lia.
  - destruct IH as (body & E & Hb & Hl). pose proof (byte_val_range a). pose proof (byte_val_range b). pose proof (byte_val_range c).
    exists ([b64_digit (byte_val a / 4); b64_digit (byte_val a mod 4 * 16 + byte_val b / 16);
        b64_digit (byte_val b mod 16 * 4 + byte_val c / 64); b64_digit (byte_val c mod 64)] ++ body).
    rewrite b64_padding_cons. cbn [base64]. rewrite E, app_assoc. split_and!; [done| |].
    + apply Forall_app. split; [|done]. repeat constructor; apply b64_digit_char; Z.to_euclidean_division_equations; lia.
    + rewrite length_app. simpl length. replace (4 + length body + b64_padding s)%nat with (length body + b64_padding s + 1 * 4)%nat by lia.
      by rewrite Nat.Div0.mod_add.
Qed.

Lemma rtrim_replicate p (c : ascii) n s : p c = true -> rtrim p (s ++ replicate n c) = rtrim p s.
Proof.
  intros Hc. induction n as [|n IH]; [by rewrite app_nil_r|].
  rewrite replicate_S_end, app_assoc. rewrite <-IH. generalize (s ++ replicate n c) as l. intros l.
  induction l as [|x l IHl]; simpl; [by rewrite Hc|]. by rewrite IHl.
Qed.

Lemma rtrim_none p s : Forall (fun c => p c = false) s -> rtrim p s = s.
Proof. induction 1 as [|x l Hx _ IH]; [done|]. simpl. rewrite IH. destruct l; [by rewrite Hx|done]. Qed.

Lemma b64_char_url c : b64_char c = true -> from_url (to_url c) = c /\ is_pad c = false.
Proof. by destruct c as [[] [] [] [] [] [] [] []]. Qed.

Section auth_lemmas.
Context `{OpenSSL}.

Lemma base64url_encode_body s :
  exists body, base64 s = body ++ replicate (b64_padding s) "="%char /\
    base64url_encode s = map to_url body /\ Forall (fun c => b64_char c = true) body /\
    ((length body + b64_padding s) mod 4 = 0)%nat.
Proof.
  destruct (base64_body s) as (body & E & Hb & Hl). exists body. split_and!; [done| |done|done].
  unfold base64url_encode. rewrite EVP_EncodeBlock_rfc, E, rtrim_replicate by done. rewrite rtrim_none; [done|].
  eapply Forall_impl; [exact Hb|]. intros c Hc. by apply b64_char_url.
Qed.

Lemma pad_to_four_body (body : bytes) k :
  (k <= 2)%nat -> ((length body + k) mod 4 = 0)%nat -> pad_to_four body = body ++ replicate k "="%char.
Proof.
  intros Hk Hm. unfold pad_to_four. f_equal. f_equal.
  pose proof (Nat.div_mod_eq (length body + k) 4). pose proof (Nat.mod_upper_bound (length body) 4 ltac:(lia)).
  pose proof (Nat.div_mod_eq (length body) 4).
  assert (Hc : (length body mod 4 = 0 /\ k = 0)%nat \/ (length body mod 4 + k = 4)%nat) by lia.
  destruct Hc as [[-> ->]|Hc]; [done|]. replace k with (4 - length body mod 4)%nat by lia. apply Nat.mod_small. lia.
Qed.

Lemma padding_count_body (body : bytes) k :
  Forall (fun c => b64_char c = true) body -> (k <= 2)%nat -> ((length body + k) mod 4 = 0)%nat ->
  padding_count (body ++ replicate k "="%char) = k.
Proof.
  intros Hb Hk Hm. assert (Hne : "="%char ∉ body).
  { intros Hin. rewrite Forall_forall in Hb. by apply Hb in Hin. }
  assert (Hl : forall i, body !! i <> Some "="%char) by (intros i Hi; by apply Hne, list_elem_of_lookup; exists i).
  unfold padding_count. rewrite last_lookup. rewrite !length_app, length_replicate.
  assert (Hk3 : k = 0%nat \/ k = 1%nat \/ k = 2%nat) by lia. destruct Hk3 as [-> | [-> | ->]]; cbn [replicate].
  - rewrite app_nil_r, Nat.add_0_r. rewrite !(bool_decide_eq_false_2 (body !! _ = _)) by done. done.
  - assert (Hb3 : (3 <= length body)%nat).
    { pose proof (Nat.div_mod_eq (length body + 1) 4). lia. }
    rewrite !(bool_decide_eq_true_2 (_ !! pred _ = _)).
    + rewrite lookup_app_l by lia. by rewrite bool_decide_eq_false_2.
    + rewrite lookup_app_r by lia. by replace (pred (length body + 1) - length body)%nat with 0%nat by lia.
  - rewrite !bool_decide_eq_true_2.
    + rewrite (proj2 (Nat.leb_le 2 _)) by lia. done.
    + rewrite lookup_app_r by lia. by replace (length body + 2 - 2 - length body)%nat with 0%nat by lia.
    + rewrite lookup_app_r by lia. by replace (pred (length body + 2) - length body)%nat with 1%nat by lia.
Qed.

Lemma b64_padding_le s : (b64_padding s <= 2)%nat.
Proof. unfold b64_padding. destruct (length s mod 3)%nat as [|[|]]; lia. Qed.

Lemma base64url_decode_encode s : base64url_decode (base64url_encode s) = s.
Proof.
  destruct (base64url_encode_body s) as (body & E & Eu & Hb & Hm). pose proof (b64_padding_le s) as Hk.
  unfold base64url_decode. rewrite Eu.
  assert (Em : map from_url (map to_url body) = body).
  { clear E Eu Hm. induction Hb as [|c l Hc _ IH]; [done|]. simpl. by rewrite IH, (proj1 (b64_char_url c Hc)). }
  rewrite Em, (pad_to_four_body body (b64_padding s)) by done. rewrite <-E at 1. rewrite EVP_DecodeBlock_rfc.
  rewrite padding_count_body by done. rewrite length_app, length_replicate, Nat.add_sub. apply take_app_length.
Qed.

Lemma base64url_no_dot s : "."%char ∉ base64url_encode s.
Proof.
  destruct (base64url_encode_body s) as (body & _ & -> & Hb & _). intros (c & Ec & Hc)%list_elem_of_fmap.
  rewrite Forall_forall in Hb. apply Hb in Hc. by destruct c as [[] [] [] [] [] [] [] []].
Qed.

(** ** The key text *)

(** A key written with escaped newlines is read as the key itself. *)
Lemma unescape_escaped (key : bytes) :
  "\"%char ∉ key -> unescape_newlines (concat (map (fun c => if bool_decide (c = NL) then $"\n" else [c]) key)) = key.
Proof.
  induction key as [|c key IH]; intros Hk; [done|]. apply not_elem_of_cons in Hk as [Hc Hk]. cbn [map concat].
  case_bool_decide as E.
  - subst c. assert (En : forall x, unescape_newlines ($"\n" ++ x) = NL :: unescape_newlines x) by done.
    by rewrite En, IH.
  - specialize (IH Hk). cbn [app]. destruct (concat (map _ key)) as [|d s] eqn:Es; [by rewrite <-IH|].
    change (unescape_newlines (c :: d :: s)) with
      (if bool_decide (c = "\"%char) && bool_decide (d = "n"%char) then NL :: unescape_newlines s
       else c :: unescape_newlines (d :: s)).
    rewrite (bool_decide_eq_false_2 (c = _)) by congruence. cbn [andb]. by rewrite IH.
Qed.

(** The token is a JSON web token.  When the client attaches one, it is
    three base64url segments between two dots, which appear in no segment; the
    first two decode to the printed header and payload, whose lifetime is 120
    seconds, and the third to the signature, by the loaded key, of the first
    two with their dot.  None is attached exactly when a credential is empty,
    no key can be loaded or signing fails. *)
Theorem jwt_three_segments (dump : jtree -> bytes) n1 n2 now key_name key :
  let header := dump (jwt_header key_name (hex16 n1 ++ hex16 n2)) in
  let payload := dump (jwt_payload key_name now) in
  let signature :=
    if bool_decide (key_name = []) || bool_decide (key = []) then None
    else pkey ← load_key key; EVP_DigestSign pkey (signing_input dump n1 n2 now key_name) in
  match signature with
  | None => make_jwt dump n1 n2 now key_name key = []
  | Some sig =>
      exists h p s, make_jwt dump n1 n2 now key_name key = h ++ $"." ++ p ++ $"." ++ s /\
        ("."%char ∉ h) /\ ("."%char ∉ p) /\ ("."%char ∉ s) /\ h ++ $"." ++ p = signing_input dump n1 n2 now key_name /\
        base64url_decode h = header /\ base64url_decode p = payload /\ base64url_decode s = sig
  end.
Proof.
  intros header payload signature. unfold signature, make_jwt.
  destruct (bool_decide (key_name = []) || bool_decide (key = [])); [done|].
  destruct (load_key key) as [pkey|]; [|done]. cbn [mbind option_bind].
  destruct (EVP_DigestSign pkey _) as [sig|]; [|done].
  exists (base64url_encode header), (base64url_encode payload), (base64url_encode sig).
  split_and!; try apply base64url_no_dot; try apply base64url_decode_encode; [|done].
  unfold signing_input. by rewrite <-!app_assoc.
Qed.
End auth_lemmas.

(** ** A block coder *)

Definition b64_value (c : ascii) : Z :=
  let v := byte_val c in
  if is_upper c then v - 65 else if is_lower c then v - 71 else if is_digit c then v + 4
  else if bool_decide (c = "+"%char) then 62 else if bool_decide (c = "/"%char) then 63 else 0.

Fixpoint unbase64 (s : bytes) : bytes :=
  match s with
  | a :: b :: c :: d :: s' =>
      let a := b64_value a in let b := b64_value b in let c := b64_value c in let d := b64_value d in
      [byte_of (a * 4 + b / 16); byte_of (b mod 16 * 16 + c / 4); byte_of (c mod 4 * 64 + d)] ++ unbase64 s'
  | _ => []
  end.

Lemma b64_value_digit n : 0 <= n < 64 -> b64_value (b64_digit n) = n.
Proof.
  intros Hn. assert (Hall : forallb (fun n => b64_value (b64_digit n) =? n) (seqZ 0 64) = true) by reflexivity.
  rewrite forallb_forall in Hall. apply Z.eqb_eq, Hall, list_elem_of_In, elem_of_seqZ. lia.
Qed.

Lemma byte_of_eq z c : z = byte_val c -> byte_of z = c.
Proof. intros ->. apply byte_of_val. Qed.

Lemma unbase64_base64 s : unbase64 (base64 s) = s ++ replicate (b64_padding s) NUL.
Proof.
  induction s as [|a|a b|a b c s IH] using three_ind; [done|..].
  - pose proof (byte_val_range a). cbn [base64 unbase64 app]. change (b64_value "="%char) with 0.
    rewrite !b64_value_digit by (Z.to_euclidean_division_equations; lia).
    change (b64_padding [a]) with 2%nat. cbn [replicate app].
    f_equal; [apply byte_of_eq; Z.to_euclidean_division_equations; lia|].
    f_equal; apply (f_equal byte_of); Z.to_euclidean_division_equations; lia.
  - pose proof (byte_val_range a). pose proof (byte_val_range b). cbn [base64 unbase64 app]. change (b64_value "="%char) with 0.
    rewrite !b64_value_digit by (Z.to_euclidean_division_equations; lia).
    change (b64_padding [a; b]) with 1%nat. cbn [replicate app].
    f_equal; [apply byte_of_eq; Z.to_euclidean_division_equations; lia|].
    f_equal; [apply byte_of_eq; Z.to_euclidean_division_equations; lia|].
    f_equal; apply (f_equal byte_of); Z.to_euclidean_division_equations; lia.
  - pose proof (byte_val_range a). pose proof (byte_val_range b). pose proof (byte_val_range c).
    rewrite b64_padding_cons. cbn [base64 unbase64 app]. rewrite IH.
    rewrite !b64_value_digit by (Z.to_euclidean_division_equations; lia).
    f_equal; [apply byte_of_eq; Z.to_euclidean_division_equations; lia|].
    f_equal; [apply byte_of_eq; Z.to_euclidean_division_equations; lia|].
    f_equal; apply byte_of_eq; Z.to_euclidean_division_equations; lia.
Qed.

(** Keys are their seeds, and the signature of a text is the key followed by
    its length. *)
#[refine] Definition ex_openssl : OpenSSL := {|
  EVP_PKEY := bytes;
  EVP_EncodeBlock := base64;
  EVP_DecodeBlock s := Some (unbase64 s);
  PEM_read_bio_PrivateKey _ := None;
  BIO_read_base64 s := unbase64 s;
  EVP_PKEY_new_raw_private_key s := Some s;
  EVP_DigestSign k s := Some (k ++ to_string (Z.of_nat (length s)));
|}.
Proof.
  - done.
  - intros s. by rewrite unbase64_base64.
Defined.

Definition ex_dump (j : jtree) : bytes := match j with JObj ms => concat (map fst ms) | _ => [] end.

Lemma jwt_three_segments_witness :
  exists h p s, @make_jwt ex_openssl ex_dump 1 2 1700000000 $"name" (base64 (replicate 32 "k"%char)) = h ++ $"." ++ p ++ $"." ++ s /\
    @base64url_decode ex_openssl h = $"algkidnonce".
Proof.
  pose proof (@jwt_three_segments ex_openssl ex_dump 1 2 1700000000 $"name" (base64 (replicate 32 "k"%char))) as H.
  cbv zeta in H. match type of H with match ?x with _ => _ end => destruct x as [sig|] eqn:E end.
  - destruct H as (h & p & s & E1 & _ & _ & _ & _ & E2 & _). exists h, p, s. split; [exact E1|]. rewrite E2. reflexivity.
  - exfalso. vm_compute in E. discriminate E.
Defined.

Example ex_base64 : map base64 [$"M"; $"Ma"; $"Man"] = [$"TQ=="; $"TWE="; $"TWFu"].
Proof. reflexivity. Qed.

Example ex_pem :
  pem_body false [$"x"; $"-----BEGIN KEY-----"; $"AB" ++ [CR]; $"CD"; $"-----END KEY-----"; $"EF"] = $"ABCD".
Proof. reflexivity. Qed.
