(* ===== verification/ClientLifecycle.v ===== *)
(** * Lifecycle of a feed client (src/binance_client.cpp, src/kraken_client.cpp,
    src/bybit_client.cpp, src/coinbase_client.cpp)

    [connect], [disconnect] and the reading thread, which the four clients
    have in common, as a step machine on their two flags and the thread; and
    the subscription messages each client sends.  What the transport does
    (resolution, handshakes, reads) is an input of the steps; the printing of
    JSON is an argument. *)

From Stdlib Require Import ZArith Lia.
From S2P Require Import Prelude Str Stod StdSort Json Types OrderBook FeedClients CoinbaseAuth.

(** ** State *)

(** Where the reading thread is; a thread that has returned is still joinable. *)
Inductive ReaderPc := RLoop | RRead | RDone.

Record ClientLife := mkClientLife {
  connected_ : bool;
  should_stop_ : bool;
  thread : option ReaderPc;      (* [None]: [ws_thread_] is not joinable *)
  joining : bool;                (* a [disconnect] waits in [join] *)
  subscribed_symbols_ : list bytes;
  reads : nat;                   (* messages read *)
}.
#[export] Instance ClientLife_settable : Settable ClientLife :=
  fun c => mkClientLife (connected_ c) (should_stop_ c) (thread c) (joining c) (subscribed_symbols_ c) (reads c).

Definition new_life : ClientLife := mkClientLife false false None false [] 0.

(** How far the transport gets. *)
Inductive Transport :=
  | SniError                (* [return false] *)
  | HandshakeError          (* an error code of either handshake: [return false] *)
  | TransportException      (* resolving, connecting or anything else throws *)
  | Handshaken.

(** [connect]: the client and what is returned; [None] is [std::terminate],
    from assigning to a thread that is joinable. *)
Definition connect (transport : Transport) (symbols : list bytes) (c : ClientLife) : option (ClientLife * bool) :=
  if connected_ c then Some (c, false)
  else
    let c := c <| subscribed_symbols_ := symbols |> in
    match transport with
    | SniError | HandshakeError => Some (c, false)
    | TransportException => Some (c <| connected_ := false |>, false)
    | Handshaken =>
        let c := c <| connected_ := true |> in
        match thread c with
        | Some _ => None
        | None => Some (c <| thread := Some RLoop |>, true)
        end
    end.

(** [disconnect] up to the join. *)
Definition disconnect (c : ClientLife) : ClientLife :=
  if negb (connected_ c) && bool_decide (thread c = None) then c
  else c <| should_stop_ := true |> <| connected_ := false |> <| joining := bool_decide (thread c <> None) |>.

(** The join returns once the thread has. *)
Definition join (c : ClientLife) : option ClientLife :=
  match joining c, thread c with
  | true, Some RDone => Some (c <| thread := None |> <| joining := false |>)
  | _, _ => None
  end.

(** One step of the thread: the test of [run_client]'s loop, or a read that
    ends, with a message ([true]) or an error. *)
Definition reader_step (message : bool) (c : ClientLife) : option ClientLife :=
  match thread c with
  | Some RLoop => Some (c <| thread := Some (if negb (should_stop_ c) && connected_ c then RRead else RDone) |>)
  | Some RRead =>
      let c := c <| thread := Some RLoop |> in
      Some (if message then c <| reads := S (reads c) |> else c <| connected_ := false |>)
  | _ => None
  end.

Inductive life_step : ClientLife -> ClientLife -> Prop :=
  | l_connect transport symbols c c' ok :
      joining c = false -> connect transport symbols c = Some (c', ok) -> life_step c c'
  | l_disconnect c : joining c = false -> life_step c (disconnect c)
  | l_join c c' : join c = Some c' -> life_step c c'
  | l_reader message c c' : reader_step message c = Some c' -> life_step c c'.

(** ** Subscriptions *)

(** Binance subscribes by the path of the handshake: the streams, separated
    by slashes. *)
Fixpoint slashes (l : list bytes) : bytes :=
  match l with
  | [] => []
  | [x] => x
  | x :: l' => x ++ $"/" ++ slashes l'
  end.

Definition binance_target (symbols : list bytes) : bytes := $"/stream?streams=" ++ slashes (map symbol_to_stream symbols).

Definition kraken_subscription (symbols : list bytes) : jtree :=
  JObj [($"method", JStr $"subscribe");
        ($"params", JObj [($"channel", JStr $"book");
                          ($"symbol", JArr (map (fun s => JStr (binance_to_kraken_symbol s)) symbols));
                          ($"depth", JInt 10)])].

Definition BATCH_SIZE : nat := 10.

(** The loop over the batches from position [i]. *)
Fixpoint bybit_batches (fuel i : nat) (topics : list bytes) : list (nat * list bytes) :=
  match fuel with
  | O => []
  | S fuel' =>
      if (i <? length topics)%nat
      then (i, take (Nat.min (i + BATCH_SIZE) (length topics) - i) (drop i topics)) :: bybit_batches fuel' (i + BATCH_SIZE) topics
      else []
  end.

Definition bybit_message (b : nat * list bytes) : jtree :=
  JObj [($"req_id", JStr (to_string (Z.of_nat (fst b / BATCH_SIZE + 1))));
        ($"op", JStr $"subscribe"); ($"args", JArr (map JStr (snd b)))].

Definition bybit_subscriptions (symbols : list bytes) : list jtree :=
  let topics := map binance_to_bybit_topic symbols in
  map bybit_message (bybit_batches (S (length topics)) 0 topics).

Definition coinbase_subscription (symbols : list bytes) (jwt : bytes) : jtree :=
  JObj ([($"type", JStr $"subscribe");
         ($"product_ids", JArr (map (fun s => JStr (binance_to_coinbase_symbol s)) symbols));
         ($"channel", JStr $"level2")] ++
        if bool_decide (jwt = []) then [] else [($"jwt", JStr jwt)]).

(** ** Invariants *)

Inductive reachable : ClientLife -> Prop :=
  | r_new : reachable new_life
  | r_step c c' : reachable c -> life_step c c' -> reachable c'.

(** A connected client has a thread, a join has a stop request behind it and a
    thread to wait for. *)
Definition life_ok (c : ClientLife) : Prop :=
  (connected_ c = true -> thread c <> None /\ joining c = false) /\
  (joining c = true -> should_stop_ c = true /\ connected_ c = false /\ thread c <> None).

Lemma life_step_ok c c' : life_step c c' -> life_ok c -> life_ok c'.
Proof.
  intros Hs Hok. pose proof Hok as [Hc Hj]. destruct Hs as [tr syms c c' ok Hjo E|c Hjo|c c' E|m c c' E].
  - unfold connect in E. destruct (connected_ c) eqn:Ec; [by injection E as <- _|].
    destruct tr; try (injection E as <- _; split; simpl; [by rewrite ?Ec|by rewrite Hjo]).
    simpl in E. destruct (thread c); [done|]. injection E as <- _. split; simpl; [by rewrite Hjo|by rewrite Hjo].
  - unfold disconnect. destruct (_ && _); [exact Hok|]. split; simpl; [done|].
    intros H%bool_decide_eq_true_1. by split_and!.
  - unfold join in E. destruct (joining c) eqn:Ej; [|done]. destruct (thread c) as [[]|]; try done. injection E as <-.
    destruct (Hj eq_refl) as (_ & Hf & _). split; simpl; [by rewrite Hf|done].
  - unfold reader_step in E. destruct (thread c) as [[]|] eqn:Et; try done; injection E as <-.
    + split; simpl; intros H; [destruct (Hc H)|destruct (Hj H) as (? & ? & ?)]; by split_and!.
    + destruct m; split; simpl; intros H; try done; [destruct (Hc H)|destruct (Hj H) as (? & ? & ?)|destruct (Hj H) as (? & ? & ?)];
        by split_and!.
Qed.

Lemma reachable_life c : reachable c -> life_ok c.
Proof. induction 1 as [|c c' _ IH Hs]; [done|]. by eapply life_step_ok. Qed.

(** What a stopped client can still do: the read under way may end. *)
Definition pending (c : ClientLife) : nat := match thread c with Some RRead => 1 | _ => 0 end.

Lemma stopped_step c c' :
  life_step c c' -> should_stop_ c = true ->
  should_stop_ c' = true /\ (reads c' + pending c' <= reads c + pending c)%nat.
Proof.
  intros Hs Hst. unfold pending. destruct Hs as [tr syms c c' ok Hjo E|c Hjo|c c' E|m c c' E].
  - unfold connect in E. destruct (connected_ c); [by injection E as <- _|].
    destruct tr; try (by injection E as <- _). simpl in E. destruct (thread c); [done|]. injection E as <- _. simpl. by split; [|lia].
  - unfold disconnect. destruct (_ && _); [done|]. done.
  - unfold join in E. destruct (joining c), (thread c) as [[]|]; try done. by injection E as <-.
  - unfold reader_step in E. destruct (thread c) as [[]|]; try done; injection E as <-; simpl.
    + rewrite Hst. simpl. by split; [|lia].
    + destruct m; simpl; (split; [done|lia]).
Qed.

(** A client reads nothing after it is disconnected, not even when it is
    connected again.  [disconnect] leaves the stop flag set for good: whatever
    the client is asked to do afterwards (a [connect] that succeeds and
    returns true included), at most the read that was under way still delivers
    a message.  And while a client is connected its thread exists. *)
Theorem disconnected_for_good c c' :
  reachable c -> should_stop_ c = true -> rtc life_step c c' ->
  (reads c' <= S (reads c))%nat /\ should_stop_ c' = true /\
  (connected_ c' = true -> thread c' <> None).
Proof.
  intros Hc Hst Hr.
  assert (H : should_stop_ c' = true /\ (reads c' + pending c' <= reads c + pending c)%nat /\ life_ok c').
  { pose proof (reachable_life c Hc) as Hok. clear Hc. induction Hr as [c|c1 c2 c3 Hs _ IH]; [by split_and!|].
    destruct (stopped_step _ _ Hs Hst) as [H1 H2]. destruct (IH H1 (life_step_ok _ _ Hs Hok)) as (E1 & E2 & E3).
    split_and!; [done|lia|done]. }
  destruct H as (H1 & H2 & H3 & _). split_and!; [|done|by intros E; apply H3].
  assert (pending c <= 1)%nat by (unfold pending; by repeat case_match; lia). lia.
Qed.

(** A client that has been connected, disconnected and connected again. *)
Definition reconnected : option ClientLife :=
  '(c, _) ← connect Handshaken [] new_life; c ← reader_step true c; c ← reader_step true c;
  c ← reader_step true (disconnect c); c ← join c; '(c, ok) ← connect Handshaken [] c;
  if ok : bool then reader_step true c else None.

Example ex_reconnected :
  (fun c => (connected_ c, thread c, reads c)) <$> reconnected = Some (true, Some RDone, 1%nat).
Proof. reflexivity. Qed.

(** After a read error, connecting again ends the process. *)
Example reconnect_after_error :
  ('(c, _) ← connect Handshaken [] new_life; c ← reader_step true c; c ← reader_step false c; c ← reader_step false c;
   Some (connected_ c, connect Handshaken [] c)) = Some (false, None).
Proof. reflexivity. Qed.

(** A client disconnected in the middle of a read. *)
Definition ex_stopping : ClientLife := disconnect (mkClientLife true false (Some RRead) false [] 0).

Lemma ex_stopping_reachable : reachable ex_stopping.
Proof.
  eapply r_step; [|by apply l_disconnect].
  apply (r_step (mkClientLife true false (Some RLoop) false [] 0)); [|by apply (l_reader true)].
  eapply r_step; [apply r_new|]. by eapply (l_connect Handshaken []).
Qed.

Lemma disconnected_for_good_witness :
  exists c', rtc life_step ex_stopping c' /\ reads c' = 1%nat /\ (reads c' <= S (reads ex_stopping))%nat.
Proof.
  set (c' := ex_stopping <| thread := Some RLoop |> <| reads := 1%nat |>).
  assert (H : rtc life_step ex_stopping c') by (apply rtc_once; by apply (l_reader true)).
  exists c'. split; [exact H|]. split; [reflexivity|].
  apply (disconnected_for_good ex_stopping c' ex_stopping_reachable); [reflexivity|exact H].
Defined.

(** [disconnect] ends.  While it waits in [join], the thread is on its way
    out: once the read under way returns (closing the socket makes it), at most
    one more test of the loop lets the join return, with no thread and no
    connection left. *)
Theorem disconnect_ends c message :
  reachable c -> joining c = true ->
  exists c1 c2, (match thread c with
                 | Some RRead => reader_step message c ≫= reader_step message
                 | Some RLoop => reader_step message c
                 | _ => Some c
                 end) = Some c1 /\ join c1 = Some c2 /\ thread c2 = None /\ connected_ c2 = false /\ joining c2 = false.
Proof.
  intros Hc Hj. destruct (reachable_life c Hc) as [_ H]. destruct (H Hj) as (Hst & Hcn & Ht).
  destruct (thread c) as [[]|] eqn:Et; [| | |done].
  - unfold reader_step. rewrite Et, Hst. cbn [negb andb]. eexists _, _. split; [done|]. unfold join. simpl. rewrite Hj. by split_and!.
  - unfold reader_step at 2. rewrite Et. cbn [mbind option_bind]. unfold reader_step.
    destruct message; simpl; rewrite Hst; simpl; eexists _, _; (split; [done|]); unfold join; simpl; rewrite Hj; by split_and!.
  - eexists _, _. split; [done|]. unfold join. rewrite Hj, Et. by split_and!.
Qed.

Lemma disconnect_ends_witness :
  exists c1 c2, (reader_step false ex_stopping ≫= reader_step false) = Some c1 /\ join c1 = Some c2 /\ thread c2 = None.
Proof.
  destruct (disconnect_ends ex_stopping false ex_stopping_reachable eq_refl) as (c1 & c2 & E1 & E2 & E3 & _).
  exists c1, c2. split; [exact E1|]. split; [exact E2|exact E3].
Defined.

(** ** Batches *)

Lemma bybit_batches_spec fuel i (topics : list bytes) :
  (length topics < i + fuel)%nat ->
  concat (map snd (bybit_batches fuel i topics)) = drop i topics /\
  Forall (fun b => (1 <= length (snd b) <= BATCH_SIZE)%nat) (bybit_batches fuel i topics) /\
  map fst (bybit_batches fuel i topics) =
    map (fun k => (i + k * BATCH_SIZE)%nat) (seq 0 (length (bybit_batches fuel i topics))).
Proof.
  revert i. induction fuel as [|fuel IH]; intros i Hf; cbn [bybit_batches].
  - rewrite drop_ge by lia. by split_and!.
  - destruct (Nat.ltb_spec i (length topics)) as [Hi|Hi]; [|rewrite drop_ge by done; by split_and!].
    destruct (IH (i + BATCH_SIZE)%nat) as (E1 & E2 & E3); [unfold BATCH_SIZE; lia|].
    assert (Et : take (Nat.min (i + BATCH_SIZE) (length topics) - i) (drop i topics) = take BATCH_SIZE (drop i topics)).
    { destruct (decide (i + BATCH_SIZE <= length topics)%nat).
      - rewrite Nat.min_l by done. f_equal. lia.
      - rewrite Nat.min_r by lia. rewrite !take_ge; [done|rewrite length_drop; lia..]. }
    rewrite Et. cbn [map concat fst snd length seq]. rewrite E1, E3. split_and!.
    + by rewrite <-drop_drop, take_drop.
    + constructor; [|done]. cbn [snd]. rewrite length_take, length_drop. unfold BATCH_SIZE. lia.
    + f_equal; [lia|]. rewrite <-fmap_S_seq. rewrite map_map.
      apply map_ext. intros k. lia.
Qed.

(** Bybit is subscribed to every symbol once.  The requests carry the
    topics of the symbols in order, all of them, between one and ten in each
    request, and are numbered from one. *)
Theorem bybit_subscription_complete (symbols : list bytes) :
  let batches := bybit_batches (S (length symbols)) 0 (map binance_to_bybit_topic symbols) in
  bybit_subscriptions symbols = map bybit_message batches /\
  concat (map snd batches) = map binance_to_bybit_topic symbols /\
  Forall (fun b => (1 <= length (snd b) <= 10)%nat) batches /\
  map (fun b => (fst b / BATCH_SIZE + 1)%nat) batches = seq 1 (length batches).
Proof.
  intros batches. destruct (bybit_batches_spec (S (length symbols)) 0 (map binance_to_bybit_topic symbols)) as (E1 & E2 & E3).
  { rewrite length_map. lia. }
  fold batches in E1, E2, E3. split_and!; [|exact E1|exact E2|].
  - unfold bybit_subscriptions. by rewrite length_map.
  - rewrite <-(map_map fst (fun i => (i / BATCH_SIZE + 1)%nat)), E3, map_map, <-fmap_S_seq. apply map_ext.
    intros k. rewrite Nat.add_0_l, Nat.div_mul by done. lia.
Qed.

Example ex_bybit :
  map bybit_message (bybit_batches 13 0 (replicate 12 $"t")) =
  [JObj [($"req_id", JStr $"1"); ($"op", JStr $"subscribe"); ($"args", JArr (replicate 10 (JStr $"t")))];
   JObj [($"req_id", JStr $"2"); ($"op", JStr $"subscribe"); ($"args", JArr (replicate 2 (JStr $"t")))]].
Proof. reflexivity. Qed.

Example ex_binance : binance_target [$"BTCUSDT"; $"ETHUSDT"] = $"/stream?streams=btcusdt@depth20@100ms/ethusdt@depth20@100ms".
Proof. reflexivity. Qed.
