(* ===== verification/FeedTransport.v ===== *)
(** * The transport of the feed clients (src/binance_client.cpp,
    src/kraken_client.cpp, src/bybit_client.cpp, src/coinbase_client.cpp)

    The four WebSocket clients as whole objects: construction, credentials,
    callbacks, [connect] stage by stage with what each exchange's stream is
    opened with and what is written to it, [disconnect], the reading thread and
    what it hands to the message handlers of [FeedClients].  Results of name
    resolution, handshakes, reads and writes are inputs.  [ClientLifecycle]
    is the abstract view of the flags and the thread, and the theorems relate
    the two: each step here is a step there, and what a client fires is what
    the handlers fire for the messages read, in order. *)

From S2P Require Import Prelude Float64 Str Stod StdSort Json Types OrderBook ArbEngine FeedClients CoinbaseAuth ClientLifecycle.

(** ** State *)

Inductive Exchange := BinanceWs | VenueWs (v : FeedVenue).

#[export] Instance FeedVenue_eq_dec : EqDecision FeedVenue.
Proof. solve_decision. Defined.
#[export] Instance Exchange_eq_dec : EqDecision Exchange.
Proof. solve_decision. Defined.

(** [ws_]: where it was opened to, and what was written. *)
Record Stream := mkStream {
  host : bytes;
  port : bytes;
  target : bytes;
  is_open : bool;
  written : list bytes;
}.
#[export] Instance Stream_settable : Settable Stream :=
  fun s => mkStream (host s) (port s) (target s) (is_open s) (written s).

(** [ioc_]: [None] is the null pointer, [Some stopped] the context. *)
Record WsClient := mkWsClient {
  life : ClientLife;
  ws_ : option Stream;
  ioc_ : option bool;
  buffer_ : bytes;
  callbacks : Callbacks;
  feed : FeedClient;
  api_key_name_ : bytes;
  api_private_key_ : bytes;
}.
#[export] Instance WsClient_settable : Settable WsClient :=
  fun w => mkWsClient (life w) (ws_ w) (ioc_ w) (buffer_ w) (callbacks w) (feed w) (api_key_name_ w) (api_private_key_ w).

(** The constructors. *)
Definition new_ws_client : WsClient :=
  mkWsClient new_life None None [] (mkCallbacks false false) new_client [] [].

Definition set_message_callback (on : bool) (w : WsClient) : WsClient :=
  w <| callbacks := mkCallbacks on (depth_callback (callbacks w)) |>.
Definition set_depth_callback (on : bool) (w : WsClient) : WsClient :=
  w <| callbacks := mkCallbacks (message_callback (callbacks w)) on |>.
Definition set_credentials (key_name private_key_pem : bytes) (w : WsClient) : WsClient :=
  w <| api_key_name_ := key_name |> <| api_private_key_ := private_key_pem |>.

(** ** What the environment gives *)

(** One [connect]: the stages that succeed; which of the writes do; the
    environment variables; the nonce and the time of the token. *)
Record Net := mkNet {
  sni : bool;
  resolves : bool;
  connects : bool;
  ssl_handshake : bool;
  ws_handshake : bool;
  writes : nat -> bool;
  getenv : bytes -> option bytes;
  nonce1 : Z;
  nonce2 : Z;
  unix_time : Z;
}.

(** One [read]: a message, or an error code or exception. *)
Inductive ReadResult := ReadMessage (message : bytes) | ReadError.

(** ** Where each exchange is *)

Definition exchange_host (x : Exchange) : bytes :=
  match x with
  | BinanceWs => $"stream.binance.us"
  | VenueWs Kraken => $"ws.kraken.com"
  | VenueWs Bybit => $"stream.bybit.com"
  | VenueWs Coinbase => $"advanced-trade-ws.coinbase.com"
  end.
Definition exchange_port (x : Exchange) : bytes := match x with BinanceWs => $"9443" | VenueWs _ => $"443" end.
Definition exchange_target (x : Exchange) (symbols : list bytes) : bytes :=
  match x with
  | BinanceWs => binance_target symbols
  | VenueWs Kraken => $"/v2"
  | VenueWs Bybit => $"/v5/public/spot"
  | VenueWs Coinbase => $"/"
  end.

(** The overload of [handshake] without an error code throws. *)
Definition failed_handshake (x : Exchange) : Transport :=
  match x with VenueWs Coinbase => TransportException | _ => HandshakeError end.

Section transport.
Context `{JsonLib} `{StrtodUnderflow} `{!StdSort lv_price} `{OpenSSL} (dump : jtree -> bytes).

(** ** connect *)

(** Coinbase: credentials not set come from the environment. *)
Definition load_credentials (x : Exchange) (n : Net) (w : WsClient) : WsClient :=
  if bool_decide (x = VenueWs Coinbase) && bool_decide (api_key_name_ w = []) then
    let w := match getenv n $"COINBASE_API_KEY_NAME" with Some k => w <| api_key_name_ := k |> | None => w end in
    match getenv n $"COINBASE_API_PRIVATE_KEY" with Some p => w <| api_private_key_ := p |> | None => w end
  else w.

(** The [try] block up to the two handshakes. *)
Definition dial (x : Exchange) (n : Net) (symbols : list bytes) (w : WsClient) : WsClient * Transport :=
  let stream := mkStream (exchange_host x) (exchange_port x) (exchange_target x symbols) false [] in
  let w := w <| ioc_ := Some false |> <| ws_ := Some stream |> in
  if negb (sni n) then (w, SniError)
  else if negb (resolves n) then (w, TransportException)
  else if negb (connects n) then (w, TransportException)
  else if negb (ssl_handshake n) then (w, failed_handshake x)
  else if negb (ws_handshake n) then (w, failed_handshake x)
  else (w <| ws_ := Some (stream <| is_open := true |>) |>, Handshaken).

(** What [send_subscribe_message] writes; Binance has subscribed by its
    target. *)
Definition subscription_messages (x : Exchange) (n : Net) (symbols : list bytes) (w : WsClient) : list jtree :=
  match x with
  | BinanceWs => []
  | VenueWs Kraken => [kraken_subscription symbols]
  | VenueWs Bybit => bybit_subscriptions symbols
  | VenueWs Coinbase =>
      [coinbase_subscription symbols
         (make_jwt dump (nonce1 n) (nonce2 n) (unix_time n) (api_key_name_ w) (api_private_key_ w))]
  end.

(** The writes, from the [i]-th on; one that throws ends them, and
    [send_subscribe_message] swallows it. *)
Fixpoint write_all (ok : nat -> bool) (i : nat) (ms : list bytes) (s : Stream) : Stream :=
  match ms with
  | [] => s
  | m :: ms' => if ok i then write_all ok (S i) ms' (s <| written := written s ++ [m] |>) else s
  end.

Definition send_subscribe_message (x : Exchange) (n : Net) (symbols : list bytes) (w : WsClient) : WsClient :=
  match ws_ w with
  | None => w
  | Some s => w <| ws_ := Some (write_all (writes n) 0 (map dump (subscription_messages x n symbols w)) s) |>
  end.

(** [connect]; [None] is [std::terminate], from assigning to a joinable
    thread. *)
Definition connect (x : Exchange) (n : Net) (symbols : list bytes) (w : WsClient) : option (WsClient * bool) :=
  if connected_ (life w) then Some (w, false)
  else
    let w := load_credentials x n w in
    let w := w <| life := (life w) <| subscribed_symbols_ := symbols |> |> in
    match dial x n symbols w with
    | (w, SniError) => Some (w, false)
    | (w, HandshakeError) => Some (w, false)
    | (w, TransportException) => Some (w <| life := (life w) <| connected_ := false |> |>, false)
    | (w, Handshaken) =>
        let w := w <| life := (life w) <| connected_ := true |> |> in
        let w := send_subscribe_message x n symbols w in
        match thread (life w) with
        | Some _ => None
        | None => Some (w <| life := (life w) <| thread := Some RLoop |> |>, true)
        end
    end.

(** ** disconnect *)

(** [disconnect] up to the join: the flags, the close frame, the context. *)
Definition disconnect (w : WsClient) : WsClient :=
  if negb (connected_ (life w)) && bool_decide (thread (life w) = None) then w
  else
    let l := (life w) <| should_stop_ := true |> <| connected_ := false |> in
    w <| ws_ := (fun s => s <| is_open := false |>) <$> ws_ w |>
      <| ioc_ := (fun _ => true) <$> ioc_ w |>
      <| life := l <| joining := bool_decide (thread l <> None) |> |>.

Definition join (w : WsClient) : option WsClient :=
  l ← ClientLifecycle.join (life w); Some (w <| life := l |>).

(** ** The reading thread *)

(** [on_read] of the exchange's client. *)
Definition on_message (x : Exchange) (cb : Callbacks) (clocks : nat -> nat -> Z) (now_ms : Z)
    (message : bytes) (c : FeedClient) : ub FeedClient :=
  match x with
  | BinanceWs => binance_on_read cb now_ms message c
  | VenueWs v => on_read v cb clocks now_ms message c
  end.

(** [do_read]. *)
Definition do_read (x : Exchange) (clocks : nat -> nat -> Z) (now_ms : Z) (r : ReadResult) (w : WsClient)
    : ub WsClient :=
  let w := w <| buffer_ := [] |> in
  match r with
  | ReadError => Some (w <| life := (life w) <| connected_ := false |> |>)
  | ReadMessage m =>
      let w := w <| buffer_ := m |> in
      c ← on_message x (callbacks w) clocks now_ms (buffer_ w) (feed w);
      Some (w <| feed := c |> <| life := (life w) <| reads := S (reads (life w)) |> |>)
  end.

(** [run_client]: the test of its loop, and a turn of it. *)
Definition run_client_test (w : WsClient) : option WsClient :=
  match thread (life w) with
  | Some RLoop =>
      let pc := if negb (should_stop_ (life w)) && connected_ (life w) then RRead else RDone in
      Some (w <| life := (life w) <| thread := Some pc |> |>)
  | _ => None
  end.

Definition run_client_read (x : Exchange) (clocks : nat -> nat -> Z) (now_ms : Z) (r : ReadResult) (w : WsClient)
    : option (ub WsClient) :=
  match thread (life w) with
  | Some RRead =>
      Some (w ← do_read x clocks now_ms r w; Some (w <| life := (life w) <| thread := Some RLoop |> |>))
  | _ => None
  end.

(** ** The four classes *)

(** The methods of a client class.  The four share their text but for where
    they connect, how they subscribe, how a failed handshake is reported and
    what [on_read] does with a message. *)
Record ClientClass := mkClientClass {
  construct : WsClient;
  class_connect : Net -> list bytes -> WsClient -> option (WsClient * bool);
  class_disconnect : WsClient -> WsClient;
  class_set_message_callback : bool -> WsClient -> WsClient;
  class_set_depth_callback : bool -> WsClient -> WsClient;
  class_do_read : (nat -> nat -> Z) -> Z -> ReadResult -> WsClient -> ub WsClient;
}.

Definition BinanceWebSocketClient : ClientClass :=
  mkClientClass new_ws_client (connect BinanceWs) disconnect set_message_callback set_depth_callback (do_read BinanceWs).
Definition KrakenWebSocketClient : ClientClass :=
  mkClientClass new_ws_client (connect (VenueWs Kraken)) disconnect set_message_callback set_depth_callback
    (do_read (VenueWs Kraken)).
Definition BybitWebSocketClient : ClientClass :=
  mkClientClass new_ws_client (connect (VenueWs Bybit)) disconnect set_message_callback set_depth_callback
    (do_read (VenueWs Bybit)).
Definition CoinbaseWebSocketClient : ClientClass :=
  mkClientClass new_ws_client (connect (VenueWs Coinbase)) disconnect set_message_callback set_depth_callback
    (do_read (VenueWs Coinbase)).

Definition client_class (x : Exchange) : ClientClass :=
  match x with
  | BinanceWs => BinanceWebSocketClient
  | VenueWs Kraken => KrakenWebSocketClient
  | VenueWs Bybit => BybitWebSocketClient
  | VenueWs Coinbase => CoinbaseWebSocketClient
  end.

(** ** Executions *)

(** The owner's calls and the thread's steps; what the environment gives to
    each is in the event. *)
Inductive WsEvent :=
  | WConnect (n : Net) (symbols : list bytes)
  | WDisconnect
  | WMessageCallback (on : bool)
  | WDepthCallback (on : bool)
  | WCredentials (key_name private_key_pem : bytes)
  | WJoin
  | WTest
  | WRead (clocks : nat -> nat -> Z) (now_ms : Z) (r : ReadResult).

(** The owner makes one call after the other, so none while [disconnect]
    joins. *)
Definition owner_call (x : Exchange) (e : WsEvent) (w : WsClient) : option WsClient :=
  let c := client_class x in
  match e with
  | WConnect n symbols => fst <$> class_connect c n symbols w
  | WDisconnect => Some (class_disconnect c w)
  | WMessageCallback on => Some (class_set_message_callback c on w)
  | WDepthCallback on => Some (class_set_depth_callback c on w)
  | WCredentials k p => Some (set_credentials k p w)
  | _ => None
  end.

(** [None]: the event is not possible, or it ends the process. *)
Definition ws_event (x : Exchange) (e : WsEvent) (w : WsClient) : option WsClient :=
  match e with
  | WJoin => join w
  | WTest => run_client_test w
  | WRead clocks now_ms r => mjoin (run_client_read x clocks now_ms r w)
  | _ => if joining (life w) then None else owner_call x e w
  end.

(** The events of an execution, in any order. *)
Fixpoint ws_run (x : Exchange) (es : list WsEvent) (w : WsClient) : option WsClient :=
  match es with [] => Some w | e :: es => w ← ws_event x e w; ws_run x es w end.

(** ** What an execution reads *)

(** A message read, with the callbacks set at that time and the clocks. *)
Record Heard := mkHeard {
  h_callbacks : Callbacks;
  h_clocks : nat -> nat -> Z;
  h_now_ms : Z;
  h_message : bytes;
}.

Definition callbacks_after (cb : Callbacks) (e : WsEvent) : Callbacks :=
  match e with
  | WMessageCallback on => mkCallbacks on (depth_callback cb)
  | WDepthCallback on => mkCallbacks (message_callback cb) on
  | _ => cb
  end.

Definition heard_at (cb : Callbacks) (e : WsEvent) : option Heard :=
  match e with WRead clocks now_ms (ReadMessage m) => Some (mkHeard cb clocks now_ms m) | _ => None end.

(** The messages among the events, from callbacks [cb] on: a function of the
    events alone. *)
Fixpoint heard (cb : Callbacks) (es : list WsEvent) : list Heard :=
  match es with
  | [] => []
  | e :: es => option_list (heard_at cb e) ++ heard (callbacks_after cb e) es
  end.

(** The handler on messages, one after the other. *)
Definition handle (x : Exchange) (c : FeedClient) (h : Heard) : ub FeedClient :=
  on_message x (h_callbacks h) (h_clocks h) (h_now_ms h) (h_message h) c.
Fixpoint handle_all (x : Exchange) (hs : list Heard) (c : FeedClient) : ub FeedClient :=
  match hs with [] => Some c | h :: hs => c ← handle x c h; handle_all x hs c end.

(** ** Each step is a step of [ClientLifecycle] *)

(** How far the transport gets, from its stages. *)
Definition outcome (x : Exchange) (n : Net) : Transport := snd (dial x n [] new_ws_client).

Lemma dial_outcome x n symbols w :
  snd (dial x n symbols w) = outcome x n /\ life (fst (dial x n symbols w)) = life w.
Proof using. unfold outcome, dial. repeat case_match; done. Qed.

Lemma load_credentials_life x n w : life (load_credentials x n w) = life w.
Proof using. unfold load_credentials. repeat case_match; done. Qed.

Lemma subscribe_life x n symbols w : life (send_subscribe_message x n symbols w) = life w.
Proof using. unfold send_subscribe_message. by case_match. Qed.

(** [connect] is the abstract one on the outcome of the stages. *)
Lemma connect_life x n symbols w :
  ClientLifecycle.connect (outcome x n) symbols (life w) =
  (fun r => (life (fst r), snd r)) <$> connect x n symbols w.
Proof using.
  unfold connect, ClientLifecycle.connect. destruct (connected_ (life w)) eqn:Hc; [done|].
  set (w1 := load_credentials x n w). set (w2 := w1 <| life := _ |>).
  destruct (dial_outcome x n symbols w2) as [Ho Hl].
  assert (Hw2 : life w2 = (life w) <| subscribed_symbols_ := symbols |>).
  { unfold w2. simpl. unfold w1. by rewrite load_credentials_life. }
  destruct (dial x n symbols w2) as [w3 tr]. cbn [fst snd] in Ho, Hl. rewrite Hw2 in Hl. clear Hw2. clearbody w2. rewrite <-Ho. destruct tr; cbn -[send_subscribe_message]; [by rewrite Hl..|].
  set (w4 := mkWsClient _ _ _ _ _ _ _ _). assert (Hw4 : life w4 = (life w) <| subscribed_symbols_ := symbols |> <| connected_ := true |>).
  { unfold w4. simpl. by rewrite Hl. }
  set (w5 := send_subscribe_message x n symbols w4).
  assert (Hw5 : life w5 = life w4) by apply subscribe_life. rewrite Hw5, Hw4. simpl.
  by destruct (thread (life w)).
Qed.

Lemma disconnect_life w : life (disconnect w) = ClientLifecycle.disconnect (life w).
Proof using. unfold disconnect, ClientLifecycle.disconnect. by case_match. Qed.

Lemma apply_all_count st cb clocks xs c : message_count (apply_all (client_apply st cb) clocks xs c) = message_count c.
Proof using. unfold apply_all. revert c. induction xs as [|y xs IH]; intros c; [done|]. simpl. by rewrite IH. Qed.

Lemma on_message_count x cb clocks now_ms message c c' :
  on_message x cb clocks now_ms message c = Some c' -> message_count c' = wrap64 (message_count c + 1).
Proof using.
  destruct x as [|v]; simpl.
  - unfold binance_on_read. destruct (binance_depth cb now_ms message); try done; by intros [= <-].
  - intros (xs & _ & _ & ->)%on_read_decoded. by rewrite apply_all_count.
Qed.

Lemma join_life w w' : join w = Some w' -> ClientLifecycle.join (life w) = Some (life w') /\ feed w' = feed w.
Proof using. unfold join. destruct (ClientLifecycle.join (life w)); [|done]. by intros [= <-]. Qed.

Lemma run_client_test_life w w' :
  run_client_test w = Some w' -> reader_step true (life w) = Some (life w') /\ feed w' = feed w.
Proof using.
  unfold run_client_test, reader_step. destruct (thread (life w)) as [[]|]; try done. by intros [= <-].
Qed.

Lemma run_client_read_life x clocks now_ms r w w' :
  run_client_read x clocks now_ms r w = Some (Some w') ->
  (exists message, reader_step message (life w) = Some (life w')) /\ callbacks w' = callbacks w /\
  match heard_at (callbacks w) (WRead clocks now_ms r) with
  | None => reads (life w') = reads (life w) /\ feed w' = feed w
  | Some h => reads (life w') = S (reads (life w)) /\ handle x (feed w) h = Some (feed w')
  end.
Proof using.
  unfold run_client_read, reader_step, do_read. destruct (thread (life w)) as [[]|]; try done. destruct r as [m|].
  - cbn [buffer_ callbacks feed set_field]. destruct (on_message x _ clocks now_ms m _) as [c|] eqn:E; [|done].
    intros [= <-]. split; [by exists true|]. done.
  - intros [= <-]. split; [by exists false|]. done.
Qed.

Lemma load_credentials_feed x n w : feed (load_credentials x n w) = feed w.
Proof using. unfold load_credentials. repeat case_match; done. Qed.

Lemma dial_feed x n symbols w : feed (fst (dial x n symbols w)) = feed w.
Proof using. unfold dial. repeat case_match; done. Qed.

Lemma subscribe_feed x n symbols w : feed (send_subscribe_message x n symbols w) = feed w.
Proof using. unfold send_subscribe_message. by case_match. Qed.

Lemma load_credentials_callbacks x n w : callbacks (load_credentials x n w) = callbacks w.
Proof using. unfold load_credentials. repeat case_match; done. Qed.
Lemma dial_callbacks x n symbols w : callbacks (fst (dial x n symbols w)) = callbacks w.
Proof using. unfold dial. repeat case_match; done. Qed.
Lemma subscribe_callbacks x n symbols w : callbacks (send_subscribe_message x n symbols w) = callbacks w.
Proof using. unfold send_subscribe_message. by case_match. Qed.

(** [connect] leaves the books, the callbacks and the count of reads alone. *)
Lemma connect_feed x n symbols w w' ok :
  connect x n symbols w = Some (w', ok) ->
  feed w' = feed w /\ reads (life w') = reads (life w) /\ callbacks w' = callbacks w.
Proof using.
  pose proof (load_credentials_feed x n w) as E1. pose proof (load_credentials_life x n w) as E2.
  pose proof (load_credentials_callbacks x n w) as C1.
  unfold connect. destruct (connected_ (life w)); [by intros [= <- _]|].
  set (w1 := load_credentials x n w) in *. set (w2 := w1 <| life := _ |>).
  pose proof (dial_feed x n symbols w2) as E3. destruct (dial_outcome x n symbols w2) as [_ E4].
  pose proof (dial_callbacks x n symbols w2) as C2. change (callbacks w2) with (callbacks w1) in C2.
  assert (E5 : reads (life w2) = reads (life w)) by (unfold w2; simpl; by rewrite E2).
  change (feed w2) with (feed w1) in E3. destruct (dial x n symbols w2) as [w3 tr]. cbn [fst] in E3, E4, C2.
  destruct tr; [by intros [= <- _]; rewrite E3, E4, C2..|intros [= <- _]; simpl; by rewrite E3, E4, C2|].
  match goal with |- context [send_subscribe_message x n symbols ?w4] =>
    pose proof (subscribe_feed x n symbols w4) as E6; pose proof (subscribe_life x n symbols w4) as E7;
    pose proof (subscribe_callbacks x n symbols w4) as C3;
    set (w5 := send_subscribe_message x n symbols w4) in * end.
  destruct (thread (life w5)); [done|]. intros [= <- _]. simpl. rewrite E6, E7, C3. simpl. by rewrite E3, E4, C2.
Qed.

Lemma class_methods x :
  class_connect (client_class x) = connect x /\ class_disconnect (client_class x) = disconnect /\
  class_set_message_callback (client_class x) = set_message_callback /\
  class_set_depth_callback (client_class x) = set_depth_callback.
Proof using. by destruct x as [|[]]. Qed.

(** What an event does to the books: nothing, or what the handler does with the
    message read. *)
Definition hears (x : Exchange) (o : option Heard) (w w' : WsClient) : Prop :=
  match o with
  | None => reads (life w') = reads (life w) /\ feed w' = feed w
  | Some h => reads (life w') = S (reads (life w)) /\ handle x (feed w) h = Some (feed w')
  end.

(** Each event is a step of the abstract client, or none. *)
Lemma owner_call_spec x e w w' :
  joining (life w) = false -> owner_call x e w = Some w' ->
  (life w' = life w \/ life_step (life w) (life w')) /\ callbacks w' = callbacks_after (callbacks w) e /\
  hears x (heard_at (callbacks w) e) w w'.
Proof using.
  intros Hj. destruct (class_methods x) as (Ec & Ed & Em & Edc). unfold owner_call. rewrite Ec, Ed, Em, Edc.
  destruct e as [n symbols| |on|on|k p| | |clocks now_ms r]; try done.
  - destruct (connect x n symbols w) as [[w1 ok]|] eqn:E; [|done]. intros [= <-].
    destruct (connect_feed _ _ _ _ _ _ E) as (Ef & Er & Ecb). split; [|by split].
    right. eapply (l_connect (outcome x n) symbols); [done|]. by rewrite connect_life, E.
  - intros [= <-]. split; [right; rewrite disconnect_life; by apply l_disconnect|].
    unfold disconnect, hears. by case_match.
  - intros [= <-]. by split; [left|].
  - intros [= <-]. by split; [left|].
  - intros [= <-]. by split; [left|].
Qed.

Lemma ws_event_spec x e w w' :
  ws_event x e w = Some w' ->
  (life w' = life w \/ life_step (life w) (life w')) /\ callbacks w' = callbacks_after (callbacks w) e /\
  hears x (heard_at (callbacks w) e) w w'.
Proof using.
  assert (Howner : forall e, (if joining (life w) then None else owner_call x e w) = Some w' ->
    (life w' = life w \/ life_step (life w) (life w')) /\ callbacks w' = callbacks_after (callbacks w) e /\
    hears x (heard_at (callbacks w) e) w w').
  { intros e'. destruct (joining (life w)) eqn:Hj; [done|]. by apply owner_call_spec. }
  destruct e as [n symbols| |on|on|k p| | |clocks now_ms r]; cbn [ws_event]; try (by apply Howner).
  - intros E. destruct (join_life _ _ E) as [El Ef]. split; [right; by apply l_join|].
    unfold join in E. destruct (ClientLifecycle.join (life w)) as [l|] eqn:El'; [|done]. injection E as <-.
    split; [done|]. split; [|done]. unfold ClientLifecycle.join in El'. repeat case_match; try done. by injection El' as <-.
  - intros E. destruct (run_client_test_life _ _ E) as [El Ef]. split; [right; by eapply l_reader|].
    unfold run_client_test in E. repeat case_match; try done; by injection E as <-.
  - destruct (run_client_read x clocks now_ms r w) as [[w1|]|] eqn:E; [|done..]. intros [= ->].
    destruct (run_client_read_life _ _ _ _ _ _ E) as ((m & Hm) & Hc & Hh). split; [right; by eapply l_reader|done].
Qed.

Lemma ws_run_spec x es w w' :
  reachable (life w) -> ws_run x es w = Some w' ->
  reachable (life w') /\ handle_all x (heard (callbacks w) es) (feed w) = Some (feed w') /\
  reads (life w') = (reads (life w) + length (heard (callbacks w) es))%nat.
Proof using.
  revert w. induction es as [|e es IH]; intros w Hr; simpl; [intros [= ->]; split_and!; [done|done|lia]|].
  intros (w1 & E & Hw1)%bind_Some. destruct (ws_event_spec _ _ _ _ E) as (Hl & Hc & Hh).
  assert (Hr1 : reachable (life w1)) by (destruct Hl as [->|Hl]; [done|by eapply r_step]).
  destruct (IH w1 Hr1 Hw1) as (Hw2 & Hw3 & Hw4). split; [done|]. rewrite <-Hc.
  unfold hears in Hh. destruct (heard_at (callbacks w) e) as [h|]; destruct Hh as [Hrd Hf]; simpl.
  - rewrite Hf. simpl. split; [done|]. lia.
  - rewrite <-Hf. split; [done|]. lia.
Qed.

Lemma handle_all_count x hs c c' :
  in_u64 (message_count c) -> handle_all x hs c = Some c' ->
  message_count c' = wrap64 (message_count c + Z.of_nat (length hs)).
Proof using.
  revert c. induction hs as [|h hs IH]; intros c Hc; simpl.
  { intros [= ->]. rewrite Z.add_0_r. by rewrite wrap64_small. }
  intros (c1 & E%on_message_count & Hw1)%bind_Some.
  assert (Hc1 : in_u64 (message_count c1)) by (rewrite E; apply wrap64_range).
  rewrite (IH c1 Hc1 Hw1), E. unfold wrap64. rewrite Zplus_mod_idemp_l. f_equal. lia.
Qed.

Lemma ws_run_app x es1 es2 w : ws_run x (es1 ++ es2) w = w1 ← ws_run x es1 w; ws_run x es2 w1.
Proof using. revert w. induction es1 as [|e es1 IH]; intros w; simpl; [done|]. destruct (ws_event x e w); [apply IH|done]. Qed.

(** ** After a disconnect *)

(** The loop of the reading thread is to end. *)
Definition told_to_end (w : WsClient) : Prop := negb (should_stop_ (life w)) && connected_ (life w) = false.

(** A read of it is under way. *)
Definition reads_under_way (w : WsClient) : nat := match thread (life w) with Some RRead => 1 | _ => 0 end.

Definition no_connect (e : WsEvent) : Prop := match e with WConnect _ _ => False | _ => True end.

Lemma told_event x e w w' :
  told_to_end w -> no_connect e -> ws_event x e w = Some w' ->
  told_to_end w' /\
  (length (option_list (heard_at (callbacks w) e)) + reads_under_way w'
   <= reads_under_way w)%nat.
Proof using.
  unfold told_to_end, reads_under_way. intros Ht Hn. destruct (class_methods x) as (_ & Ed & Em & Edc).
  destruct e as [n symbols| |on|on|k p| | |clocks now_ms r]; [done|..]; cbn [ws_event owner_call];
    rewrite ?Ed, ?Em, ?Edc; try (destruct (joining (life w)); [done|]).
  - intros [= <-]. unfold disconnect. case_match; [done|]. simpl. split; [done|]. lia.
  - intros [= <-]. simpl. split; [done|lia].
  - intros [= <-]. simpl. split; [done|lia].
  - intros [= <-]. simpl. split; [done|lia].
  - unfold join, ClientLifecycle.join. repeat case_match; try done; intros [= <-]; simpl; simplify_eq; (split; [done|lia]).
  - unfold run_client_test. destruct (thread (life w)) as [[]|]; try done. rewrite Ht. intros [= <-]. simpl. split; [done|lia].
  - unfold run_client_read, do_read. destruct (thread (life w)) as [[]|] eqn:Et; try done.
    destruct r as [m|]; simpl.
    + destruct (on_message x (callbacks w) clocks now_ms m (feed w)); [|done]. intros [= <-]. simpl. split; [done|lia].
    + intros [= <-]. simpl. split; [by destruct (should_stop_ (life w))|lia].
Qed.

Lemma told_reads x es w w' :
  told_to_end w -> Forall no_connect es -> ws_run x es w = Some w' ->
  (length (heard (callbacks w) es) <= reads_under_way w)%nat.
Proof using.
  intros Ht Hn. revert w Ht. induction Hn as [|e es He _ IH]; intros w Ht; simpl; [lia|].
  intros (w1 & E & Hw1)%bind_Some. destruct (told_event _ _ _ _ Ht He E) as [Ht1 Hle].
  specialize (IH w1 Ht1 Hw1). destruct (ws_event_spec _ _ _ _ E) as (_ & Hc & _). rewrite length_app, <-Hc. lia.
Qed.

Lemma disconnect_tells w : told_to_end (disconnect w).
Proof using.
  unfold told_to_end, disconnect. destruct (connected_ (life w)) eqn:Hc; simpl; [by rewrite ?andb_false_r|].
  destruct (bool_decide (thread (life w) = None)); simpl; [by rewrite Hc, andb_false_r|done].
Qed.

(** ** connect *)

Lemma write_all_spec ok i ms s :
  exists k, write_all ok i ms s = s <| written := written s ++ take k ms |> /\ (k <= length ms)%nat /\
    ((forall j, ok j = true) -> k = length ms).
Proof using.
  revert i s. induction ms as [|m ms IH]; intros i s; cbn [write_all].
  { exists 0%nat. simpl. rewrite app_nil_r. by destruct s. }
  destruct (ok i) eqn:Hi.
  - destruct (IH (S i) (s <| written := written s ++ [m] |>)) as (k & E & Hk & Hall). exists (S k). rewrite E. cbn.
    rewrite <-app_assoc. split; [done|]. split; [lia|]. intros Hw2. by rewrite Hall.
  - exists 0%nat. simpl. rewrite app_nil_r. split; [by destruct s|]. split; [lia|]. intros Hw2. by rewrite Hw2 in Hi.
Qed.

(** The five stages of a connection. *)
Definition reaches (n : Net) : bool := sni n && resolves n && connects n && ssl_handshake n && ws_handshake n.

Lemma dial_handshaken x n symbols w :
  snd (dial x n symbols w) = Handshaken <-> reaches n = true.
Proof using.
  unfold dial, reaches. destruct (sni n), (resolves n), (connects n), (ssl_handshake n), (ws_handshake n); simpl;
    split; try done; by destruct x as [|[]].
Qed.

Lemma dial_failed x n symbols w :
  reaches n = false -> snd (dial x n symbols w) <> Handshaken /\
  connected_ (life (fst (dial x n symbols w))) = connected_ (life w).
Proof using.
  intros Hr. split; [by rewrite dial_handshaken, Hr|]. by destruct (dial_outcome x n symbols w) as [_ ->].
Qed.

Lemma dial_done x n symbols w :
  reaches n = true -> dial x n symbols w =
    (w <| ioc_ := Some false |>
       <| ws_ := Some (mkStream (exchange_host x) (exchange_port x) (exchange_target x symbols) true []) |>, Handshaken).
Proof using.
  unfold reaches, dial. intros Hr. bool_to_prop. repeat match goal with Hw2 : _ = true |- _ => rewrite Hw2; clear Hw2 end. done.
Qed.

Lemma subscription_messages_keys x n symbols w w' :
  api_key_name_ w = api_key_name_ w' -> api_private_key_ w = api_private_key_ w' ->
  subscription_messages x n symbols w = subscription_messages x n symbols w'.
Proof using. intros E1 E2. unfold subscription_messages. by rewrite E1, E2. Qed.

(** ** Properties *)

(** C16: A client is the abstract client and the message handler, whatever the
    owner does and whatever the exchange sends.  In every execution that meets no
    undefined behaviour and does not end the process, a sequence of connects, disconnects, joins, settings of callbacks and credentials, and
    tests and reads of the reading thread, flags and thread make the steps of
    [ClientLifecycle]; and the books, the callbacks fired and the counter are
    what [on_read] makes of exactly the messages the reads of that sequence
    returned, in their order, each with the clocks of its read and the callbacks
    set before it: none is lost, changed or handled twice.  After a disconnect,
    until the next connect, at most the one message is handled whose read was
    under way. *)
Theorem ws_client_reads x es w :
  ws_run x es new_ws_client = Some w ->
  let hs := heard (mkCallbacks false false) es in
  reachable (life w) /\ handle_all x hs new_client = Some (feed w) /\
  reads (life w) = length hs /\ message_count (feed w) = wrap64 (Z.of_nat (length hs)) /\
  (forall before after, es = before ++ WDisconnect :: after -> Forall no_connect after ->
     exists w1, ws_run x before new_ws_client = Some w1 /\
       (length (heard (callbacks w1) after) <= reads_under_way w1)%nat).
Proof using.
  intros Hr hs. destruct (ws_run_spec x es new_ws_client w r_new Hr) as (Hw1 & Hw2 & Hw3).
  split_and!; [exact Hw1|exact Hw2|exact Hw3|by apply (handle_all_count x hs new_client)|].
  intros before after -> Hn. rewrite ws_run_app in Hr. apply bind_Some in Hr as (w1 & E1 & Hr).
  exists w1. split; [done|]. cbn [ws_run] in Hr. apply bind_Some in Hr as (w2 & E2 & Hr).
  assert (Ew : w2 = disconnect w1).
  { cbn [ws_event owner_call] in E2. rewrite (proj1 (proj2 (class_methods x))) in E2.
    destruct (joining (life w1)); [done|by injection E2]. }
  subst w2. pose proof (told_reads x after _ w (disconnect_tells w1) Hn Hr) as Hle.
  unfold reads_under_way, disconnect in *. case_match; [done|exact Hle].
Qed.

(** [connect] succeeds exactly on a client that is not connected whose five
    stages go well, and then the stream is open to the exchange's host, port
    and target, the subscription was written to it, entirely if no write
    fails, and the reading thread is started; otherwise it returns false and
    neither the thread nor the connected flag has changed.  The process ends
    when a thread of an earlier connection was not joined. *)
Theorem connect_subscribes x n symbols w :
  match class_connect (client_class x) n symbols w with
  | None => connected_ (life w) = false /\ thread (life w) <> None /\ reaches n = true
  | Some (w', true) =>
      connected_ (life w) = false /\ thread (life w) = None /\ reaches n = true /\
      connected_ (life w') = true /\ thread (life w') = Some RLoop /\ subscribed_symbols_ (life w') = symbols /\
      feed w' = feed w /\
      exists k, let ms := map dump (subscription_messages x n symbols (load_credentials x n w)) in
        ws_ w' = Some (mkStream (exchange_host x) (exchange_port x) (exchange_target x symbols) true (take k ms)) /\
        ((forall i, writes n i = true) -> take k ms = ms)
  | Some (w', false) =>
      (connected_ (life w) = true \/ reaches n = false) /\ thread (life w') = thread (life w) /\
      connected_ (life w') = connected_ (life w) /\ feed w' = feed w
  end.
Proof using.
  rewrite (proj1 (class_methods x)). destruct (connect x n symbols w) as [[w' ok]|] eqn:E.
  - destruct (connect_feed _ _ _ _ _ _ E) as (Ef & _). unfold connect in E. destruct (connected_ (life w)) eqn:Hc.
    { injection E as <- <-. split_and!; try done. by left. }
    pose proof (load_credentials_life x n w) as Hcred. set (w1 := load_credentials x n w) in *.
    set (w2 := w1 <| life := _ |>) in E. assert (Hc2 : connected_ (life w2) = false /\ thread (life w2) = thread (life w)).
    { unfold w2. simpl. by rewrite Hcred. }
    destruct (reaches n) eqn:Hr.
    + rewrite dial_done in E by done. cbn -[subscription_messages] in E.
      destruct (write_all_spec (writes n) 0
        (map dump (subscription_messages x n symbols w1))
        (mkStream (exchange_host x) (exchange_port x) (exchange_target x symbols) true [])) as (k & Ek & Hk & Hall).
      rewrite (subscription_messages_keys x n symbols _ w1) in E by done. rewrite Ek, Hcred in E.
      destruct (thread (life w)) eqn:Ht; [done|]. injection E as <- <-. cbn. split_and!; try done.
      exists k. split; [done|]. intros Hw. by rewrite (Hall Hw), firstn_all.
    + destruct (dial_failed x n symbols w2 Hr) as [Hd Hl]. destruct (dial_outcome x n symbols w2) as [_ Hlife].
      destruct (dial x n symbols w2) as [w3 tr]. cbn [fst snd] in *. destruct Hc2 as [Hc2 Ht2].
      destruct tr; try done; injection E as <- <-; simpl; rewrite ?Hlife, ?Hc2, ?Ht2; split_and!; done || by right.
  - unfold connect in E. destruct (connected_ (life w)) eqn:Hc; [done|].
    pose proof (load_credentials_life x n w) as Hcred. set (w1 := load_credentials x n w) in *.
    destruct (reaches n) eqn:Hr.
    + rewrite dial_done in E by done. cbn -[subscription_messages] in E. rewrite Hcred in E.
      by destruct (thread (life w)).
    + set (w2 := w1 <| life := _ |>) in E. destruct (dial_failed x n symbols w2 Hr) as [Hd _].
      destruct (dial x n symbols w2) as [w3 tr]. by destruct tr.
Qed.
End transport.

(** ** An execution: a Bybit client connects and reads a snapshot *)

Section witnesses.
#[local] Instance tr_underflow : StrtodUnderflow := fun _ _ => true.
#[local] Instance tr_sort : StdSort lv_price := insertion_std_sort lv_price.
#[local] Instance tr_json : JsonLib := tree_json ex_parse.
#[local] Existing Instance ex_openssl.

Definition ex_net (write_ok : bool) : Net :=
  mkNet true true true true true (fun _ => write_ok) (fun _ => None) 1 2 1700000000.

Definition ex_symbols : list bytes := [$"BTCUSDT"].
Definition ex_connected : WsClient :=
  match connect ex_dump (VenueWs Bybit) (ex_net true) ex_symbols (set_depth_callback true new_ws_client) with
  | Some (w, _) => w
  | None => new_ws_client
  end.
Definition ex_testing : WsClient := default ex_connected (run_client_test ex_connected).
Definition ex_read : WsClient :=
  match run_client_read (VenueWs Bybit) ex_clocks 5 (ReadMessage $"snapshot") ex_testing with
  | Some (Some w) => w
  | _ => new_ws_client
  end.

(** It reads a snapshot, then it is disconnected. *)
Definition ex_events : list WsEvent :=
  [WDepthCallback true; WConnect (ex_net true) ex_symbols; WTest; WRead ex_clocks 5 (ReadMessage $"snapshot")].

Lemma ws_client_reads_witness :
  ws_run ex_dump (VenueWs Bybit) ex_events new_ws_client = Some ex_read /\
  message_count (feed ex_read) = 1 /\ length (fired (feed ex_read)) = 1%nat.
Proof.
  assert (E : ws_run ex_dump (VenueWs Bybit) ex_events new_ws_client = Some ex_read) by (vm_compute; reflexivity).
  split; [exact E|]. split; [|vm_compute; reflexivity].
  destruct (ws_client_reads ex_dump (VenueWs Bybit) ex_events ex_read E) as (_ & _ & _ & H & _). exact H.
Defined.

(** A subscription that could not be written: [connect] returns true, and the
    client reads a stream on which nothing was subscribed. *)
Example connected_unsubscribed :
  match connect ex_dump (VenueWs Kraken) (ex_net false) ex_symbols new_ws_client with
  | Some (w, ok) => Some (ok, connected_ (life w), written <$> ws_ w)
  | None => None
  end = Some (true, true, Some []).
Proof. vm_compute. reflexivity. Qed.

(** A failed handshake leaves the client as it was, but for the symbols; the
    Coinbase client reports its own through an exception. *)
Example failed_handshakes :
  map (fun x => outcome x (mkNet true true true true false (fun _ => true) (fun _ => None) 1 2 0))
    [BinanceWs; VenueWs Kraken; VenueWs Bybit; VenueWs Coinbase]
  = [HandshakeError; HandshakeError; HandshakeError; TransportException].
Proof. reflexivity. Qed.

(** Credentials set by hand win over the environment, unless the name is
    empty: then the environment replaces the key as well. *)
Example credentials_of_environment :
  let n := mkNet true true true true true (fun _ => true)
             (fun v => if bool_decide (v = $"COINBASE_API_PRIVATE_KEY") then Some $"env" else None) 1 2 0 in
  map (fun w => api_private_key_ (load_credentials (VenueWs Coinbase) n w))
    [set_credentials $"name" $"key" new_ws_client; set_credentials [] $"key" new_ws_client] = [$"key"; $"env"].
Proof. reflexivity. Qed.
End witnesses.
