(* ===== verification/Dashboard.v ===== *)
(** * Terminal dashboard (src/dashboard.hpp, src/dashboard.cpp)

    The last ticker and the previous mid price of every exchange and symbol,
    and the screen drawn from them and from the engine's opportunities, byte
    for byte, ANSI sequences included.  [std::unordered_map] is walked in an
    unspecified order and [std::sort] on profits is any sort ([StdSort]);
    clock readings are arguments. *)

From Stdlib Require Import ZArith Lia Sorted.
From stdpp Require Import sorting.
From S2P Require Import Prelude Float64 SortedMap StdSort Str Fmt Types FixBuilder QueryProtocol.
From S2P Require ArbEngine.

(** An escape sequence. *)
Definition esc (s : bytes) : bytes := byte_of 27 :: s.
Definition clear_screen : bytes := esc $"[2J" ++ esc $"[H".

Definition endl (s : bytes) : bytes := s ++ [NL].

(** ** State *)

Record Dashboard := mkDashboard {
  market_data_ : gmap bytes TickerData;
  previous_prices_ : gmap bytes double;
  update_count_ : Z;
  last_update_ : Z;
  update_interval_ : Z;
  running_ : bool;
}.
#[export] Instance Dashboard_settable : Settable Dashboard :=
  fun d => mkDashboard (market_data_ d) (previous_prices_ d) (update_count_ d) (last_update_ d)
    (update_interval_ d) (running_ d).

(** The constructor, at time [now]. *)
Definition new_dashboard (now : Z) : Dashboard := mkDashboard ∅ ∅ 0 now 1000 false.

Definition start (d : Dashboard) : Dashboard := if running_ d then d else d <| running_ := true |>.

(** [stop], with what it prints. *)
Definition stop (d : Dashboard) : Dashboard * bytes :=
  if negb (running_ d) then (d, [])
  else (d <| running_ := false |>, clear_screen ++ endl $"Dashboard stopped.").

Definition set_update_interval (ms : Z) (d : Dashboard) : Dashboard := d <| update_interval_ := ms |>.

Definition ticker_key (t : TickerData) : bytes := make_ticker_key (td_exchange t) (td_symbol t).

Definition update_market_data (now : Z) (t : TickerData) (d : Dashboard) : Dashboard :=
  let key := ticker_key t in
  let d :=
    match market_data_ d !! key with
    | Some old => d <| previous_prices_ := <[key := td_mid_price old]> (previous_prices_ d) |>
    | None => d
    end in
  d <| market_data_ := <[key := t]> (market_data_ d) |>
    <| update_count_ := wrap64 (update_count_ d + 1) |> <| last_update_ := now |>.

(** ** Text *)

Definition GREEN : bytes := esc $"[32m".
Definition RED : bytes := esc $"[31m".
Definition YELLOW : bytes := esc $"[33m".
Definition BLUE : bytes := esc $"[34m".
Definition MAGENTA : bytes := esc $"[35m".
Definition CYAN : bytes := esc $"[36m".
Definition RESET : bytes := esc $"[0m".
Definition BOLD : bytes := esc $"[1m".
Definition BRIGHT_GREEN : bytes := esc $"[1;32m".

Definition spaces (n : nat) : bytes := replicate n " "%char.

Definition format_large_number (number : Z) : bytes :=
  if number <? 1000 then to_string number
  else if number <? 1000000 then to_string (number / 1000) ++ $"K"
  else to_string (number / 1000000) ++ $"M".

(** Two digits at least, with [std::setfill('0')]. *)
Definition two (n : Z) : bytes := pad_left 2 "0"%char (to_string n).

(** [duration_cast] truncates; the argument is in milliseconds. *)
Definition format_duration (ms : Z) : bytes :=
  let hours := Z.quot ms 3600000 in
  let ms := ms - hours * 3600000 in
  let minutes := Z.quot ms 60000 in
  let ms := ms - minutes * 60000 in
  let seconds := Z.quot ms 1000 in
  two hours ++ $":" ++ two minutes ++ $":" ++ two seconds.

(** Local time and the milliseconds of the clock. *)
Definition get_current_time_string (t : tm) (now_ms : Z) : bytes :=
  two (tm_hour t) ++ $":" ++ two (tm_min t) ++ $":" ++ two (tm_sec t) ++
  $"." ++ pad_left 3 "0"%char (to_string (Z.rem now_ms 1000)).

(** ** Header *)

Definition draw_header (now_str : bytes) (d : Dashboard) : bytes :=
  CYAN ++ BOLD ++
  endl $"╔════════════════════════════════════════════════════════════════════════════════════════════════╗" ++
  endl $"║                        BINANCE REAL-TIME CRYPTOCURRENCY DASHBOARD                              ║" ++
  endl $"╠════════════════════════════════════════════════════════════════════════════════════════════════╣" ++
  RESET ++
  CYAN ++ $"║ " ++ BOLD ++ $"Time: " ++ RESET ++ setw_left 20 now_str ++
  CYAN ++ BOLD ++ $" Updates: " ++ RESET ++ setw_left 15 (format_large_number (update_count_ d)) ++
  CYAN ++ BOLD ++ $" Symbols: " ++ RESET ++ setw_left 39 (to_string (Z.of_nat (size (market_data_ d)))) ++
  CYAN ++ endl $"║" ++
  endl $"╠═══════════╦══════════╦═══════════════╦═══════════════╦════════════╦════════════╦═══════════╦════════════╣" ++
  $"║  " ++ BOLD ++ $"SYMBOL" ++ RESET ++ CYAN ++ $"  ║ " ++ BOLD ++ $"EXCHANGE" ++ RESET ++ CYAN ++
  $" ║   " ++ BOLD ++ $"BID PRICE" ++ RESET ++ CYAN ++
  $"   ║   " ++ BOLD ++ $"ASK PRICE" ++ RESET ++ CYAN ++
  $"   ║  " ++ BOLD ++ $"BID SIZE" ++ RESET ++ CYAN ++
  $" ║  " ++ BOLD ++ $"ASK SIZE" ++ RESET ++ CYAN ++
  $" ║  " ++ BOLD ++ $"SPREAD" ++ RESET ++ CYAN ++
  $"  ║  " ++ BOLD ++ $"STATUS" ++ RESET ++ CYAN ++ endl $"   ║" ++
  endl $"╠═══════════╬══════════╬═══════════════╬═══════════════╬════════════╬════════════╬═══════════╬════════════╣" ++
  RESET.

(** ** Market data *)

(** Byte-wise order of [std::string]. *)
Fixpoint bytes_le (a b : bytes) : bool :=
  match a, b with
  | [], _ => true
  | _ :: _, [] => false
  | x :: a', y :: b' => if byte_val x =? byte_val y then bytes_le a' b' else byte_val x <? byte_val y
  end.

Fixpoint insert_key (k : bytes) (ks : list bytes) : list bytes :=
  match ks with
  | [] => [k]
  | x :: ks' => if bytes_le k x then k :: ks else x :: insert_key k ks'
  end.

(** [std::sort] on keys, which are distinct. *)
Definition sort_keys (ks : list bytes) : list bytes := foldr insert_key [] ks.

(** The tickers in the order they are shown. *)
Definition shown `{IterOrder} (d : Dashboard) : list (bytes * TickerData) :=
  omap (fun k => pair k <$> market_data_ d !! k) (sort_keys (map fst (iter_map (market_data_ d)))).

Definition price_color (previous : option double) (current_mid : double) : bytes :=
  match previous with
  | Some previous_mid =>
      if dgt current_mid previous_mid then GREEN else if dlt current_mid previous_mid then RED else RESET
  | None => RESET
  end.

Definition status_color (s : DataStatus) : bytes := match s with LIVE => GREEN | SLOW => YELLOW | STALE => RED end.
Definition status_text (s : DataStatus) : bytes := match s with LIVE => $"LIVE" | SLOW => $"SLOW" | STALE => $"STALE" end.

Definition spread_color (spread : double) : bytes :=
  if dgt spread (dZ 20) then RED else if dgt spread (dZ 10) then YELLOW else GREEN.

Definition exchange_color (exchange : bytes) : bytes :=
  if bool_decide (exchange = $"Binance") then YELLOW
  else if bool_decide (exchange = $"Kraken") then MAGENTA
  else if bool_decide (exchange = $"Bybit") then GREEN
  else BLUE.

Definition bar (s : bytes) : bytes := CYAN ++ $" ║ " ++ RESET ++ s.

Definition market_row (now_ms : Z) (d : Dashboard) (x : bytes * TickerData) : bytes :=
  let '(key, t) := x in
  let status := get_data_status now_ms t in
  let price_color := price_color (previous_prices_ d !! key) (td_mid_price t) in
  let spread := td_spread_bps t in
  CYAN ++ $"║ " ++ RESET ++ BOLD ++ setw_left 9 (td_symbol t) ++ RESET ++
  bar (exchange_color (td_exchange t) ++ setw_left 8 (td_exchange t) ++ RESET) ++
  bar (price_color ++ setw_right 13 (fmt_fixed 2 (td_bid_price t)) ++ RESET) ++
  bar (price_color ++ setw_right 13 (fmt_fixed 2 (td_ask_price t)) ++ RESET) ++
  bar (setw_right 10 (fmt_fixed 4 (td_bid_quantity t))) ++
  bar (setw_right 10 (fmt_fixed 4 (td_ask_quantity t))) ++
  bar (spread_color spread ++ setw_right 7 (fmt_fixed 2 spread) ++ $" bp" ++ RESET) ++
  bar (status_color status ++ setw_right 10 (status_text status) ++ RESET) ++
  CYAN ++ $" ║" ++ RESET ++ [NL].

Definition draw_market_data `{IterOrder} (now_ms : Z) (d : Dashboard) : bytes :=
  concat (map (market_row now_ms d) (shown d)) ++
  CYAN ++ endl $"╠═══════════╩══════════╩═══════════════╩═══════════════╩════════════╩════════════╩═══════════╩════════════╣" ++ RESET.

(** ** Statistics *)

Record SpreadStats := mkSpreadStats {
  avg_spread : double;
  min_spread : double;
  max_spread : double;
  min_spread_symbol : bytes;
  max_spread_symbol : bytes;
}.
#[export] Instance SpreadStats_settable : Settable SpreadStats :=
  fun s => mkSpreadStats (avg_spread s) (min_spread s) (max_spread s) (min_spread_symbol s) (max_spread_symbol s).

Definition spread_step (s : SpreadStats) (x : bytes * TickerData) : SpreadStats :=
  let '(symbol, t) := x in
  let spread := td_spread_bps t in
  let s := s <| avg_spread := dadd (avg_spread s) spread |> in
  let s := if dlt spread (min_spread s) then s <| min_spread := spread |> <| min_spread_symbol := symbol |> else s in
  if dgt spread (max_spread s) then s <| max_spread := spread |> <| max_spread_symbol := symbol |> else s.

Definition spread_stats `{IterOrder} (d : Dashboard) : SpreadStats :=
  let s := foldl spread_step (mkSpreadStats dzero (dZ 1000000000) dzero [] []) (iter_map (market_data_ d)) in
  s <| avg_spread := ddiv (avg_spread s) (dZ (Z.of_nat (size (market_data_ d)))) |>.

Definition bp (x : double) : bytes := fmt_fixed 2 x ++ $" bp".

(** The text the padding is computed from, which has no colours. *)
Definition plain_stats (s : SpreadStats) : bytes :=
  $"  Average Spread: " ++ bp (avg_spread s) ++
  $"  │  Min: " ++ min_spread_symbol s ++ $" (" ++ bp (min_spread s) ++ $")" ++
  $"  │  Max: " ++ max_spread_symbol s ++ $" (" ++ bp (max_spread s) ++ $")".

Definition draw_statistics `{IterOrder} (d : Dashboard) : bytes :=
  if bool_decide (market_data_ d = ∅) then
    CYAN ++ $"║ " ++ YELLOW ++ $"No market data available yet..." ++ spaces 62 ++ CYAN ++ endl $"║"
  else
    let s := spread_stats d in
    CYAN ++ $"║ " ++ BOLD ++ $"MARKET STATISTICS" ++ RESET ++ spaces 78 ++ CYAN ++ endl $"║" ++
    CYAN ++ $"║ " ++ RESET ++
    $"  Average Spread: " ++ BLUE ++ BOLD ++ bp (avg_spread s) ++ RESET ++
    $"  │  " ++
    $"Min: " ++ GREEN ++ min_spread_symbol s ++ $" (" ++ bp (min_spread s) ++ $")" ++ RESET ++
    $"  │  " ++
    $"Max: " ++ RED ++ max_spread_symbol s ++ $" (" ++ bp (max_spread s) ++ $")" ++ RESET ++
    spaces (95 - length (plain_stats s)) ++
    CYAN ++ endl $"║".

(** ** Opportunities *)

Definition profit_color (profit_bps : double) : bytes :=
  if dgt profit_bps (dZ 50) then BRIGHT_GREEN else if dgt profit_bps (dZ 20) then GREEN else YELLOW.

Definition opportunity_row (o : ArbitrageOpportunity) : bytes :=
  CYAN ++ $"║ " ++ RESET ++ BOLD ++ setw_left 9 (opp_symbol o) ++ RESET ++
  bar (exchange_color (opp_buy_exchange o) ++ setw_left 8 (opp_buy_exchange o) ++ RESET) ++
  bar (exchange_color (opp_sell_exchange o) ++ setw_left 8 (opp_sell_exchange o) ++ RESET) ++
  bar (setw_right 13 (fmt_fixed 2 (opp_buy_price o))) ++
  bar (setw_right 13 (fmt_fixed 2 (opp_sell_price o))) ++
  bar (profit_color (opp_profit_bps o) ++ BOLD ++ setw_right 7 (fmt_fixed 2 (opp_profit_bps o)) ++ $" bp" ++ RESET) ++
  bar (setw_right 17 (fmt_fixed 4 (opp_max_quantity o))) ++
  CYAN ++ $" ║" ++ RESET ++ [NL].

(** The opportunities that get a row: the first five of the sorted list. *)
Definition shown_opportunities `{!StdSort opp_profit_bps} (opps : list ArbitrageOpportunity)
    : ub (list ArbitrageOpportunity) :=
  if sortable opp_profit_bps dgt opps then Some (take 5 (std_sort opp_profit_bps dgt opps)) else None.

Definition opportunities_header : bytes :=
  CYAN ++
  endl $"╠════════════════════════════════════════════════════════════════════════════════════════════════╣" ++
  $"║ " ++ BOLD ++ $"ARBITRAGE OPPORTUNITIES (Live Signals)" ++ RESET ++ spaces 57 ++ CYAN ++ endl $"║" ++
  endl $"╠═══════════╦══════════╦══════════╦═══════════════╦═══════════════╦═══════════╦════════════════════╣" ++
  $"║  " ++ BOLD ++ $"SYMBOL" ++ RESET ++ CYAN ++ $"  ║   " ++ BOLD ++ $"BUY" ++ RESET ++ CYAN ++
  $"    ║  " ++ BOLD ++ $"SELL" ++ RESET ++ CYAN ++
  $"   ║   " ++ BOLD ++ $"BUY PRICE" ++ RESET ++ CYAN ++
  $"   ║  " ++ BOLD ++ $"SELL PRICE" ++ RESET ++ CYAN ++
  $"  ║  " ++ BOLD ++ $"PROFIT" ++ RESET ++ CYAN ++
  $"  ║   " ++ BOLD ++ $"MAX QUANTITY" ++ RESET ++ CYAN ++ endl $"   ║" ++
  endl $"╠═══════════╬══════════╬══════════╬═══════════════╬═══════════════╬═══════════╬════════════════════╣" ++
  RESET.

(** [opps] is what the engine has; it is empty without an engine. *)
Definition draw_arbitrage_opportunities `{!StdSort opp_profit_bps} (opps : list ArbitrageOpportunity) : ub bytes :=
  rows ← (if bool_decide (opps = []) then
            Some (CYAN ++ $"║ " ++ YELLOW ++ $"No arbitrage opportunities found yet..." ++ spaces 54 ++ CYAN ++ endl $"║")
          else shown ← shown_opportunities opps; Some (concat (map opportunity_row shown)));
  Some (opportunities_header ++ rows ++ CYAN ++
        endl $"╠═══════════╩══════════╩══════════╩═══════════════╩═══════════════╩═══════════╩════════════════════╣" ++ RESET).

(** ** Footer and screen *)

Definition draw_footer (now_str : bytes) (d : Dashboard) : bytes :=
  CYAN ++
  endl $"╠════════════════════════════════════════════════════════════════════════════════════════════════╣" ++
  $"║ " ++ RESET ++ BOLD ++ $"Controls:" ++ RESET ++ $" Press Ctrl+C to exit  │  " ++
  $"Update Interval: " ++ BLUE ++ BOLD ++ to_string (update_interval_ d) ++ $"ms" ++ RESET ++
  $"  │  " ++
  $"Last Update: " ++ GREEN ++ now_str ++ RESET ++
  spaces 28 ++ CYAN ++ endl $"║" ++
  endl $"╚════════════════════════════════════════════════════════════════════════════════════════════════╝" ++
  RESET.

(** One turn of the display loop.  The header reads the clock before the
    footer does. *)
Definition display_turn `{IterOrder} `{!StdSort opp_profit_bps} (time_header time_footer : tm * Z) (now_ms : Z)
    (opps : list ArbitrageOpportunity) (d : Dashboard) : ub bytes :=
  table ← draw_arbitrage_opportunities opps;
  Some (clear_screen ++ draw_header (get_current_time_string (fst time_header) (snd time_header)) d ++
        draw_market_data now_ms d ++ draw_statistics d ++ table ++
        draw_footer (get_current_time_string (fst time_footer) (snd time_footer)) d).

(** ** What is remembered *)

Definition feed (now0 : Z) (ts : list (Z * TickerData)) : Dashboard :=
  foldl (fun d x => update_market_data (fst x) (snd x) d) (new_dashboard now0) ts.

(** The tickers of one key, in order. *)
Definition of_key (key : bytes) (ts : list (Z * TickerData)) : list TickerData :=
  filter (fun t => ticker_key t = key) (map snd ts).

(** The one before the last. *)
Definition penultimate {A} (l : list A) : option A := last (take (length l - 1) l).

Lemma penultimate_snoc {A} (l : list A) x : penultimate (l ++ [x]) = last l.
Proof. unfold penultimate. rewrite length_app, Nat.add_sub. by rewrite take_app_length. Qed.

Lemma of_key_snoc key ts now t :
  of_key key (ts ++ [(now, t)]) = of_key key ts ++ (if bool_decide (ticker_key t = key) then [t] else []).
Proof.
  unfold of_key. rewrite map_app, filter_app. f_equal. simpl. case_bool_decide; [by rewrite filter_cons_True|by rewrite filter_cons_False].
Qed.

Lemma feed_tracks (now0 : Z) (ts : list (Z * TickerData)) (key : bytes) :
  market_data_ (feed now0 ts) !! key = last (of_key key ts) /\
  previous_prices_ (feed now0 ts) !! key = td_mid_price <$> penultimate (of_key key ts) /\
  update_count_ (feed now0 ts) = wrap64 (Z.of_nat (length ts)) /\
  last_update_ (feed now0 ts) = default now0 (fst <$> last ts).
Proof.
  induction ts as [|[now t] ts (IHm & IHp & IHc & IHl)] using rev_ind; [done|].
  unfold feed in *. rewrite foldl_snoc, of_key_snoc. set (d := foldl _ _ ts) in *. clearbody d.
  unfold update_market_data. cbv zeta. cbn [fst snd]. split_and!.
  - simpl. destruct (market_data_ d !! ticker_key t); simpl; case_bool_decide as E;
      [subst; by rewrite lookup_insert_eq, last_snoc|by rewrite lookup_insert_ne, app_nil_r|
       subst; by rewrite lookup_insert_eq, last_snoc|by rewrite lookup_insert_ne, app_nil_r].
  - case_bool_decide as E.
    + subst key. rewrite penultimate_snoc, <-IHm. destruct (market_data_ d !! ticker_key t) as [old|] eqn:Eo; simpl.
      * by rewrite lookup_insert_eq.
      * rewrite IHp. assert (En : of_key (ticker_key t) ts = []) by by apply last_None. by rewrite En.
    + rewrite app_nil_r, <-IHp. destruct (market_data_ d !! ticker_key t); simpl; [by rewrite lookup_insert_ne|done].
  - assert (Ec : forall x : Dashboard, update_count_ x = update_count_ d -> wrap64 (update_count_ x + 1) = wrap64 (Z.of_nat (length (ts ++ [(now, t)])))).
    { intros x ->. rewrite IHc, length_app. unfold wrap64. rewrite Zplus_mod_idemp_l. f_equal. simpl. lia. }
    by destruct (market_data_ d !! ticker_key t); apply Ec.
  - rewrite last_snoc. by destruct (market_data_ d !! ticker_key t).
Qed.

(** ** Order of the rows *)

Lemma bytes_le_total a b : bytes_le a b = false -> bytes_le b a = true.
Proof.
  revert b. induction a as [|x a IH]; intros [|y b]; simpl; [done..|].
  rewrite (Z.eqb_sym (byte_val y)). destruct (Z.eqb_spec (byte_val x) (byte_val y)); [by apply IH|].
  intros H%Z.ltb_ge. apply Z.ltb_lt. lia.
Qed.

Lemma bytes_le_trans a b c : bytes_le a b = true -> bytes_le b c = true -> bytes_le a c = true.
Proof.
  revert b c. induction a as [|x a IH]; intros [|y b] [|z c]; simpl; try done.
  destruct (Z.eqb_spec (byte_val x) (byte_val y)) as [E1|N1], (Z.eqb_spec (byte_val y) (byte_val z)) as [E2|N2];
    intros H1 H2.
  - rewrite E1, E2, Z.eqb_refl. by eapply IH.
  - rewrite E1. by rewrite (proj2 (Z.eqb_neq _ _) N2).
  - rewrite <-E2. by rewrite (proj2 (Z.eqb_neq _ _) N1).
  - apply Z.ltb_lt in H1, H2. rewrite (proj2 (Z.eqb_neq _ _)) by lia. apply Z.ltb_lt. lia.
Qed.

Lemma insert_key_perm k ks : insert_key k ks ≡ₚ k :: ks.
Proof. induction ks as [|x ks IH]; [done|]. simpl. destruct (bytes_le k x); [done|]. rewrite IH. constructor. Qed.

Lemma sort_keys_perm ks : sort_keys ks ≡ₚ ks.
Proof. induction ks as [|k ks IH]; [done|]. simpl. by rewrite insert_key_perm, IH. Qed.

Lemma sort_keys_sorted ks : StronglySorted (fun a b => bytes_le a b = true) (sort_keys ks).
Proof.
  induction ks as [|k ks IH]; [constructor|]. simpl. induction IH as [|x l Hl IH Hx]; [by repeat constructor|].
  simpl. destruct (bytes_le k x) eqn:E.
  - constructor; [by constructor|]. constructor; [done|].
    eapply Forall_impl; [exact Hx|]. intros y Hy. by eapply bytes_le_trans.
  - constructor; [done|]. rewrite insert_key_perm. constructor; [by apply bytes_le_total|done].
Qed.

Lemma shown_keys `{IterOrder} (d : Dashboard) :
  map fst (shown d) = sort_keys (map fst (iter_map (market_data_ d))).
Proof.
  unfold shown. assert (Hin : forall k, k ∈ sort_keys (map fst (iter_map (market_data_ d))) -> is_Some (market_data_ d !! k)).
  { intros k. rewrite sort_keys_perm. intros ([k' t] & -> & Ht%elem_of_iter_map)%list_elem_of_fmap. by exists t. }
  induction (sort_keys _) as [|k ks IH]; [done|]. csimpl.
  destruct (Hin k ltac:(apply list_elem_of_here)) as [t ->]. simpl. f_equal.
  apply IH. intros k' Hk. apply Hin. by apply list_elem_of_further.
Qed.

(** The dashboard shows the latest quote of every exchange and symbol.
    After any tickers, in the order they came, exactly the keys that were
    quoted are shown, each once, in byte order, with the last ticker of the key,
    and the price is green, red or plain as its mid rose, fell or did neither
    against the ticker before it (plain if there is none); the update counter
    is the number of tickers modulo [2^64]. *)
Theorem dashboard_shows_latest `{IterOrder} (now0 : Z) (ts : list (Z * TickerData)) :
  let d := feed now0 ts in
  (forall key t, (key, t) ∈ shown d <-> last (of_key key ts) = Some t) /\
  NoDup (map fst (shown d)) /\ StronglySorted (fun a b => bytes_le a b = true) (map fst (shown d)) /\
  (forall key t, price_color (previous_prices_ d !! key) (td_mid_price t) =
     match penultimate (of_key key ts) with
     | Some old => if dgt (td_mid_price t) (td_mid_price old) then GREEN
                   else if dlt (td_mid_price t) (td_mid_price old) then RED else RESET
     | None => RESET
     end) /\
  update_count_ d = wrap64 (Z.of_nat (length ts)).
Proof.
  intros d. assert (Hnd : NoDup (map fst (shown d))).
  { rewrite shown_keys, sort_keys_perm. apply NoDup_iter_map_keys. }
  split_and!.
  - intros key t. destruct (feed_tracks now0 ts key) as (<- & _). fold d. unfold shown.
    rewrite list_elem_of_omap. split.
    + intros (k & _ & E). apply fmap_Some in E as (t' & E & [= -> ->]). done.
    + intros E. exists key. split; [|by rewrite E]. rewrite sort_keys_perm. apply list_elem_of_fmap.
      exists (key, t). split; [done|]. by apply elem_of_iter_map.
  - exact Hnd.
  - rewrite shown_keys. apply sort_keys_sorted.
  - intros key t. destruct (feed_tracks now0 ts key) as (_ & E & _). fold d in E. rewrite E.
    by destruct (penultimate _).
  - by destruct (feed_tracks now0 ts []) as (_ & _ & ? & _).
Qed.

(** ** Statistics *)

(** The running best of a list of named numbers. *)
Definition best_step (before : double -> double -> bool) (s : double * bytes) (x : bytes * double) : double * bytes :=
  if before (snd x) (fst s) then (snd x, fst x) else s.

Lemma best_steps before `{KeyOrder before} (l : list (bytes * double)) (s0 : double * bytes) :
  (forall x y, before x y = true -> is_nan x = false) -> is_nan (fst s0) = false ->
  let s := foldl (best_step before) s0 l in
  is_nan (fst s) = false /\ (forall k x, (k, x) ∈ l -> before x (fst s) = false) /\
  (s = s0 \/ (snd s, fst s) ∈ l).
Proof.
  intros Hn H0. induction l as [|[k x] l (N & Hall & Hs)] using rev_ind.
  - split_and!; [done|by intros ?? ?%elem_of_nil|by left].
  - rewrite foldl_snoc. set (s := foldl _ _ _) in *. clearbody s. unfold best_step. cbn [fst snd].
    destruct (before x (fst s)) eqn:E; cbn [fst snd].
    + pose proof (Hn _ _ E) as Nx. split_and!; [done| |right; rewrite elem_of_app; right; apply list_elem_of_here].
      intros k' y [Hin|Hin]%elem_of_app; [|apply list_elem_of_singleton in Hin as [= -> ->]; by apply before_irrefl].
      destruct (before y x) eqn:E'; [|done]. rewrite <-(Hall k' y Hin). symmetry.
      apply (before_trans y x (fst s)); [by eapply Hn|done..].
    + split_and!; [done| |destruct Hs as [Hs|Hs]; [by left|right; rewrite elem_of_app; by left]].
      intros k' y [Hin|Hin]%elem_of_app; [by eapply Hall|by apply list_elem_of_singleton in Hin as [= -> ->]].
Qed.

Definition spreads (l : list (bytes * TickerData)) : list (bytes * double) := map (prod_map id td_spread_bps) l.

Lemma spread_steps l s0 :
  let s := foldl spread_step s0 l in
  (min_spread s, min_spread_symbol s) = foldl (best_step dlt) (min_spread s0, min_spread_symbol s0) (spreads l) /\
  (max_spread s, max_spread_symbol s) = foldl (best_step dgt) (max_spread s0, max_spread_symbol s0) (spreads l) /\
  avg_spread s = foldl (fun a x => dadd a (snd x)) (avg_spread s0) (spreads l).
Proof.
  revert s0. induction l as [|[k t] l IH]; intros s0; [done|]. cbn [foldl spreads map prod_map].
  destruct (IH (spread_step s0 (k, t))) as (E1 & E2 & E3). split_and!.
  - rewrite E1. unfold spreads. f_equal. unfold spread_step, best_step. cbn [fst snd prod_map id]. simpl.
    by destruct (dlt _ _); simpl; destruct (dgt _ _).
  - rewrite E2. unfold spreads. f_equal. unfold spread_step, best_step. cbn [fst snd prod_map id]. simpl.
    by destruct (dlt _ _); simpl; destruct (dgt _ _).
  - rewrite E3. unfold spreads. f_equal. unfold spread_step. simpl. by destruct (dlt _ _); simpl; destruct (dgt _ _).
Qed.

Lemma spreads_sum l a :
  foldl (fun a x => dadd a (snd x)) a (spreads l) = foldl (fun a x => dadd a (td_spread_bps (snd x))) a l.
Proof. revert a. induction l as [|[k t] l IH]; intros a; [done|]. apply IH. Qed.

(** The statistics line is right whatever the walk over the tickers.  The
    least and greatest spread bound the spread of every ticker shown, each is
    the spread of the ticker it names or the value the search starts from (a
    billion, zero) with no name, and the average is the sum in the order of the
    walk over the number of tickers. *)
Theorem statistics_exact `{IterOrder} (d : Dashboard) :
  let s := spread_stats d in
  (forall key t, market_data_ d !! key = Some t ->
     dlt (td_spread_bps t) (min_spread s) = false /\ dgt (td_spread_bps t) (max_spread s) = false) /\
  (min_spread s = dZ 1000000000 /\ min_spread_symbol s = [] \/
     td_spread_bps <$> (market_data_ d !! min_spread_symbol s) = Some (min_spread s)) /\
  (max_spread s = dzero /\ max_spread_symbol s = [] \/
     td_spread_bps <$> (market_data_ d !! max_spread_symbol s) = Some (max_spread s)) /\
  exists l, l ≡ₚ map_to_list (market_data_ d) /\
    avg_spread s = ddiv (foldl (fun a x => dadd a (td_spread_bps (snd x))) dzero l) (dZ (Z.of_nat (size (market_data_ d)))).
Proof.
  set (s0 := mkSpreadStats dzero (dZ 1000000000) dzero [] []). set (l := iter_map (market_data_ d)).
  destruct (spread_steps l s0) as (E1 & E2 & E3). unfold spread_stats. fold l s0. set (s := foldl spread_step s0 l) in *.
  destruct (best_steps dlt (spreads l) (dZ 1000000000, [])) as (_ & M1 & M2); [by intros ?? [? ?]%dlt_not_nan|done|].
  destruct (best_steps dgt (spreads l) (dzero, [])) as (_ & X1 & X2); [by intros ?? [? ?]%dlt_not_nan|done|].
  change (min_spread s0, min_spread_symbol s0) with (dZ 1000000000, @nil ascii) in E1.
  change (max_spread s0, max_spread_symbol s0) with (dzero, @nil ascii) in E2.
  change (avg_spread s0) with dzero in E3. rewrite <-E1 in M1, M2. rewrite <-E2 in X1, X2. clear E1 E2. cbn [fst snd] in *.
  assert (Hin : forall k x, (k, x) ∈ spreads l <-> td_spread_bps <$> (market_data_ d !! k) = Some x).
  { intros k x. unfold spreads. rewrite list_elem_of_fmap, fmap_Some. split.
    - intros ([k' t] & [= -> ->] & Ht%elem_of_iter_map). by exists t.
    - intros (t & Ht & ->). exists (k, t). split; [done|]. by apply elem_of_iter_map. }
  clearbody s. clear s0. revert M2. generalize (dZ 1000000000). intros big M2.
  cbv zeta. simpl. split_and!.
  - intros key t Ht. assert (Hk : (key, td_spread_bps t) ∈ spreads l) by (apply Hin; by rewrite Ht).
    split; [by eapply M1|by eapply X1].
  - destruct M2 as [[= -> ->]|M2]; [by left|right; by apply Hin].
  - destruct X2 as [[= -> ->]|X2]; [by left|right; by apply Hin].
  - exists l. split; [apply iter_map_perm|]. by rewrite E3, spreads_sum.
Qed.

(** ** Opportunities *)

(** Every opportunity the engine reports has a profit that is a number. *)
Lemma engine_profits `{IterOrder} now e : numbered opp_profit_bps (ArbEngine.new_opportunities now e).
Proof.
  apply Forall_forall. intros o (kv & Ho & _)%list_elem_of_bind. unfold ArbEngine.symbol_opportunities in Ho.
  destruct kv as [sym entries]. destruct (_ <? 2)%nat; [by apply elem_of_nil in Ho|].
  apply list_elem_of_bind in Ho as (p & Ho & _). unfold ArbEngine.pair_opportunities in Ho.
  rewrite elem_of_app, !elem_of_option_list in Ho. unfold ArbEngine.direction in Ho.
  destruct Ho as [Ho|Ho]; repeat (case_match; try discriminate Ho); injection Ho as <-; bool_to_prop; simpl;
    match goal with H : dge ?x _ = true |- is_nan ?x = false => exact (proj2 (dle_not_nan _ _ H)) end.
Qed.

(** The dashboard shows the best opportunities.  Of what the engine found
    in its last calculation the table lists the five most profitable (all, if
    there are fewer), by decreasing profit: sorting is defined, since every
    profit is a number, and no opportunity left out has a greater profit than
    one that is shown. *)
Theorem top_opportunities `{IterOrder} `{!StdSort opp_profit_bps} now e :
  let opps := ArbEngine.opportunities_ (fst (ArbEngine.calculate_arbitrage now e)) in
  exists shown rest, shown_opportunities opps = Some shown /\ opps ≡ₚ shown ++ rest /\
    length shown = Nat.min 5 (length opps) /\
    StronglySorted (fun x y => dgt (opp_profit_bps y) (opp_profit_bps x) = false) shown /\
    forall o r, o ∈ shown -> r ∈ rest -> dgt (opp_profit_bps r) (opp_profit_bps o) = false.
Proof.
  intros opps. assert (Hn : numbered opp_profit_bps opps) by apply engine_profits. clearbody opps.
  set (l := std_sort opp_profit_bps dgt opps). exists (take 5 l), (drop 5 l).
  assert (Hl : in_order opp_profit_bps dgt l) by (apply std_sort_sorted; [apply _|done]).
  unfold shown_opportunities. rewrite numbered_sortable by (apply _ || done). fold l.
  unfold in_order in Hl. rewrite <-(take_drop 5 l) in Hl. split_and!.
  - done.
  - rewrite take_drop. symmetry. apply std_sort_perm.
  - rewrite length_take. f_equal. apply Permutation_length, std_sort_perm.
  - by apply StronglySorted_app_1_l in Hl.
  - intros o r Ho Hr. by eapply (StronglySorted_app_1_elem_of _ _ _ _ _ Hl).
Qed.

(** ** Formatting *)

(** A duration is printed as hours, minutes below sixty and seconds below
    sixty. *)
Lemma format_duration_fields ms :
  0 <= ms ->
  format_duration ms = two (ms / 3600000) ++ $":" ++ two (ms / 60000 mod 60) ++ $":" ++ two (ms / 1000 mod 60).
Proof.
  intros Hms. unfold format_duration. cbv zeta.
  assert (E : ms - Z.quot ms 3600000 * 3600000 = ms mod 3600000).
  { rewrite Z.quot_div_nonneg by lia. pose proof (Z.div_mod ms 3600000). lia. }
  assert (E2 : ms mod 3600000 - Z.quot (ms mod 3600000) 60000 * 60000 = ms mod 60000).
  { pose proof (Z.mod_pos_bound ms 3600000 ltac:(lia)). rewrite Z.quot_div_nonneg by lia.
    pose proof (Z.div_mod (ms mod 3600000) 60000). rewrite <-(Z.mod_mod_divide ms 3600000 60000) by (by exists 60). lia. }
  rewrite E, E2. pose proof (Z.mod_pos_bound ms 3600000 ltac:(lia)). pose proof (Z.mod_pos_bound ms 60000 ltac:(lia)).
  rewrite !Z.quot_div_nonneg by lia. f_equal. f_equal. f_equal; [|f_equal]; f_equal.
  - Z.to_euclidean_division_equations. lia.
  - Z.to_euclidean_division_equations. lia.
Qed.

Example ex_format : (format_large_number 999, format_large_number 12345, format_large_number 7654321, format_duration 3723004) =
  ($"999", $"12K", $"7M", $"01:02:03").
Proof. reflexivity. Qed.

Section examples.
#[local] Existing Instance default_order.
#[local] Instance ex_opp_sort : StdSort opp_profit_bps := insertion_std_sort opp_profit_bps.

Definition ex_ticker (ex : bytes) (bid : Z) : TickerData := mkTickerData $"BTCUSDT" ex (dZ bid) (dZ (bid + 1)) (dZ 2) (dZ 3) 1000 0.

Definition ex_dashboard : Dashboard :=
  feed 0 [(1, ex_ticker $"Kraken" 100); (2, ex_ticker $"Binance" 90); (3, ex_ticker $"Kraken" 99)].

Example ex_shown :
  (map fst (shown ex_dashboard), update_count_ ex_dashboard,
   price_color (previous_prices_ ex_dashboard !! $"Kraken:BTCUSDT") (dlit 199 2),
   min_spread_symbol (spread_stats ex_dashboard)) =
  ([$"Binance:BTCUSDT"; $"Kraken:BTCUSDT"], 3, RED, $"Kraken:BTCUSDT").
Proof. vm_compute. reflexivity. Qed.

Example ex_top :
  let opp x := mkArbitrageOpportunity $"BTC" $"A" $"B" (dZ 1) (dZ 2) (dZ x) (dZ 1) 0 in
  map opp_profit_bps <$> shown_opportunities (map opp [3; 9; 1; 7; 5; 8]) = Some (map dZ [9; 8; 7; 5; 3]).
Proof. vm_compute. reflexivity. Qed.
End examples.
