(* ===== verification/Metrics.v ===== *)
(** * Metrics (src/metrics.hpp, src/metrics.cpp)

    The metrics singleton over prometheus-cpp, which is not part of the
    repository: a series is the family and the labels it was added with (adding
    the same labels again gives the same series), and what the program does to
    the library is the list of its calls, in order.  The per-exchange caches
    are filled once, by the constructor; lookups never add to them. *)

From Stdlib Require Import ZArith Lia.
From S2P Require Import Prelude Float64 Str Types OrderBook ArbEngine.

(** ** The library *)

Abbreviation Labels := (list (bytes * bytes)).

Inductive MetricKind := Histogram (buckets : list Z) | Counter | Gauge.

Record Family := mkFamily { fam_name : bytes; fam_kind : MetricKind }.
Abbreviation Series := (bytes * Labels)%type.

Inductive PromCall :=
  | Observe (s : Series) (v : double)
  | Increment (s : Series)
  | SetGauge (s : Series) (v : double).

(** ** The singleton *)

Definition LATENCY_BUCKETS_NS : list Z :=
  [100; 500; 1000; 2500; 5000; 10000; 25000; 50000; 100000; 250000; 500000;
   1000000; 2500000; 5000000; 100000000].

Definition e2e_family : bytes := $"tickplant_e2e_latency_ns".
Definition messages_family : bytes := $"tickplant_messages_total".
Definition parse_family : bytes := $"tickplant_parse_latency_ns".
Definition ob_update_family : bytes := $"tickplant_orderbook_update_ns".
Definition book_depth_family : bytes := $"tickplant_book_depth".
Definition book_stale_family : bytes := $"tickplant_book_staleness_ms".
Definition arb_family : bytes := $"tickplant_arb_detections_total".
Definition phase_event_family : bytes := $"tickplant_chaos_phase_event_ts_seconds".

Definition families : list Family :=
  [mkFamily e2e_family (Histogram LATENCY_BUCKETS_NS); mkFamily messages_family Counter;
   mkFamily parse_family (Histogram LATENCY_BUCKETS_NS); mkFamily ob_update_family (Histogram LATENCY_BUCKETS_NS);
   mkFamily book_depth_family Gauge; mkFamily book_stale_family Gauge; mkFamily arb_family Counter;
   mkFamily phase_event_family Gauge].

Record Metrics := mkMetrics {
  e2e_cache_ : gmap bytes Series;
  snap_msg_cache_ : gmap bytes Series;
  incr_msg_cache_ : gmap bytes Series;
  ob_cache_ : gmap bytes Series;
  parse_fix_ : option Series;
  parse_json_ : option Series;
}.
#[export] Instance Metrics_settable : Settable Metrics :=
  fun m => mkMetrics (e2e_cache_ m) (snap_msg_cache_ m) (incr_msg_cache_ m) (ob_cache_ m) (parse_fix_ m) (parse_json_ m).

Definition init_exchange (m : Metrics) (exchange : bytes) : Metrics :=
  m <| e2e_cache_ := <[exchange := (e2e_family, [($"exchange", exchange)])]> (e2e_cache_ m) |>
    <| snap_msg_cache_ :=
         <[exchange := (messages_family, [($"exchange", exchange); ($"type", $"snapshot")])]> (snap_msg_cache_ m) |>
    <| incr_msg_cache_ :=
         <[exchange := (messages_family, [($"exchange", exchange); ($"type", $"incremental")])]> (incr_msg_cache_ m) |>
    <| ob_cache_ := <[exchange := (ob_update_family, [($"exchange", exchange)])]> (ob_cache_ m) |>.

Definition known_exchanges : list bytes := [$"Binance"; $"Bybit"; $"Coinbase"; $"Kraken"; $"FIX"].

(** The constructor. *)
Definition new_metrics : Metrics :=
  (foldl init_exchange (mkMetrics ∅ ∅ ∅ ∅ None None) known_exchanges)
    <| parse_fix_ := Some (parse_family, [($"parser", $"fix")]) |>
    <| parse_json_ := Some (parse_family, [($"parser", $"json")]) |>.

(** ** Recording *)

Definition observe (s : option Series) (v : double) : list PromCall :=
  match s with Some s => [Observe s v] | None => [] end.
Definition increment (s : option Series) : list PromCall :=
  match s with Some s => [Increment s] | None => [] end.

Definition record_e2e_latency (exchange : bytes) (ns : double) (m : Metrics) : list PromCall :=
  observe (e2e_cache_ m !! exchange) ns.

Definition record_message (exchange : bytes) (is_snapshot : bool) (m : Metrics) : list PromCall :=
  if is_snapshot then increment (snap_msg_cache_ m !! exchange) else increment (incr_msg_cache_ m !! exchange).

Definition record_parse_latency (parser : bytes) (ns : double) (m : Metrics) : list PromCall :=
  if bool_decide (parser = $"fix") then observe (parse_fix_ m) ns
  else if bool_decide (parser = $"json") then observe (parse_json_ m) ns
  else [].

Definition record_orderbook_update (exchange : bytes) (ns : double) (m : Metrics) : list PromCall :=
  observe (ob_cache_ m !! exchange) ns.

Definition set_book_depth (exchange symbol side : bytes) (depth : double) : list PromCall :=
  [SetGauge (book_depth_family, [($"exchange", exchange); ($"symbol", symbol); ($"side", side)]) depth].

Definition set_book_staleness (exchange symbol : bytes) (ms : double) : list PromCall :=
  [SetGauge (book_stale_family, [($"exchange", exchange); ($"symbol", symbol)]) ms].

(** [now_ns] is the system clock, cast down to seconds. *)
Definition record_phase_event (phase event : bytes) (now_ns : Z) : list PromCall :=
  [SetGauge (phase_event_family, [($"phase", phase); ($"event", event)]) (dZ (Z.quot now_ns 1000000000))].

Definition record_arb_detection (buy_exchange sell_exchange symbol : bytes) : list PromCall :=
  [Increment (arb_family, [($"buy_exchange", buy_exchange); ($"sell_exchange", sell_exchange); ($"symbol", symbol)])].

(** The address [start] listens on. *)
Definition listen_address (port : Z) : bytes := $"0.0.0.0:" ++ to_string port.

(** [ScopedNsTimer]: what its callback is given when it is destroyed. *)
Definition scoped_ns (t0 t1 : Z) : double := dZ (t1 - t0).

(** The calls of a depth callback, whose timer runs from [t0] to [t1]. *)
Definition depth_callback_metrics (t0 t1 : Z) (snap : OrderBookSnapshot) (m : Metrics) : list PromCall :=
  record_e2e_latency (sn_exchange snap) (scoped_ns t0 t1) m ++ record_parse_latency $"json" (scoped_ns t0 t1) m.

(** ** What the engine records *)

(** [update_order_book]: its inner timer runs from [t0] to [t1]. *)
Definition update_metrics (t0 t1 : Z) (snap : OrderBookSnapshot) (m : Metrics) : list PromCall :=
  record_orderbook_update (sn_exchange snap) (scoped_ns t0 t1) m ++ record_message (sn_exchange snap) (sn_is_snapshot snap) m.

(** [update_fix_data], for market data. *)
Definition fix_metrics (t0 t1 : Z) (is_snapshot : bool) (m : Metrics) : list PromCall :=
  record_parse_latency $"fix" (scoped_ns t0 t1) m ++ record_orderbook_update $"FIX" (scoped_ns t0 t1) m ++
  record_message $"FIX" is_snapshot m.

(** The gauges of one non-empty book in [calculate_arbitrage]. *)
Definition book_metrics (now : Z) (exchange : bytes) (snap : OrderBookSnapshot) : list PromCall :=
  set_book_staleness exchange (sn_symbol snap) (staleness_ms now snap) ++
  set_book_depth exchange (sn_symbol snap) $"bid" (dZ (Z.of_nat (length (sn_bids snap)))) ++
  set_book_depth exchange (sn_symbol snap) $"ask" (dZ (Z.of_nat (length (sn_asks snap)))).

Definition opportunity_metrics (o : ArbitrageOpportunity) : list PromCall :=
  record_arb_detection (opp_buy_exchange o) (opp_sell_exchange o) (opp_symbol o).

(** [calculate_arbitrage]: the books, then the opportunities. *)
Definition calculation_metrics `{IterOrder} (now : Z) (e : Engine) : list PromCall :=
  concat (map (fun s => book_metrics now (sn_exchange s) s) (live_snapshots (ws_books_ e))) ++
  concat (map (book_metrics now $"FIX") (live_snapshots (fix_books_ e))) ++
  concat (map opportunity_metrics (new_opportunities now e)).

(** ** Counters *)

(** The number of increments of a series. *)
Definition increments (s : Series) (calls : list PromCall) : nat :=
  length (filter (fun c => c = Some s) (map (fun c => match c with Increment s' => Some s' | _ => None end) calls)).

Lemma increments_app (s : Series) (l l' : list PromCall) : increments s (l ++ l') = (increments s l + increments s l')%nat.
Proof. unfold increments. by rewrite map_app, filter_app, length_app. Qed.

Lemma increments_concat {A} (s : Series) (f : A -> list PromCall) (l : list A) :
  increments s (concat (map f l)) = sum_list_with (fun x => increments s (f x)) l.
Proof. induction l as [|x l IH]; [done|]. simpl. by rewrite increments_app, IH. Qed.

Lemma sum_if {A} (P : A -> Prop) `{forall x, Decision (P x)} (l : list A) :
  sum_list_with (fun x => if bool_decide (P x) then 1%nat else 0%nat) l = length (filter P l).
Proof.
  induction l as [|x l IH]; [done|]. cbn [sum_list_with]. rewrite IH. rewrite filter_cons.
  case_bool_decide; [by rewrite decide_True|by rewrite decide_False].
Qed.

Lemma sum_zero {A} (f : A -> nat) (l : list A) : (forall x, x ∈ l -> f x = 0%nat) -> sum_list_with f l = 0%nat.
Proof.
  induction l as [|x l IH]; intros H; [done|]. simpl. rewrite H by apply list_elem_of_here.
  apply IH. intros y Hy. apply H. by apply list_elem_of_further.
Qed.

Definition type_label (is_snapshot : bool) : bytes := if is_snapshot then $"snapshot" else $"incremental".

Definition message_series (exchange : bytes) (is_snapshot : bool) : Series :=
  (messages_family, [($"exchange", exchange); ($"type", type_label is_snapshot)]).

(** The caches hold the series of the five exchanges and nothing else. *)
Lemma message_cache (exchange : bytes) (is_snapshot : bool) :
  ((if is_snapshot then snap_msg_cache_ new_metrics else incr_msg_cache_ new_metrics) !! exchange : option Series) =
    if bool_decide (exchange ∈ known_exchanges) then Some (message_series exchange is_snapshot) else None.
Proof.
  set (cache m := if is_snapshot then snap_msg_cache_ m else incr_msg_cache_ m).
  assert (Hc : forall l m, cache (foldl init_exchange m l) !! exchange =
    if bool_decide (exchange ∈ l) then Some (message_series exchange is_snapshot) else cache m !! exchange).
  { induction l as [|ex l IH]; intros m; [done|]. cbn [foldl]. rewrite IH.
    assert (Hi : cache (init_exchange m ex) = <[ex := message_series ex is_snapshot]> (cache m))
      by (unfold cache; by destruct is_snapshot).
    rewrite Hi, lookup_insert. repeat case_bool_decide; try case_decide; set_solver. }
  specialize (Hc known_exchanges (mkMetrics ∅ ∅ ∅ ∅ None None)). unfold new_metrics.
  assert (H0 : cache (mkMetrics ∅ ∅ ∅ ∅ None None) !! exchange = None) by (unfold cache; by destruct is_snapshot).
  rewrite H0 in Hc. clear H0. revert Hc. generalize (foldl init_exchange (mkMetrics ∅ ∅ ∅ ∅ None None) known_exchanges).
  intros m Hc. rewrite <-Hc. unfold cache. by destruct is_snapshot.
Qed.

Lemma record_message_increments s exchange is_snapshot :
  increments s (record_message exchange is_snapshot new_metrics) =
    if bool_decide (s = message_series exchange is_snapshot /\ exchange ∈ known_exchanges) then 1%nat else 0%nat.
Proof.
  assert (E : record_message exchange is_snapshot new_metrics =
    increment (if bool_decide (exchange ∈ known_exchanges) then Some (message_series exchange is_snapshot) else None)).
  { unfold record_message. pose proof (message_cache exchange is_snapshot) as H. by destruct is_snapshot; rewrite H. }
  rewrite E. destruct (bool_decide_reflect (exchange ∈ known_exchanges)); simpl; unfold increments; simpl.
  - rewrite filter_cons. destruct (decide _) as [[= ->]|N]; [by rewrite bool_decide_eq_true_2|].
    rewrite bool_decide_eq_false_2; [done|]. intros [-> _]. by apply N.
  - by rewrite bool_decide_eq_false_2 by tauto.
Qed.

Lemma observe_increments s o v : increments s (observe o v) = 0%nat.
Proof. by destruct o. Qed.

(** The series of an update of [exchange] of the given kind. *)
Definition of_series (s : Series) (x : Z * Z * OrderBookSnapshot) : Prop :=
  s = message_series (sn_exchange (snd x)) (sn_is_snapshot (snd x)) /\ sn_exchange (snd x) ∈ known_exchanges.
#[export] Instance of_series_dec s x : Decision (of_series s x).
Proof. unfold of_series. apply _. Defined.

(** The counters count.  Over any sequence of WebSocket updates, each
    series of [tickplant_messages_total] goes up by the number of updates of its
    exchange and kind, for the five exchanges set up at start, and nothing else
    is incremented; one calculation increments
    [tickplant_arb_detections_total] of a pair of exchanges and a symbol by the
    number of opportunities found there, and nothing else. *)
Theorem counters_count `{IterOrder} (s : Series) (updates : list (Z * Z * OrderBookSnapshot)) (now : Z) (e : Engine) :
  increments s (concat (map (fun x => update_metrics (fst (fst x)) (snd (fst x)) (snd x) new_metrics) updates)) =
    length (filter (of_series s) updates) /\
  increments s (calculation_metrics now e) =
    length (filter (fun o => s = (arb_family, [($"buy_exchange", opp_buy_exchange o);
                                               ($"sell_exchange", opp_sell_exchange o); ($"symbol", opp_symbol o)]))
              (snd (calculate_arbitrage now e))).
Proof.
  split.
  - rewrite increments_concat, <-sum_if. induction updates as [|x l IH]; [done|]. cbn [sum_list_with].
    rewrite IH. f_equal. unfold update_metrics, record_orderbook_update.
    by rewrite increments_app, observe_increments, record_message_increments.
  - unfold calculation_metrics. rewrite !increments_app, !increments_concat, !(sum_zero (fun x => increments s _)) by done.
    cbn [Nat.add snd calculate_arbitrage]. rewrite <-sum_if. change (new_opportunities now _) with (new_opportunities now e).
    induction (new_opportunities now e) as [|o l IH]; [done|]. cbn [sum_list_with]. rewrite IH. f_equal.
    unfold opportunity_metrics, record_arb_detection, increments. simpl. rewrite filter_cons.
    destruct (decide _) as [[= <-]|N]; [by rewrite bool_decide_eq_true_2|rewrite bool_decide_eq_false_2; [done|]].
    intros ->. by apply N.
Qed.
