(* ===== verification/QueryServers.v ===== *)
(** * Query servers (src/query_server_epoll.cpp, src/query_server_uring.cpp,
    src/simple_query_server.cpp)

    The three servers answer the same line protocol with different I/O.  The
    model is the connection handling of each, as functions of what the kernel
    returns: the results of [recv] and [send], readiness flags, completions.
    Every function threads the [Peer] record, which notes what the connection
    has received and sent and which line got which response.  Of the
    registration with the kernel this file has which operation a connection
    waits for next; the loops around the connections are in [EpollLoop] and
    [ServerLoops], the set-up of the sockets in [ServerSetup].

    The specification all three refine is the line server [serves]: what was
    received is the answered lines followed by what is still buffered, and
    what was or is about to be sent is the responses in the same order.
    [h] is [handle_line] with the engine as it is at the time of the call. *)

From S2P Require Import Prelude Float64 Str Fmt Types OrderBook ArbEngine QueryProtocol Reports.

(** ** Request dispatch *)

(** [handle_line], the same text in the three servers; first that of
    [SimpleQueryServer]. *)
Definition handle_line `{IterOrder} (now : Z) (e : Engine) (pipeline : option ReportPipeline)
    (line : bytes) : bytes :=
  let req := parse_request line in
  match req_type req with
  | SNAPSHOT => snapshot_response (req_symbol req) (get_snapshots (req_symbol req) e) 5
  | HEALTH => health_response (get_feed_staleness_ms now e) 2000
  | REPORT =>
      match pipeline with
      | None => error_response $"reporting pipeline not configured"
      | Some p => run now (req_report_name req) p
      end
  | LISTREPORTS =>
      match pipeline with
      | None => error_response $"reporting pipeline not configured"
      | Some p => list_reports p
      end
  | UNKNOWN =>
      error_response $"unknown command — use SNAPSHOT <SYM>, HEALTH, REPORT <name>, or LISTREPORTS"
  end.

(** [EpollQueryServer::handle_line], [IoUringQueryServer::handle_line] *)
Definition epoll_handle_line `{IterOrder} : Z -> Engine -> option ReportPipeline -> bytes -> bytes := handle_line.
Definition uring_handle_line `{IterOrder} : Z -> Engine -> option ReportPipeline -> bytes -> bytes := handle_line.

(** ** Connections *)

Definition INBUF_SIZE : nat := 512.
Record Conn := mkConn {
  writing : bool;       (* epoll: state WRITING; io_uring: a SEND is outstanding *)
  inbuf : bytes;        (* the first [inlen] bytes of the buffer *)
  outbuf : bytes;
  outpos : nat;
}.
#[export] Instance Conn_settable : Settable Conn :=
  fun c => mkConn (writing c) (inbuf c) (outbuf c) (outpos c).

Definition new_conn : Conn := mkConn false [] [] 0.

(** What the connection has received and sent, and the lines answered. *)
Record Peer := mkPeer {
  rx : bytes;
  tx : bytes;
  answered : list (bytes * bytes);
}.
#[export] Instance Peer_settable : Settable Peer := fun p => mkPeer (rx p) (tx p) (answered p).

Definition new_peer : Peer := mkPeer [] [] [].

(** Bytes arriving in the buffer. *)
Definition receive (d : bytes) (c : Conn) (p : Peer) : Conn * Peer :=
  (c <| inbuf := inbuf c ++ d |>, p <| rx := rx p ++ d |>).

(** The newline found at [nl]: terminate the line, handle it, slide the rest to
    the front of the buffer. *)
Definition answer (h : bytes -> bytes) (nl : nat) (c : Conn) (p : Peer) : Conn * Peer :=
  let line := take nl (inbuf c) in
  let resp := h (c_str line) in
  (c <| outbuf := resp |> <| outpos := 0%nat |> <| inbuf := drop (nl + 1) (inbuf c) |>
     <| writing := true |>,
   p <| answered := answered p ++ [(line, resp)] |>).

(** Bytes accepted by [send]. *)
Definition transmit (n : nat) (c : Conn) (p : Peer) : Conn * Peer :=
  (c <| outpos := (outpos c + n)%nat |>, p <| tx := tx p ++ take n (drop (outpos c) (outbuf c)) |>).

(** Response fully sent: back to reading. *)
Definition reset_out (c : Conn) : Conn :=
  c <| outbuf := [] |> <| outpos := 0%nat |> <| writing := false |>.

(** ** epoll *)

Inductive RecvResult := RData (d : bytes) | RAgain | REof | RErr.
Inductive SendResult := SData (n : nat) | SAgain | SErr.

(** The READING loop on the results [recv] gives; [None] is a closed
    connection.  The kernel never returns more than the room asked for. *)
Fixpoint epoll_read (h : bytes -> bytes) (rs : list RecvResult) (c : Conn) (p : Peer)
    : option Conn * Peer :=
  if (INBUF_SIZE - length (inbuf c) - 1 =? 0)%nat then (None, p)
  else
    match rs with
    | [] => (Some c, p)
    | RAgain :: _ => (Some c, p)
    | RErr :: _ => (None, p)
    | REof :: _ => (None, p)
    | RData d :: rs' =>
        let d := take (INBUF_SIZE - length (inbuf c) - 1) d in
        let '(c, p) := receive d c p in
        match find_char NL (inbuf c) with
        | None => epoll_read h rs' c p
        | Some nl => let '(c, p) := answer h nl c p in (Some c, p)
        end
    end.

(** The WRITING loop. *)
Fixpoint epoll_send (ss : list SendResult) (c : Conn) (p : Peer) : option Conn * Peer :=
  if (outpos c <? length (outbuf c))%nat then
    match ss with
    | [] => (Some c, p)
    | SAgain :: _ => (Some c, p)
    | SErr :: _ => (None, p)
    | SData n :: ss' =>
        let '(c, p) := transmit (n `min` (length (outbuf c) - outpos c)) c p in
        epoll_send ss' c p
    end
  else (Some c, p).

(** What follows it: a response that is out switches back to reading. *)
Definition epoll_sent (c : Conn) : Conn :=
  if (length (outbuf c) <=? outpos c)%nat then reset_out c else c.

Record EpollFlags := mkFlags { ev_in : bool; ev_out : bool; ev_err : bool }.

(** One readiness event of an existing connection. *)
Definition epoll_event (h : bytes -> bytes) (evt : EpollFlags) (rs : list RecvResult)
    (ss : list SendResult) (c : Conn) (p : Peer) : option Conn * Peer :=
  if ev_err evt then (None, p)
  else
    let '(oc, p) := if negb (writing c) && ev_in evt then epoll_read h rs c p else (Some c, p) in
    match oc with
    | None => (None, p)
    | Some c =>
        if writing c && ev_out evt then
          let '(oc, p) := epoll_send ss c p in
          (epoll_sent <$> oc, p)
        else (Some c, p)
    end.

(** The event loop on its table of connections. *)
Inductive EpollEvent :=
  | EvAccept (cfds : list Z)                       (* the listening socket is readable *)
  | EvConn (fd : Z) (evt : EpollFlags) (rs : list RecvResult) (ss : list SendResult).

Record Server := mkServer { conns : gmap Z Conn; peers : gmap Z Peer }.
#[export] Instance Server_settable : Settable Server := fun s => mkServer (conns s) (peers s).

(** [Conn& c = conns[cfd]]: a slot left by a closed descriptor is gone, so the
    connection starts fresh. *)
Definition accept_conn (s : Server) (cfd : Z) : Server :=
  s <| conns := <[cfd := default new_conn (conns s !! cfd)]> (conns s) |>
    <| peers := <[cfd := new_peer]> (peers s) |>.

Definition epoll_dispatch (h : bytes -> bytes) (ev : EpollEvent) (s : Server) : Server :=
  match ev with
  | EvAccept cfds => foldl accept_conn s cfds
  | EvConn fd evt rs ss =>
      match conns s !! fd, peers s !! fd with
      | Some c, Some p =>
          let '(oc, p) := epoll_event h evt rs ss c p in
          s <| conns := match oc with Some c => <[fd := c]> (conns s) | None => delete fd (conns s) end |>
            <| peers := <[fd := p]> (peers s) |>
      | _, _ => s    (* unknown descriptor: closed *)
      end
  end.

(** ** io_uring *)

Inductive Op := ACCEPT | RECV | SEND.

Definition op_code (o : Op) : Z := match o with ACCEPT => 0 | RECV => 1 | SEND => 2 end.
Definition op_of (z : Z) : option Op :=
  if z =? 0 then Some ACCEPT else if z =? 1 then Some RECV else if z =? 2 then Some SEND else None.

(** [static_cast<uint32_t>] of an [int], and back. *)
Definition u32_of_int (z : Z) : Z := wrap32 z.
Definition int_of_u32 (z : Z) : Z := if 2 ^ 31 <=? z then z - 2 ^ 32 else z.

Definition encode_ud (fd : Z) (o : Op) : Z := Z.lor (u32_of_int fd) (Z.shiftl (op_code o) 32).
Definition decode_ud (ud : Z) : Z * option Op :=
  (int_of_u32 (Z.land ud 4294967295), op_of (Z.land (Z.shiftr ud 32) 255)).

(** A completed RECV that brought the bytes [d] (none: end of file or error). *)
Definition uring_recv (h : bytes -> bytes) (d : bytes) (c : Conn) (p : Peer) : option Conn * Peer :=
  if bool_decide (d = []) then (None, p)
  else
    let '(c, p) := receive (take (INBUF_SIZE - length (inbuf c) - 1) d) c p in
    match find_char NL (inbuf c) with
    | None =>
        if (INBUF_SIZE - 1 <=? length (inbuf c))%nat then (None, p)
        else (Some c, p)                             (* submit_recv *)
    | Some nl =>
        let '(c, p) := answer h nl c p in (Some c, p)  (* submit_send *)
    end.

(** A completed SEND of [n] bytes (zero: error). *)
Definition uring_send (n : nat) (c : Conn) (p : Peer) : option Conn * Peer :=
  if (n =? 0)%nat then (None, p)
  else
    let '(c, p) := transmit (n `min` (length (outbuf c) - outpos c)) c p in
    if (outpos c <? length (outbuf c))%nat then (Some c, p)   (* submit_send *)
    else (Some (reset_out c), p).                             (* submit_recv *)

(** A completion of the operation the connection waits for. *)
Inductive Completion := CRecv (d : bytes) | CSend (n : nat).

Definition uring_complete (h : bytes -> bytes) (x : Completion) (c : Conn) (p : Peer)
    : option (option Conn * Peer) :=
  match x with
  | CRecv d => if writing c then None else Some (uring_recv h d c p)
  | CSend n => if writing c then Some (uring_send n c p) else None
  end.

(** ** Thread per client *)

(** [handle_client]: the loop on the results of [recv]; [sends] are the byte
    counts [send] accepts, which the code does not look at. *)
Fixpoint handle_client (h : bytes -> bytes) (rs : list bytes) (sends : list nat) (c : Conn) (p : Peer)
    : Conn * Peer :=
  match rs with
  | [] => (c, p)
  | d :: rs' =>
      if bool_decide (d = []) then (c, p)    (* end of file, error or time-out *)
      else
        let '(c, p) := receive (take (INBUF_SIZE - length (inbuf c) - 1) d) c p in
        match find_char NL (inbuf c) with
        | None =>
            if (INBUF_SIZE - 1 <=? length (inbuf c))%nat then (c, p) else handle_client h rs' sends c p
        | Some nl =>
            let '(c, p) := answer h nl c p in
            let n := default (length (outbuf c)) (head sends) in
            let '(c, p) := transmit (n `min` length (outbuf c)) c p in
            handle_client h rs' (tail sends) (reset_out c) p
        end
  end.

(** ** The line server *)

Definition line_of (x : bytes * bytes) : bytes := fst x ++ [NL].

(** What a connection has done so far: the received bytes are the answered
    lines and the buffered rest, each response is the handler's answer to its
    line, and the bytes sent and still to be sent are the responses. *)
Definition serves (handled : bytes -> bytes -> Prop) (c : Conn) (p : Peer) : Prop :=
  rx p = concat (map line_of (answered p)) ++ inbuf c /\
  tx p ++ drop (outpos c) (outbuf c) = concat (map snd (answered p)) /\
  Forall (fun x => (NL ∉ fst x) /\ handled (fst x) (snd x)) (answered p) /\
  (outpos c <= length (outbuf c))%nat /\
  (length (inbuf c) < INBUF_SIZE)%nat /\
  (writing c = false -> outbuf c = [] /\ outpos c = 0%nat).

(** The same after the connection was closed: what was sent is a prefix of the
    responses. *)
Definition served (handled : bytes -> bytes -> Prop) (p : Peer) : Prop :=
  (exists rest, rx p = concat (map line_of (answered p)) ++ rest) /\
  (exists rest, tx p ++ rest = concat (map snd (answered p))) /\
  Forall (fun x => (NL ∉ fst x) /\ handled (fst x) (snd x)) (answered p).

Section line_server.
Context (handled : bytes -> bytes -> Prop) (h : bytes -> bytes).
Context (Hh : forall line, handled line (h (c_str line))).

Lemma serves_served c p : serves handled c p -> served handled p.
Proof using.
  intros (Hr & Ht & Ha & _). split; [by eexists|]. split; [by eexists|done].
Qed.

Lemma serves_new : serves handled new_conn new_peer.
Proof using. unfold serves, INBUF_SIZE. simpl. split_and!; try done. lia. Qed.

(** Bytes arrive while reading. *)
Lemma receive_serves c p d :
  (length d <= INBUF_SIZE - length (inbuf c) - 1)%nat ->
  serves handled c p -> let '(c', p') := receive d c p in serves handled c' p' /\ writing c' = writing c.
Proof using.
  intros Hd (Hr & Ht & Ha & Hp & Hi & Hw). unfold receive. split; [|done].
  unfold serves. simpl. split_and!; try done.
  - by rewrite Hr, app_assoc.
  - rewrite length_app. lia.
Qed.

(** A line is answered while reading. *)
Lemma answer_serves c p nl :
  find_char NL (inbuf c) = Some nl -> writing c = false ->
  serves handled c p -> let '(c', p') := answer h nl c p in serves handled c' p'.
Proof using Hh.
  intros Hnl Hwr (Hr & Ht & Ha & Hp & Hi & Hw). destruct (Hw Hwr) as [Ho Hpos].
  destruct (find_char_some _ _ _ Hnl) as [Hs Hno]. unfold answer, serves. simpl. split_and!.
  - rewrite Hr, map_app, concat_app. simpl. unfold line_of at 3. simpl.
    rewrite app_nil_r, <-!app_assoc. f_equal. simpl. by rewrite Nat.add_1_r.
  - rewrite map_app, concat_app. simpl. rewrite drop_0, app_nil_r. f_equal.
    rewrite Ho, drop_nil, app_nil_r in Ht. done.
  - apply Forall_app. split; [done|]. by constructor.
  - lia.
  - rewrite length_drop. lia.
  - done.
Qed.

Lemma transmit_serves c p n :
  (n <= length (outbuf c) - outpos c)%nat -> writing c = true ->
  serves handled c p ->
  let '(c', p') := transmit n c p in serves handled c' p' /\ writing c' = true /\ outbuf c' = outbuf c.
Proof using.
  intros Hn Hwr (Hr & Ht & Ha & Hp & Hi & Hw). unfold transmit, serves. simpl. split_and!; try done.
  - rewrite <-drop_drop, <-app_assoc, take_drop. done.
  - lia.
  - congruence.
Qed.

Lemma reset_serves c p :
  (length (outbuf c) <= outpos c)%nat -> serves handled c p -> serves handled (reset_out c) p.
Proof using.
  intros Hl (Hr & Ht & Ha & Hp & Hi & Hw). unfold serves. simpl. split_and!; try done.
  by rewrite drop_ge in Ht.
Qed.

(** The outcome of an operation on a connection. *)
Definition outcome_ok (r : option Conn * Peer) : Prop :=
  match fst r with Some c => serves handled c (snd r) | None => served handled (snd r) end.

Lemma epoll_read_ok rs c p :
  writing c = false -> serves handled c p -> outcome_ok (epoll_read h rs c p).
Proof using Hh.
  revert c p. induction rs as [|r rs IH]; intros c p Hw Hs; cbn [epoll_read];
    (destruct (_ =? 0)%nat eqn:Eroom; [by apply (serves_served c)|]); [done|].
  destruct r as [d| | |]; [|done|by apply (serves_served c)..].
  pose proof (receive_serves c p (take (INBUF_SIZE - length (inbuf c) - 1) d)) as Hr.
  destruct (receive _ c p) as [c1 p1]. destruct Hr as [Hs1 Hw1]; [rewrite length_take; lia|done|].
  destruct (find_char NL (inbuf c1)) as [nl|] eqn:Enl; [|apply IH; [congruence|done]].
  pose proof (answer_serves c1 p1 nl Enl) as Ha. destruct (answer h nl c1 p1) as [c2 p2].
  apply Ha; [congruence|done].
Qed.

Lemma epoll_send_ok ss c p :
  writing c = true -> serves handled c p -> outcome_ok (epoll_send ss c p).
Proof using.
  revert c p. induction ss as [|s ss IH]; intros c p Hw Hs; cbn [epoll_send];
    destruct (outpos c <? length (outbuf c))%nat; try done.
  destruct s as [n| |]; [|done|by apply (serves_served c)].
  pose proof (transmit_serves c p (n `min` (length (outbuf c) - outpos c)) ltac:(lia) Hw Hs) as Ht.
  destruct (transmit _ c p) as [c1 p1]. destruct Ht as (H1 & H2 & _). by apply IH.
Qed.

Lemma epoll_event_ok evt rs ss c p : serves handled c p -> outcome_ok (epoll_event h evt rs ss c p).
Proof using Hh.
  intros Hs. unfold epoll_event. destruct (ev_err evt); [by apply (serves_served c)|].
  set (r := if negb (writing c) && ev_in evt then epoll_read h rs c p else (Some c, p)).
  assert (Hr : outcome_ok r).
  { unfold r. destruct (writing c) eqn:Hw; [done|]. destruct (ev_in evt); [by apply epoll_read_ok|done]. }
  destruct r as [[c1|] p1]; [|done]. destruct (writing c1) eqn:Hw1; [|done].
  destruct (ev_out evt); [|done]. cbn [andb].
  pose proof (epoll_send_ok ss c1 p1 Hw1 Hr) as H2.
  destruct (epoll_send ss c1 p1) as [[c2|] p2]; [|done]. unfold outcome_ok in *. simpl in *.
  unfold epoll_sent. destruct (Nat.leb_spec (length (outbuf c2)) (outpos c2)); [by apply reset_serves|done].
Qed.

Lemma uring_complete_ok x c p r : serves handled c p -> uring_complete h x c p = Some r -> outcome_ok r.
Proof using Hh.
  intros Hs. unfold uring_complete. destruct x as [d|n]; destruct (writing c) eqn:Hw; try done; intros [= <-].
  - unfold uring_recv. case_bool_decide; [by apply (serves_served c)|].
    pose proof (receive_serves c p (take (INBUF_SIZE - length (inbuf c) - 1) d)) as Hr.
    destruct (receive _ c p) as [c1 p1]. destruct Hr as [Hs1 Hw1]; [rewrite length_take; lia|done|].
    destruct (find_char NL (inbuf c1)) as [nl|] eqn:Enl.
    + pose proof (answer_serves c1 p1 nl Enl) as Ha. destruct (answer h nl c1 p1) as [c2 p2].
      apply Ha; [congruence|done].
    + destruct (_ <=? _)%nat; [by apply (serves_served c1)|done].
  - unfold uring_send. destruct (n =? 0)%nat; [by apply (serves_served c)|].
    pose proof (transmit_serves c p (n `min` (length (outbuf c) - outpos c)) ltac:(lia) Hw Hs) as Ht.
    destruct (transmit _ c p) as [c1 p1]. destruct Ht as (H1 & H2 & _).
    destruct (Nat.ltb_spec (outpos c1) (length (outbuf c1))); [done|]. by apply reset_serves.
Qed.

Lemma handle_client_ok rs sends c p :
  writing c = false -> sends = [] -> serves handled c p ->
  let '(c', p') := handle_client h rs sends c p in serves handled c' p'.
Proof using Hh.
  intros Hw ->. revert c p Hw. induction rs as [|d rs IH]; intros c p Hw Hs; cbn [handle_client]; [done|].
  case_bool_decide; [done|].
  pose proof (receive_serves c p (take (INBUF_SIZE - length (inbuf c) - 1) d)) as Hr.
  destruct (receive _ c p) as [c1 p1]. destruct Hr as [Hs1 Hw1]; [rewrite length_take; lia|done|].
  destruct (find_char NL (inbuf c1)) as [nl|] eqn:Enl.
  2: { destruct (_ <=? _)%nat; [done|]. apply IH; [congruence|done]. }
  pose proof (answer_serves c1 p1 nl Enl ltac:(congruence) Hs1) as Ha.
  assert (Hw2 : writing (fst (answer h nl c1 p1)) = true) by done.
  assert (Hp2 : outpos (fst (answer h nl c1 p1)) = 0%nat) by done.
  destruct (answer h nl c1 p1) as [c2 p2]. cbn [fst] in Hw2, Hp2. cbn [head tail].
  pose proof (transmit_serves c2 p2 (default (length (outbuf c2)) None `min` length (outbuf c2))) as Ht.
  assert (Hfull : (length (outbuf c2) <= outpos (fst (transmit (default (length (outbuf c2)) None `min` length (outbuf c2)) c2 p2)))%nat).
  { simpl. lia. }
  destruct (transmit _ c2 p2) as [c3 p3]. destruct Ht as (H1 & H2 & H3); [simpl; lia|done..|].
  apply IH; [done|]. apply reset_serves; [|done]. rewrite H3. exact Hfull.
Qed.
End line_server.

(** ** Executions *)

(** A response some state of the engine and of the pipeline gives to a line. *)
Definition answers_line `{IterOrder} (line resp : bytes) : Prop :=
  exists now e pipeline, resp = handle_line now e pipeline (c_str line).

(** One event of the epoll server; the kernel hands out descriptors that are
    not open. *)
Inductive epoll_step `{IterOrder} : Server -> Server -> Prop :=
  | step_accept now e pl cfds s :
      NoDup cfds -> Forall (fun fd => conns s !! fd = None) cfds ->
      epoll_step s (epoll_dispatch (handle_line now e pl) (EvAccept cfds) s)
  | step_conn now e pl fd evt rs ss s :
      epoll_step s (epoll_dispatch (handle_line now e pl) (EvConn fd evt rs ss) s).

(** One completion of the io_uring server on a connection that stays open. *)
Definition uring_step `{IterOrder} (a b : Conn * Peer) : Prop :=
  exists now e pl x, uring_complete (handle_line now e pl) x (fst a) (snd a) = Some (Some (fst b), snd b).

Definition server_ok (handled : bytes -> bytes -> Prop) (s : Server) : Prop :=
  (forall fd p, peers s !! fd = Some p -> served handled p) /\
  (forall fd c, conns s !! fd = Some c -> exists p, peers s !! fd = Some p /\ serves handled c p).

Lemma accept_ok handled s cfd :
  conns s !! cfd = None -> server_ok handled s -> server_ok handled (accept_conn s cfd).
Proof.
  intros Hn [Hp Hc]. unfold accept_conn. rewrite Hn. split; simpl.
  - intros fd p [[<- <-]|[_ H]]%lookup_insert_Some; [eapply serves_served, serves_new|by eapply Hp].
  - intros fd c [[<- <-]|[Hne H]]%lookup_insert_Some.
    + exists new_peer. split; [apply lookup_insert_eq|apply serves_new].
    + destruct (Hc fd c H) as (p & H1 & H2). exists p. by rewrite lookup_insert_ne.
Qed.

Lemma accepts_ok handled cfds s :
  NoDup cfds -> Forall (fun fd => conns s !! fd = None) cfds -> server_ok handled s ->
  server_ok handled (foldl accept_conn s cfds).
Proof.
  revert s. induction cfds as [|fd cfds IH]; intros s Hnd Hf Hs; [done|].
  apply NoDup_cons in Hnd as [Hni Hnd]. apply Forall_cons in Hf as [Hfd Hf]. cbn [foldl].
  apply IH; [done| |by apply accept_ok]. rewrite Forall_forall in Hf. apply Forall_forall.
  intros x Hx. simpl. rewrite lookup_insert_ne by congruence. by apply Hf.
Qed.

Lemma conn_event_ok handled h fd evt rs ss s :
  (forall line, handled line (h (c_str line))) -> server_ok handled s ->
  server_ok handled (epoll_dispatch h (EvConn fd evt rs ss) s).
Proof.
  intros Hh [Hp Hc]. cbn [epoll_dispatch]. destruct (conns s !! fd) as [c|] eqn:Ec; [|done].
  destruct (Hc fd c Ec) as (p & Hpp & Hs). rewrite Hpp.
  pose proof (epoll_event_ok handled h Hh evt rs ss c p Hs) as Ho.
  destruct (epoll_event h evt rs ss c p) as [oc p']. unfold outcome_ok in Ho. cbn [fst snd] in Ho.
  split; simpl.
  - intros fd' q [[<- <-]|[_ H]]%lookup_insert_Some; [|by eapply Hp].
    destruct oc; [by eapply serves_served|done].
  - intros fd' c'. destruct oc as [c1|].
    + intros [[<- <-]|[Hne H]]%lookup_insert_Some.
      * exists p'. split; [apply lookup_insert_eq|done].
      * destruct (Hc fd' c' H) as (q & H1 & H2). exists q. by rewrite lookup_insert_ne.
    + intros [Hne H]%lookup_delete_Some. destruct (Hc fd' c' H) as (q & H1 & H2).
      exists q. by rewrite lookup_insert_ne.
Qed.

(** ** Properties *)

(** The epoll server is a line server on every connection, whatever the
    events, the sizes of the pieces received and the partial or refused sends:
    in every reachable state the bytes received on a connection are the
    answered lines, in order, followed by what is buffered; each line has the
    response some state of the engine gives to it; the bytes sent, with the
    unsent rest of the current response, are exactly the responses in the
    order of the lines; the buffer never overflows; and of a closed connection
    what was sent is a prefix of the responses. *)
Theorem epoll_line_server `{IterOrder} s :
  rtc epoll_step (mkServer ∅ ∅) s -> server_ok answers_line s.
Proof.
  intros Hr. eapply (rtc_invariant epoll_step (server_ok answers_line)); [|exact Hr|].
  - intros x y Hx Hxy. destruct Hxy as [now e pl cfds s0 Hnd Hf|now e pl fd evt rs ss s0].
    + by apply accepts_ok.
    + apply conn_event_ok; [|done]. intros line. by exists now, e, pl.
  - split; intros fd x; simpl; by rewrite lookup_empty.
Qed.

(** The io_uring server is a line server too: along every sequence of
    completions of the operations a connection waits for, the same holds. *)
Theorem uring_line_server `{IterOrder} c p :
  rtc uring_step (new_conn, new_peer) (c, p) -> serves answers_line c p.
Proof.
  intros Hr.
  apply (rtc_invariant uring_step (fun x => serves answers_line (fst x) (snd x)) (new_conn, new_peer) (c, p)).
  - intros [c1 p1] [c2 p2] Hx (now & e & pl & x & Hc). simpl in *.
    apply (uring_complete_ok answers_line (handle_line now e pl) ltac:(intros line; by exists now, e, pl) x c1 p1 _ Hx Hc).
  - done.
  - apply serves_new.
Qed.

(** The thread-per-client server is a line server as long as every [send]
    takes the whole response. *)
Theorem simple_line_server `{IterOrder} now e pl rs :
  let '(c, p) := handle_client (handle_line now e pl) rs [] new_conn new_peer in
  serves answers_line c p.
Proof.
  apply handle_client_ok; [intros line; by exists now, e, pl|done|done|apply serves_new].
Qed.

(** ** One request *)

Lemma request_fits line :
  (length line <= 510)%nat -> take (INBUF_SIZE - length (inbuf new_conn) - 1) (line ++ [NL]) = line ++ [NL].
Proof. intros Hlen. apply take_ge. rewrite length_app. simpl. lia. Qed.

Lemma request_rest line : drop (length line + 1) (line ++ [NL]) = [].
Proof. apply drop_ge. rewrite length_app. simpl. lia. Qed.

(** What a connection has done after answering one request. *)
Definition after_one (h : bytes -> bytes) (line : bytes) : Peer :=
  mkPeer (line ++ [NL]) (h (c_str line)) [(line, h (c_str line))].

(** The connection between receiving a request and sending its response. *)
Definition answering (h : bytes -> bytes) (line rest : bytes) : Conn :=
  mkConn true rest (h (c_str line)) 0.

Definition request_peer (h : bytes -> bytes) (line rest : bytes) : Peer :=
  mkPeer (line ++ NL :: rest) [] [(line, h (c_str line))].

(** A buffer that starts with a complete line. *)
Lemma receive_line h line rest :
  NL ∉ line -> (length line + length rest <= 510)%nat ->
  let '(c, p) := receive (take (INBUF_SIZE - length (inbuf new_conn) - 1) (line ++ NL :: rest)) new_conn new_peer in
  find_char NL (inbuf c) = Some (length line) /\
  answer h (length line) c p = (answering h line rest, request_peer h line rest).
Proof.
  intros Hl Hlen. rewrite take_ge by (rewrite length_app; simpl; lia). unfold receive. cbn [inbuf new_conn app set_field].
  split; [by apply find_char_app|]. unfold answer. cbn [inbuf set_field].
  rewrite take_app_length. replace (drop (length line + 1) (line ++ NL :: rest)) with rest; [done|].
  rewrite <-drop_drop, drop_app_length. simpl. by rewrite drop_0.
Qed.

Lemma epoll_read_line h line rest rs :
  NL ∉ line -> (length line + length rest <= 510)%nat ->
  epoll_read h (RData (line ++ NL :: rest) :: rs) new_conn new_peer =
    (Some (answering h line rest), request_peer h line rest).
Proof.
  intros Hl Hlen. pose proof (receive_line h line rest Hl Hlen) as H. cbn [epoll_read].
  change (INBUF_SIZE - length (inbuf new_conn) - 1 =? 0)%nat with false. cbv iota.
  destruct (receive _ new_conn new_peer) as [c p]. destruct H as [-> H]. by rewrite H.
Qed.

Lemma uring_recv_line h line rest :
  NL ∉ line -> (length line + length rest <= 510)%nat ->
  uring_recv h (line ++ NL :: rest) new_conn new_peer =
    (Some (answering h line rest), request_peer h line rest).
Proof.
  intros Hl Hlen. pose proof (receive_line h line rest Hl Hlen) as H. unfold uring_recv.
  rewrite bool_decide_false by (by intros []%app_nil).
  destruct (receive _ new_conn new_peer) as [c p]. destruct H as [-> H]. by rewrite H.
Qed.

(** The whole response goes out at once. *)
Lemma transmit_all h line rest :
  transmit (length (h (c_str line)) `min` (length (outbuf (answering h line rest)) - outpos (answering h line rest)))
    (answering h line rest) (request_peer h line rest) =
  ((answering h line rest) <| outpos := length (h (c_str line)) |>,
   mkPeer (line ++ NL :: rest) (h (c_str line)) [(line, h (c_str line))]).
Proof.
  unfold transmit. simpl. rewrite Nat.sub_0_r, Nat.min_id, drop_0, firstn_all. done.
Qed.

Lemma epoll_send_all h line rest :
  h (c_str line) <> [] ->
  epoll_send [SData (length (h (c_str line)))] (answering h line rest) (request_peer h line rest) =
    (Some ((answering h line rest) <| outpos := length (h (c_str line)) |>),
     mkPeer (line ++ NL :: rest) (h (c_str line)) [(line, h (c_str line))]).
Proof.
  intros Hne. cbn [epoll_send].
  assert (Hlt : (outpos (answering h line rest) <? length (outbuf (answering h line rest)))%nat = true).
  { apply Nat.ltb_lt. simpl. destruct (h (c_str line)); [done|simpl; lia]. }
  rewrite Hlt, transmit_all. cbv beta iota. case_match; reflexivity.
Qed.

(** C25: The three servers agree on a single exchange: a request line that fits
    the buffer, received whole on a new connection and answered by a non-empty
    response that is sent whole, leaves each of them ready for the next
    request, having received the line, sent exactly the handler's response and
    buffered nothing. *)
Theorem single_exchange h line :
  NL ∉ line -> (length line <= 510)%nat -> h (c_str line) <> [] ->
  let request := line ++ [NL] in
  let n := length (h (c_str line)) in
  let input := mkFlags true false false in
  let output := mkFlags false true false in
  (exists c p, epoll_event h input [RData request] [] new_conn new_peer = (Some c, p) /\
     epoll_event h output [] [SData n] c p = (Some new_conn, after_one h line)) /\
  (exists c p, uring_complete h (CRecv request) new_conn new_peer = Some (Some c, p) /\
     uring_complete h (CSend n) c p = Some (Some new_conn, after_one h line)) /\
  handle_client h [request] [n] new_conn new_peer = (new_conn, after_one h line).
Proof.
  intros Hl Hlen Hne request n input output. unfold request.
  assert (Hn : (n =? 0)%nat = false).
  { unfold n. by destruct (h (c_str line)). }
  split; [|split].
  - eexists _, _. split.
    { unfold epoll_event. cbn [ev_err ev_in ev_out input negb andb writing new_conn].
      rewrite epoll_read_line by (simpl; done || lia). done. }
    unfold epoll_event. cbn [ev_err ev_in ev_out output negb andb writing answering].
    unfold n. rewrite epoll_send_all by done. unfold epoll_sent. cbn. by rewrite Nat.leb_refl.
  - eexists _, _. split.
    { cbn [uring_complete writing new_conn]. by rewrite uring_recv_line by (simpl; done || lia). }
    cbn [uring_complete writing answering]. unfold uring_send. rewrite Hn. unfold n.
    rewrite transmit_all. cbn [outpos outbuf answering set_field]. by rewrite Nat.ltb_irrefl.
  - pose proof (receive_line h line [] Hl ltac:(simpl; lia)) as H. cbn [handle_client].
    rewrite bool_decide_false by (by intros []%app_nil).
    destruct (receive _ new_conn new_peer) as [c p]. destruct H as [-> H]. rewrite H. cbn [head default tail].
    unfold n. cbn. by rewrite Nat.min_id, drop_0, firstn_all.
Qed.

(** Two requests sent together. *)
Definition second_left (line2 : bytes) : Conn := mkConn false (line2 ++ [NL]) [] 0.

Definition first_answered (h : bytes -> bytes) (line1 line2 : bytes) : Peer :=
  mkPeer (line1 ++ NL :: line2 ++ [NL]) (h (c_str line1)) [(line1, h (c_str line1))].

(** Pipelined requests are not served: when two complete request lines
    arrive together, each of the three servers answers the first, and keeps
    the second, complete, in its buffer without answering it.  The epoll server
    leaves it there at every later event that brings no new bytes, the
    io_uring server waits for a RECV, and the thread-per-client server is back
    in its [recv]. *)
Theorem pipelined_line_waits h line1 line2 :
  NL ∉ line1 -> (length line1 + length line2 + 1 <= 510)%nat -> h (c_str line1) <> [] ->
  let request := line1 ++ NL :: line2 ++ [NL] in
  let n := length (h (c_str line1)) in
  (exists c p, epoll_event h (mkFlags true false false) [RData request] [] new_conn new_peer = (Some c, p) /\
     epoll_event h (mkFlags false true false) [] [SData n] c p =
       (Some (second_left line2), first_answered h line1 line2)) /\
  (forall evt ss, ev_err evt = false ->
     epoll_event h evt [RAgain] ss (second_left line2) (first_answered h line1 line2) =
       (Some (second_left line2), first_answered h line1 line2)) /\
  (exists c p, uring_complete h (CRecv request) new_conn new_peer = Some (Some c, p) /\
     uring_complete h (CSend n) c p = Some (Some (second_left line2), first_answered h line1 line2)) /\
  (forall m, uring_complete h (CSend m) (second_left line2) (first_answered h line1 line2) = None) /\
  handle_client h [request] [n] new_conn new_peer = (second_left line2, first_answered h line1 line2).
Proof.
  intros Hl Hlen Hne request n. unfold request.
  assert (Hn : (n =? 0)%nat = false) by (unfold n; by destruct (h (c_str line1))).
  assert (Hlen' : (length line1 + length (line2 ++ [NL]) <= 510)%nat) by (rewrite length_app; simpl; lia).
  split_and!.
  - eexists _, _. split.
    { unfold epoll_event. cbn [ev_err ev_in ev_out negb andb writing new_conn]. by rewrite epoll_read_line. }
    unfold epoll_event. cbn [ev_err ev_in ev_out negb andb writing answering].
    unfold n. rewrite epoll_send_all by done. unfold epoll_sent. cbn. by rewrite Nat.leb_refl.
  - intros evt ss He. unfold epoll_event. rewrite He. cbn [negb andb writing second_left].
    destruct (ev_in evt); [|done]. cbn [epoll_read inbuf second_left].
    rewrite (proj2 (Nat.eqb_neq _ 0)); [done|]. unfold INBUF_SIZE. rewrite length_app. change (length [NL]) with 1%nat. lia.
  - eexists _, _. split.
    { cbn [uring_complete writing new_conn]. by rewrite uring_recv_line. }
    cbn [uring_complete writing answering]. unfold uring_send. rewrite Hn. unfold n.
    rewrite transmit_all. cbn [outpos outbuf answering set_field]. by rewrite Nat.ltb_irrefl.
  - done.
  - pose proof (receive_line h line1 (line2 ++ [NL]) Hl Hlen') as H. cbn [handle_client].
    rewrite bool_decide_false by (by intros []%app_nil).
    destruct (receive _ new_conn new_peer) as [c p]. destruct H as [-> H]. rewrite H.
    unfold n. cbn. by rewrite Nat.min_id, drop_0, firstn_all.
Qed.

(** ** Completion tags *)

(** The 64-bit tag of a ring operation determines its descriptor and its
    operation, for every [int] descriptor, and fits the 64 bits. *)
Theorem ud_roundtrip fd o :
  INT_MIN <= fd <= INT_MAX ->
  decode_ud (encode_ud fd o) = (fd, Some o) /\ in_u64 (encode_ud fd o).
Proof.
  intros Hfd. unfold encode_ud, u32_of_int.
  assert (Hu : 0 <= wrap32 fd < 2 ^ 32) by (apply Z.mod_pos_bound; lia).
  assert (Hc : 0 <= op_code o <= 2) by (destruct o; simpl; lia).
  assert (E : Z.lor (wrap32 fd) (Z.shiftl (op_code o) 32) = wrap32 fd + op_code o * 2 ^ 32).
  { rewrite Z.shiftl_mul_pow2 by lia. rewrite <-Z.lxor_lor, <-Z.add_nocarry_lxor; [done|..];
      apply Z.bits_inj'; intros i Hi; rewrite Z.land_spec, Z.bits_0;
      (destruct (Z.ltb_spec i 32); [by rewrite (Z.mul_pow2_bits_low (op_code o) 32 i), andb_false_r by lia|
       rewrite (Z.bits_above_log2 (wrap32 fd) i); [done|lia|]];
       destruct (Z.eq_dec (wrap32 fd) 0) as [->|]; [simpl; lia|]; apply Z.log2_lt_pow2; [lia|];
       pose proof (Z.pow_le_mono_r 2 32 i); lia). }
  rewrite E. unfold decode_ud, in_u64, two64. split; [|lia].
  replace 4294967295 with (Z.ones 32) by done. rewrite Z.land_ones by lia.
  rewrite Z.mod_add, Z.mod_small by lia. rewrite Z.shiftr_div_pow2, Z.div_add by lia.
  rewrite Z.div_small by lia. f_equal.
  - unfold int_of_u32, wrap32, INT_MIN, INT_MAX in *.
    destruct (Z.leb_spec 0 fd).
    + rewrite Z.mod_small by lia. rewrite (proj2 (Z.leb_gt _ _)) by lia. done.
    + rewrite <-(Z_mod_plus_full fd 1), Z.mod_small by lia. rewrite (proj2 (Z.leb_le _ _)) by lia. lia.
  - destruct o; done.
Qed.

(** ** Framing *)

(** Names that can be put on a line: those of the books stored. *)
Definition plain_engine (e : Engine) : Prop :=
  forall v b, venue_book e v = Some b -> (NL ∉ symbol_ b) /\ (NL ∉ exchange_ b).

Lemma NL_toupper s : NL ∉ s -> NL ∉ map toupper s.
Proof.
  apply NL_map. intros c Hc. unfold toupper in *. destruct (is_lower c) eqn:E; [|done]. exfalso.
  apply (f_equal byte_val) in Hc. unfold is_lower in E. bool_to_prop.
  rewrite byte_val_of in Hc by lia. change (byte_val NL) with 10 in Hc. lia.
Qed.

Lemma NL_rtrim p s : NL ∉ s -> NL ∉ rtrim p s.
Proof.
  intros Hs. destruct (rtrim_spec p s) as (t & E & _). rewrite E, not_elem_of_app in Hs. apply Hs.
Qed.

Lemma NL_drop n s : NL ∉ s -> NL ∉ drop n s.
Proof. intros Hs. rewrite <-(take_drop n s), not_elem_of_app in Hs. apply Hs. Qed.

Lemma NL_c_str s : NL ∉ s -> NL ∉ c_str s.
Proof.
  intros Hs. unfold c_str. case_match; [|done]. rewrite <-(take_drop n s), not_elem_of_app in Hs. apply Hs.
Qed.

Lemma NL_request line :
  NL ∉ line -> (NL ∉ req_symbol (parse_request line)) /\ (NL ∉ req_report_name (parse_request line)).
Proof.
  intros Hl. unfold parse_request. pose proof (NL_rtrim is_trailing line Hl) as Ht.
  repeat case_match; simpl; (split; [|try apply not_elem_of_nil]); try apply not_elem_of_nil.
  - by apply NL_toupper, NL_drop.
  - by apply NL_rtrim, NL_drop.
Qed.

Lemma list_reports_framed `{IterOrder} p : plain_pipeline p -> framed (list_reports p).
Proof.
  intros [Hc _]. unfold list_reports. rewrite !app_assoc. apply framed_app. no_newline.
  apply NL_commas, Forall_forall. intros x ([n cfg] & -> & Hin%elem_of_iter_map)%list_elem_of_fmap.
  destruct (Hc n cfg Hin) as [Hn _]. no_newline.
Qed.

(** Every response is exactly one line, whatever the command and the state
    of the engine, provided the request holds no newline and neither do the
    names of the stored books and configured reports: so a client that reads
    up to the newline reads exactly one response. *)
Theorem handle_line_framed `{IterOrder} now e pipeline line :
  NL ∉ line -> plain_engine e -> (forall p, pipeline = Some p -> plain_pipeline p) ->
  framed (handle_line now e pipeline line).
Proof.
  intros Hl He Hp. destruct (NL_request line Hl) as [Hs Hr]. unfold handle_line.
  destruct (req_type (parse_request line)).
  - apply snapshot_response_framed; [done|]. apply Forall_forall.
    intros s (v & b & Hb & _ & -> & _)%get_snapshots_elem. destruct (He v b Hb). by split.
  - apply health_response_framed.
  - destruct pipeline as [p|]; [|by apply error_response_framed, NL_literal].
    apply run_framed; [by apply Hp|done].
  - destruct pipeline as [p|]; [by apply list_reports_framed, Hp|by apply error_response_framed, NL_literal].
  - by apply error_response_framed, NL_literal.
Qed.

(** ** Witnesses *)

Definition ex_handler : bytes -> bytes := @handle_line default_order 1300 ex_e2 None.

Definition ex_s1 : Server := epoll_dispatch ex_handler (EvAccept [7]) (mkServer ∅ ∅).
Definition ex_s2 : Server :=
  epoll_dispatch ex_handler (EvConn 7 (mkFlags true false false) [RData ($"HEAL"); RData ($"TH" ++ [NL])] []) ex_s1.

Lemma ex_s2_reachable : rtc (@epoll_step default_order) (mkServer ∅ ∅) ex_s2.
Proof.
  eapply rtc_l; [apply (@step_accept default_order 1300 ex_e2 None [7])|apply rtc_once, step_conn].
  - by apply (bool_decide_eq_true_1 _).
  - by constructor.
Qed.

Lemma epoll_line_server_witness :
  server_ok (@answers_line default_order) ex_s2 /\ (writing <$> conns ex_s2 !! 7) = Some true.
Proof.
  split; [|vm_compute; reflexivity]. apply (@epoll_line_server default_order ex_s2 ex_s2_reachable).
Defined.

(** The first part of a request, on io_uring. *)
Definition ex_uc : Conn := mkConn false $"HEAL" [] 0.
Definition ex_up : Peer := mkPeer $"HEAL" [] [].

Lemma uring_line_server_witness : serves (@answers_line default_order) ex_uc ex_up.
Proof.
  apply (@uring_line_server default_order). apply rtc_once. exists 1300, ex_e2, None, (CRecv $"HEAL").
  vm_compute. reflexivity.
Defined.

Definition ex_echo (line : bytes) : bytes := line ++ [NL].

Lemma single_exchange_witness :
  handle_client ex_echo [$"HEALTH" ++ [NL]] [7%nat] new_conn new_peer = (new_conn, after_one ex_echo $"HEALTH").
Proof.
  apply (single_exchange ex_echo $"HEALTH"); [by apply NL_literal|simpl; lia|done].
Defined.

Lemma pipelined_line_waits_witness :
  handle_client ex_echo [$"HEALTH" ++ NL :: $"HEALTH" ++ [NL]] [7%nat] new_conn new_peer =
    (second_left $"HEALTH", first_answered ex_echo $"HEALTH" $"HEALTH").
Proof.
  apply (pipelined_line_waits ex_echo $"HEALTH" $"HEALTH"); [by apply NL_literal|simpl; lia|done].
Defined.

Lemma ud_roundtrip_witness : decode_ud (encode_ud (-1) SEND) = (-1, Some SEND).
Proof. apply (ud_roundtrip (-1) SEND). unfold INT_MIN, INT_MAX. lia. Defined.

Lemma handle_line_framed_witness : framed (@handle_line default_order 5 new_engine None $"SNAPSHOT BTC").
Proof.
  apply (@handle_line_framed default_order); [by apply NL_literal| |done].
  intros [k|k] b Hb; simpl in Hb; by rewrite lookup_empty in Hb.
Defined.
