(* ===== verification/ServerLoops.v ===== *)
(** * The io_uring server's completion loop (src/query_server_uring.cpp)

    [QueryServers] models one connection of the io_uring server; this file
    models the loop around it: the table of connections, the submission queue
    and the completions the kernel delivers in any order, each found again by
    its 64-bit tag.  The kernel completes an operation that was submitted, at
    most once, with no more bytes than asked for, and hands out descriptors
    that are not open. *)

From S2P Require Import Prelude Float64 Str Fmt Types OrderBook ArbEngine QueryProtocol Reports QueryServers.

(** ** The loop *)

Definition RING_DEPTH : nat := 256.

(** [pending] are the tags of the operations submitted or about to be;
    [sq_ready] counts the entries taken since the last [io_uring_submit];
    [open_fds] are the descriptors the server has open. *)
Record UringServer := mkUringServer {
  table : Server;
  pending : list Z;
  sq_ready : nat;
  open_fds : gset Z;
}.
#[export] Instance UringServer_settable : Settable UringServer :=
  fun s => mkUringServer (table s) (pending s) (sq_ready s) (open_fds s).

(** [io_uring_get_sqe]: a null pointer, which is then dereferenced, when the
    submission queue is full; with the tag put on the entry. *)
Definition get_sqe (ud : Z) (s : UringServer) : ub UringServer :=
  if (sq_ready s <? RING_DEPTH)%nat
  then Some (s <| pending := pending s ++ [ud] |> <| sq_ready := S (sq_ready s) |>)
  else None.

Definition io_uring_submit (s : UringServer) : UringServer := s <| sq_ready := 0%nat |>.

(** [conns[fd]], which creates what is missing. *)
Definition conn_of (fd : Z) (s : UringServer) : Conn := default new_conn (conns (table s) !! fd).
Definition peer_of (fd : Z) (s : UringServer) : Peer := default new_peer (peers (table s) !! fd).

Definition store (fd : Z) (c : Conn) (p : Peer) (s : UringServer) : UringServer :=
  s <| table := mkServer (<[fd := c]> (conns (table s))) (<[fd := p]> (peers (table s))) |>.

Definition submit_accept (server_fd : Z) (s : UringServer) : ub UringServer :=
  get_sqe (encode_ud server_fd ACCEPT) s.
Definition submit_recv (cfd : Z) (s : UringServer) : ub UringServer :=
  get_sqe (encode_ud cfd RECV) (store cfd (conn_of cfd s) (peer_of cfd s) s).
Definition submit_send (cfd : Z) (s : UringServer) : ub UringServer :=
  get_sqe (encode_ud cfd SEND) (store cfd (conn_of cfd s) (peer_of cfd s) s).

(** [conns.emplace(cfd, Conn{})] on a descriptor just accepted. *)
Definition emplace (cfd : Z) (s : UringServer) : UringServer :=
  (store cfd (conn_of cfd s) new_peer s) <| open_fds := {[cfd]} ∪ open_fds s |>.

(** [::close(fd); conns.erase(fd);] *)
Definition close_conn (fd : Z) (p : Peer) (s : UringServer) : UringServer :=
  s <| table := mkServer (delete fd (conns (table s))) (<[fd := p]> (peers (table s))) |>
    <| open_fds := open_fds s ∖ {[fd]} |>.

(** How a RECV or SEND completion ends: closed, or the next operation of the
    connection is submitted. *)
Definition settle (fd : Z) (r : option Conn * Peer) (s : UringServer) : ub UringServer :=
  match r with
  | (None, p) => Some (close_conn fd p s)
  | (Some c, p) =>
      let s := store fd c p s in
      if writing c then submit_send fd s else submit_recv fd s
  end.

(** A completion: tag, result, and the bytes a RECV put into the buffer. *)
Record Cqe := mkCqe { cqe_ud : Z; cqe_res : Z; cqe_data : bytes }.

(** One turn of the loop. *)
Definition process (h : bytes -> bytes) (server_fd : Z) (x : Cqe) (s : UringServer) : ub UringServer :=
  let '(fd, op) := decode_ud (cqe_ud x) in
  let res := cqe_res x in
  match op with
  | Some ACCEPT =>
      s ← submit_accept server_fd s;
      if res <? 0 then Some (io_uring_submit s)
      else s ← submit_recv res (emplace res s); Some (io_uring_submit s)
  | Some RECV =>
      s ← settle fd (uring_recv h (if res <=? 0 then [] else cqe_data x) (conn_of fd s) (peer_of fd s)) s;
      Some (io_uring_submit s)
  | Some SEND =>
      s ← settle fd (uring_send (Z.to_nat res) (conn_of fd s) (peer_of fd s)) s;
      Some (io_uring_submit s)
  | None => Some s
  end.

(** Before the loop: the first ACCEPT is submitted. *)
Definition uring_start (server_fd : Z) : ub UringServer :=
  s ← submit_accept server_fd (mkUringServer (mkServer ∅ ∅) [] 0 {[server_fd]});
  Some (io_uring_submit s).

(** After it: every connection and the listening socket are closed. *)
Definition cleanup (server_fd : Z) (s : UringServer) : UringServer :=
  s <| open_fds := open_fds s ∖ dom (conns (table s)) ∖ {[server_fd]} |> <| pending := [] |>.

(** ** Executions *)

(** What the kernel may answer to the operation with the tag [ud]. *)
Definition kernel_answers (x : Cqe) (s : UringServer) : Prop :=
  match decode_ud (cqe_ud x) with
  | (_, Some ACCEPT) => cqe_res x < 0 \/ (0 <= cqe_res x <= INT_MAX /\ cqe_res x ∉ open_fds s)
  | (fd, Some RECV) =>
      cqe_res x <= 0 \/
      (cqe_res x = Z.of_nat (length (cqe_data x)) /\
       (length (cqe_data x) <= INBUF_SIZE - length (inbuf (conn_of fd s)) - 1)%nat)
  | (fd, Some SEND) =>
      cqe_res x <= Z.of_nat (length (outbuf (conn_of fd s)) - outpos (conn_of fd s))
  | (_, None) => True
  end.

(** A turn: one pending operation, any of them, completes and is handled. *)
Definition turn `{IterOrder} (server_fd : Z) (s s' : UringServer) : Prop :=
  exists now e pl l1 l2 x,
    pending s = l1 ++ cqe_ud x :: l2 /\ kernel_answers x s /\
    process (uring_handle_line now e pl) server_fd x (s <| pending := l1 ++ l2 |>) = Some s'.

(** The operation a connection waits for. *)
Definition waits_for (x : Z * Conn) : Z := encode_ud (fst x) (if writing (snd x) then SEND else RECV).

(** Between two turns. *)
Definition loop_ok (handled : bytes -> bytes -> Prop) (server_fd : Z) (s : UringServer) : Prop :=
  server_ok handled (table s) /\
  pending s ≡ₚ encode_ud server_fd ACCEPT :: map waits_for (map_to_list (conns (table s))) /\
  open_fds s = {[server_fd]} ∪ dom (conns (table s)) /\
  sq_ready s = 0%nat /\
  (forall fd c, conns (table s) !! fd = Some c -> 0 <= fd <= INT_MAX /\ fd <> server_fd).

(** ** One turn *)

Lemma decode_waits fd c :
  0 <= fd <= INT_MAX -> decode_ud (waits_for (fd, c)) = (fd, Some (if writing c then SEND else RECV)).
Proof. intros H. apply ud_roundtrip. unfold INT_MIN, INT_MAX in *. simpl. lia. Qed.

Lemma decode_accept fd : 0 <= fd <= INT_MAX -> decode_ud (encode_ud fd ACCEPT) = (fd, Some ACCEPT).
Proof. intros H. apply ud_roundtrip. unfold INT_MIN, INT_MAX in *. lia. Qed.

(** The pending operations with a connection replaced, and with it removed. *)
Lemma waiting_insert fd c (m : gmap Z Conn) :
  map waits_for (map_to_list (<[fd := c]> m)) ≡ₚ waits_for (fd, c) :: map waits_for (map_to_list (delete fd m)).
Proof.
  rewrite <-insert_delete_eq, map_to_list_insert by apply lookup_delete_eq. done.
Qed.

Lemma waiting_delete fd c (m : gmap Z Conn) :
  m !! fd = Some c ->
  map waits_for (map_to_list m) ≡ₚ waits_for (fd, c) :: map waits_for (map_to_list (delete fd m)).
Proof. intros H. rewrite <-(map_to_list_delete m fd c H). done. Qed.

Section turn.
Context (handled : bytes -> bytes -> Prop) (h : bytes -> bytes) (server_fd : Z).
Context (Hh : forall line, handled line (h (c_str line))) (Hfd : 0 <= server_fd <= INT_MAX).

(** What is still pending when an operation has been taken out. *)
Definition rest_ok (s : UringServer) (rest : list Z) : Prop :=
  server_ok handled (table s) /\ pending s ≡ₚ rest /\
  open_fds s = {[server_fd]} ∪ dom (conns (table s)) /\ sq_ready s = 0%nat /\
  (forall fd c, conns (table s) !! fd = Some c -> 0 <= fd <= INT_MAX /\ fd <> server_fd).

Lemma server_ok_store fd c p t :
  server_ok handled t -> serves handled c p -> server_ok handled (mkServer (<[fd := c]> (conns t)) (<[fd := p]> (peers t))).
Proof using.
  intros [Hp Hc] Hs. split; simpl.
  - intros fd' q [[<- <-]|[_ H]]%lookup_insert_Some; [by eapply serves_served|by eapply Hp].
  - intros fd' c' [[<- <-]|[Hne H]]%lookup_insert_Some.
    + exists p. by rewrite lookup_insert_eq.
    + destruct (Hc fd' c' H) as (q & H1 & H2). exists q. by rewrite lookup_insert_ne.
Qed.

Lemma server_ok_close fd p t :
  server_ok handled t -> served handled p -> server_ok handled (mkServer (delete fd (conns t)) (<[fd := p]> (peers t))).
Proof using.
  intros [Hp Hc] Hs. split; simpl.
  - intros fd' q [[<- <-]|[_ H]]%lookup_insert_Some; [done|by eapply Hp].
  - intros fd' c' [Hne H]%lookup_delete_Some. destruct (Hc fd' c' H) as (q & H1 & H2).
    exists q. by rewrite lookup_insert_ne.
Qed.

(** The next operation of a connection that is in the table. *)
Lemma submit_next_ok fd c p s o :
  conns (table s) !! fd = Some c -> peers (table s) !! fd = Some p -> (sq_ready s < RING_DEPTH)%nat ->
  get_sqe (encode_ud fd o) (store fd (conn_of fd s) (peer_of fd s) s) =
    Some (s <| pending := pending s ++ [encode_ud fd o] |> <| sq_ready := S (sq_ready s) |>).
Proof using.
  intros Hc Hp Hn. unfold get_sqe, store, conn_of, peer_of. simpl. rewrite Hc, Hp. simpl.
  rewrite (proj2 (Nat.ltb_lt _ _) Hn), !insert_id by done. by destruct s as [[]].
Qed.

(** A RECV or SEND completion, once the connection's outcome is known. *)
Lemma settle_ok fd c r s :
  conns (table s) !! fd = Some c -> outcome_ok handled r ->
  rest_ok s (encode_ud server_fd ACCEPT :: map waits_for (map_to_list (delete fd (conns (table s))))) ->
  exists s', settle fd r s = Some s' /\ loop_ok handled server_fd (io_uring_submit s').
Proof using.
  intros Hc Hr (Ht & Hp & Ho & Hq & Hf). destruct r as [[c'|] p]; simpl in Hr.
  - set (s1 := store fd c' p s).
    assert (Hnext : forall o, o = (if writing c' then SEND else RECV) ->
      exists s', get_sqe (encode_ud fd o) (store fd (conn_of fd s1) (peer_of fd s1) s1) = Some s' /\
        loop_ok handled server_fd (io_uring_submit s')).
    { intros o ->. rewrite (submit_next_ok fd c' p) by (simpl; rewrite ?lookup_insert_eq, ?Hq; unfold RING_DEPTH; done || lia).
      eexists. split; [done|]. unfold loop_ok. simpl. split_and!.
      - by apply server_ok_store.
      - rewrite waiting_insert, Hp. unfold waits_for at 3. simpl. solve_Permutation.
      - rewrite dom_insert_L, Ho. apply elem_of_dom_2 in Hc. clear -Hc. set_solver.
      - done.
      - intros fd' c'' [[<- _]|[_ H]]%lookup_insert_Some; by eapply Hf. }
    simpl. destruct (writing c') eqn:Hw; [by apply (Hnext SEND)|by apply (Hnext RECV)].
  - eexists. split; [done|]. unfold loop_ok. simpl. split_and!.
    + by apply server_ok_close.
    + done.
    + rewrite dom_delete_L, Ho. destruct (Hf fd c Hc) as [_ Hne]. clear -Hne. set_solver.
    + done.
    + intros fd' c' [_ H]%lookup_delete_Some. by eapply Hf.
Qed.

(** An ACCEPT completion. *)
Lemma accepted_ok x s :
  cqe_ud x = encode_ud server_fd ACCEPT -> kernel_answers x s ->
  rest_ok s (map waits_for (map_to_list (conns (table s)))) ->
  exists s', process h server_fd x s = Some s' /\ loop_ok handled server_fd s'.
Proof using Hfd.
  intros Hx Hk (Ht & Hp & Ho & Hq & Hf). unfold process, kernel_answers in *. rewrite Hx, decode_accept in * by done.
  assert (Hacc : submit_accept server_fd s =
    Some (s <| pending := pending s ++ [encode_ud server_fd ACCEPT] |> <| sq_ready := 1%nat |>)).
  { unfold submit_accept, get_sqe. by rewrite Hq. }
  rewrite Hacc. cbn [mbind option_bind]. destruct (Z.ltb_spec (cqe_res x) 0) as [Hneg|Hneg].
  { eexists. split; [done|]. unfold loop_ok. simpl. split_and!; try done. rewrite Hp. solve_Permutation. }
  destruct Hk as [Hk|[Hk Hnew]]; [lia|]. set (cfd := cqe_res x) in *.
  assert (Hcn : conns (table s) !! cfd = None).
  { apply not_elem_of_dom. rewrite Ho in Hnew. clear -Hnew. set_solver. }
  set (s1 := emplace cfd _). unfold submit_recv.
  assert (Hc1 : conns (table s1) !! cfd = Some new_conn).
  { simpl. unfold conn_of. simpl. by rewrite Hcn, lookup_insert_eq. }
  rewrite (submit_next_ok cfd new_conn new_peer) by (done || (simpl; rewrite ?lookup_insert_eq; unfold RING_DEPTH; done || lia)).
  eexists. split; [done|]. unfold loop_ok. simpl. unfold conn_of. simpl. rewrite Hcn. simpl. split_and!.
  - apply server_ok_store; [done|apply serves_new].
  - rewrite map_to_list_insert, Hp by done. cbn [map]. unfold waits_for at 2. simpl. solve_Permutation.
  - rewrite dom_insert_L, Ho. clear. set_solver.
  - done.
  - intros fd c [[<- _]|[_ H]]%lookup_insert_Some; [|by eapply Hf].
    split; [done|]. rewrite Ho in Hnew. clear -Hnew. set_solver.
Qed.

(** A RECV or SEND completion. *)
Lemma completed_ok fd c x s :
  conns (table s) !! fd = Some c -> cqe_ud x = waits_for (fd, c) ->
  rest_ok s (encode_ud server_fd ACCEPT :: map waits_for (map_to_list (delete fd (conns (table s))))) ->
  exists s', process h server_fd x s = Some s' /\ loop_ok handled server_fd s'.
Proof using Hh.
  intros Hc Hx Hs. pose proof Hs as ([Hps Hcs] & _ & _ & _ & Hf). destruct (Hf fd c Hc) as [Hr _].
  destruct (Hcs fd c Hc) as (p & Hp & Hserves). unfold process. rewrite Hx, decode_waits by done.
  unfold conn_of, peer_of. rewrite Hc, Hp. simpl.
  destruct (writing c) eqn:Hw.
  - assert (Ho : outcome_ok handled (uring_send (Z.to_nat (cqe_res x)) c p)).
    { apply (uring_complete_ok handled h Hh (CSend (Z.to_nat (cqe_res x))) c p); [done|]. simpl. by rewrite Hw. }
    destruct (settle_ok fd c _ s Hc Ho Hs) as (s' & -> & H). by eexists.
  - set (d := if cqe_res x <=? 0 then [] else cqe_data x).
    assert (Ho : outcome_ok handled (uring_recv h d c p)).
    { apply (uring_complete_ok handled h Hh (CRecv d) c p); [done|]. simpl. by rewrite Hw. }
    destruct (settle_ok fd c _ s Hc Ho Hs) as (s' & -> & H). by eexists.
Qed.

(** Whichever pending operation completes, the turn is defined. *)
Lemma process_ok l1 l2 x s :
  loop_ok handled server_fd s -> pending s = l1 ++ cqe_ud x :: l2 -> kernel_answers x s ->
  exists s', process h server_fd x (s <| pending := l1 ++ l2 |>) = Some s' /\ loop_ok handled server_fd s'.
Proof using Hh Hfd.
  intros (Ht & Hp & Ho & Hq & Hf) Hpend Hk. rewrite Hpend in Hp. rewrite <-Permutation_middle in Hp.
  assert (Hin : cqe_ud x ∈ encode_ud server_fd ACCEPT :: map waits_for (map_to_list (conns (table s)))).
  { rewrite <-Hp. apply list_elem_of_here. }
  apply elem_of_cons in Hin as [Hx|([fd c] & Hx & Hc%elem_of_map_to_list)%list_elem_of_fmap].
  - apply accepted_ok; [done|done|]. rewrite Hx in Hp. apply Permutation_cons_inv in Hp.
    unfold rest_ok. simpl. split_and!; done.
  - apply (completed_ok fd c); [done|done|]. unfold rest_ok. simpl. split_and!; [done| |done..].
    apply (Permutation_cons_inv (a := cqe_ud x)). rewrite Hp, (waiting_delete fd c) by done. rewrite <-Hx.
    solve_Permutation.
Qed.
End turn.

Lemma uring_start_ok handled server_fd :
  0 <= server_fd <= INT_MAX ->
  exists s, uring_start server_fd = Some s /\ loop_ok handled server_fd s.
Proof.
  intros H. eexists. split; [done|]. unfold loop_ok. simpl. split_and!.
  - split; intros fd x; simpl; by rewrite lookup_empty.
  - by rewrite map_to_list_empty.
  - rewrite dom_empty_L. set_solver.
  - done.
  - intros fd c. by rewrite lookup_empty.
Qed.

(** ** Properties *)

(** C14: The io_uring server serves every connection, in whatever order the
    kernel completes what is in flight.  In every reachable state each
    connection is a line server (what it received is the answered lines and
    the buffer, what it sent and is about to send the responses in order);
    exactly one operation is in flight for each connection, a SEND when it has
    a response under way and a RECV otherwise, and one ACCEPT; the open
    descriptors are the listening socket and the connections, so none leaks,
    and the end of the loop closes them all.  Whichever operation completes
    next, the turn that handles it is defined: the submission queue, emptied at
    every turn, never runs out of its 256 entries. *)
Theorem uring_serves_all `{IterOrder} server_fd s0 s :
  0 <= server_fd <= INT_MAX -> uring_start server_fd = Some s0 -> rtc (turn server_fd) s0 s ->
  server_ok answers_line (table s) /\
  pending s ≡ₚ encode_ud server_fd ACCEPT :: map waits_for (map_to_list (conns (table s))) /\
  open_fds s = {[server_fd]} ∪ dom (conns (table s)) /\ open_fds (cleanup server_fd s) = ∅ /\
  (forall now e pl l1 l2 x, pending s = l1 ++ cqe_ud x :: l2 -> kernel_answers x s ->
     is_Some (process (uring_handle_line now e pl) server_fd x (s <| pending := l1 ++ l2 |>))).
Proof.
  intros Hfd Hs0 Hr. destruct (uring_start_ok answers_line server_fd Hfd) as (s0' & E & H0).
  rewrite Hs0 in E. injection E as <-.
  assert (Hline : forall now e pl line, answers_line line (uring_handle_line now e pl (c_str line))).
  { intros now e pl line. by exists now, e, pl. }
  assert (Hok : loop_ok answers_line server_fd s).
  { eapply (rtc_invariant (turn server_fd) (loop_ok answers_line server_fd)); [|exact Hr|done].
    intros a b Ha (now & e & pl & l1 & l2 & x & Hp & Hk & Hb).
    destruct (process_ok answers_line _ server_fd (Hline now e pl) Hfd l1 l2 x a Ha Hp Hk) as (b' & Hb' & H').
    congruence. }
  pose proof Hok as (Ht & Hp & Ho & _). split_and!; [done..| |].
  - simpl. rewrite Ho. clear. set_solver.
  - intros now e pl l1 l2 x Hpend Hk.
    destruct (process_ok answers_line _ server_fd (Hline now e pl) Hfd l1 l2 x s Hok Hpend Hk) as (s' & -> & _). by eexists.
Qed.

(** ** An execution: a client connects, its request comes in two pieces. *)

Definition ex_loop : Cqe -> UringServer -> ub UringServer := process ex_handler 3.

Definition ex_u0 : UringServer := default (mkUringServer (mkServer ∅ ∅) [] 0 ∅) (uring_start 3).

(** Takes the first operation in flight out and completes it. *)
Definition ex_complete (res : Z) (data : bytes) (s : UringServer) : UringServer :=
  match pending s with
  | ud :: l => default s (ex_loop (mkCqe ud res data) (s <| pending := l |>))
  | [] => s
  end.

Definition ex_u1 : UringServer := ex_complete 7 [] ex_u0.
(** The ACCEPT was submitted again before the RECV; the RECV completes first. *)
Definition ex_u2 : UringServer :=
  default ex_u1 (ex_loop (mkCqe (encode_ud 7 RECV) 7 ($"HEALTH" ++ [NL]))
                   (ex_u1 <| pending := [encode_ud 3 ACCEPT] |>)).

Lemma ex_turns : rtc (@turn default_order 3) ex_u0 ex_u2.
Proof.
  eapply rtc_l; [|apply rtc_once].
  - exists 1300, ex_e2, None, [], [], (mkCqe (encode_ud 3 ACCEPT) 7 []). split; [done|]. split.
    + right. split; [by vm_compute|]. apply (bool_decide_eq_true_1 _). vm_compute. reflexivity.
    + vm_compute. reflexivity.
  - exists 1300, ex_e2, None, [encode_ud 3 ACCEPT], [], (mkCqe (encode_ud 7 RECV) 7 ($"HEALTH" ++ [NL])).
    split; [vm_compute; reflexivity|]. split.
    + right. split; [done|]. vm_compute. lia.
    + vm_compute. reflexivity.
Qed.

Lemma uring_serves_all_witness :
  server_ok (@answers_line default_order) (table ex_u2) /\
  (writing <$> conns (table ex_u2) !! 7) = Some true /\ open_fds (cleanup 3 ex_u2) = ∅.
Proof.
  destruct (@uring_serves_all default_order 3 ex_u0 ex_u2 ltac:(unfold INT_MAX; lia) ltac:(reflexivity) ex_turns)
    as (H1 & _ & _ & H4 & _).
  split; [exact H1|]. split; [vm_compute; reflexivity|exact H4].
Defined.
