(* ===== verification/EpollLoop.v ===== *)
(** * The epoll server's event loop (src/query_server_epoll.cpp)

    [QueryServers] models one connection of the epoll server as a function of
    what [recv] and [send] return; this file models the loop around it and the
    kernel objects it depends on: the sockets, the interest each has in the
    epoll instance, and the edge-triggered readiness that [epoll_wait]
    reports at most once per edge.  Peers send, read, close and reset at any
    time, and the owner may call [stop]; a handler runs against the socket as
    it is when it starts.  The theorems say that the loop refines the abstract
    one of [QueryServers], that no readiness is lost, that it comes to rest,
    and that no descriptor leaks or is used after it was closed. *)

From S2P Require Import Prelude Float64 Str Fmt Types OrderBook ArbEngine QueryProtocol Reports QueryServers.

(** ** Kernel sockets *)

Inductive Dir := WantIn | WantOut.     (* EPOLLIN | EPOLLET, EPOLLOUT | EPOLLET *)

#[export] Instance Dir_eq_dec : EqDecision Dir.
Proof. solve_decision. Defined.

(** [unread] has arrived and was not received; [fin]: the peer has closed its
    side; [broken]: reset; [window]: what [send] takes before EAGAIN; [armed]:
    on the epoll instance's ready list; [arrived]: all that ever arrived. *)
Record Sock := mkSock {
  unread : bytes;
  fin : bool;
  broken : bool;
  window : nat;
  interest : Dir;
  armed : bool;
  arrived : bytes;
}.
#[export] Instance Sock_settable : Settable Sock :=
  fun k => mkSock (unread k) (fin k) (broken k) (window k) (interest k) (armed k) (arrived k).

(** What [recv] and [send] do.  [pick] is how much the kernel chooses to move,
    at least one byte where there is any. *)
Definition recv (pick room : nat) (k : Sock) : RecvResult * Sock :=
  if broken k then (RErr, k)
  else if bool_decide (unread k = []) then (if fin k then REof else RAgain, k)
  else
    let n := ((1 `max` pick) `min` room)%nat in
    (RData (take n (unread k)), k <| unread := drop n (unread k) |>).

Definition send (pick len : nat) (k : Sock) : SendResult * Sock :=
  if broken k then (SErr, k)
  else if (window k =? 0)%nat then (SAgain, k)
  else
    let n := ((1 `max` pick) `min` (len `min` window k))%nat in
    (SData n, k <| window := (window k - n)%nat |>).

(** The events of a socket that it is registered for, or gets anyway. *)
Definition readable (k : Sock) : bool := negb (bool_decide (unread k = [])) || fin k || broken k.
Definition writable (k : Sock) : bool := negb (window k =? 0)%nat || broken k.
Definition ready (k : Sock) : bool :=
  broken k || match interest k with WantIn => readable k | WantOut => writable k end.
Definition flags (k : Sock) : EpollFlags :=
  mkFlags (bool_decide (interest k = WantIn) && readable k) (bool_decide (interest k = WantOut) && writable k) (broken k).

(** [epoll_ctl] with ADD and MOD: a socket that is ready now is put on the
    ready list. *)
Definition epoll_ctl (d : Dir) (k : Sock) : Sock :=
  let k := k <| interest := d |> in k <| armed := armed k || ready k |>.

(** ** The handlers of an existing connection *)

(** READING: the [recv] loop.  The outer [None] is exhausted fuel, the inner
    one a connection to close. *)
Fixpoint read_loop (fuel : nat) (h : bytes -> bytes) (picks : list nat) (c : Conn) (p : Peer) (k : Sock)
    : option (option Conn * Peer * Sock) :=
  match fuel with
  | O => None
  | S fuel =>
      let room := (INBUF_SIZE - length (inbuf c) - 1)%nat in
      if (room =? 0)%nat then Some (None, p, k)
      else
        let '(r, k) := recv (default room (head picks)) room k in
        match r with
        | RAgain => Some (Some c, p, k)
        | RErr => Some (None, p, k)
        | REof => Some (None, p, k)
        | RData d =>
            let '(c, p) := receive d c p in
            match find_char NL (inbuf c) with
            | None => read_loop fuel h (tail picks) c p k
            | Some nl =>
                let '(c, p) := answer h nl c p in
                Some (Some c, p, epoll_ctl WantOut k)
            end
        end
  end.

(** WRITING: the [send] loop. *)
Fixpoint write_loop (fuel : nat) (picks : list nat) (c : Conn) (p : Peer) (k : Sock)
    : option (option Conn * Peer * Sock) :=
  match fuel with
  | O => None
  | S fuel =>
      if (outpos c <? length (outbuf c))%nat then
        let len := (length (outbuf c) - outpos c)%nat in
        let '(r, k) := send (default len (head picks)) len k in
        match r with
        | SAgain => Some (Some c, p, k)
        | SErr => Some (None, p, k)
        | SData n => let '(c, p) := transmit n c p in write_loop fuel (tail picks) c p k
        end
      else Some (Some c, p, k)
  end.

(** What follows it. *)
Definition written (c : Conn) (k : Sock) : Conn * Sock :=
  if (length (outbuf c) <=? outpos c)%nat then (reset_out c, epoll_ctl WantIn k) else (c, k).

(** One event, without error or hangup, of a connection in the table. *)
Definition conn_event (h : bytes -> bytes) (evt : EpollFlags) (picks : list nat) (c : Conn) (p : Peer) (k : Sock)
    : option (option Conn * Peer * Sock) :=
  '(oc, p, k) ← (if negb (writing c) && ev_in evt
                   then read_loop (S (length (unread k))) h picks c p k else Some (Some c, p, k));
    match oc with
    | None => Some (None, p, k)
    | Some c =>
        if writing c && ev_out evt then
          '(oc, p, k) ← write_loop (S (length (outbuf c) - outpos c)) picks c p k;
          match oc with
          | None => Some (None, p, k)
          | Some c => let '(c, k) := written c k in Some (Some c, p, k)
          end
        else Some (Some c, p, k)
    end.

(** ** The loop *)

Definition MAX_EVENTS : nat := 64.

(** [batch] is the rest of the events of the last [epoll_wait]; [open_fds] the
    descriptors the server has open; [stray]: a descriptor was closed that
    the server does not have. *)
Record Loop := mkLoop {
  server : Server;
  socks : gmap Z Sock;
  batch : list (Z * EpollFlags);
  running_ : bool;
  server_fd_ : Z;
  open_fds : gset Z;
  stray : bool;
  finished : bool;
}.
#[export] Instance Loop_settable : Settable Loop :=
  fun s => mkLoop (server s) (socks s) (batch s) (running_ s) (server_fd_ s) (open_fds s) (stray s) (finished s).

(** [::close(fd)]: the kernel forgets the socket and its registration. *)
Definition close (fd : Z) (s : Loop) : Loop :=
  s <| stray := stray s || negb (bool_decide (fd ∈ open_fds s)) |>
    <| open_fds := open_fds s ∖ {[fd]} |> <| socks := delete fd (socks s) |>.

Definition close_conn (fd : Z) (s : Loop) : Loop :=
  let s := close fd s in s <| server := (server s) <| conns := delete fd (conns (server s)) |> |>.

(** [accept4], and what follows for the descriptor it gives. *)
Definition accept_one (s : Loop) (x : Z * Sock) : Loop :=
  let '(cfd, k) := x in
  s <| server := accept_conn (server s) cfd |>
    <| open_fds := {[cfd]} ∪ open_fds s |>
    <| socks := <[cfd := epoll_ctl WantIn (k <| armed := false |>)]> (socks s) |>.

(** One turn of the [for] loop, on the event [(fd, evt)].  [accepted] are the
    connections waiting at the listening socket; [None]: exhausted fuel. *)
Definition handle_event (h : bytes -> bytes) (accepted : list (Z * Sock)) (picks : list nat)
    (fd : Z) (evt : EpollFlags) (s : Loop) : option Loop :=
  if fd =? server_fd_ s then Some (foldl accept_one s accepted)
  else if ev_err evt then Some (close_conn fd s)
  else
    match conns (server s) !! fd, peers (server s) !! fd, socks s !! fd with
    | Some c, Some p, Some k =>
        '(oc, p, k) ← conn_event h evt picks c p k;
        let s := s <| server := (server s) <| peers := <[fd := p]> (peers (server s)) |> |>
                   <| socks := <[fd := k]> (socks s) |> in
        Some (match oc with
              | None => close_conn fd s
              | Some c => s <| server := (server s) <| conns := <[fd := c]> (conns (server s)) |> |>
              end)
    | _, _, _ => Some (close fd s)
    end.

(** [epoll_wait]: the sockets [fds] leave the ready list, those that are ready
    are reported, and so is the listening socket if [listening]. *)
Definition report (s : Loop) (fd : Z) : Loop :=
  match socks s !! fd with
  | None => s
  | Some k =>
      s <| socks := <[fd := k <| armed := false |>]> (socks s) |>
        <| batch := batch s ++ (if ready k then [(fd, flags k)] else []) |>
  end.

Definition epoll_wait (listening : bool) (fds : list Z) (s : Loop) : Loop :=
  let s := foldl report s fds in
  if listening then s <| batch := batch s ++ [(server_fd_ s, mkFlags true false false)] |> else s.

(** The code after the loop. *)
Definition cleanup (epfd : Z) (s : Loop) : Loop :=
  let s := foldl (fun s fd => close fd s) s (elements (dom (conns (server s)))) in
  let s := close epfd s in
  let s := if 0 <=? server_fd_ s then (close (server_fd_ s) s) <| server_fd_ := -1 |> else s in
  s <| finished := true |>.

(** [stop], up to its [join]. *)
Definition stop (s : Loop) : Loop :=
  if running_ s then
    let s := s <| running_ := false |> in
    if 0 <=? server_fd_ s then (close (server_fd_ s) s) <| server_fd_ := -1 |> else s
  else s.

(** The set-up: the listening socket and the epoll instance. *)
Definition loop_start (listen_fd epfd : Z) : Loop :=
  mkLoop (mkServer ∅ ∅) ∅ [] true listen_fd {[listen_fd; epfd]} false false.

(** ** Executions *)

(** A condition that becomes true puts the socket on the ready list if it is
    registered for it. *)
Definition edge (d : Dir) (k : Sock) : Sock := k <| armed := armed k || bool_decide (interest k = d) |>.

(** What happens to a socket from outside: bytes arrive, the peer closes its
    side or resets the connection, or reads so that more can be sent. *)
Inductive sock_step (k : Sock) : Sock -> Prop :=
  | sock_arrive d : fin k = false -> broken k = false ->
      sock_step k (edge WantIn (k <| unread := unread k ++ d |> <| arrived := arrived k ++ d |>))
  | sock_fin : sock_step k (edge WantIn (k <| fin := true |>))
  | sock_reset : sock_step k (k <| broken := true |> <| armed := true |>)
  | sock_drain n : sock_step k (edge WantOut (k <| window := (window k + n)%nat |>)).

Inductive env_step : Loop -> Loop -> Prop :=
  | env_sock fd k k' s :
      socks s !! fd = Some k -> sock_step k k' -> env_step s (s <| socks := <[fd := k']> (socks s) |>)
  | env_stop s : env_step s (stop s).

(** Connections [accept4] can give: the kernel hands out descriptors that are
    not open, and nothing was received on them yet. *)
Definition acceptable (s : Loop) (accepted : list (Z * Sock)) : Prop :=
  NoDup (map fst accepted) /\
  Forall (fun x => 0 <= fst x /\ (fst x ∉ open_fds s) /\ arrived (snd x) = unread (snd x)) accepted.

Inductive own_step `{IterOrder} (epfd : Z) : Loop -> Loop -> Prop :=
  | own_wait (listening : bool) fds s :
      finished s = false -> running_ s = true -> batch s = [] -> NoDup fds ->
      Forall (fun fd => (armed <$> socks s !! fd) = Some true) fds ->
      (length fds + (if listening then 1 else 0) <= MAX_EVENTS)%nat ->
      own_step epfd s (epoll_wait listening fds s)
  | own_event now e (pl : option ReportPipeline) (accepted : list (Z * Sock)) (picks : list nat) fd evt b s s' :
      finished s = false -> batch s = (fd, evt) :: b -> acceptable s accepted ->
      handle_event (@epoll_handle_line _ now e pl) accepted picks fd evt (s <| batch := b |>) = Some s' ->
      own_step epfd s s'
  | own_cleanup s : finished s = false -> batch s = [] -> own_step epfd s (cleanup epfd s).

(** ** One connection *)

Definition dir_of (c : Conn) : Dir := if writing c then WantOut else WantIn.

(** A measure that every turn decreases: bytes to receive, a response to send,
    a place on the ready list. *)
Definition weight (k : Sock) : nat :=
  (4 * length (unread k) + 2 * Nat.b2n (bool_decide (interest k = WantOut)) + 2 * Nat.b2n (armed k))%nat.

(** What every operation keeps of a socket. *)
Definition tracks (p : Peer) (k : Sock) : Prop := rx p ++ unread k = arrived k.

(** A socket that is ready is on the ready list. *)
Definition noticed (k : Sock) : Prop := ready k = true -> armed k = true.

Lemma epoll_ctl_noticed d k : noticed (epoll_ctl d k).
Proof.
  unfold noticed, epoll_ctl. change (ready (set_field armed _ ?k0)) with (ready k0). intros H. simpl in *.
  rewrite H. apply orb_true_r.
Qed.

Lemma epoll_ctl_weight d k : (weight (epoll_ctl d k) <= 4 * length (unread k) + 2 * Nat.b2n (bool_decide (d = WantOut)) + 2)%nat.
Proof. unfold weight. simpl. destruct (armed k || _); simpl; lia. Qed.

Lemma recv_data pick room k d k' :
  (0 < room)%nat -> recv pick room k = (RData d, k') ->
  k' = k <| unread := unread k' |> /\ unread k = d ++ unread k' /\ (0 < length d <= room)%nat.
Proof.
  intros Hr. unfold recv. destruct (broken k); [done|]. case_bool_decide as Hu; [by destruct (fin k)|].
  intros [= <- <-]. simpl. rewrite take_drop, length_take. split_and!; [done|done| |lia].
  destruct (unread k); [done|]. simpl. lia.
Qed.

Lemma recv_same pick room k r k' :
  recv pick room k = (r, k') -> (forall d, r <> RData d) ->
  k' = k /\ (r = RAgain -> unread k = [] /\ fin k = false /\ broken k = false).
Proof.
  unfold recv. destruct (broken k) eqn:Hb; [by intros [= <- <-]|].
  case_bool_decide; [destruct (fin k) eqn:Hf; by intros [= <- <-]|].
  intros [= <- <-] Hno. by destruct (Hno (take ((1 `max` pick) `min` room)%nat (unread k))).
Qed.

(** How the handling of an event leaves a connection that stays open. *)
Definition rests (k0 : Sock) (r : option Conn * Peer * Sock) : Prop :=
  let '(oc, p, k) := r in
  arrived k = arrived k0 /\
  match oc with
  | None => True
  | Some c => tracks p k /\ interest k = dir_of c /\ (weight k <= weight k0)%nat
  end.

Lemma read_loop_spec h fuel picks c p k :
  (length (unread k) < fuel)%nat -> writing c = false -> interest k = WantIn -> tracks p k ->
  exists oc p' k' rs, read_loop fuel h picks c p k = Some (oc, p', k') /\ epoll_read h rs c p = (oc, p') /\
    rests k (oc, p', k') /\ (is_Some oc -> noticed k').
Proof.
  revert picks c p k. induction fuel as [|fuel IH]; intros picks c p k Hf Hw Hi Ht; [lia|].
  cbn [read_loop]. set (room := (INBUF_SIZE - length (inbuf c) - 1)%nat).
  destruct (Nat.eqb_spec room 0) as [Hr|Hr].
  { exists None, p, k, []. cbn [epoll_read]. fold room. rewrite (proj2 (Nat.eqb_eq _ _) Hr). split_and!; try done; by intros []. }
  assert (Hr' : (room =? 0)%nat = false) by by apply Nat.eqb_neq.
  destruct (recv (default room (head picks)) room k) as [r k1] eqn:Er.
  destruct r as [d| | |].
  2-4: destruct (recv_same _ _ _ _ _ Er) as [-> Hagain]; [done|].
  2: { exists (Some c), p, k, [RAgain]. cbn [epoll_read]. fold room. rewrite Hr'. destruct Hagain as (Hu & Hfin & Hb); [done|].
       split_and!; try done.
       - unfold rests, dir_of. rewrite Hw. done.
       - intros _. unfold noticed, ready, readable. by rewrite Hb, Hi, Hu, Hfin. }
  2: { exists None, p, k, [REof]. cbn [epoll_read]. fold room. rewrite Hr'. split_and!; try done; by intros []. }
  2: { exists None, p, k, [RErr]. cbn [epoll_read]. fold room. rewrite Hr'. split_and!; try done; by intros []. }
  destruct (recv_data _ room k _ _ ltac:(lia) Er) as (Hk1 & Hu & Hd).
  assert (Hk : arrived k1 = arrived k /\ interest k1 = interest k /\ armed k1 = armed k) by (by rewrite Hk1).
  destruct Hk as (Ha1 & Hi1 & Harm1).
  assert (Ht1 : tracks (snd (receive d c p)) k1).
  { unfold tracks in *. simpl. by rewrite <-app_assoc, <-Hu, Ha1. }
  assert (Hw1 : writing (fst (receive d c p)) = false) by done.
  assert (Hlen : (length (unread k) = length d + length (unread k1))%nat) by (by rewrite Hu, length_app).
  assert (Hstep : forall rs, epoll_read h (RData d :: rs) c p =
    let '(c, p) := receive d c p in
    match find_char NL (inbuf c) with
    | None => epoll_read h rs c p
    | Some nl => let '(c, p) := answer h nl c p in (Some c, p)
    end).
  { intros rs. cbn [epoll_read]. fold room. rewrite Hr'. by rewrite take_ge by lia. }
  destruct (receive d c p) as [c1 p1]. cbn [fst snd] in *.
  cbv beta iota in Hstep. destruct (find_char NL (inbuf c1)) as [nl|] eqn:Enl.
  - destruct (answer h nl c1 p1) as [c2 p2] eqn:Eans. exists (Some c2), p2, (epoll_ctl WantOut k1), [RData d].
    rewrite Hstep. unfold answer in Eans. injection Eans as <- <-.
    split_and!; [done|done| |by intros _; apply epoll_ctl_noticed].
    split; [done|]. split; [done|]. split; [done|].
    etrans; [apply epoll_ctl_weight|]. unfold weight. rewrite Hlen, Hi. simpl. lia.
  - destruct (IH (tail picks) c1 p1 k1) as (oc & p' & k' & rs & E1 & E2 & Hrest & Hn); [lia|done|congruence|done|].
    exists oc, p', k', (RData d :: rs). rewrite Hstep. split_and!; [done|done| |done].
    destruct Hrest as [Ha Hrest]. split; [congruence|]. destruct oc as [c'|]; [|done].
    destruct Hrest as (H1 & H2 & H3). split_and!; [done..|]. etrans; [exact H3|].
    unfold weight. rewrite Hlen, Hi1, Harm1. lia.
Qed.

Lemma write_loop_spec fuel picks c p k :
  (length (outbuf c) - outpos c < fuel)%nat ->
  exists oc p' k' ss, write_loop fuel picks c p k = Some (oc, p', k') /\ epoll_send ss c p = (oc, p') /\
    rx p' = rx p /\ k' = k <| window := window k' |> /\
    (forall c', oc = Some c' -> writing c' = writing c /\
       ((length (outbuf c') <= outpos c')%nat \/ writable k' = false)).
Proof.
  revert picks c p k. induction fuel as [|fuel IH]; intros picks c p k Hf; [lia|]. cbn [write_loop].
  set (len := (length (outbuf c) - outpos c)%nat).
  destruct (Nat.ltb_spec (outpos c) (length (outbuf c))) as [Hlt|Hge].
  2: { exists (Some c), p, k, []. cbn [epoll_send]. rewrite (proj2 (Nat.ltb_ge _ _) Hge).
       split_and!; [done..|by destruct k|]. intros c' [= <-]. by split; [|left]. }
  assert (Hlt' : (outpos c <? length (outbuf c))%nat = true) by by apply Nat.ltb_lt.
  destruct (send (default len (head picks)) len k) as [r k1] eqn:Er. unfold send in Er.
  destruct (broken k) eqn:Hb.
  { injection Er as <- <-. exists None, p, k, [SErr]. cbn [epoll_send]. rewrite Hlt'.
    split_and!; [done..|by destruct k|done]. }
  destruct (window k =? 0)%nat eqn:Hwin.
  { injection Er as <- <-. exists (Some c), p, k, [SAgain]. cbn [epoll_send]. rewrite Hlt'.
    split_and!; [done..|by destruct k|]. intros c' [= <-]. split; [done|right]. unfold writable. by rewrite Hwin, Hb. }
  set (n := ((1 `max` default len (head picks)) `min` (len `min` window k))%nat) in *. injection Er as <- <-.
  apply Nat.eqb_neq in Hwin. assert (Hn : (0 < n <= len)%nat) by lia.
  assert (Hstep : forall ss, epoll_send (SData n :: ss) c p = let '(c, p) := transmit n c p in epoll_send ss c p).
  { intros ss. cbn [epoll_send]. rewrite Hlt'. fold len. by rewrite Nat.min_l by lia. }
  assert (Hw1 : writing (fst (transmit n c p)) = writing c) by done.
  assert (Hrx : rx (snd (transmit n c p)) = rx p) by done.
  assert (Hf1 : (length (outbuf (fst (transmit n c p))) - outpos (fst (transmit n c p)) < fuel)%nat) by (simpl; lia).
  destruct (transmit n c p) as [c1 p1]. cbn [fst snd] in *. cbv beta iota in Hstep.
  set (k1 := k <| window := (window k - n)%nat |>).
  destruct (IH (tail picks) c1 p1 k1 Hf1) as (oc & p' & k' & ss & E1 & E2 & E3 & E4 & E5).
  exists oc, p', k', (SData n :: ss). rewrite Hstep. split_and!; [done|done|congruence| |].
  - rewrite E4. done.
  - intros c' Hc'. destruct (E5 c' Hc') as [H1 H2]. split; [congruence|done].
Qed.

(** What follows the [send] loop. *)
Lemma written_spec c p k :
  writing c = true -> interest k = WantOut -> tracks p k ->
  (length (outbuf c) <= outpos c)%nat \/ writable k = false ->
  let '(c', k') := written c k in
  c' = epoll_sent c /\ tracks p k' /\ arrived k' = arrived k /\ interest k' = dir_of c' /\ noticed k' /\
  (weight k' <= weight k)%nat.
Proof.
  intros Hw Hi Ht Hdone. unfold written, epoll_sent. destruct (Nat.leb_spec (length (outbuf c)) (outpos c)).
  - split_and!; [done..|apply epoll_ctl_noticed|]. etrans; [apply epoll_ctl_weight|].
    unfold weight. rewrite Hi. simpl. lia.
  - destruct Hdone as [Hdone|Hdone]; [lia|]. split_and!; [done..| | |done].
    + unfold dir_of. by rewrite Hw.
    + unfold noticed, ready. rewrite Hi, Hdone, orb_false_r. unfold writable in Hdone.
      apply orb_false_iff in Hdone as [_ ->]. done.
Qed.

(** The event a connection is registered for. *)
Definition wanted (c : Conn) (evt : EpollFlags) : bool := if writing c then ev_out evt else ev_in evt.

Lemma conn_event_spec h evt picks c p k :
  ev_err evt = false -> wanted c evt = true -> interest k = dir_of c -> tracks p k ->
  exists oc p' k' rs ss, conn_event h evt picks c p k = Some (oc, p', k') /\
    epoll_event h evt rs ss c p = (oc, p') /\ rests k (oc, p', k') /\ (is_Some oc -> noticed k').
Proof.
  intros Herr Hwant Hi Ht. unfold conn_event, epoll_event. rewrite Herr. unfold wanted, dir_of in Hwant, Hi.
  set (rd := if negb (writing c) && ev_in evt then read_loop (S (length (unread k))) h picks c p k else Some (Some c, p, k)).
  assert (Hread : exists oc p1 k1 rs, rd = Some (oc, p1, k1) /\
    (if negb (writing c) && ev_in evt then epoll_read h rs c p else (Some c, p)) = (oc, p1) /\ rests k (oc, p1, k1) /\
    (forall c1, oc = Some c1 -> noticed k1 \/ (writing c1 = true /\ ev_out evt = true))).
  { unfold rd. destruct (writing c) eqn:Hw; cbn [negb andb].
    - exists (Some c), p, k, []. split_and!; [done..| |].
      + unfold rests, dir_of. by rewrite Hw.
      + intros c1 [= <-]. by right.
    - rewrite Hwant. destruct (read_loop_spec h (S (length (unread k))) picks c p k) as (oc & p1 & k1 & rs & E1 & E2 & E3 & E4);
        [lia|done..|]. exists oc, p1, k1, rs. split_and!; [done..|]. intros c1 ->. left. by apply E4. }
  destruct Hread as (oc & p1 & k1 & rs & -> & Er & Hrest & Hnot). cbn [mbind option_bind].
  destruct oc as [c1|].
  2: { exists None, p1, k1, rs, []. rewrite Er. split_and!; [done..|by intros []]. }
  destruct Hrest as (Ha & Ht1 & Hi1 & Hwt).
  destruct (writing c1 && ev_out evt) eqn:Hsend.
  - apply andb_true_iff in Hsend as [Hw1 Ho].
    destruct (write_loop_spec (S (length (outbuf c1) - outpos c1)) picks c1 p1 k1)
      as (oc2 & p2 & k2 & ss & E1 & E2 & E3 & E4 & E5); [lia|]. cbn [mbind option_bind].
    rewrite E1. cbn [mbind option_bind].
    assert (Hk2 : unread k2 = unread k1 /\ arrived k2 = arrived k1 /\ interest k2 = interest k1 /\ armed k2 = armed k1).
    { by rewrite E4. }
    destruct Hk2 as (Hu2 & Ha2 & Hi2 & Har2).
    destruct oc2 as [c2|].
    + destruct (E5 c2 eq_refl) as [Hw2 Hdone].
      pose proof (written_spec c2 p2 k2 ltac:(congruence)) as Hwr.
      destruct (written c2 k2) as [c3 k3]. destruct Hwr as (-> & H1 & H2 & H3 & H4 & H5); [|by unfold tracks in *; congruence|done|].
      { rewrite Hi2, Hi1. unfold dir_of. by rewrite Hw1. }
      exists (Some (epoll_sent c2)), p2, k3, rs, ss. rewrite Er. cbv beta iota. rewrite Hw1, Ho. cbn [andb]. rewrite E2.
      split_and!; [done..| |done]. split; [congruence|]. split_and!; [done..|].
      etrans; [exact H5|]. etrans; [|exact Hwt]. unfold weight. by rewrite Hu2, Hi2, Har2.
    + exists None, p2, k2, rs, ss. rewrite Er. cbv beta iota. rewrite Hw1, Ho. cbn [andb]. rewrite E2.
      split_and!; [done..| |by intros []]. split; [congruence|done].
  - exists (Some c1), p1, k1, rs, []. rewrite Er. cbv beta iota. rewrite Hsend. split_and!; [done..|].
    intros _. destruct (Hnot c1 eq_refl) as [|[Hw1 Ho]]; [done|]. by rewrite Hw1, Ho in Hsend.
Qed.

(** ** The invariant *)

Section loop.
Context `{IterOrder} (listen_fd epfd : Z).
Context (Hlisten : 0 <= listen_fd) (Hep : 0 <= epfd) (Hne : listen_fd <> epfd).

(** While the loop runs. *)
Record live_ok (s : Loop) : Prop := {
  ok_refines : rtc epoll_step (mkServer ∅ ∅) (server s);
  ok_conns : forall fd c, conns (server s) !! fd = Some c -> exists p k,
    peers (server s) !! fd = Some p /\ socks s !! fd = Some k /\ tracks p k /\ interest k = dir_of c /\
    (noticed k \/ fd ∈ map fst (batch s));
  ok_socks : dom (socks s) = dom (conns (server s));
  ok_batch : NoDup (map fst (batch s));
  ok_events : forall fd evt, (fd, evt) ∈ batch s ->
    (fd = listen_fd /\ evt = mkFlags true false false) \/
    exists c, conns (server s) !! fd = Some c /\ (ev_err evt = true \/ wanted c evt = true);
  ok_open : open_fds s = dom (conns (server s)) ∪ {[epfd]} ∪ (if running_ s then {[listen_fd]} else ∅);
  ok_server_fd : server_fd_ s = if running_ s then listen_fd else -1;
  ok_own : forall fd, fd ∈ dom (conns (server s)) -> 0 <= fd /\ fd <> listen_fd /\ fd <> epfd;
  ok_stray : running_ s = true -> stray s = false;
  ok_live : finished s = false;
}.

(** After it. *)
Definition ended_ok (s : Loop) : Prop :=
  rtc epoll_step (mkServer ∅ ∅) (server s) /\ open_fds s = ∅ /\ socks s = ∅ /\ server_fd_ s = -1.

Definition loop_ok (s : Loop) : Prop := if finished s then ended_ok s else live_ok s.

Lemma loop_start_ok : live_ok (loop_start listen_fd epfd).
Proof using All.
  constructor; simpl; rewrite ?dom_empty_L; try done; try constructor; set_solver.
Qed.

(** A socket and its connection. *)
Lemma sock_conn s fd k :
  live_ok s -> socks s !! fd = Some k -> exists c p, conns (server s) !! fd = Some c /\
    peers (server s) !! fd = Some p /\ tracks p k /\ interest k = dir_of c /\ (noticed k \/ fd ∈ map fst (batch s)).
Proof using All.
  intros Hs Hk. assert (Hd : fd ∈ dom (conns (server s))) by (rewrite <-(ok_socks s Hs); by apply elem_of_dom_2 in Hk).
  apply elem_of_dom in Hd as [c Hc]. destruct (ok_conns s Hs fd c Hc) as (p & k' & Hp & Hk' & Hrest).
  exists c, p. by replace k with k' by congruence.
Qed.

(** Replacing a socket. *)
Lemma set_sock_ok s fd c p k b :
  live_ok s -> conns (server s) !! fd = Some c -> peers (server s) !! fd = Some p ->
  tracks p k -> interest k = dir_of c -> (noticed k \/ fd ∈ map fst b) ->
  NoDup (map fst b) -> (forall x, x ∈ map fst (batch s) -> x ∈ map fst b) ->
  (forall x evt, (x, evt) ∈ b -> (x, evt) ∈ batch s \/ (x = fd /\ (ev_err evt = true \/ wanted c evt = true))) ->
  live_ok (s <| socks := <[fd := k]> (socks s) |> <| batch := b |>).
Proof using All.
  intros Hs Hc Hp Ht Hi Hn Hnd Hsub Hev. pose proof Hs as [A B C D E F G I J K]. constructor; simpl; try done.
  - intros fd' c' Hc'. destruct (decide (fd = fd')) as [<-|Hd].
    + exists p, k. rewrite lookup_insert_eq. assert (c' = c) as -> by congruence. by split_and!.
    + destruct (B fd' c' Hc') as (p' & k' & H1 & H2 & H3 & H4 & H5). exists p', k'.
      rewrite lookup_insert_ne by done. split_and!; try done. destruct H5; [by left|right; by apply Hsub].
  - rewrite dom_insert_L, C. apply elem_of_dom_2 in Hc. set_solver.
  - intros x evt Hx. destruct (Hev x evt Hx) as [Hin|[-> Hw]]; [by apply E|]. right. by exists c.
Qed.

(** Steps from outside. *)
Lemma edge_noticed d k k' :
  interest k' = interest k -> armed k' = armed k -> noticed k ->
  (interest k <> d -> ready k' = true -> ready k = true) -> noticed (edge d k').
Proof using All.
  unfold noticed. intros Hi Ha Hn Hr. change (ready (edge d k')) with (ready k'). simpl. intros H1.
  destruct (decide (interest k = d)) as [E|E].
  - rewrite Hi, bool_decide_true by done. apply orb_true_r.
  - rewrite Ha, Hn; [done|by apply Hr].
Qed.

Lemma sock_step_ok k k' p :
  sock_step k k' -> tracks p k -> tracks p k' /\ interest k' = interest k /\ (noticed k -> noticed k').
Proof using All.
  unfold tracks. intros Hk Ht. destruct Hk as [d Hf Hb| | |n]; simpl; rewrite ?app_assoc, ?Ht; (split; [done|]); (split; [done|]); intros Hn.
  - eapply edge_noticed; [..|exact Hn|]; [done..|]. unfold ready. simpl. by destruct (interest k).
  - eapply edge_noticed; [..|exact Hn|]; [done..|]. unfold ready. simpl. by destruct (interest k).
  - by intros _.
  - eapply edge_noticed; [..|exact Hn|]; [done..|]. unfold ready. simpl. by destruct (interest k).
Qed.

Lemma loop_stop_ok s : live_ok s -> live_ok (stop s).
Proof using All.
  intros Hs. unfold stop. destruct (running_ s) eqn:Hr; [|done]. pose proof Hs as [A B C D E F G I J K].
  rewrite Hr in *. simpl. rewrite G, (proj2 (Z.leb_le _ _) Hlisten).
  assert (Hnl : listen_fd ∉ dom (conns (server s))) by (intros Hin; by apply I in Hin as (_ & ? & _)).
  constructor; simpl; rewrite ?F; try done.
  - intros fd c Hc. destruct (B fd c Hc) as (p & k & H1 & H2 & H3). exists p, k. split_and!; try done; try apply H3.
    rewrite lookup_delete_ne; [done|]. intros ->. apply Hnl. by eapply elem_of_dom_2.
  - rewrite dom_delete_L, C. set_solver.
  - set_solver.
Qed.

Lemma env_step_ok s s' : loop_ok s -> env_step s s' -> loop_ok s'.
Proof using All.
  unfold loop_ok. intros Hs Hstep. destruct Hstep as [fd k k' s Hk Hkk|s].
  - assert (Hfin : finished (s <| socks := <[fd := k']> (socks s) |>) = finished s) by done.
    rewrite Hfin. destruct (finished s) eqn:Hf.
    { destruct Hs as (_ & _ & H1 & _). by rewrite H1, lookup_empty in Hk. }
    destruct (sock_conn s fd k Hs Hk) as (c & p & Hc & Hp & Ht & Hi & Hn).
    destruct (sock_step_ok k k' p Hkk Ht) as (Ht' & Hi' & Hn').
    replace (s <| socks := <[fd := k']> (socks s) |>) with (s <| socks := <[fd := k']> (socks s) |> <| batch := batch s |>) by by destruct s.
    apply (set_sock_ok s fd c p k'); try done.
    + congruence.
    + destruct Hn; [left; by apply Hn'|by right].
    + apply (ok_batch s Hs).
    + intros x evt Hx. by left.
  - assert (Hfin : finished (stop s) = finished s) by (unfold stop; repeat case_match; done).
    rewrite Hfin. destruct (finished s); [|by apply loop_stop_ok].
    destruct Hs as (H1 & H2 & H3 & H4). unfold stop. destruct (running_ s); [|done]. simpl. rewrite H4. done.
Qed.

(** ** The measure *)

Definition total (s : Loop) : nat :=
  (sum_list (map (fun x => weight (snd x)) (map_to_list (socks s))) + length (batch s))%nat.

Lemma weights_delete (m : gmap Z Sock) fd k :
  m !! fd = Some k ->
  sum_list (map (fun x => weight (snd x)) (map_to_list m)) =
    (weight k + sum_list (map (fun x => weight (snd x)) (map_to_list (delete fd m))))%nat.
Proof using. intros Hk. by rewrite <-(map_to_list_delete m fd k Hk). Qed.

Lemma weights_insert (m : gmap Z Sock) fd k k' :
  m !! fd = Some k ->
  (sum_list (map (fun x => weight (snd x)) (map_to_list (<[fd := k']> m))) + weight k =
   sum_list (map (fun x => weight (snd x)) (map_to_list m)) + weight k')%nat.
Proof using.
  intros Hk. rewrite (weights_delete m fd k Hk), (weights_delete (<[fd := k']> m) fd k') by apply lookup_insert_eq.
  rewrite delete_insert_eq. lia.
Qed.

(** ** Handling an event *)

(** The loop after the event of a connection that is closed, and of one that
    stays. *)
Definition after_close (fd : Z) (sv : Server) (b : list (Z * EpollFlags)) (s : Loop) : Loop :=
  mkLoop sv (delete fd (socks s)) b (running_ s) (server_fd_ s) (open_fds s ∖ {[fd]}) (stray s) (finished s).
Definition after_keep (fd : Z) (k : Sock) (sv : Server) (b : list (Z * EpollFlags)) (s : Loop) : Loop :=
  mkLoop sv (<[fd := k]> (socks s)) b (running_ s) (server_fd_ s) (open_fds s) (stray s) (finished s).

Lemma batch_tail s fd evt b :
  live_ok s -> batch s = (fd, evt) :: b ->
  NoDup (map fst b) /\ (fd ∉ map fst b) /\ (forall x, x ∈ b -> x ∈ batch s) /\
  (forall x, x <> fd -> x ∈ map fst (batch s) -> x ∈ map fst b).
Proof using.
  intros Hs Hb. pose proof (ok_batch s Hs) as Hnd. rewrite Hb in *. apply NoDup_cons in Hnd as [H1 H2].
  split_and!; [done|done|by right|]. intros x Hx [->|Hin]%elem_of_cons; done.
Qed.

Lemma after_close_ok s fd evt b c sv :
  live_ok s -> batch s = (fd, evt) :: b -> conns (server s) !! fd = Some c ->
  rtc epoll_step (server s) sv -> conns sv = delete fd (conns (server s)) ->
  (forall x, x <> fd -> peers sv !! x = peers (server s) !! x) ->
  live_ok (after_close fd sv b s) /\ (total (after_close fd sv b s) < total s)%nat.
Proof using All.
  intros Hs Hb Hc Hr Hcs Hps. destruct (batch_tail s fd evt b Hs Hb) as (Hnd & Hnin & Hsub & Hmap).
  pose proof Hs as [A B C D E F G I J K]. split.
  - constructor; simpl; rewrite ?Hcs; try done.
    + by etrans.
    + intros x c' [Hx Hc']%lookup_delete_Some. destruct (B x c' Hc') as (p & k & H1 & H2 & H3 & H4 & H5).
      exists p, k. rewrite Hps, lookup_delete_ne by done. split_and!; try done. destruct H5; [by left|right; by apply Hmap].
    + rewrite !dom_delete_L. by rewrite C.
    + intros x evt' Hx. destruct (E x evt' (Hsub _ Hx)) as [|(c' & H1 & H2)]; [by left|right]. exists c'.
      rewrite lookup_delete_ne; [done|]. intros ->. apply Hnin. by apply (list_elem_of_fmap_2 fst _ _ Hx).
    + rewrite dom_delete_L, F. apply elem_of_dom_2, I in Hc. destruct (running_ s); set_solver.
    + intros x. rewrite dom_delete_L. intros Hx. apply I. set_solver.
  - destruct (B fd c Hc) as (p & k & _ & Hk & _). unfold total. simpl. rewrite Hb, (weights_delete _ fd k Hk). simpl. lia.
Qed.

Lemma after_keep_ok s fd evt b c c' p k k' sv :
  live_ok s -> batch s = (fd, evt) :: b -> conns (server s) !! fd = Some c -> socks s !! fd = Some k ->
  rtc epoll_step (server s) sv -> conns sv = <[fd := c']> (conns (server s)) ->
  peers sv = <[fd := p]> (peers (server s)) ->
  tracks p k' -> interest k' = dir_of c' -> noticed k' -> (weight k' <= weight k)%nat ->
  live_ok (after_keep fd k' sv b s) /\ (total (after_keep fd k' sv b s) < total s)%nat.
Proof using All.
  intros Hs Hb Hc Hk Hr Hcs Hps Ht Hi Hn Hw. destruct (batch_tail s fd evt b Hs Hb) as (Hnd & Hnin & Hsub & Hmap).
  pose proof Hs as [A B C D E F G I J K]. assert (Hfd : fd ∈ dom (conns (server s))) by by eapply elem_of_dom_2. split.
  - constructor; simpl; rewrite ?Hcs, ?Hps; try done.
    + by etrans.
    + intros x c1. destruct (decide (fd = x)) as [<-|Hx].
      * rewrite !lookup_insert_eq. intros [= <-]. exists p, k'. split_and!; try done. by left.
      * rewrite !lookup_insert_ne by done. intros Hc1. destruct (B x c1 Hc1) as (p1 & k1 & H1 & H2 & H3 & H4 & H5).
        exists p1, k1. split_and!; try done. destruct H5; [by left|right; apply Hmap; congruence].
    + rewrite !dom_insert_L. by rewrite C.
    + intros x evt' Hx. destruct (E x evt' (Hsub _ Hx)) as [|(c1 & H1 & H2)]; [by left|right]. exists c1.
      rewrite lookup_insert_ne; [done|]. intros <-. apply Hnin. by apply (list_elem_of_fmap_2 fst _ _ Hx).
    + rewrite dom_insert_L, F. clear -Hfd. destruct (running_ s); set_solver.
    + intros x. rewrite dom_insert_L. intros Hx. apply I. clear -Hx Hfd. set_solver.
  - unfold total. simpl. rewrite Hb. pose proof (weights_insert _ fd k k' Hk). simpl. lia.
Qed.

(** Dropping an event that is not a connection's. *)
Lemma drop_event_ok s fd evt b :
  live_ok s -> batch s = (fd, evt) :: b -> conns (server s) !! fd = None ->
  live_ok (s <| batch := b |>).
Proof using.
  intros Hs Hb Hc. destruct (batch_tail s fd evt b Hs Hb) as (Hnd & Hnin & Hsub & Hmap).
  pose proof Hs as [A B C D E F G I J K]. constructor; simpl; try done.
  - intros x c Hx. destruct (B x c Hx) as (p & k & H1 & H2 & H3 & H4 & H5). exists p, k. split_and!; try done.
    destruct H5; [by left|right; apply Hmap; congruence].
  - intros x evt' Hx. by apply E, Hsub.
Qed.

(** [accept4] gives a new connection. *)
Lemma accept_one_ok s cfd k :
  live_ok s -> running_ s = true -> 0 <= cfd -> cfd ∉ open_fds s -> arrived k = unread k ->
  live_ok (accept_one s (cfd, k)).
Proof using All.
  intros Hs Hr H0 Hnew Hk. pose proof Hs as [A B C D E F G I J K]. rewrite F, Hr in Hnew.
  assert (Hn : conns (server s) !! cfd = None) by (apply not_elem_of_dom; set_solver).
  constructor; cbn -[epoll_ctl accept_conn]; try done.
  - eapply rtc_r; [exact A|]. apply (@step_accept _ 0 new_engine None [cfd]); [apply NoDup_singleton|by apply Forall_singleton].
  - intros x c. unfold accept_conn. rewrite Hn. simpl. destruct (decide (cfd = x)) as [<-|Hx].
    + rewrite !lookup_insert_eq. intros [= <-]. eexists _, _. split; [done|]. split; [done|]. split_and!; [by unfold tracks; simpl|done|].
      left. apply epoll_ctl_noticed.
    + rewrite !lookup_insert_ne by done. intros Hc. by apply B.
  - unfold accept_conn. simpl. rewrite !dom_insert_L. by rewrite C.
  - intros x evt Hx. unfold accept_conn. simpl. destruct (E x evt Hx) as [|(c & H1 & H2)]; [by left|right]. exists c.
    rewrite lookup_insert_ne by congruence. done.
  - unfold accept_conn. simpl. rewrite dom_insert_L, F. set_solver.
  - intros x. unfold accept_conn. simpl. rewrite dom_insert_L. intros [->%elem_of_singleton|Hx]%elem_of_union; [|by apply I].
    set_solver.
Qed.

Lemma accepts_all_ok accepted s :
  live_ok s -> running_ s = true -> acceptable s accepted ->
  live_ok (foldl accept_one s accepted) /\ running_ (foldl accept_one s accepted) = true.
Proof using All.
  revert s. induction accepted as [|[cfd k] l IH]; intros s Hs Hr [Hnd Hf]; [done|].
  apply NoDup_cons in Hnd as [Hni Hnd]. apply Forall_cons in Hf as [(H1 & H2 & H3) Hf]. cbn [foldl].
  apply IH; [by apply accept_one_ok|done|]. split; [done|]. rewrite Forall_forall in Hf |- *.
  intros [fd' k'] Hin. destruct (Hf _ Hin) as (G1 & G2 & G3). split_and!; try done. simpl.
  apply (list_elem_of_fmap_2 fst) in Hin. simpl in *. intros [->%elem_of_singleton|]%elem_of_union; done.
Qed.

(** The abstract step of a connection's event. *)
Lemma conn_step sv now e pl fd c p evt rs ss oc p' :
  conns sv !! fd = Some c -> peers sv !! fd = Some p ->
  epoll_event (epoll_handle_line now e pl) evt rs ss c p = (oc, p') ->
  rtc epoll_step sv
    (mkServer (match oc with Some c' => <[fd := c']> (conns sv) | None => delete fd (conns sv) end) (<[fd := p']> (peers sv))).
Proof using.
  intros Hc Hp He. apply rtc_once.
  pose proof (@step_conn _ now e pl fd evt rs ss sv) as Hs. change (@handle_line) with (@epoll_handle_line) in Hs. cbn [epoll_dispatch] in Hs. by rewrite Hc, Hp, He in Hs.
Qed.

(** Whatever the event, the turn is defined and keeps the invariant. *)
Lemma handle_event_ok now e pl accepted picks s fd evt b :
  live_ok s -> batch s = (fd, evt) :: b -> acceptable s accepted ->
  exists s', handle_event (epoll_handle_line now e pl) accepted picks fd evt (s <| batch := b |>) = Some s' /\ live_ok s' /\
    (accepted = [] -> total s' < total s)%nat.
Proof using All.
  intros Hs Hb Hacc. unfold handle_event.
  assert (Hev : (fd, evt) ∈ batch s) by (rewrite Hb; apply list_elem_of_here).
  destruct (ok_events s Hs fd evt Hev) as [[-> ->]|(c & Hc & Hwant)].
  - assert (Hn : conns (server s) !! listen_fd = None).
    { apply not_elem_of_dom. intros Hin. by destruct (ok_own s Hs listen_fd Hin) as (_ & ? & _). }
    pose proof (drop_event_ok s _ _ b Hs Hb Hn) as Hs1. change (server_fd_ (s <| batch := b |>)) with (server_fd_ s).
    change (server (s <| batch := b |>)) with (server s). rewrite (ok_server_fd s Hs). cbn [ev_err].
    destruct (running_ s) eqn:Hr.
    + rewrite Z.eqb_refl. eexists. split; [done|]. split; [by apply accepts_all_ok|].
      intros ->. unfold total. simpl. rewrite Hb. simpl. lia.
    + rewrite (proj2 (Z.eqb_neq _ _)) by lia. rewrite Hn. eexists. split; [done|].
      assert (Hk : socks s !! listen_fd = None).
      { apply not_elem_of_dom. rewrite (ok_socks s Hs). by apply not_elem_of_dom. }
      split; [|intros _; unfold total; simpl; rewrite delete_id by done; rewrite Hb; simpl; lia].
      pose proof Hs1 as [A B C D E F G I J K]. constructor; simpl; try done.
      * rewrite delete_id by done. apply B.
      * rewrite delete_id by done. apply C.
      * cbn in F. rewrite F, Hr. apply not_elem_of_dom in Hn. clear -Hn Hne. set_solver.
      * congruence.
  - destruct (ok_own s Hs fd) as (Hpos & Hnl & _); [by eapply elem_of_dom_2|].
    destruct (ok_conns s Hs fd c Hc) as (p & k & Hp & Hk & Ht & Hi & _).
    cbn -[close_conn close]. rewrite (proj2 (Z.eqb_neq _ _)).
    2: { rewrite (ok_server_fd s Hs). destruct (running_ s); lia. }
    assert (Hopen : fd ∈ open_fds s) by (rewrite (ok_open s Hs); apply elem_of_dom_2 in Hc; clear -Hc; set_solver).
    destruct (ev_err evt) eqn:Herr.
    + pose proof (conn_step (server s) 0 new_engine None fd c p evt [] [] None p Hc Hp) as Habs.
      rewrite insert_id in Habs by done. eexists. split; [done|].
      specialize (Habs ltac:(unfold epoll_event; by rewrite Herr)).
      destruct (after_close_ok s fd evt b c _ Hs Hb Hc Habs eq_refl) as [H1 H2]; [done|].
      unfold close_conn, close. simpl. rewrite bool_decide_true, orb_false_r by done. by split.
    + destruct Hwant as [|Hwant]; [done|]. rewrite Hc, Hp, Hk.
      destruct (conn_event_spec (epoll_handle_line now e pl) evt picks c p k Herr Hwant Hi Ht)
        as (oc & p' & k' & rs & ss & E1 & E2 & [Ha E3] & E4).
      rewrite E1. cbn [mbind option_bind]. eexists. split; [done|].
      pose proof (conn_step (server s) now e pl fd c p evt rs ss oc p' Hc Hp E2) as Habs.
      destruct oc as [c'|].
      * destruct E3 as (H1 & H2 & H3).
        destruct (after_keep_ok s fd evt b c c' p' k k' _ Hs Hb Hc Hk Habs eq_refl eq_refl H1 H2 ltac:(by apply E4) H3) as [G1 G2].
        by split.
      * destruct (after_close_ok s fd evt b c _ Hs Hb Hc Habs eq_refl) as [G1 G2].
        { intros x Hx. simpl. by rewrite lookup_insert_ne. }
        unfold close_conn, close. simpl. rewrite bool_decide_true, orb_false_r, delete_insert_eq by done. by split.
Qed.

(** ** Waiting *)

Lemma report_ok s fd :
  live_ok s -> fd ∉ map fst (batch s) -> live_ok (report s fd) /\
  (forall x, x ∈ map fst (batch (report s fd)) -> x = fd \/ x ∈ map fst (batch s)).
Proof using All.
  intros Hs Hni. unfold report. destruct (socks s !! fd) as [k|] eqn:Hk; [|by split; [|right]].
  destruct (sock_conn s fd k Hs Hk) as (c & p & Hc & Hp & Ht & Hi & _).
  assert (Hmap : forall x, x ∈ map fst (batch s ++ (if ready k then [(fd, flags k)] else [])) ->
    x = fd \/ x ∈ map fst (batch s)).
  { intros x. rewrite map_app, elem_of_app. intros [|Hx]; [by right|left].
    destruct (ready k); [by apply list_elem_of_singleton in Hx|by apply elem_of_nil in Hx]. }
  split; [|done]. apply (set_sock_ok s fd c p); try done.
  - destruct (ready k) eqn:Hr; [right|left].
    + rewrite map_app. apply elem_of_app. right. apply list_elem_of_here.
    + unfold noticed. change (ready (k <| armed := false |>)) with (ready k). congruence.
  - rewrite map_app. apply NoDup_app. split_and!; [by apply ok_batch| |].
    + intros x Hx Hx'. apply Hni. destruct (ready k); [|by apply elem_of_nil in Hx'].
      by apply list_elem_of_singleton in Hx' as ->.
    + destruct (ready k); [apply NoDup_singleton|apply NoDup_nil_2].
  - intros x Hx. rewrite map_app. apply elem_of_app. by left.
  - intros x evt [|Hx]%elem_of_app; [by left|right]. destruct (ready k) eqn:Hr; [|by apply elem_of_nil in Hx].
    apply list_elem_of_singleton in Hx. injection Hx as -> ->. split; [done|].
    unfold wanted, flags, ready, dir_of in *. simpl. destruct (broken k); [by left|right]. rewrite Hi in *.
    by destruct (writing c).
Qed.

Lemma report_total s fd :
  (armed <$> socks s !! fd) = Some true -> (total (report s fd) < total s)%nat.
Proof using.
  unfold report, total. destruct (socks s !! fd) as [k|] eqn:Hk; [|done]. intros [= Ha].
  assert (Hwk : (weight k = weight (k <| armed := false |>) + 2)%nat) by (unfold weight; simpl; rewrite Ha; simpl; lia).
  set (k1 := k <| armed := false |>) in *. pose proof (weights_insert (socks s) fd k k1 Hk) as Hw.
  cbn [socks batch set_field]. rewrite length_app. destruct (ready k); cbn [length]; lia.
Qed.

Lemma reports_ok fds s :
  live_ok s -> NoDup fds -> (forall x, x ∈ fds -> x ∉ map fst (batch s)) ->
  live_ok (foldl report s fds) /\ running_ (foldl report s fds) = running_ s /\
  (forall x, x ∈ map fst (batch (foldl report s fds)) -> x ∈ fds \/ x ∈ map fst (batch s)).
Proof using All.
  revert s. induction fds as [|fd fds IH]; intros s Hs Hnd Hni; [by split_and!; [..|by right]|].
  apply NoDup_cons in Hnd as [Hfd Hnd]. destruct (report_ok s fd Hs (Hni fd (list_elem_of_here _ _))) as [H1 H2]. cbn [foldl].
  destruct (IH (report s fd) H1 Hnd) as (G1 & G2 & G3).
  { intros x Hx Hin. destruct (H2 x Hin) as [->|Hb]; [done|]. apply (Hni x); [by right|done]. }
  split_and!; [done| |].
  - rewrite G2. unfold report. by case_match.
  - intros x Hx. destruct (G3 x Hx) as [|Hb]; [left; by right|]. destruct (H2 x Hb) as [->|]; [left; by left|by right].
Qed.

Lemma listen_event_ok s :
  live_ok s -> running_ s = true -> listen_fd ∉ map fst (batch s) ->
  live_ok (s <| batch := batch s ++ [(server_fd_ s, mkFlags true false false)] |>).
Proof using All.
  intros Hs Hr Hni. pose proof Hs as [A B C D E F G I J K]. rewrite G, Hr. constructor; simpl; try done.
  - intros fd c Hc. destruct (B fd c Hc) as (p & k & H1 & H2 & H3 & H4 & H5). exists p, k. split_and!; try done.
    destruct H5; [by left|right]. rewrite map_app. apply elem_of_app. by left.
  - rewrite map_app. apply NoDup_app. split_and!; [done| |apply NoDup_singleton].
    intros x Hx Hx'%list_elem_of_singleton. by subst.
  - intros fd evt [|Hx]%elem_of_app; [by apply E|]. left. apply list_elem_of_singleton in Hx. by injection Hx as -> ->.
Qed.

Lemma epoll_wait_ok (listening : bool) fds s :
  live_ok s -> running_ s = true -> batch s = [] -> NoDup fds -> (forall fd, fd ∈ fds -> is_Some (socks s !! fd)) ->
  live_ok (epoll_wait listening fds s).
Proof using All.
  intros Hs Hr Hb Hnd Hfds. destruct (reports_ok fds s Hs Hnd) as (H1 & H2 & H3).
  { intros x _. rewrite Hb. apply not_elem_of_nil. }
  unfold epoll_wait. destruct listening; [|done]. apply listen_event_ok; [done|congruence|].
  intros Hx. destruct (H3 _ Hx) as [Hin|Hin]; [|by rewrite Hb in Hin; apply elem_of_nil in Hin].
  destruct (Hfds _ Hin) as [k Hk]. destruct (sock_conn s _ k Hs Hk) as (c & _ & Hc & _).
  apply elem_of_dom_2, (ok_own s Hs) in Hc. by destruct Hc as (_ & ? & _).
Qed.

(** ** The end of the loop *)

Lemma close_all_fds fds s :
  let s' := foldl (fun s fd => close fd s) s fds in
  open_fds s' = open_fds s ∖ list_to_set fds /\ dom (socks s') = dom (socks s) ∖ list_to_set fds /\
  server s' = server s /\ server_fd_ s' = server_fd_ s.
Proof using All.
  revert s. induction fds as [|fd fds IH]; intros s; simpl; [split_and!; try done; set_solver|].
  destruct (IH (close fd s)) as (-> & -> & -> & ->). simpl. rewrite dom_delete_L. split_and!; try done; set_solver.
Qed.

Lemma cleanup_ok s : live_ok s -> ended_ok (cleanup epfd s).
Proof using All.
  intros Hs. pose proof Hs as [A B C D E F G I J K]. unfold cleanup.
  destruct (close_all_fds (elements (dom (conns (server s)))) s) as (H1 & H2 & H3 & H4).
  set (s1 := foldl _ _ _) in *. rewrite list_to_set_elements_L in *. unfold ended_ok.
  rewrite C, difference_diag_L in H2. apply dom_empty_inv_L in H2. cbn [close server_fd_ set_field]. rewrite H4, G.
  destruct (running_ s).
  - rewrite (proj2 (Z.leb_le _ _) Hlisten). simpl. rewrite H1, H2, H3, F. split_and!; [done| |by rewrite !delete_empty|done]. set_solver.
  - simpl. rewrite H1, H2, H3, F, H4, G. split_and!; [done| |by rewrite delete_empty|done]. set_solver.
Qed.

(** ** Executions *)

Definition step (s s' : Loop) : Prop := env_step s s' \/ own_step epfd s s'.

Lemma own_step_ok s s' : loop_ok s -> own_step epfd s s' -> loop_ok s'.
Proof using All.
  unfold loop_ok. intros Hs Hstep. destruct Hstep as [listening fds s Hf Hr Hb Hnd Hfds _|now e pl accepted picks fd evt b s s' Hf Hb Hacc Hh|s Hf Hb];
    rewrite Hf in Hs.
  - assert (H1 : live_ok (epoll_wait listening fds s)).
    { apply epoll_wait_ok; try done. intros fd Hin. rewrite Forall_forall in Hfds. specialize (Hfds fd Hin).
      destruct (socks s !! fd); [by eexists|done]. }
    by rewrite (ok_live _ H1).
  - destruct (handle_event_ok now e pl accepted picks s fd evt b Hs Hb Hacc) as (s1 & E & H1 & _).
    rewrite Hh in E. injection E as <-. by rewrite (ok_live _ H1).
  - assert (Hfin : finished (cleanup epfd s) = true) by (unfold cleanup; by repeat case_match).
    rewrite Hfin. by apply cleanup_ok.
Qed.

Lemma loop_reachable_ok s : rtc step (loop_start listen_fd epfd) s -> loop_ok s.
Proof using All.
  intros Hr. eapply (rtc_invariant step loop_ok); [|exact Hr|].
  - intros x y Hx [Hxy|Hxy]; [by eapply env_step_ok|by eapply own_step_ok].
  - unfold loop_ok. simpl. apply loop_start_ok.
Qed.

(** The loop working off what has happened, without new connections. *)
Inductive settling : Loop -> Loop -> Prop :=
  | settle_wait fds s :
      finished s = false -> running_ s = true -> batch s = [] -> fds <> [] -> NoDup fds -> (length fds <= MAX_EVENTS)%nat ->
      Forall (fun fd => (armed <$> socks s !! fd) = Some true) fds -> settling s (epoll_wait false fds s)
  | settle_event now e pl picks fd evt b s s' :
      finished s = false -> batch s = (fd, evt) :: b ->
      handle_event (epoll_handle_line now e pl) [] picks fd evt (s <| batch := b |>) = Some s' -> settling s s'.

Lemma no_connection s : acceptable s [].
Proof using. split; constructor. Qed.

Lemma settling_own s s' : settling s s' -> own_step epfd s s'.
Proof using All.
  intros [fds s0 Hf Hr Hb _ Hnd Hlen Hfds|now e pl picks fd evt b s0 s1 Hf Hb Hh].
  - apply (@own_wait _ epfd false); try done. lia.
  - apply (@own_event _ epfd now e pl [] picks fd evt b); try done. apply no_connection.
Qed.

Lemma reports_total fds s :
  NoDup fds -> Forall (fun fd => (armed <$> socks s !! fd) = Some true) fds ->
  (total (foldl report s fds) + length fds <= total s)%nat.
Proof using All.
  revert s. induction fds as [|fd fds IH]; intros s Hnd Hf; simpl; [lia|].
  apply NoDup_cons in Hnd as [Hni Hnd]. apply Forall_cons in Hf as [Hfd Hf].
  pose proof (report_total s fd Hfd) as Ht. enough (total (foldl report (report s fd) fds) + length fds <= total (report s fd))%nat by lia.
  apply IH; [done|]. rewrite Forall_forall in Hf |- *. intros x Hx. rewrite <-(Hf x Hx).
  unfold report. destruct (socks s !! fd) eqn:Hk; [|done]. simpl. rewrite lookup_insert_ne; [done|]. by intros ->.
Qed.

Lemma settling_total s s' : live_ok s -> settling s s' -> (total s' < total s)%nat.
Proof using All.
  intros Hs Hstep. destruct Hstep as [fds s0 Hf Hr Hb Hne' Hnd Hlen Hfds|now e pl picks fd evt b s0 s1 Hf Hb Hh].
  - pose proof (reports_total fds s0 Hnd Hfds). unfold epoll_wait. destruct fds; [done|]. simpl in *. lia.
  - destruct (handle_event_ok now e pl [] picks s0 fd evt b Hs Hb (no_connection s0)) as (s2 & E & _ & H2).
    rewrite Hh in E. injection E as <-. by apply H2.
Qed.

Lemma settling_ok s s' : live_ok s -> settling s s' -> live_ok s'.
Proof using All.
  intros Hs Hstep. pose proof (own_step_ok s s') as Ho. unfold loop_ok in Ho. rewrite (ok_live s Hs) in Ho.
  specialize (Ho Hs (settling_own _ _ Hstep)).
  assert (Hf : finished s' = false); [|by rewrite Hf in Ho].
  destruct Hstep as [fds s0 Hf Hr Hb Hne' Hnd Hlen Hfds|now e pl picks fd evt b s0 s1 Hf Hb Hh].
  - unfold epoll_wait. by rewrite <-Hf; clear; revert s0; induction fds as [|fd fds IH]; intros s0; simpl; [|rewrite IH; unfold report; case_match].
  - destruct (handle_event_ok now e pl [] picks s0 fd evt b Hs Hb (no_connection s0)) as (s2 & E & H2 & _).
    rewrite Hh in E. injection E as <-. apply (ok_live _ H2).
Qed.

Lemma settling_sn s : live_ok s -> sn settling s.
Proof using All.
  revert s. induction s as [s IH] using (induction_ltof1 _ total). intros Hs. constructor. intros s' Hstep.
  apply IH; [by apply settling_total|by eapply settling_ok].
Qed.

(** A connection with nothing left to do but wait for its peer: reading, it has
    received all that arrived; writing, the peer does not take more. *)
Definition quiet (c : Conn) (p : Peer) (k : Sock) : Prop :=
  if writing c then window k = 0%nat /\ broken k = false
  else rx p = arrived k /\ fin k = false /\ broken k = false.

Lemma not_ready_quiet c p k : tracks p k -> interest k = dir_of c -> ready k = false -> quiet c p k.
Proof using All.
  unfold tracks, ready, quiet, dir_of, readable, writable. intros Ht -> Hr. destruct (writing c); bool_to_prop.
  - split; [|done]. by apply Nat.eqb_eq.
  - match goal with H : bool_decide _ = true |- _ => apply bool_decide_eq_true_1 in H as Hu end.
    rewrite Hu, app_nil_r in Ht. done.
Qed.

Lemma settled_quiet s :
  live_ok s -> running_ s = true -> nf settling s ->
  batch s = [] /\ forall fd c, conns (server s) !! fd = Some c ->
    exists p k, peers (server s) !! fd = Some p /\ socks s !! fd = Some k /\ quiet c p k.
Proof using All.
  intros Hs Hr Hnf. pose proof (ok_live s Hs) as Hf.
  assert (Hb : batch s = []).
  { destruct (batch s) as [|[fd evt] b] eqn:Hb; [done|]. exfalso. apply Hnf.
    destruct (handle_event_ok 0 new_engine None [] [] s fd evt b Hs Hb (no_connection s)) as (s' & E & _).
    exists s'. by eapply settle_event. }
  split; [done|]. intros fd c Hc. destruct (ok_conns s Hs fd c Hc) as (p & k & Hp & Hk & Ht & Hi & Hn).
  exists p, k. split_and!; [done..|]. apply not_ready_quiet; [done..|].
  destruct Hn as [Hn|Hn]; [|by rewrite Hb in Hn; apply elem_of_nil in Hn].
  destruct (ready k) eqn:Hrd; [|done]. exfalso. apply Hnf. exists (epoll_wait false [fd] s).
  apply settle_wait; try done; [by apply NoDup_singleton|unfold MAX_EVENTS; simpl; lia|].
  apply Forall_singleton. rewrite Hk. simpl. f_equal. by apply Hn.
Qed.
End loop.

(** ** Properties *)

(** C10: The epoll server serves every connection, whatever its peers do, in
    whatever pieces the kernel moves bytes, whichever ready sockets
    [epoll_wait] reports, and whenever the owner calls [stop].  Every execution
    of the loop is one of the abstract server's, so each connection is a line
    server: received is the answered lines, in order, and the buffer; sent and
    about to be sent are the responses in that order.  Each reported event is
    about the listening socket or a connection that is still open and waits
    for it, so that no event reaches a connection that reuses the descriptor
    of a closed one, and its turn ends.  The open descriptors are those of the
    connections, the epoll instance and, until [stop], the listening socket;
    the code after the loop closes them all; and only after [stop] can a
    descriptor be closed that the server does not have. *)
Theorem epoll_loop_serves `{IterOrder} listen_fd epfd s :
  0 <= listen_fd -> 0 <= epfd -> listen_fd <> epfd -> rtc (step epfd) (loop_start listen_fd epfd) s ->
  rtc epoll_step (mkServer ∅ ∅) (server s) /\
  server_ok answers_line (server s) /\
  (finished s = false ->
     open_fds s = dom (conns (server s)) ∪ {[epfd]} ∪ (if running_ s then {[listen_fd]} else ∅) /\
     (running_ s = true -> stray s = false) /\
     forall fd evt b, batch s = (fd, evt) :: b ->
       (fd = listen_fd \/ exists c, conns (server s) !! fd = Some c /\ (ev_err evt = true \/ wanted c evt = true)) /\
       forall now e pl accepted picks, acceptable s accepted ->
         is_Some (handle_event (epoll_handle_line now e pl) accepted picks fd evt (s <| batch := b |>))) /\
  (finished s = true -> open_fds s = ∅).
Proof.
  intros H1 H2 H3 Hr. pose proof (loop_reachable_ok listen_fd epfd H1 H2 H3 s Hr) as Hs. unfold loop_ok in Hs.
  assert (Href : rtc epoll_step (mkServer ∅ ∅) (server s)).
  { destruct (finished s); [apply Hs|by eapply ok_refines]. }
  split; [done|]. split; [by apply epoll_line_server|].
  destruct (finished s) eqn:Hf; (split; intros Hfin; try done); [apply Hs|].
  split; [by apply ok_open|]. split; [by eapply ok_stray|]. intros fd evt b Hb. split.
  - destruct (ok_events _ _ s Hs fd evt) as [[-> _]|Hc]; [rewrite Hb; apply list_elem_of_here|by left|by right].
  - intros now e pl accepted picks Hacc.
    destruct (handle_event_ok listen_fd epfd H1 H2 H3 now e pl accepted picks s fd evt b Hs Hb Hacc) as (s' & -> & _).
    by eexists.
Qed.

(** C12: No readiness is lost, although each edge is reported once: from every
    reachable state the loop, left alone, comes to rest after finitely many
    waits and turns, and when it rests no event is pending and each connection
    waits for its peer.  One that reads has received everything that ever
    arrived for it, so all of it is answered lines and the buffer; one that
    writes has filled what the peer takes. *)
Theorem epoll_loop_settles `{IterOrder} listen_fd epfd s :
  0 <= listen_fd -> 0 <= epfd -> listen_fd <> epfd -> rtc (step epfd) (loop_start listen_fd epfd) s ->
  finished s = false -> running_ s = true ->
  sn settling s /\
  (forall s', rtc settling s s' -> nf settling s' -> running_ s' = true ->
     batch s' = [] /\
     forall fd c, conns (server s') !! fd = Some c -> exists p k,
       peers (server s') !! fd = Some p /\ socks s' !! fd = Some k /\ serves answers_line c p /\
       if writing c then window k = 0%nat else arrived k = concat (map line_of (answered p)) ++ inbuf c).
Proof.
  intros H1 H2 H3 Hr Hf Hrun. pose proof (loop_reachable_ok listen_fd epfd H1 H2 H3 s Hr) as Hs.
  unfold loop_ok in Hs. rewrite Hf in Hs. split; [by apply (settling_sn listen_fd epfd)|].
  intros s' Hset Hnf Hrun'.
  assert (Hs' : live_ok listen_fd epfd s').
  { apply (rtc_invariant settling (live_ok listen_fd epfd) s s'); [|done|done]. intros x y. by apply (settling_ok listen_fd epfd). }
  destruct (settled_quiet listen_fd epfd H1 H2 H3 s' Hs' Hrun' Hnf) as [Hb Hq]. split; [done|].
  intros fd c Hc. destruct (Hq fd c Hc) as (p & k & Hp & Hk & Hquiet). exists p, k. split; [done|]. split; [done|].
  destruct (epoll_line_server (server s') (ok_refines _ _ _ Hs')) as [_ Hok].
  destruct (Hok fd c Hc) as (p' & Hp' & Hserves). replace p' with p in Hserves by congruence. split; [done|].
  unfold quiet in Hquiet. destruct (writing c); [apply Hquiet|]. destruct Hquiet as [<- _]. apply Hserves.
Qed.

(** ** An execution: a client sends two requests at once *)

Definition fresh_sock : Sock := mkSock [] false false 1000 WantIn false [].
Definition two_requests : bytes := $"HEALTH" ++ NL :: $"HEALTH" ++ [NL].

Definition on_head (accepted : list (Z * Sock)) (s : Loop) : Loop :=
  match batch s with
  | [] => s
  | (fd, evt) :: b => default s (handle_event ex_handler accepted [] fd evt (s <| batch := b |>))
  end.

Definition ex_waiting : Loop := epoll_wait true [] (loop_start 3 4).
Definition ex_accepted : Loop := on_head [(7, fresh_sock)] ex_waiting.
Definition ex_arrived : Loop :=
  ex_accepted <| socks := <[7 := edge WantIn (fresh_sock <| unread := two_requests |> <| arrived := two_requests |>)]> (socks ex_accepted) |>.
Definition ex_reported : Loop := epoll_wait false [7] ex_arrived.
Definition ex_answering : Loop := on_head [] ex_reported.
Definition ex_writable : Loop := epoll_wait false [7] ex_answering.
Definition ex_rest : Loop := on_head [] ex_writable.

Lemma ex_head_step accepted s :
  finished s = false -> acceptable s accepted ->
  match batch s with
  | [] => false
  | (fd, evt) :: b => bool_decide (is_Some (handle_event ex_handler accepted [] fd evt (s <| batch := b |>)))
  end = true ->
  @step default_order 4 s (on_head accepted s).
Proof.
  intros Hf Hacc Hs. unfold on_head. destruct (batch s) as [|[fd evt] b] eqn:E; [done|].
  apply bool_decide_eq_true_1 in Hs as [s' Hs']. rewrite Hs'. right.
  by eapply (@own_event default_order 4 1300 ex_e2 None accepted []).
Qed.

Lemma ex_wait_step (listening : bool) fds s :
  finished s = false -> running_ s = true -> batch s = [] -> (length fds <= 1)%nat ->
  Forall (fun fd => (armed <$> socks s !! fd) = Some true) fds ->
  @step default_order 4 s (epoll_wait listening fds s).
Proof.
  intros Hf Hr Hb Hl Ha. right. apply own_wait; try done.
  - destruct fds as [|fd [|]]; [constructor|apply NoDup_singleton|simpl in Hl; lia].
  - destruct listening; unfold MAX_EVENTS; lia.
Qed.

Lemma ex_rest_reachable : rtc (@step default_order 4) (loop_start 3 4) ex_rest.
Proof.
  eapply rtc_l; [apply (ex_wait_step true []); [done|done|done|simpl; lia|constructor]|]. fold ex_waiting.
  eapply rtc_l; [apply (ex_head_step [(7, fresh_sock)]); [vm_compute; done| |vm_compute; done]|].
  { split; [apply NoDup_singleton|]. apply Forall_singleton. by apply (bool_decide_eq_true_1 _). }
  fold ex_accepted. apply (rtc_l _ _ ex_arrived).
  { left. apply (env_sock 7 fresh_sock); [vm_compute; done|]. by apply (sock_arrive fresh_sock two_requests). }
  eapply rtc_l; [apply (ex_wait_step false [7]); [vm_compute; done..|simpl; lia|apply Forall_singleton; vm_compute; done]|]. fold ex_reported.
  eapply rtc_l; [apply (ex_head_step []); [vm_compute; done|by split; constructor|vm_compute; done]|]. fold ex_answering.
  eapply rtc_l; [apply (ex_wait_step false [7]); [vm_compute; done..|simpl; lia|apply Forall_singleton; vm_compute; done]|]. fold ex_writable.
  eapply rtc_l; [apply (ex_head_step []); [vm_compute; done|by split; constructor|vm_compute; done]|]. fold ex_rest. done.
Qed.

Lemma epoll_loop_serves_witness :
  server_ok (@answers_line default_order) (server ex_rest) /\ open_fds ex_rest = {[3; 4; 7]}.
Proof.
  split; [|by vm_compute].
  apply (@epoll_loop_serves default_order 3 4 ex_rest ltac:(lia) ltac:(lia) ltac:(lia) ex_rest_reachable).
Defined.

(** The second request, complete, is in the buffer when the loop rests: the
    readiness of the socket is all the loop waits for. *)
Lemma ex_no_wait fds s0 :
  s0 = ex_rest -> fds <> [] -> ~ Forall (fun fd => (armed <$> socks s0 !! fd) = Some true) fds.
Proof.
  intros -> Hne Hf. destruct fds as [|fd fds]; [done|]. apply Forall_cons in Hf as [Hfd _].
  destruct (socks ex_rest !! fd) as [k|] eqn:Hk; [|done].
  assert (Hall : map_Forall (fun _ k => armed k = false) (socks ex_rest)) by by apply (bool_decide_eq_true_1 _).
  injection Hfd as Hfd. by rewrite (Hall fd k Hk) in Hfd.
Qed.

Lemma ex_rest_batch : batch ex_rest = [].
Proof. by vm_compute. Qed.

Example second_request_waits :
  nf (@settling default_order) ex_rest /\ conns (server ex_rest) !! 7 = Some (second_left $"HEALTH").
Proof.
  split; [|by vm_compute]. intros [s' Hs]. remember ex_rest as s0 eqn:E.
  destruct Hs as [fds s0 Hf Hr _ Hne Hnd Hlen Hfds|now e pl picks fd evt b s0 s1 Hf Hb _].
  - by apply (ex_no_wait fds s0).
  - pose proof ex_rest_batch as Hr. rewrite <-E, Hb in Hr. discriminate Hr.
Qed.

Lemma epoll_loop_settles_witness :
  exists p k, peers (server ex_rest) !! 7 = Some p /\ socks ex_rest !! 7 = Some k /\
    arrived k = concat (map line_of (answered p)) ++ $"HEALTH" ++ [NL].
Proof.
  destruct (@epoll_loop_settles default_order 3 4 ex_rest ltac:(lia) ltac:(lia) ltac:(lia) ex_rest_reachable) as [_ H];
    [by vm_compute|by vm_compute|].
  destruct (H ex_rest) as [_ Hq]; [done|apply second_request_waits|by vm_compute|].
  destruct (Hq 7 _ (proj2 second_request_waits)) as (p & k & Hp & Hk & _ & Ha).
  exists p, k. split; [exact Hp|]. split; [exact Hk|exact Ha].
Defined.

(** [stop] during a batch that holds an event of the listening socket: the
    turn no longer recognises it, and closes its descriptor a second time. *)
Example stop_closes_twice : stray (on_head [] (stop ex_waiting)) = true.
Proof. by vm_compute. Qed.
