(* ===== verification/ServerLifecycle.v ===== *)
(** * Starting and stopping the query servers (src/simple_query_server.cpp,
    src/query_server_epoll.cpp, src/query_server_uring.cpp)

    [start], [stop], the destructor and the server thread of the three query
    servers, from the creation of the listening socket to its end, as a step
    machine on the members they share: [running_], [server_fd_] and [thread_].
    The three differ in one call of the set-up and in how the wait for events
    ends.  Results of system calls are inputs of the steps.  [None] is
    undefined behaviour or a terminated process. *)

From S2P Require Import Prelude.

(** ** State *)

Inductive Kind := Simple | Epoll | Uring.

(** Where the server thread is. *)
Inductive ServePc := PSocket | PBind | PListen | PCreate | PTest | PWait | PEnd | PDone.

(** Where [stop] is: not called, at the test of [server_fd_], at [close], at
    the assignment after it, or in [join]. *)
Inductive StopPc := SIdle | SFd | SClose | SReset | SJoin.

#[export] Instance Kind_eq_dec : EqDecision Kind.
Proof. solve_decision. Defined.
#[export] Instance ServePc_eq_dec : EqDecision ServePc.
Proof. solve_decision. Defined.
#[export] Instance StopPc_eq_dec : EqDecision StopPc.
Proof. solve_decision. Defined.

(** [thread_] is joinable when it is [Some]; [opened] and [closed] list what
    [socket] gave and what [close] was called with. *)
Record ServerLife := mkServerLife {
  kind : Kind;
  running_ : bool;
  server_fd_ : Z;
  thread_ : option ServePc;
  stopper : StopPc;
  opened : list Z;
  closed : list Z;
}.
#[export] Instance ServerLife_settable : Settable ServerLife :=
  fun l => mkServerLife (kind l) (running_ l) (server_fd_ l) (thread_ l) (stopper l) (opened l) (closed l).

Definition new_life (k : Kind) : ServerLife := mkServerLife k false (-1) None SIdle [] [].

(** ** Operations *)

(** [::close(server_fd_)] *)
Definition close_fd (l : ServerLife) : ServerLife := l <| closed := closed l ++ [server_fd_ l] |>.

(** [if (running_.exchange(true)) return; thread_ = std::thread(...)]:
    assigning to a joinable thread terminates the process. *)
Definition start (l : ServerLife) : ub ServerLife :=
  if running_ l then Some l
  else match thread_ l with
    | Some _ => None
    | None => Some (l <| running_ := true |> <| thread_ := Some PSocket |>)
    end.

(** [if (!running_.exchange(false)) return;] *)
Definition stop (l : ServerLife) : ServerLife :=
  if running_ l then l <| running_ := false |> <| stopper := SFd |> else l.

(** The rest of [stop], one access at a time; [join] waits for the end of the
    thread ([None]: it cannot go on yet). *)
Definition stop_step (l : ServerLife) : option ServerLife :=
  match stopper l with
  | SIdle => None
  | SFd => Some (l <| stopper := if 0 <=? server_fd_ l then SClose else SJoin |>)
  | SClose => Some ((close_fd l) <| stopper := SReset |>)
  | SReset => Some (l <| server_fd_ := -1 |> <| stopper := SJoin |>)
  | SJoin =>
      match thread_ l with
      | None => Some (l <| stopper := SIdle |>)
      | Some PDone => Some (l <| thread_ := None |> <| stopper := SIdle |>)
      | Some _ => None
      end
  end.

(** The destructor, once [stop] has returned: a joinable [std::thread] that is
    destroyed terminates the process. *)
Definition destroy (l : ServerLife) : ub ServerLife :=
  match thread_ l with Some _ => None | None => Some l end.

Definition goto (pc : ServePc) (l : ServerLife) : ServerLife := l <| thread_ := Some pc |>.

(** [::close(server_fd_); server_fd_ = -1; running_ = false; return;] *)
Definition fail (l : ServerLife) : ServerLife :=
  goto PDone ((close_fd l) <| server_fd_ := -1 |> <| running_ := false |>).

(** One step of [serve_loop].  [r] is the result of the system call: [None] a
    failure, [Some fd] success (for [socket], the descriptor).  [PCreate] is
    [epoll_create1] or [io_uring_queue_init].  [PWait] is the wait and what
    it brings; [FD_SET] with a negative descriptor is undefined; an error of
    [epoll_wait] or of the ring leaves the loop. *)
Definition serve_step (r : option Z) (l : ServerLife) : ub ServerLife :=
  match thread_ l with
  | None => Some l
  | Some PSocket =>
      match r with
      | None => Some (goto PDone (l <| server_fd_ := -1 |> <| running_ := false |>))
      | Some fd => Some (goto PBind (l <| server_fd_ := fd |> <| opened := opened l ++ [fd] |>))
      end
  | Some PBind => Some (match r with None => fail l | Some _ => goto PListen l end)
  | Some PListen =>
      Some (match r with None => fail l | Some _ => goto (if bool_decide (kind l = Simple) then PTest else PCreate) l end)
  | Some PCreate => Some (match r with None => fail l | Some _ => goto PTest l end)
  | Some PTest => Some (goto (if running_ l then PWait else PEnd) l)
  | Some PWait =>
      if bool_decide (kind l = Simple) then if server_fd_ l <? 0 then None else Some (goto PTest l)
      else Some (goto (match r with None => PEnd | Some _ => PTest end) l)
  | Some PEnd =>
      Some (goto PDone (if 0 <=? server_fd_ l then (close_fd l) <| server_fd_ := -1 |> else l))
  | Some PDone => Some l
  end.

(** ** Executions *)

(** The owner starts and stops the server, one call after the other, while the
    server thread runs.  [socket] gives descriptors that are not negative. *)
Inductive life_step : ServerLife -> ServerLife -> Prop :=
  | step_start l l' : stopper l = SIdle -> start l = Some l' -> life_step l l'
  | step_stop l : stopper l = SIdle -> life_step l (stop l)
  | step_stopping l l' : stop_step l = Some l' -> life_step l l'
  | step_serve r l l' : (forall fd, r = Some fd -> 0 <= fd) -> serve_step r l = Some l' -> life_step l l'.

Definition reachable (l : ServerLife) : Prop := exists k, rtc life_step (new_life k) l.

(** The thread alone, on the results of its calls. *)
Fixpoint serve_run (rs : list (option Z)) (l : ServerLife) : ub ServerLife :=
  match rs with
  | [] => Some l
  | r :: rs' => l' ← serve_step r l; serve_run rs' l'
  end.

(** How far the thread is from its end when [running_] is false. *)
Definition distance (pc : ServePc) : nat :=
  match pc with
  | PSocket => 6 | PBind => 5 | PListen => 4 | PCreate => 3 | PWait => 3 | PTest => 2 | PEnd => 1 | PDone => 0
  end.

(** ** Invariant *)

Record life_ok (l : ServerLife) : Prop := {
  ok_started : thread_ l = None -> running_ l = false /\ server_fd_ l = -1 /\ stopper l = SIdle;
  ok_stopping : stopper l <> SIdle -> running_ l = false;
  ok_ended : thread_ l = Some PDone -> server_fd_ l = -1;
  ok_idle : stopper l = SIdle -> running_ l = false -> thread_ l = None \/ thread_ l = Some PDone;
  ok_fd : server_fd_ l = -1 \/ 0 <= server_fd_ l;
  ok_socket : thread_ l = Some PSocket -> server_fd_ l = -1 /\ stopper l <> SClose /\ stopper l <> SReset;
  ok_opened : Forall (fun fd => 0 <= fd) (opened l);
  ok_leak : forall fd, fd ∈ opened l -> fd ∈ closed l \/ fd = server_fd_ l;
  ok_reset : stopper l = SReset -> server_fd_ l = -1 \/ server_fd_ l ∈ closed l;
}.

Lemma new_life_ok k : life_ok (new_life k).
Proof. constructor; simpl; try done; try (by left); by constructor. Qed.

(** The calls of [close] keep track of every descriptor. *)
Lemma leak_close l fd :
  fd ∈ closed l \/ fd = server_fd_ l -> fd ∈ closed l ++ [server_fd_ l].
Proof. rewrite elem_of_app, list_elem_of_singleton. tauto. Qed.

Lemma leak_reset l fd :
  life_ok l -> server_fd_ l = -1 \/ server_fd_ l ∈ closed l -> fd ∈ opened l -> fd ∈ closed l.
Proof.
  intros H Hr Hfd. destruct (ok_leak l H fd Hfd) as [Hc| ->]; [done|].
  pose proof (proj1 (Forall_forall _ _) (ok_opened l H) _ Hfd) as Hp. simpl in Hp. destruct Hr as [Hr|Hr]; [lia|done].
Qed.

(** The fields of the invariant that follow from its hypotheses by cases. *)
Ltac life_field :=
  intros;
  repeat match goal with
    | H : ?P -> _, HP : ?P |- _ => specialize (H HP)
    | H : ?x = ?x -> _ |- _ => specialize (H eq_refl)
    | H : ?x <> ?y -> _ |- _ => specialize (H ltac:(congruence))
    end;
  destruct_and?; destruct_or?; try (split_and!; (congruence || lia));
  solve [congruence | lia | auto | left; congruence | right; congruence].
Ltac life := constructor; simpl; try assumption; try life_field.

Lemma stop_step_ok l l' : life_ok l -> stop_step l = Some l' -> life_ok l'.
Proof.
  intros H. pose proof H as [H1 H2 H3 H4 H5 H6 H7 H8 H9]. unfold stop_step. destruct (stopper l) eqn:Es.
  - done.
  - intros [= <-]. destruct (Z.leb_spec 0 (server_fd_ l)); life.
  - intros [= <-]. life.
    + intros fd Hfd. left. by apply leak_close, H8.
    + intros _. right. by apply leak_close; right.
  - intros [= <-]. life.
  - destruct (thread_ l) as [[]|] eqn:Et; try done; intros [= <-]; life.
Qed.

Lemma start_ok l l' : life_ok l -> stopper l = SIdle -> start l = Some l' -> life_ok l'.
Proof.
  intros H Hi. pose proof H as [H1 H2 H3 H4 H5 H6 H7 H8 H9]. unfold start.
  destruct (running_ l) eqn:Er; [by intros [= <-]|].
  destruct (thread_ l) eqn:Et; [done|]. intros [= <-]. destruct (H1 eq_refl) as (_ & Hfd & _). life.
Qed.

Lemma stop_ok l : life_ok l -> stopper l = SIdle -> life_ok (stop l).
Proof.
  intros H Hi. pose proof H as [H1 H2 H3 H4 H5 H6 H7 H8 H9]. unfold stop.
  destruct (running_ l) eqn:Er; [|done]. life.
Qed.

Lemma fail_ok l pc : life_ok l -> thread_ l = Some pc -> pc <> PSocket -> life_ok (fail l).
Proof.
  intros [H1 H2 H3 H4 H5 H6 H7 H8 H9] Ht Hpc. unfold fail, goto, close_fd. life.
  intros fd Hfd. left. by apply leak_close, H8.
Qed.

Lemma goto_ok l pc pc' :
  life_ok l -> thread_ l = Some pc -> pc <> PDone -> pc' <> PDone -> pc' <> PSocket -> life_ok (goto pc' l).
Proof. intros [H1 H2 H3 H4 H5 H6 H7 H8 H9] Ht Hd Hd' Hs'. unfold goto. life. Qed.

Lemma serve_step_ok r l l' :
  (forall fd, r = Some fd -> 0 <= fd) -> life_ok l -> serve_step r l = Some l' -> life_ok l'.
Proof.
  intros Hr H. pose proof H as [H1 H2 H3 H4 H5 H6 H7 H8 H9]. unfold serve_step.
  destruct (thread_ l) as [pc|] eqn:Et; [|by intros [= <-]].
  destruct pc; try (intros [= <-]; exact H).
  - destruct r as [fd|]; intros [= <-]; unfold goto.
    + specialize (Hr fd eq_refl). destruct (H6 eq_refl) as (Hfd & Hnc & Hnr). life.
      * apply Forall_app. by repeat constructor.
      * intros x [Hx|Hx%list_elem_of_singleton]%elem_of_app; [|by right].
        left. apply (leak_reset l); auto.
    + destruct (H6 eq_refl) as (Hfd & _). rewrite Hfd in *. life.
  - destruct r; intros [= <-]; [by apply (goto_ok l PBind)|by apply (fail_ok l PBind)].
  - destruct r; intros [= <-]; [|by apply (fail_ok l PListen)]. by case_bool_decide; apply (goto_ok l PListen).
  - destruct r; intros [= <-]; [by apply (goto_ok l PCreate)|by apply (fail_ok l PCreate)].
  - intros [= <-]. by destruct (running_ l); apply (goto_ok l PTest).
  - case_bool_decide; [destruct (server_fd_ l <? 0); [done|]|]; intros [= <-].
    + by apply (goto_ok l PWait).
    + by destruct r; apply (goto_ok l PWait).
  - intros [= <-]. destruct (Z.leb_spec 0 (server_fd_ l)); unfold goto.
    + life. intros fd Hfd. left. by apply leak_close, H8.
    + assert (Hfd : server_fd_ l = -1) by (destruct H5; [done|lia]). life.
Qed.

Lemma reachable_life_ok l : reachable l -> life_ok l.
Proof.
  intros [k Hr]. eapply (rtc_invariant life_step life_ok); [|exact Hr|apply new_life_ok].
  intros a b Ha Hab. destruct Hab as [a b Hi Hs|a Hi|a b Hs|r a b Hf Hs].
  - by eapply start_ok.
  - by apply stop_ok.
  - by eapply stop_step_ok.
  - by eapply serve_step_ok.
Qed.

(** ** Properties *)

Ltac nearer :=
  eexists _, _; split; [reflexivity|]; split; [reflexivity|]; simpl; split_and!; first [lia|done|congruence].

(** One step of the thread brings it nearer to its end once [running_] is
    false. *)
Lemma serve_step_nearer r l pc :
  thread_ l = Some pc -> pc <> PDone -> running_ l = false -> (kind l = Simple -> pc <> PWait) ->
  exists l' pc', serve_step r l = Some l' /\ thread_ l' = Some pc' /\ (distance pc' < distance pc)%nat /\
    running_ l' = false /\ kind l' = kind l /\ stopper l' = stopper l /\ (kind l = Simple -> pc' <> PWait).
Proof.
  intros Ht Hd Hr Hw. unfold serve_step. rewrite Ht.
  destruct pc; try done.
  - destruct r; nearer.
  - destruct r; nearer.
  - destruct r; [case_bool_decide|]; nearer.
  - destruct r; nearer.
  - rewrite Hr. nearer.
  - case_bool_decide as E; [by destruct (Hw E)|]. destruct r; nearer.
  - destruct (0 <=? server_fd_ l); nearer.
Qed.

Lemma serve_run_ends rs l pc :
  thread_ l = Some pc -> running_ l = false -> (kind l = Simple -> pc <> PWait) -> (distance pc <= length rs)%nat ->
  exists l', serve_run rs l = Some l' /\ thread_ l' = Some PDone /\ stopper l' = stopper l /\ running_ l' = false.
Proof.
  revert l pc. induction rs as [|r rs IH]; intros l pc Ht Hr Hw Hlen; simpl in *.
  - exists l. destruct pc; simpl in Hlen; try lia. done.
  - destruct (decide (pc = PDone)) as [->|Hd].
    + unfold serve_step. rewrite Ht. simpl. apply (IH l PDone); simpl; done || lia.
    + destruct (serve_step_nearer r l pc Ht Hd Hr Hw) as (l1 & pc1 & -> & Ht1 & Hlt & Hr1 & Hk & Hs & Hw1). simpl.
      rewrite <-Hs. apply (IH l1 pc1); [done..| |lia]. by rewrite Hk.
Qed.

Lemma serve_run_ok rs l l' :
  Forall (fun r => forall fd, r = Some fd -> 0 <= fd) rs -> life_ok l -> serve_run rs l = Some l' -> life_ok l'.
Proof.
  intros Hrs. revert l. induction Hrs as [|r rs Hr _ IH]; intros l Hl; simpl; [by intros [= <-]|].
  intros (l1 & H1 & H)%bind_Some. by apply (IH l1), H; eapply serve_step_ok.
Qed.

(** C39: [stop] ends, and leaves nothing behind.  Its accesses before [join]
    can always be taken; while it waits in [join], at most six steps of the
    server thread (none of which waits more than a time-out, since the flag is
    down) let it return, whatever the system calls answer.  Then there is no
    thread, the flag is down, every listening socket that was ever opened has
    been closed, and the server can be destroyed or started again.  The simple
    server has one window in which this fails: its thread has tested the flag
    but not yet called [FD_SET].  And where the set-up failed, the flag is down
    while the thread has not been joined: there [stop] does nothing and returns
    without joining it, which the theorem leaves out since such a [stop] never
    starts ([failed_start_terminates] says what comes of it). *)
Theorem server_stops l rs :
  reachable l -> stopper l <> SIdle -> (kind l = Simple -> thread_ l <> Some PWait) ->
  (6 <= length rs)%nat -> Forall (fun r => forall fd, r = Some fd -> 0 <= fd) rs ->
  (stopper l <> SJoin -> is_Some (stop_step l)) /\
  (stopper l = SJoin -> exists l1 l2, serve_run rs l = Some l1 /\ stop_step l1 = Some l2 /\
     thread_ l2 = None /\ stopper l2 = SIdle /\ running_ l2 = false /\ server_fd_ l2 = -1 /\
     (forall fd, fd ∈ opened l2 -> fd ∈ closed l2) /\ destroy l2 = Some l2 /\ is_Some (start l2)).
Proof.
  intros Hl%reachable_life_ok Hs Hw Hlen Hrs. split; [unfold stop_step; by destruct (stopper l)|]. intros Hj.
  destruct (thread_ l) as [pc|] eqn:Et; [|by destruct (ok_started l Hl Et) as (_ & _ & ?)].
  assert (Hd : (distance pc <= 6)%nat) by (destruct pc; simpl; lia).
  destruct (serve_run_ends rs l pc Et (ok_stopping l Hl Hs)) as (l1 & H1 & Ht1 & Hs1 & Hr1); [|lia|].
  { intros Hk ->. by apply (Hw Hk). }
  pose proof (serve_run_ok rs l l1 Hrs Hl H1) as Hl1. rewrite Hj in Hs1.
  assert (Hstop : stop_step l1 = Some (l1 <| thread_ := None |> <| stopper := SIdle |>)).
  { unfold stop_step. by rewrite Hs1, Ht1. }
  pose proof (stop_step_ok _ _ Hl1 Hstop) as Hl2. exists l1. eexists. split; [done|]. split; [exact Hstop|].
  pose proof (ok_ended l1 Hl1 Ht1) as Hfd. split_and!; try done.
  - intros fd Hin. apply (leak_reset _ fd Hl2); [by left|done].
  - unfold start. simpl. by rewrite Hr1.
Qed.

(** A server whose set-up failed (its port in use, say) cannot be disposed of:
    [stop] does nothing, and both destroying it and starting it again terminate
    the process. *)
Theorem failed_start_terminates l :
  reachable l -> stopper l = SIdle -> running_ l = false -> thread_ l <> None ->
  stop l = l /\ destroy l = None /\ start l = None.
Proof.
  intros Hl%reachable_life_ok Hi Hr Ht. unfold stop, destroy, start. rewrite Hr.
  destruct (ok_idle l Hl Hi Hr) as [?|E]; [done|]. by rewrite E.
Qed.

(** ** Executions *)

Lemma run_reachable rs l l' :
  Forall (fun r => forall fd, r = Some fd -> 0 <= fd) rs -> reachable l -> serve_run rs l = Some l' -> reachable l'.
Proof.
  intros Hrs. revert l. induction Hrs as [|r rs Hr _ IH]; intros l Hl; simpl; [by intros [= <-]|].
  intros (l1 & H1 & H)%bind_Some. apply (IH l1), H. destruct Hl as [k Hk]. exists k.
  eapply rtc_r; [exact Hk|]. by eapply step_serve.
Qed.

Lemma started_reachable k l : start (new_life k) = Some l -> reachable l.
Proof. intros H. exists k. apply rtc_once. by apply step_start. Qed.

Ltac results := repeat constructor; by intros ? [= <-].

(** [bind] fails. *)
Example bind_fails :
  exists l, (start (new_life Epoll) ≫= serve_run [Some 5; None]) = Some l /\ reachable l /\
    closed l = [5] /\ destroy (stop l) = None.
Proof.
  eexists. split; [reflexivity|]. split; [|done].
  eapply (run_reachable [Some 5; None] (mkServerLife Epoll true (-1) (Some PSocket) SIdle [] []));
    [results|by apply (started_reachable Epoll)|reflexivity].
Qed.

(** The server waits for events when [stop] is called and closes the socket. *)
Definition ex_joining : ServerLife :=
  mkServerLife Uring false (-1) (Some PWait) SJoin [5] [5].

Lemma ex_joining_reachable : reachable ex_joining.
Proof.
  destruct (run_reachable [Some 5; Some 0; Some 0; Some 0; Some 0]
    (mkServerLife Uring true (-1) (Some PSocket) SIdle [] []) (mkServerLife Uring true 5 (Some PWait) SIdle [5] [])
    ltac:(results) (started_reachable Uring _ eq_refl) eq_refl) as [k Hk].
  exists k. etrans; [exact Hk|].
  eapply rtc_l; [by apply step_stop|]. eapply rtc_l; [by apply step_stopping|].
  eapply rtc_l; [by apply step_stopping|]. apply rtc_once. by apply step_stopping.
Qed.

Lemma server_stops_witness :
  exists l1 l2, serve_run (replicate 6 (Some 0)) ex_joining = Some l1 /\ stop_step l1 = Some l2 /\
    thread_ l2 = None /\ is_Some (start l2).
Proof.
  destruct (server_stops ex_joining (replicate 6 (Some 0)) ex_joining_reachable ltac:(done) ltac:(done)
    ltac:(simpl; lia) ltac:(results)) as [_ H].
  destruct (H eq_refl) as (l1 & l2 & H1 & H2 & H3 & _ & _ & _ & _ & _ & H4). by exists l1, l2.
Defined.

(** Both threads close the socket: the server thread tests [server_fd_] after
    [stop] has closed it and before it has reset it.  Another thread may have
    been given that descriptor in between. *)
Example closed_twice :
  let l := mkServerLife Uring true 5 (Some PTest) SIdle [5] [] in
  exists l', (a ← stop_step (stop l); b ← stop_step a; serve_run [None; None] b) = Some l' /\ closed l' = [5; 5].
Proof. eexists. split; reflexivity. Qed.

(** [FD_SET] with the descriptor [stop] has reset. *)
Example fd_set_race :
  let l := mkServerLife Simple true 5 (Some PTest) SIdle [5] [] in
  (a ← serve_run [None] l; b ← stop_step (stop a); c ← stop_step b; d ← stop_step c; serve_step None d) = None.
Proof. reflexivity. Qed.
