(* ===== verification/ServerSetup.v ===== *)
(** * Opening the query servers' sockets (src/simple_query_server.cpp,
    src/query_server_epoll.cpp, src/query_server_uring.cpp)

    The part of [serve_loop] before the loop, for each of the three servers:
    the system calls with their arguments, the lines written, and the state
    left behind.  The results of the calls are inputs, [None] a failure.
    [ServerLifecycle] has the flags and descriptors only, and the theorem
    relates the two. *)

From S2P Require Import Prelude Str ServerLifecycle.

Inductive SockOpt := SO_REUSEADDR | SO_REUSEPORT | TCP_NODELAY.

Inductive Sys :=
  | SysSocket (nonblock cloexec : bool)
  | SysSetSockOpt (fd : Z) (opt : SockOpt)
  | SysBind (fd port : Z)               (* INADDR_ANY *)
  | SysListen (fd : Z)
  | SysEpollCreate
  | SysEpollAdd (epfd fd : Z)           (* EPOLLIN, level-triggered *)
  | SysRingInit (depth : Z)
  | SysClose (fd : Z).

(** The results of the four calls that are tested, and the text of [errno]. *)
Record Answers := mkAnswers {
  r_socket : option Z;
  r_bind : option Z;
  r_listen : option Z;
  r_create : option Z;
  strerror : bytes;
}.

Record Setup := mkSetup {
  server_fd_ : Z;
  running_ : bool;
  calls : list Sys;
  out : bytes;
  err : bytes;
}.
#[export] Instance Setup_settable : Settable Setup :=
  fun s => mkSetup (server_fd_ s) (running_ s) (calls s) (out s) (err s).

(** [start] has set [running_]. *)
Definition before : Setup := mkSetup (-1) true [] [] [].

Definition call (c : Sys) (s : Setup) : Setup := s <| calls := calls s ++ [c] |>.
Definition cerr (text : bytes) (s : Setup) : Setup := s <| err := err s ++ text |>.
Definition cout (text : bytes) (s : Setup) : Setup := s <| out := out s ++ text |>.

(** [::close(server_fd_); server_fd_ = -1; running_ = false; return;] *)
Definition give_up_socket (s : Setup) : Setup :=
  (call (SysClose (server_fd_ s)) s) <| server_fd_ := -1 |> <| running_ := false |>.

Definition simple_setup (r : Answers) (port : Z) : Setup * bool :=
  let s := call (SysSocket false false) before in
  match r_socket r with
  | None => ((cerr ($"[simple] socket() failed: " ++ strerror r ++ [NL]) s) <| running_ := false |>, false)
  | Some fd =>
      let s := s <| server_fd_ := fd |> in
      let s := call (SysSetSockOpt fd TCP_NODELAY) (call (SysSetSockOpt fd SO_REUSEADDR) s) in
      let s := call (SysBind fd port) s in
      match r_bind r with
      | None =>
          (give_up_socket
             (cerr ($"[simple] bind() failed on port " ++ to_string port ++ $": " ++ strerror r ++ [NL]) s), false)
      | Some _ =>
          let s := call (SysListen fd) s in
          match r_listen r with
          | None => (give_up_socket (cerr ($"[simple] listen() failed: " ++ strerror r ++ [NL]) s), false)
          | Some _ => (cout ($"[simple] FIX query server listening on :" ++ to_string port ++ [NL]) s, true)
          end
      end
  end.

Definition epoll_setup (r : Answers) (port : Z) : Setup * bool :=
  let s := call (SysSocket true true) before in
  match r_socket r with
  | None => ((cerr ($"[epoll] socket() failed: " ++ strerror r ++ [NL]) s) <| running_ := false |>, false)
  | Some fd =>
      let s := s <| server_fd_ := fd |> in
      let s := call (SysSetSockOpt fd SO_REUSEPORT) (call (SysSetSockOpt fd SO_REUSEADDR) s) in
      let s := call (SysBind fd port) s in
      match r_bind r with
      | None =>
          (give_up_socket
             (cerr ($"[epoll] bind() failed on port " ++ to_string port ++ $": " ++ strerror r ++ [NL]) s), false)
      | Some _ =>
          let s := call (SysListen fd) s in
          match r_listen r with
          | None => (give_up_socket (cerr ($"[epoll] listen() failed: " ++ strerror r ++ [NL]) s), false)
          | Some _ =>
              let s := call SysEpollCreate s in
              match r_create r with
              | None => (give_up_socket (cerr ($"[epoll] epoll_create1() failed: " ++ strerror r ++ [NL]) s), false)
              | Some epfd =>
                  (cout ($"[epoll] query server listening on :" ++ to_string port ++ [NL]) (call (SysEpollAdd epfd fd) s),
                   true)
              end
          end
      end
  end.

Definition RING_DEPTH : Z := 256.

Definition uring_setup (r : Answers) (port : Z) : Setup * bool :=
  let s := call (SysSocket false true) before in
  match r_socket r with
  | None => ((cerr ($"[uring] socket() failed: " ++ strerror r ++ [NL]) s) <| running_ := false |>, false)
  | Some fd =>
      let s := s <| server_fd_ := fd |> in
      let s := call (SysSetSockOpt fd SO_REUSEPORT) (call (SysSetSockOpt fd SO_REUSEADDR) s) in
      let s := call (SysBind fd port) s in
      match r_bind r with
      | None => (give_up_socket (cerr ($"[uring] bind() failed: " ++ strerror r ++ [NL]) s), false)
      | Some _ =>
          let s := call (SysListen fd) s in
          match r_listen r with
          | None => (give_up_socket (cerr ($"[uring] listen() failed: " ++ strerror r ++ [NL]) s), false)
          | Some _ =>
              let s := call (SysRingInit RING_DEPTH) s in
              match r_create r with
              | None => (give_up_socket (cerr ($"[uring] io_uring_queue_init() failed: " ++ strerror r ++ [NL]) s), false)
              | Some _ => (cout ($"[uring] query server listening on :" ++ to_string port ++ [NL]) s, true)
              end
          end
      end
  end.

Definition setup (k : Kind) : Answers -> Z -> Setup * bool :=
  match k with Simple => simple_setup | Epoll => epoll_setup | Uring => uring_setup end.

(** ** The abstract server *)

Definition closed_fds (cs : list Sys) : list Z := omap (fun c => match c with SysClose fd => Some fd | _ => None end) cs.

(** A thread at the start of [serve_loop], and the results in the order of the
    steps. *)
Definition entered (k : Kind) : ServerLife := mkServerLife k true (-1) (Some PSocket) SIdle [] [].
Definition answers (k : Kind) (r : Answers) : list (option Z) :=
  [r_socket r; r_bind r; r_listen r] ++ (if bool_decide (k = Simple) then [] else [r_create r]).

(** C40: Opening a server does to its flags and descriptors what the steps of
    [ServerLifecycle] do, whatever the results of the system calls: after a
    failure the thread has ended, [running_] is false, the descriptor is reset
    and was closed exactly if [socket] had given one, and the error stream has
    a line and the output none; else the loop is entered with the socket
    listening and nothing was closed. *)
Theorem setup_refines_lifecycle k r port :
  let '(s, ok) := setup k r port in
  (exists l, serve_run (answers k r) (entered k) = Some l /\
    ServerLifecycle.server_fd_ l = server_fd_ s /\ ServerLifecycle.running_ l = running_ s /\
    closed l = closed_fds (calls s) /\ thread_ l = Some (if ok then PTest else PDone)) /\
  if ok then
    r_socket r = Some (server_fd_ s) /\ SysBind (server_fd_ s) port ∈ calls s /\ SysListen (server_fd_ s) ∈ calls s /\
    closed_fds (calls s) = [] /\ err s = [] /\ out s <> []
  else
    server_fd_ s = -1 /\ running_ s = false /\ closed_fds (calls s) = option_list (r_socket r) /\ out s = [] /\ err s <> [].
Proof.
  destruct r as [[fd|] b l c e]; [|destruct k; (split; [by eexists|by split_and!])].
  destruct b, l, c; destruct k; cbn -[app];
    (split; [eexists; split; [reflexivity|by split_and!]|]); split_and!; try done; set_solver.
Qed.

(** The port is taken. *)
Example port_taken :
  let '(s, ok) := setup Epoll (mkAnswers (Some 5) None None None $"Address already in use") 9092 in
  ok = false /\ err s = $"[epoll] bind() failed on port 9092: Address already in use" ++ [NL] /\
  calls s = [SysSocket true true; SysSetSockOpt 5 SO_REUSEADDR; SysSetSockOpt 5 SO_REUSEPORT; SysBind 5 9092; SysClose 5].
Proof. by vm_compute. Qed.
