(* ===== verification/Federation.v ===== *)
(** * One instance reading another

    A [RemoteDataSource] (src/remote_data_source.cpp) talks to the query server
    of another TickPlant (src/query_server.cpp).  This file gives the JSON
    syntax of the server's responses, shows that the hand-written text is JSON
    with the intended value, and composes the two ends: what the remote source
    sees is what the server's own exchange sources would see, up to the eight
    digits in which numbers are printed. *)

From S2P Require Import Prelude Float64 Str Fmt Stod Json JsonText Types OrderBook ArbEngine.
From S2P Require Import QueryProtocol Reports QueryServers RemoteSources.

(** ** The syntax of the responses *)

Definition level_text (l : PriceLevel) : jtext :=
  TArr [TNum (fmt_dbl (lv_price l)); TNum (fmt_dbl (lv_quantity l))].

Definition first_levels (n : Z) (ls : list PriceLevel) : list PriceLevel :=
  take (Z.to_nat (Z.min n (Z.of_nat (length ls)))) ls.

Definition book_text (n : Z) (b : OrderBookSnapshot) : jtext :=
  TObj [($"exchange", TStr (sn_exchange b)); ($"symbol", TStr (sn_symbol b));
        ($"bids", TArr (map level_text (first_levels n (sn_bids b))));
        ($"asks", TArr (map level_text (first_levels n (sn_asks b))));
        ($"timestamp_ms", TNum (to_string (sn_timestamp_ms b)))].

Definition error_text (message : bytes) : jtext :=
  TObj [($"status", TStr $"error"); ($"message", TStr (map escape_char message))].

Definition snapshot_text (sym : bytes) (books : list OrderBookSnapshot) (n : Z) : jtext :=
  match books with
  | [] => error_text ($"symbol not found: " ++ sym)
  | _ => TObj [($"status", TStr $"ok"); ($"symbol", TStr sym); ($"books", TArr (map (book_text n) books))]
  end.

Definition feed_text (threshold : Z) (x : bytes * Z) : jtext :=
  TObj [($"exchange", TStr (fst x));
        ($"staleness_ms", TNum (if snd x =? UINT64_MAX then $"-1" else to_string (snd x)));
        ($"live", TBool (feed_live threshold (snd x)))].

(** The feeds listed, in order. *)
Definition listed_feeds (staleness : gmap bytes Z) : list (bytes * Z) :=
  omap (fun ex => pair ex <$> staleness !! ex) feed_order.

Definition health_text (staleness : gmap bytes Z) (threshold : Z) : jtext :=
  TObj [($"status", TStr $"ok"); ($"feeds", TArr (map (feed_text threshold) (listed_feeds staleness)))].

(** ** Their values *)

Definition num_tree (t : bytes) : jtree := default JNull (number_value t).
Definition level_tree (l : PriceLevel) : jtree :=
  JArr [num_tree (fmt_dbl (lv_price l)); num_tree (fmt_dbl (lv_quantity l))].
Definition book_tree (n : Z) (b : OrderBookSnapshot) : jtree :=
  JObj [($"exchange", JStr (sn_exchange b)); ($"symbol", JStr (sn_symbol b));
        ($"bids", JArr (map level_tree (first_levels n (sn_bids b))));
        ($"asks", JArr (map level_tree (first_levels n (sn_asks b))));
        ($"timestamp_ms", JInt (sn_timestamp_ms b))].
Definition snapshot_tree (sym : bytes) (books : list OrderBookSnapshot) (n : Z) : jtree :=
  match books with
  | [] => JObj [($"status", JStr $"error"); ($"message", JStr (map escape_char ($"symbol not found: " ++ sym)))]
  | _ => JObj [($"status", JStr $"ok"); ($"symbol", JStr sym); ($"books", JArr (map (book_tree n) books))]
  end.
Definition feed_tree (threshold : Z) (x : bytes * Z) : jtree :=
  JObj [($"exchange", JStr (fst x)); ($"staleness_ms", JInt (if snd x =? UINT64_MAX then -1 else snd x));
        ($"live", JBool (feed_live threshold (snd x)))].
Definition health_tree (staleness : gmap bytes Z) (threshold : Z) : jtree :=
  JObj [($"status", JStr $"ok"); ($"feeds", JArr (map (feed_tree threshold) (listed_feeds staleness)))].

(** A level whose numbers have a JSON value: they are finite. *)
Definition printable (l : PriceLevel) : Prop :=
  is_Some (number_value (fmt_dbl (lv_price l))) /\ is_Some (number_value (fmt_dbl (lv_quantity l))).

Definition printable_book (b : OrderBookSnapshot) : Prop :=
  plain (sn_exchange b) /\ plain (sn_symbol b) /\ in_u64 (sn_timestamp_ms b) /\
  Forall printable (sn_bids b) /\ Forall printable (sn_asks b).

(** ** The text is JSON *)

Lemma commas_separated l : commas l = separated l.
Proof. induction l as [|x [|y l] IH]; [done..|]. cbn [commas separated] in *. by rewrite IH. Qed.

Lemma jstr_quoted s : jstr s = quoted s.
Proof. reflexivity. Qed.

Lemma level_pair_show l : level_pair l = show (level_text l).
Proof. unfold level_pair, level_text. cbn [show map separated]. by rewrite <-!app_assoc. Qed.

Lemma map_show {A} (f : A -> bytes) (g : A -> jtext) l :
  (forall x, f x = show (g x)) -> commas (map f l) = separated (map show (map g l)).
Proof. intros H. rewrite commas_separated, map_map. f_equal. by apply map_ext. Qed.

Lemma book_json_show n b : book_json n b = show (book_text n b).
Proof.
  unfold book_json, level_list. rewrite !(map_show level_pair level_text) by apply level_pair_show.
  fold (first_levels n (sn_bids b)) (first_levels n (sn_asks b)). rewrite !jstr_quoted.
  change (lit $"{`exchange`:") with ("{"%char :: quoted $"exchange" ++ $":").
  change (lit $",`symbol`:") with ($"," ++ quoted $"symbol" ++ $":").
  change (lit $",`bids`:[") with ($"," ++ quoted $"bids" ++ $":" ++ $"[").
  change (lit $"],`asks`:[") with ($"]" ++ $"," ++ quoted $"asks" ++ $":" ++ $"[").
  change (lit $"],`timestamp_ms`:") with ($"]" ++ $"," ++ quoted $"timestamp_ms" ++ $":").
  unfold book_text. cbn [show map separated fst snd]. by rewrite <-?app_assoc.
Qed.

(** Concatenations of literals and parts, compared character by character. *)
Ltac flat :=
  unfold quoted; cbn [app Stdlib.Strings.String.list_ascii_of_string];
  repeat (rewrite <-!app_assoc; cbn [app]); reflexivity.

Lemma error_response_show m : error_response m = show (error_text m) ++ [NL].
Proof.
  unfold error_response, error_text. change (lit $"{`status`:`error`,`message`:`") with
    ("{"%char :: (quoted $"status" ++ $":" ++ quoted $"error") ++ $"," ++ quoted $"message" ++ $":" ++ [DQUOTE]).
  change (lit $"`}") with ([DQUOTE] ++ $"}"). cbn [show map separated fst snd].
  flat.
Qed.

Lemma snapshot_response_show sym books n :
  snapshot_response sym books n = show (snapshot_text sym books n) ++ [NL].
Proof.
  destruct books as [|b bs]; [apply error_response_show|]. unfold snapshot_response, snapshot_text.
  rewrite (map_show (book_json n) (book_text n)) by apply book_json_show. rewrite jstr_quoted.
  change (lit $"{`status`:`ok`,`symbol`:") with
    ("{"%char :: (quoted $"status" ++ $":" ++ quoted $"ok") ++ $"," ++ quoted $"symbol" ++ $":").
  change (lit $",`books`:[") with ($"," ++ quoted $"books" ++ $":" ++ $"[").
  change ($"]}") with ($"]" ++ $"}").
  set (l := map (book_text n) (b :: bs)). clearbody l.
  cbn [show map separated fst snd]. flat.
Qed.

Lemma feed_json_show threshold ex ms : feed_json threshold ex ms = show (feed_text threshold (ex, ms)).
Proof.
  unfold feed_json, feed_text. rewrite jstr_quoted.
  change (lit $"{`exchange`:") with ("{"%char :: quoted $"exchange" ++ $":").
  change (lit $",`staleness_ms`:") with ($"," ++ quoted $"staleness_ms" ++ $":").
  change (lit $",`live`:") with ($"," ++ quoted $"live" ++ $":").
  cbn [show map separated fst snd]. destruct (ms =? UINT64_MAX), (feed_live threshold ms); by rewrite <-?app_assoc.
Qed.

Lemma health_response_show staleness threshold :
  health_response staleness threshold = show (health_text staleness threshold) ++ [NL].
Proof.
  unfold health_response, health_text.
  assert (E : omap (fun ex => feed_json threshold ex <$> staleness !! ex) feed_order =
              map (fun x => feed_json threshold (fst x) (snd x)) (listed_feeds staleness)).
  { unfold listed_feeds. induction feed_order as [|ex l IH]; [done|]. csimpl. rewrite IH.
    by destruct (staleness !! ex). }
  rewrite E, (map_show _ (feed_text threshold)) by (intros []; apply feed_json_show).
  change (lit $"{`status`:`ok`,`feeds`:[") with
    ("{"%char :: (quoted $"status" ++ $":" ++ quoted $"ok") ++ $"," ++ quoted $"feeds" ++ $":" ++ $"[").
  change ($"]}") with ($"]" ++ $"}").
  set (l := map (feed_text threshold) _). clearbody l.
  cbn [show map separated fst snd]. flat.
Qed.

(** ** Its value *)

Lemma value_arr_map {A} (f : A -> jtext) (g : A -> jtree) l :
  Forall (fun x => value (f x) = Some (g x)) l -> value (TArr (map f l)) = Some (JArr (map g l)).
Proof.
  intros H. assert (Hm : mapM id (map value (map f l)) = Some (map g l)).
  { induction H as [|x l Hx Hl IH]; [done|]. cbn [map mapM]. rewrite Hx. change (id (Some (g x))) with (Some (g x)).
    cbn [mbind option_bind]. by rewrite IH. } 
  exact (f_equal (fun o => JArr <$> o) Hm).
Qed.

Lemma num_tree_some t : is_Some (number_value t) -> value (TNum t) = Some (num_tree t).
Proof. intros [v Hv]. unfold num_tree. simpl. by rewrite Hv. Qed.

Lemma level_value l : printable l -> value (level_text l) = Some (level_tree l).
Proof.
  intros [H1%num_tree_some H2%num_tree_some]. unfold level_text, level_tree. simpl in *. by rewrite H1, H2.
Qed.

(** A decimal has no leading zero. *)
Lemma dec_of_head n : 0 < n -> head (dec_of n) <> Some "0"%char.
Proof.
  intros Hn. assert (H : 0 <= n) by lia. revert n H Hn.
  apply (dec_ind (fun n => 0 < n -> head (dec_of n) <> Some "0"%char)); intros n Hn.
  - intros Hp. rewrite dec_of_step, (proj2 (Z.ltb_lt _ _)) by lia. cbn [head]. intros [= E].
    apply (f_equal digit_val) in E. rewrite digit_val_digit in E by lia. change (digit_val "0"%char) with 0 in E. lia.
  - intros IH _. rewrite dec_of_step, (proj2 (Z.ltb_ge _ _)) by lia.
    assert (H1 : 0 < n / 10) by (apply Z.div_str_pos; lia). specialize (IH H1).
    pose proof (dec_of_nonempty (n / 10) ltac:(lia)). by destruct (dec_of (n / 10)).
Qed.

Lemma int_ok_dec n : 0 <= n -> int_ok (dec_of n) = true.
Proof.
  intros Hn. destruct (Z.eq_dec n 0) as [->|Hz]; [reflexivity|].
  pose proof (dec_of_head n ltac:(lia)) as Hh. pose proof (dec_of_nonempty n Hn).
  destruct (dec_of n) as [|c [|d l]]; [done..|]. unfold int_ok. rewrite bool_decide_false; [done|]. simpl in Hh. congruence.
Qed.

Lemma number_value_to_string n : in_u64 n -> number_value (to_string n) = Some (JInt n).
Proof.
  unfold in_u64. intros Hn. unfold to_string. rewrite (proj2 (Z.ltb_ge _ _)) by lia. unfold number_value.
  pose proof (dec_of_digits n ltac:(lia)) as Hd. pose proof (int_ok_dec n ltac:(lia)) as Hi.
  assert (Hx : expect "-"%char (dec_of n) = None).
  { destruct (dec_of n) as [|c l]; [done|]. apply Forall_cons in Hd as [Hc _]. apply expect_other. by apply digit_not. }
  rewrite Hx. pose proof (span_all is_digit (dec_of n) [] Hd I) as Hs. rewrite app_nil_r in Hs. rewrite Hs, Hi. cbn [frac_ok expect exp_ok andb negb].
  rewrite dec_of_value by lia. rewrite bool_decide_true by done.
  rewrite (proj2 (Z.leb_le _ _)), (proj2 (Z.ltb_lt _ _)) by lia. done.
Qed.

Lemma first_levels_forall (P : PriceLevel -> Prop) n ls : Forall P ls -> Forall P (first_levels n ls).
Proof. apply Forall_take. Qed.

Lemma book_value n b : printable_book b -> value (book_text n b) = Some (book_tree n b).
Proof.
  intros (_ & _ & Ht & Hb & Ha). unfold book_text, book_tree.
  assert (Hl : forall ls, Forall printable ls ->
    value (TArr (map level_text (first_levels n ls))) = Some (JArr (map level_tree (first_levels n ls)))).
  { intros ls H. apply value_arr_map. eapply Forall_impl; [by apply first_levels_forall, H|apply level_value]. }
  pose proof (Hl _ Hb) as Hvb. pose proof (Hl _ Ha) as Hva. pose proof (number_value_to_string _ Ht) as Hvt.
  set (tb := TArr _) in *. set (ta := TArr (map level_text (first_levels n (sn_asks b)))) in *.
  clearbody tb ta. cbn [value map fst snd mapM]. cbn. rewrite Hvb, Hva, Hvt. reflexivity.
Qed.

Lemma snapshot_value sym books n :
  Forall printable_book books -> value (snapshot_text sym books n) = Some (snapshot_tree sym books n).
Proof.
  intros Hb. destruct books as [|b bs]; [reflexivity|]. unfold snapshot_text, snapshot_tree.
  assert (Hv : value (TArr (map (book_text n) (b :: bs))) = Some (JArr (map (book_tree n) (b :: bs)))).
  { apply value_arr_map. eapply Forall_impl; [exact Hb|]. intros x Hx. by apply book_value. }
  set (tb := TArr _) in *. set (vb := JArr _) in *. clearbody tb vb. cbn. by rewrite Hv.
Qed.

(** A staleness the server can report: unknown, or a number of milliseconds. *)
Definition plausible (ms : Z) : Prop := ms = UINT64_MAX \/ 0 <= ms < 2 ^ 63.

Lemma feed_value threshold x : plausible (snd x) -> value (feed_text threshold x) = Some (feed_tree threshold x).
Proof.
  intros Hx. destruct x as [ex ms]. unfold feed_text, feed_tree. cbn [fst snd] in *.
  assert (Hv : number_value (if ms =? UINT64_MAX then $"-1" else to_string ms) =
               Some (JInt (if ms =? UINT64_MAX then -1 else ms))).
  { destruct (Z.eqb_spec ms UINT64_MAX); [reflexivity|]. apply number_value_to_string.
    destruct Hx as [Hx|Hx]; [done|]. unfold in_u64, two64. lia. }
  set (t := if ms =? UINT64_MAX then $"-1" else to_string ms) in *. clearbody t. cbn. by rewrite Hv.
Qed.

Lemma health_value staleness threshold :
  (forall ex ms, staleness !! ex = Some ms -> plausible ms) ->
  value (health_text staleness threshold) = Some (health_tree staleness threshold).
Proof.
  intros Hs. unfold health_text, health_tree.
  assert (Hv : value (TArr (map (feed_text threshold) (listed_feeds staleness))) =
               Some (JArr (map (feed_tree threshold) (listed_feeds staleness)))).
  { apply value_arr_map, Forall_forall. intros x (ex & _ & (ms & Hms & ->)%fmap_Some)%list_elem_of_omap.
    apply feed_value. by eapply Hs. }
  set (tb := TArr _) in *. set (vb := JArr _) in *. clearbody tb vb. cbn. by rewrite Hv.
Qed.

(** ** The text is plain *)

Lemma plain_text_arr {A} (f : A -> jtext) l : Forall (fun x => plain_text (f x)) l -> plain_text (TArr (map f l)).
Proof. induction 1 as [|x l Hx Hl IH]; [done|]. by split. Qed.

Lemma plain_literal (s : bytes) : forallb plain_char s = true -> plain s.
Proof. rewrite forallb_forall. intros H. apply Forall_forall. intros c Hc%list_elem_of_In. by apply H. Qed.

Lemma plain_no_newline s : plain s -> NL ∉ s.
Proof. intros Hs Hin. by pose proof (proj1 (Forall_forall _ _) Hs _ Hin). Qed.

Lemma plain_no_nul s : plain s -> NUL ∉ s.
Proof. intros Hs Hin. by pose proof (proj1 (Forall_forall _ _) Hs _ Hin). Qed.

Lemma plain_escaped s : plain s -> plain (map escape_char s).
Proof.
  intros Hs. apply List.Forall_map. eapply Forall_impl; [exact Hs|]. intros c Hc. unfold escape_char.
  by case_bool_decide.
Qed.

Lemma distinct_keys (ks : list bytes) : bool_decide (NoDup ks) = true -> NoDup ks.
Proof. apply bool_decide_eq_true_1. Qed.

(** An object of plain members. *)
Lemma plain_text_obj ms :
  bool_decide (NoDup (map fst ms)) = true -> forallb (fun k => forallb plain_char k) (map fst ms) = true ->
  Forall (fun kv => plain_text (snd kv)) ms -> plain_text (TObj ms).
Proof.
  intros Hd%bool_decide_eq_true_1 Hk Hms. split; [done|]. clear Hd.
  induction Hms as [|[k j] ms Hj Hms IH]; [done|]. simpl in *. apply andb_true_iff in Hk as [Hk Hks].
  split_and!; [by apply plain_literal|done|by apply IH].
Qed.

Lemma book_plain n b : printable_book b -> plain_text (book_text n b).
Proof.
  intros (He & Hs & _). apply plain_text_obj; [reflexivity..|]. repeat constructor; try done;
    cbn [snd]; apply plain_text_arr, Forall_forall; by intros.
Qed.

Lemma snapshot_plain sym books n :
  plain sym -> Forall printable_book books -> plain_text (snapshot_text sym books n).
Proof.
  intros Hs Hb. destruct books as [|b bs].
  - apply plain_text_obj; [reflexivity..|]. constructor; [by apply plain_literal|]. constructor; [|constructor]. cbn [snd plain_text].
    apply plain_escaped, Forall_app. split; [by apply plain_literal|done].
  - apply plain_text_obj; [reflexivity..|]. constructor; [by apply plain_literal|]. constructor; [done|].
    constructor; [|constructor]. cbn [snd]. apply plain_text_arr. eapply Forall_impl; [exact Hb|].
    intros x. apply book_plain.
Qed.

Lemma health_plain staleness threshold : plain_text (health_text staleness threshold).
Proof.
  apply plain_text_obj; [reflexivity..|]. constructor; [by apply plain_literal|]. constructor; [|constructor].
  cbn [snd]. apply plain_text_arr, Forall_forall. intros x (ex & Hex & (ms & _ & ->)%fmap_Some)%list_elem_of_omap.
  apply plain_text_obj; [reflexivity..|]. constructor; [|by repeat constructor]. cbn [snd fst plain_text].
  unfold feed_order in Hex. repeat (apply elem_of_cons in Hex as [->|Hex]; [by apply plain_literal|]).
  by apply elem_of_nil in Hex.
Qed.

(** ** Both ends together *)

(** A double as it is read back after it was printed with eight digits. *)
Definition reread (d : double) : double :=
  match num_tree (fmt_dbl d) with JInt n => dZ n | JFloat x => x | _ => dzero end.

(** Best prices as they are seen through the protocol: the mid price and the
    spread are computed again, from the prices read, when both are positive. *)
Definition reread_bbo (b : BboData) : BboData :=
  let bid := reread (bbo_bid b) in
  let ask := reread (bbo_ask b) in
  let both := dgt bid dzero && dgt ask dzero in
  mkBboData bid ask (if both then ddiv (dadd bid ask) (dZ 2) else dzero)
    (if both then bps_over ask bid else dzero) (bbo_timestamp_ms b).

Example reread_prices : map reread [dlit 130001 2; dlit 1 10; dlit 123456789 1000; dzero] =
  [dlit 130001 2; dlit 1 10; dlit 12345679 100; dzero].
Proof. vm_compute. reflexivity. Qed.

(** The network leads to a query server with this engine: a command, which is
    one line, is answered by [handle_line], in pieces of any size. *)
Definition leads_to `{IterOrder} (net : LineNetwork) (now : Z) (e : Engine) (pl : option ReportPipeline) : Prop :=
  forall cmd, NL ∉ cmd -> exists chunks,
    net (cmd ++ [NL]) = Some chunks /\ Forall (fun d => d <> []) chunks /\
    concat chunks = handle_line now e pl (c_str cmd).

Lemma number_value_num t v : number_value t = Some v -> (exists n, v = JInt n) \/ (exists d, v = JFloat d).
Proof.
  unfold number_value. destruct (match expect "-"%char t with Some r => (true, r) | None => (false, t) end) as [neg s].
  destruct (span is_digit s) as [ip r]. destruct (negb _); [done|].
  destruct (bool_decide (r = []) && _ && _); [intros [= <-]; left; by eexists|].
  intros (d & _ & ->)%fmap_Some. right. by eexists.
Qed.

Section federation.
Context `{IterOrder}.
(** The library reads the texts of the protocol as RFC 8259 says. *)
Context (parse : bytes -> option jtree).
Context (parse_shows : forall j, plain_text j -> is_Some (value j) -> parse (show j) = value j).

#[local] Instance served_json : JsonLib := tree_json parse.

Context (net : LineNetwork) (now : Z) (e : Engine) (pl : option ReportPipeline) (Hnet : leads_to net now e pl).

Lemma send_command_served cmd j v :
  plain cmd -> handle_line now e pl cmd = show j ++ [NL] -> framed (show j ++ [NL]) ->
  plain_text j -> value j = Some v ->
  send_command net cmd = show j /\ json_parse (send_command net cmd) = Some v.
Proof using Hnet parse_shows.
  intros Hcmd Hline (body & [Hb _]%app_inj_tail & Hno) Hp Hv.
  destruct (Hnet cmd (plain_no_newline _ Hcmd)) as (chunks & Hch & Hne & Hcat).
  rewrite c_str_id, Hline in Hcat by by apply plain_no_nul. rewrite <-Hb in Hno.
  rewrite (send_command_line net cmd chunks (show j) Hch Hne Hno Hcat). split; [done|].
  cbn [json_parse served_json tree_json]. rewrite parse_shows; [done|done|by eexists].
Qed.

Lemma first_price ls :
  Forall printable ls ->
  first_book_price (JArr (map level_tree (first_levels 5 ls)) : json) = Ret (reread (front_price ls)).
Proof using.
  intros Hl. destruct ls as [|l ls]; [reflexivity|]. apply Forall_cons in Hl as [[[v Hv] _] _].
  assert (E : exists rest, first_levels 5 (l :: ls) = l :: rest).
  { unfold first_levels. destruct (Z.to_nat (Z.min 5 (Z.of_nat (length (l :: ls))))) as [|k] eqn:Ek;
      [simpl in Ek; lia|]. by eexists. }
  destruct E as [rest ->]. assert (Hn : num_tree (fmt_dbl (lv_price l)) = v) by (unfold num_tree; by rewrite Hv).
  unfold first_book_price, reread. cbn [front_price map]. rewrite Hn. cbn. rewrite Hn.
  apply number_value_num in Hv as [[n ->]|[d ->]]; reflexivity.
Qed.

(** A book of a response is read as its best prices. *)
Lemma remote_book_served s :
  printable_book s -> sn_exchange s <> [] ->
  remote_book (book_tree 5 s : json) = Ret (Some (sn_exchange s, reread_bbo (bbo_of s))).
Proof using.
  intros (_ & _ & Ht & Hb & Ha) Hex. unfold remote_book.
  assert (E1 : json_value_string (book_tree 5 s : json) $"exchange" [] = Some (sn_exchange s)) by reflexivity.
  assert (E2 : json_value_uint (book_tree 5 s : json) $"timestamp_ms" 0 = Ret (sn_timestamp_ms s)).
  { transitivity (Ret (wrap64 (sn_timestamp_ms s))); [reflexivity|]. by rewrite wrap64_small. }
  assert (E3 : json_at (book_tree 5 s : json) $"bids" = Ret (JArr (map level_tree (first_levels 5 (sn_bids s))))) by reflexivity.
  assert (E4 : json_at (book_tree 5 s : json) $"asks" = Ret (JArr (map level_tree (first_levels 5 (sn_asks s))))) by reflexivity.
  rewrite E1. cbn [or_throw mbind res_bind]. rewrite bool_decide_false by done.
  rewrite E2, E3, E4. cbn [mbind res_bind]. rewrite !first_price by done. reflexivity.
Qed.

Lemma remote_books_served sym books sd :
  Forall (fun s => printable_book s /\ sn_exchange s <> []) books ->
  remote_books sym (map (book_tree 5) books : list json) sd =
    (foldl (store_live sym) sd (map (fun s => (sn_exchange s, reread_bbo (bbo_of s))) books), Ret tt).
Proof using.
  intros Hb. revert sd. induction Hb as [|s books [Hs Hex] Hb IH]; intros sd; [done|].
  cbn [map remote_books]. by rewrite remote_book_served, IH.
Qed.

(** One symbol: the books of the server's snapshots are stored. *)
Lemma remote_fetch_served sym sd :
  plain sym -> argument sym -> upper sym = sym ->
  Forall (fun s => printable_book s /\ sn_exchange s <> []) (get_snapshots sym e) ->
  remote_fetch_symbol net sym sd =
    Some (foldl (store_live sym) sd (map (fun s => (sn_exchange s, reread_bbo (bbo_of s))) (get_snapshots sym e))).
Proof using Hnet parse_shows.
  intros Hp Ha Hup Hb. unfold remote_fetch_symbol.
  assert (Hpb : Forall printable_book (get_snapshots sym e)).
  { eapply Forall_impl; [exact Hb|]. by intros s [? _]. }
  assert (Hcmd : plain ($"SNAPSHOT " ++ sym)) by (apply Forall_app; split; [by apply plain_literal|done]).
  assert (Hline : handle_line now e pl ($"SNAPSHOT " ++ sym) = show (snapshot_text sym (get_snapshots sym e) 5) ++ [NL]).
  { unfold handle_line. destruct (parse_request_commands $"SNAPSHOT " sym [] (List.Forall_nil _) Ha) as (_ & _ & Hreq & _).
    rewrite app_nil_r in Hreq. rewrite Hreq by done. cbn [req_type req_symbol]. rewrite Hup.
    apply snapshot_response_show. }
  assert (Hfr : framed (show (snapshot_text sym (get_snapshots sym e) 5) ++ [NL])).
  { rewrite <-snapshot_response_show. apply snapshot_response_framed; [by apply plain_no_newline|].
    eapply Forall_impl; [exact Hpb|]. intros s (H1 & H2 & _). split; by apply plain_no_newline. }
  destruct (send_command_served _ _ _ Hcmd Hline Hfr (snapshot_plain _ _ 5 Hp Hpb) (snapshot_value _ _ 5 Hpb)) as [Hs Hj].
  rewrite bool_decide_false.
  2: { rewrite Hs. by destruct (get_snapshots sym e). }
  unfold remote_response. rewrite Hj. cbn [or_throw mbind res_bind].
  destruct (get_snapshots sym e) as [|s l] eqn:E; [reflexivity|].
  assert (E1 : json_value_string (snapshot_tree sym (s :: l) 5 : json) $"status" [] = Some $"ok") by reflexivity.
  assert (E2 : json_ref (snapshot_tree sym (s :: l) 5 : json) $"books" = Ret (JArr (map (book_tree 5) (s :: l)))) by reflexivity.
  rewrite E1. cbn [or_throw mbind res_bind]. rewrite bool_decide_true by done. cbn [negb].
  rewrite E2. cbn [mbind res_bind json_items served_json tree_json]. by rewrite remote_books_served.
Qed.

(** The feeds the remote source looks for: known and fresh enough. *)
Definition fresh (limit : Z) (x : bytes * Z) : bool := negb (snd x =? UINT64_MAX) && (snd x <=? limit).

Lemma as_int64_id n : - 2 ^ 63 <= n < 2 ^ 63 -> as_int64 n = n.
Proof using. intros Hn. unfold as_int64, two64. rewrite Z.mod_small by lia. lia. Qed.

Lemma any_live_served limit threshold l :
  Forall (fun x => plausible (snd x)) l ->
  any_live limit (map (feed_tree threshold) l : list json) = Ret (existsb (fresh limit) l).
Proof using.
  induction 1 as [|x l Hx Hl IH]; [done|]. cbn [map any_live existsb].
  assert (E : json_value_int (feed_tree threshold x : json) $"staleness_ms" (-1) =
              Ret (if snd x =? UINT64_MAX then -1 else snd x)).
  { transitivity (Ret (as_int64 (if snd x =? UINT64_MAX then -1 else snd x))); [reflexivity|]. f_equal.
    apply as_int64_id. destruct (Z.eqb_spec (snd x) UINT64_MAX); [lia|]. destruct Hx as [?|?]; [done|lia]. }
  rewrite E. cbn [mbind res_bind]. unfold fresh at 1. destruct (Z.eqb_spec (snd x) UINT64_MAX) as [Em|Em].
  - cbn [negb andb orb]. change (0 <=? -1) with false. exact IH.
  - destruct Hx as [?|Hx]; [done|]. rewrite (proj2 (Z.leb_le 0 (snd x))) by lia. cbn [negb andb].
    by destruct (snd x <=? limit).
Qed.

Lemma remote_resolve_served src limit :
  (forall ex ms, get_feed_staleness_ms now e !! ex = Some ms -> plausible ms) ->
  exists r, remote_resolve net src limit = Some r /\
    rr_status r = (if existsb (fresh limit) (listed_feeds (get_feed_staleness_ms now e)) then OK else STALE).
Proof using Hnet parse_shows.
  intros Hst. unfold remote_resolve. set (m := get_feed_staleness_ms now e) in *.
  assert (Hline : handle_line now e pl $"HEALTH" = show (health_text m 2000) ++ [NL]).
  { rewrite <-health_response_show. reflexivity. }
  assert (Hfr : framed (show (health_text m 2000) ++ [NL])).
  { rewrite <-health_response_show. apply health_response_framed. }
  destruct (send_command_served $"HEALTH" _ _ (plain_literal $"HEALTH" eq_refl) Hline Hfr (health_plain _ _) (health_value _ _ Hst))
    as [Hs Hj].
  rewrite bool_decide_false by (by rewrite Hs). unfold remote_health. rewrite Hj. cbn [or_throw mbind res_bind].
  assert (E1 : json_value_string (health_tree m 2000 : json) $"status" [] = Some $"ok") by reflexivity.
  assert (E2 : json_ref (health_tree m 2000 : json) $"feeds" = Ret (JArr (map (feed_tree 2000) (listed_feeds m)))) by reflexivity.
  rewrite E1. cbn [or_throw mbind res_bind]. rewrite bool_decide_true by done. cbn [negb]. rewrite E2.
  cbn [mbind res_bind json_items served_json tree_json]. rewrite any_live_served.
  - cbn [mbind res_bind catch_all]. eexists. split; [done|]. by destruct (existsb _ _).
  - apply Forall_forall. intros x (ex & _ & (ms & Hms & ->)%fmap_Some)%list_elem_of_omap. by eapply Hst.
Qed.

Lemma fresh_resolves limit symbols :
  existsb (fresh limit) (listed_feeds (get_feed_staleness_ms now e)) = true <->
  Exists (fun ex => rr_status (exchange_resolve now e ex symbols limit) = OK) feed_order.
Proof using.
  rewrite existsb_exists, Exists_exists. unfold exchange_resolve, fresh. split.
  - intros (x & (ex & Hex & (ms & Hms & ->)%fmap_Some)%list_elem_of_In%list_elem_of_omap & Hf).
    exists ex. split; [done|]. rewrite Hms. cbn [snd] in Hf. apply andb_true_iff in Hf as [Hu%negb_true_iff Hl].
    rewrite Hu. by rewrite (proj2 (Z.ltb_ge _ _)) by lia.
  - intros (ex & Hex & Hok). destruct (get_feed_staleness_ms now e !! ex) as [ms|] eqn:Hms; [|done].
    destruct (Z.eqb_spec ms UINT64_MAX) as [|Hu]; [done|]. destruct (Z.ltb_spec limit ms) as [|Hl]; [done|].
    exists (ex, ms). split.
    + apply list_elem_of_In, list_elem_of_omap. exists ex. split; [done|]. by rewrite Hms.
    + cbn [snd]. by rewrite (proj2 (Z.eqb_neq _ _) Hu), (proj2 (Z.leb_le _ _) Hl).
Qed.

Definition servable (sym : bytes) : Prop :=
  plain sym /\ argument sym /\ upper sym = sym /\
  Forall (fun s => printable_book s /\ sn_exchange s <> []) (get_snapshots sym e).

(** The last of the books stored under an exchange. *)
Lemma last_stored ex (l : list OrderBookSnapshot) :
  snd <$> last (filter (fun x => fst x = ex) (map (fun s => (sn_exchange s, reread_bbo (bbo_of s))) l)) =
  reread_bbo <$> (bbo_of <$> last_of ex l).
Proof using.
  unfold last_of. induction l as [|s l IH] using rev_ind; [done|].
  rewrite map_app, !filter_app. cbn [map]. rewrite !filter_cons, !filter_nil. cbn [fst].
  destruct (decide (sn_exchange s = ex)); [by rewrite !last_snoc|]. by rewrite !app_nil_r.
Qed.

Lemma remote_fetch_all src symbols :
  Forall servable symbols ->
  exists sd, remote_fetch net src symbols = Some sd /\ sd_source_name sd = rm_name src /\ sd_historical sd = ∅ /\
    forall sym ex, live_bbo sd sym ex =
      if bool_decide (sym ∈ symbols) then reread_bbo <$> (bbo_of <$> last_of ex (get_snapshots sym e)) else None.
Proof using Hnet parse_shows.
  unfold remote_fetch. induction symbols as [|s l IH] using rev_ind.
  { intros _. eexists. split_and!; [done..|]. intros sym ex. by rewrite bool_decide_false by apply not_elem_of_nil. }
  intros [Hl Hs]%Forall_app. destruct (IH Hl) as (sd & Hsd & Hn & Hh & Hlive). apply Forall_singleton in Hs as (Hp & Ha & Hup & Hb).
  rewrite foldl_snoc, Hsd. cbn [mbind option_bind]. rewrite remote_fetch_served by done.
  pose proof (store_live_all s sd (map (fun s => (sn_exchange s, reread_bbo (bbo_of s))) (get_snapshots s e))) as Hst.
  cbv zeta in Hst. destruct Hst as (H1 & H2 & H3 & H4). eexists. split; [done|]. split_and!; [by rewrite H3|by rewrite H2|].
  intros sym ex. unfold live_bbo at 1. destruct (decide (sym = s)) as [->|Hne].
  - rewrite H4. rewrite (bool_decide_true (s ∈ l ++ [s])) by (apply elem_of_app; right; apply list_elem_of_here).
    pose proof (last_stored ex (get_snapshots s e)) as Hlast.
    destruct (last (filter _ _)) as [x|]; cbn [fmap option_fmap option_map] in Hlast; [exact Hlast|].
    fold (live_bbo sd s ex). rewrite Hlive. case_bool_decide; [done|exact Hlast].
  - rewrite H1 by done. fold (live_bbo sd sym ex). rewrite Hlive. apply f_equal with (f := fun b : bool => if b then _ else _).
    apply bool_decide_ext. rewrite elem_of_app, list_elem_of_singleton. tauto.
Qed.

(** C17: A remote source sees what the server's own exchange sources see.
    Connected to a query server, whatever pieces the network cuts the answers
    into, and where every staleness is unknown or below 2^63 milliseconds: it
    resolves to OK exactly when the exchange source of some listed feed on the
    server would, and to STALE otherwise.  If each requested symbol is in upper
    case, not empty, printable without escapes and without white space at its
    end, and the books that answer for it have names printable without escapes,
    exchanges that are not empty, and finite prices and quantities, then for
    every symbol and every exchange it fetches the best prices the server's
    exchange source of that exchange would fetch, read back from their eight
    digits, and nothing else.  (The server turns a symbol into upper case and
    the exchange source does not, so on a symbol in lower case they differ:
    [lower_case_differs].) *)
Theorem remote_mirrors_server src symbols limit :
  (forall ex ms, get_feed_staleness_ms now e !! ex = Some ms -> plausible ms) ->
  Forall servable symbols ->
  (exists r, remote_resolve net src limit = Some r /\
     rr_status r = (if bool_decide (Exists (fun ex => rr_status (exchange_resolve now e ex symbols limit) = OK) feed_order)
                    then OK else STALE)) /\
  (exists sd, remote_fetch net src symbols = Some sd /\ sd_source_name sd = rm_name src /\ sd_historical sd = ∅ /\
     forall sym ex, live_bbo sd sym ex = reread_bbo <$> live_bbo (exchange_fetch e ex symbols) sym ex).
Proof using Hnet parse_shows.
  intros Hst Hsym. split.
  - destruct (remote_resolve_served src limit Hst) as (r & Hr & Hs). exists r. split; [done|]. rewrite Hs.
    pose proof (fresh_resolves limit symbols) as Hf. case_bool_decide as Hx.
    + by rewrite (proj2 Hf Hx).
    + destruct (existsb _ _); [by destruct Hx; apply Hf|done].
  - destruct (remote_fetch_all src symbols Hsym) as (sd & Hsd & Hn & Hh & Hl). exists sd. split_and!; [done..|].
    intros sym ex. rewrite Hl, exchange_fetch_live. case_bool_decide as Hin.
    + by rewrite bool_decide_true.
    + rewrite bool_decide_false; [done|]. by intros [? _].
Qed.
End federation.

(** ** An instance reading another, byte by byte *)

Definition ex_server_net (req : bytes) : option (list bytes) :=
  Some (map (fun c => [c]) (@handle_line default_order 1300 ex_e2 None (c_str (strip_newline req)))).

Lemma ex_leads_to : @leads_to default_order ex_server_net 1300 ex_e2 None.
Proof.
  intros cmd _. eexists. split; [reflexivity|]. rewrite strip_newline_snoc. split.
  - apply List.Forall_map, Forall_forall. by intros.
  - by induction (@handle_line default_order 1300 ex_e2 None (c_str cmd)) as [|c l IH]; simpl; [|f_equal].
Qed.

Definition ex_remote : RemoteDataSource := mkRemoteDataSource $"Mac" $"10.0.0.2" 9093.

Example ex_fetched :
  (sd ← @remote_fetch (tree_json read_json) ex_server_net ex_remote [$"BTC"]; live_bbo sd $"BTC" $"Binance") =
  Some (mkBboData (dZ 100) (dZ 101) (dlit 201 2) (dZ 100) 1000).
Proof. vm_compute. reflexivity. Qed.

Lemma ex_servable : Forall (@servable default_order ex_e2) [$"BTC"].
Proof.
  constructor; [|constructor]. split_and!.
  - by apply plain_literal.
  - by exists $"BT", "C"%char.
  - done.
  - change (Forall (fun s => printable_book s /\ sn_exchange s <> []) (@get_snapshots default_order $"BTC" ex_e2)).
    assert (E : exists s1 s2, @get_snapshots default_order $"BTC" ex_e2 = [s1; s2] /\
      (printable_book s1 /\ sn_exchange s1 <> []) /\ (printable_book s2 /\ sn_exchange s2 <> [])).
    { eexists _, _. split; [vm_compute; reflexivity|].
      split; (split; [|done]); (split_and!; [by apply plain_literal..|by unfold in_u64, two64| |]);
        (constructor; [|constructor]); by split; eexists; vm_compute. }
    destruct E as (s1 & s2 & -> & H1 & H2). constructor; [exact H1|]. constructor; [exact H2|constructor].
Qed.

Lemma ex_plausible ex ms : @get_feed_staleness_ms default_order 1300 ex_e2 !! ex = Some ms -> plausible ms.
Proof.
  intros H%elem_of_map_to_list%list_elem_of_In.
  assert (E : forallb (fun x => (snd x =? UINT64_MAX) || ((0 <=? snd x) && (snd x <? 2 ^ 63)))
    (map_to_list (@get_feed_staleness_ms default_order 1300 ex_e2)) = true) by (vm_compute; reflexivity).
  rewrite forallb_forall in E. specialize (E _ H). cbn [snd] in E. unfold plausible. lia.
Qed.

(** A symbol in lower case: the server answers for [BTC], the exchange source on
    the server finds nothing. *)
Example lower_case_differs :
  ((sd ← @remote_fetch (tree_json read_json) ex_server_net ex_remote [$"btc"]; live_bbo sd $"btc" $"Binance"),
   live_bbo (@exchange_fetch default_order ex_e2 $"Binance" [$"btc"]) $"btc" $"Binance") =
  (Some (mkBboData (dZ 100) (dZ 101) (dlit 201 2) (dZ 100) 1000), None).
Proof. vm_compute. reflexivity. Qed.

Lemma remote_mirrors_server_witness :
  exists r sd, @remote_resolve (tree_json read_json) ex_server_net ex_remote 500 = Some r /\ rr_status r = OK /\
    @remote_fetch (tree_json read_json) ex_server_net ex_remote [$"BTC"] = Some sd /\
    live_bbo sd $"BTC" $"Binance" = reread_bbo <$> live_bbo (@exchange_fetch default_order ex_e2 $"Binance" [$"BTC"]) $"BTC" $"Binance".
Proof.
  destruct (@remote_mirrors_server default_order read_json read_json_show ex_server_net 1300 ex_e2 None ex_leads_to
    ex_remote [$"BTC"] 500 ex_plausible ex_servable) as [(r & Hr & Hs) (sd & Hsd & _ & _ & Hl)].
  exists r, sd. split; [exact Hr|]. split; [|split; [exact Hsd|apply Hl]]. rewrite Hs.
  vm_compute. reflexivity.
Defined.
