(* ===== verification/EndToEnd.v ===== *)
(** * From a feed to a client of the query server

    The path of a price through the program: an exchange's message, the feed
    client's own book (src/kraken_client.cpp, src/bybit_client.cpp,
    src/coinbase_client.cpp), the depth callback of src/main.cpp, the engine's
    book (src/arbitrage_engine.cpp) and the answer to SNAPSHOT
    (src/query_server.cpp).  The theorem composes the models of those parts. *)

From Stdlib Require Import Sorted.
From S2P Require Import Prelude Float64 SortedMap StdSort Str Stod Json JsonText Types OrderBook ArbEngine FeedClients.
From S2P Require Import QueryProtocol Reports QueryServers Federation.

(** ** The system: a client, the engine and everything else that drives it *)

Inductive system_step `{JsonLib} `{StrtodUnderflow} `{!StdSort lv_price} `{IterOrder} (v : FeedVenue) (cb : Callbacks) :
    FeedClient * Engine -> FeedClient * Engine -> Prop :=
  | system_read clocks now_ms message eclocks evs c c' e :
      Forall (faithful (style_of v)) (decoded v now_ms message) ->
      on_read v cb clocks now_ms message c = Some c' -> fired c' = fired c ++ evs ->
      system_step v cb (c, e) (c', deliver eclocks evs e)
  | system_other clock snap c e :
      priced_snapshot snap -> sn_exchange snap <> fs_exchange (style_of v) -> ":"%char ∉ sn_exchange snap ->
      system_step v cb (c, e) (c, update_books clock snap e)
  | system_engine c e e' :
      engine_step e e' -> ws_books_ e' = ws_books_ e -> system_step v cb (c, e) (c, e').

(** The snapshots among a client's events. *)
Definition depths (evs : list FeedEvent) : list OrderBookSnapshot :=
  omap (fun ev => match ev with FDepth s => Some s | FBbo _ => None end) evs.

Lemma deliver_ind (P : Engine -> Prop) (Q : OrderBookSnapshot -> Prop) clocks evs e :
  (forall clock snap e, Q snap -> P e -> P (update_books clock snap e)) ->
  Forall Q (depths evs) -> P e -> P (deliver clocks evs e).
Proof.
  intros Hstep. revert clocks e. induction evs as [|[s|t] evs IH]; intros clocks e HQ He; [done| |].
  - apply Forall_cons in HQ as [Hs HQ]. by apply IH; [|apply Hstep].
  - by apply IH.
Qed.

Lemma depths_app evs evs' : depths (evs ++ evs') = depths evs ++ depths evs'.
Proof. apply omap_app. Qed.

Lemma depths_bbos ts : depths (map FBbo ts) = [].
Proof. by induction ts. Qed.

(** A read hands on only snapshots that were decoded from its message. *)
Lemma fired_depths v cb clocks xs c evs :
  fired (apply_all (client_apply (style_of v) cb) clocks xs c) = fired c ++ evs ->
  Forall (fun s => s ∈ map snd xs) (depths evs).
Proof.
  revert c evs. induction xs as [|[i s] xs IH]; intros c evs He.
  - change (fired c = fired c ++ evs) in He. rewrite <-(app_nil_r (fired c)) in He at 1.
    apply app_inv_head in He as <-. constructor.
  - change (apply_all _ _ (_ :: _) c) with
      (apply_all (client_apply (style_of v) cb) clocks xs (client_apply (style_of v) cb (clocks i) s c)) in He.
    destruct (client_apply_fired v cb (clocks i) s c) as [ts Hf].
    destruct (fired_apply_all v cb clocks xs (client_apply (style_of v) cb (clocks i) s c)) as [evs2 Hx].
    pose proof (IH _ _ Hx) as Hr. rewrite Hx, Hf, <-app_assoc in He. apply app_inv_head in He as <-.
    rewrite !depths_app, depths_bbos, app_nil_r. apply Forall_app. split.
    + case_match; [|constructor]. constructor; [apply list_elem_of_here|constructor].
    + eapply Forall_impl; [exact Hr|]. intros s' Hs'. cbn [map]. by apply elem_of_cons; right.
Qed.

Lemma key_symbol_joined ex sym : ":"%char ∉ ex -> key_symbol (make_ticker_key ex sym) = sym.
Proof.
  intros Hc. unfold key_symbol, make_ticker_key. simpl. rewrite find_char_app by done.
  by rewrite <-drop_drop, drop_app_length.
Qed.

Section system.
Context `{JsonLib} `{StrtodUnderflow} `{!StdSort lv_price} `{IterOrder} (v : FeedVenue) (cb : Callbacks).
Local Abbreviation venue_name := (fs_exchange (style_of v)).

(** The exchange's names hold no colon, so a key determines them. *)
Definition keyed (e : Engine) : Prop :=
  engine_wf e /\ forall key b, ws_books_ e !! key = Some b -> ":"%char ∉ exchange_ b.

Lemma keyed_update clock snap e :
  priced_snapshot snap /\ ":"%char ∉ sn_exchange snap -> keyed e -> keyed (update_books clock snap e).
Proof using.
  intros [Hp Hc] [Hw Hk]. split; [by apply update_books_wf|]. intros key b. cbn [update_books ws_books_ set_field].
  intros [[_ <-]|[_ Hb]]%lookup_insert_Some; [|by eapply Hk].
  match goal with |- context [apply_feed clock snap ?b0] => destruct (apply_feed_name clock snap b0) as [_ ->] end.
  destruct (ws_books_ e !! book_key snap) as [b|] eqn:Eb; simpl; [by eapply Hk|done].
Qed.

Lemma system_keyed x y : keyed (snd x) -> system_step v cb x y -> keyed (snd y).
Proof using.
  intros Hx Hs. destruct Hs as [clocks now_ms message eclocks evs c c' e Hf Hr He|clock snap c e Hp Hne Hc|c e e' Hs Hws].
  - apply on_read_decoded in Hr as (xs & Exs & Hv & ->).
    apply (deliver_ind keyed _ eclocks evs e keyed_update); [|exact Hx].
    eapply Forall_impl; [exact (fired_depths v cb clocks xs _ evs He)|]. intros s Hs. rewrite <-Exs in Hs.
    rewrite Forall_forall in Hf. destruct (Hf s Hs) as [Hp _]. split; [done|].
    rewrite Exs in Hs. apply list_elem_of_fmap in Hs as (z & -> & Hz). rewrite Forall_forall in Hv.
    rewrite (Hv z Hz). exact (venue_no_colon v).
  - by apply keyed_update.
  - destruct Hx as [Hw Hk]. split; [by eapply engine_step_wf|]. cbn [snd] in *. by rewrite Hws.
Qed.

Lemma system_wired x y : system_step v cb x y -> wired_step v cb x y.
Proof using. destruct 1; [by eapply wired_read|by apply wired_other|by apply wired_engine]. Qed.

Definition system_ok (x : FeedClient * Engine) : Prop := mirrored v x /\ keyed (snd x).

Lemma reachable_system c e :
  depth_callback cb = true -> rtc (system_step v cb) (new_client, new_engine) (c, e) -> system_ok (c, e).
Proof using.
  intros Hcb Hr. eapply (rtc_invariant (system_step v cb) system_ok); [|exact Hr|].
  - intros x y [Hm Hk] Hs. split; [|by eapply system_keyed].
    eapply mirrored_step; [done|exact Hm|by apply system_wired].
  - split; [apply mirrored_start|]. split; [apply new_engine_wf|]. intros key b. simpl. by rewrite lookup_empty.
Qed.

(** ** What the two books show *)

(** The engine's book of a symbol lists the client's asks, and the client's
    bids with some left out. *)
Lemma books_shown c e sym :
  system_ok (c, e) ->
  map snd (asks_ (engine_book v e sym)) = map snd (asks_ (local_book v c sym)) /\
  sublist (map snd (bids_ (engine_book v e sym))) (map snd (bids_ (local_book v c sym))).
Proof using.
  intros [Hm _]. destruct (Hm sym) as ([[Wlb _] [Wla _]] & [[Web _] [Wea _]] & M). cbn [fst snd] in *. split.
  - apply (sm_equiv_values dlt); [done|done|]. intros p Hp. apply (M p Hp).
  - apply (sm_submap_values dgt); [done|done|]. intros p lv Hp Hb. by apply (M p Hp).
Qed.

(** An answer's books of the client's exchange are the engine's books of the
    symbols that normalize to the one asked for. *)
Lemma served_books c e csym s :
  system_ok (c, e) -> venue_name <> $"FIX" ->
  (s ∈ get_snapshots csym e /\ sn_exchange s = venue_name) <->
  exists sym, normalize_symbol sym = csym /\ empty (engine_book v e sym) = false /\
    s = get_snapshot (engine_book v e sym).
Proof using.
  intros (_ & [[Hw Hx] Hk]) Hfix. cbn [snd] in *. split.
  - intros [([key|key] & b & Hb & He & -> & Hn)%get_snapshots_elem Hex]; cbn [venue_book] in Hb.
    + destruct (Hw key b Hb) as [_ Hkey]. simpl in Hex.
      assert (E : engine_book v e (symbol_ b) = b).
      { unfold engine_book. rewrite <-Hex, <-Hkey, Hb. done. }
      exists (symbol_ b). rewrite E. split; [|done]. rewrite <-Hn, Hkey. f_equal.
      symmetry. apply key_symbol_joined. by apply (Hk key b Hb).
    + destruct (Hx key b Hb) as (_ & Hf & _). simpl in Hex. congruence.
  - intros (sym & <- & He & ->).
    destruct (ws_books_ e !! make_ticker_key venue_name sym) as [b|] eqn:Eb.
    2: { unfold engine_book in He. by rewrite Eb in He. }
    assert (E : engine_book v e sym = b) by (unfold engine_book; by rewrite Eb). rewrite E in *.
    destruct (Hw _ _ Eb) as [_ Hkey]. pose proof (Hk _ _ Eb) as Hc.
    apply (ticker_key_inj _ _ _ _ (venue_no_colon v) Hc) in Hkey as [Ex Es]. split; [|by rewrite Ex].
    apply get_snapshots_elem. exists (WsBook (make_ticker_key venue_name sym)), b. split_and!; [done..|].
    f_equal. apply key_symbol_joined, venue_no_colon.
Qed.

Lemma engine_book_symbol e sym : keyed e -> symbol_ (engine_book v e sym) = sym.
Proof using.
  intros [[Hw _] Hk]. unfold engine_book. destruct (ws_books_ e !! make_ticker_key venue_name sym) as [b|] eqn:Eb; [|done].
  destruct (Hw _ _ Eb) as [_ Hkey]. symmetry.
  by apply (ticker_key_inj _ _ _ _ (venue_no_colon v) (Hk _ _ Eb)) in Hkey as [_ ?].
Qed.

(** C5: What a SNAPSHOT request returns about an exchange is what that
    exchange's client holds.  The client of Kraken, Bybit or Coinbase has its
    depth callback connected to the engine, and has read any messages that it
    decodes into faithful snapshots and updates: every price in them is a
    number, and a full snapshot of Kraken or Coinbase is not empty and lists no
    level without quantity (an empty one clears the client's book and is never
    handed to the engine).  The reads are interleaved in any way with the other
    feeds, whose exchanges have other names and whose prices are numbers, and
    with everything else the engine does.  Then the line [SNAPSHOT arg], for an
    argument that is not empty and does not end in white space, is answered
    with one line of JSON.  Each of its books of that exchange belongs to a
    symbol that normalizes to [arg] in upper case, and lists all the asks of the
    client's own book of that symbol and, in the same order, bids of it (those
    the engine dropped because they were crossed are left out); no symbol for
    which the client holds an ask is missing.  If the numbers are finite and the
    names printable, a JSON reader gets from the line the first five levels of
    each side. *)
Theorem snapshot_serves_feed c e now pl arg :
  depth_callback cb = true -> rtc (system_step v cb) (new_client, new_engine) (c, e) -> argument arg ->
  exists books,
    handle_line now e pl ($"SNAPSHOT " ++ arg) = show (snapshot_text (upper arg) books 5) ++ [NL] /\
    (forall s, s ∈ books -> sn_exchange s = venue_name ->
       normalize_symbol (sn_symbol s) = upper arg /\
       sn_asks s = map snd (asks_ (local_book v c (sn_symbol s))) /\
       sublist (sn_bids s) (map snd (bids_ (local_book v c (sn_symbol s))))) /\
    (forall sym, normalize_symbol sym = upper arg -> asks_ (local_book v c sym) <> [] ->
       exists s, s ∈ books /\ sn_exchange s = venue_name /\ sn_symbol s = sym) /\
    (Forall printable_book books -> plain (upper arg) ->
       read_json (show (snapshot_text (upper arg) books 5)) = Some (snapshot_tree (upper arg) books 5)).
Proof using.
  intros Hcb Hr Harg. pose proof (reachable_system c e Hcb Hr) as Hok.
  assert (Hfix : venue_name <> $"FIX") by by destruct v.
  exists (get_snapshots (upper arg) e). split_and!.
  - unfold handle_line. destruct (parse_request_commands $"SNAPSHOT " arg [] (List.Forall_nil _) Harg) as (_ & _ & E & _).
    rewrite app_nil_r in E. rewrite E by done. apply snapshot_response_show.
  - intros s Hs Hex. destruct (proj1 (served_books c e (upper arg) s Hok Hfix) (conj Hs Hex)) as (sym & Hn & _ & ->).
    cbn [get_snapshot sn_symbol sn_asks sn_bids]. rewrite engine_book_symbol by apply Hok.
    destruct (books_shown c e sym Hok) as [Ha Hb]. by split_and!.
  - intros sym Hn Ha. exists (get_snapshot (engine_book v e sym)).
    assert (Hne : empty (engine_book v e sym) = false).
    { unfold empty. destruct (books_shown c e sym Hok) as [E _]. rewrite (bool_decide_false (asks_ _ = [])); [apply andb_false_r|].
      intros E0. rewrite E0 in E. destruct (asks_ (local_book v c sym)); [by apply Ha|done]. }
    destruct (proj2 (served_books c e (upper arg) (get_snapshot (engine_book v e sym)) Hok Hfix)) as [Hs Hex]; [by exists sym|].
    split_and!; [done..|]. by apply engine_book_symbol, Hok.
  - intros Hp Hup. rewrite <-(snapshot_value _ _ 5 Hp). apply read_json_show; [by apply snapshot_plain|].
    rewrite snapshot_value by done. by eexists.
Qed.
End system.

(** ** A price, from the exchange to the answer *)

Section example.
#[local] Existing Instances ex_underflow ex_sort ex_json default_order.

Definition ex_system : FeedClient * Engine := (ex_c2, ex_engine2).

Lemma ex_system_run : rtc (system_step Bybit ex_cb) (new_client, new_engine) ex_system.
Proof.
  eapply rtc_l; [|eapply rtc_once].
  - apply (system_read Bybit ex_cb ex_clocks 5 $"snapshot" ex_clocks (fired ex_c1) new_client ex_c1 new_engine);
      [|vm_compute; reflexivity..].
    repeat constructor.
  - apply (system_read Bybit ex_cb ex_clocks 6 $"delta" ex_clocks ex_events2 ex_c1 ex_c2 ex_engine1);
      [|vm_compute; reflexivity..].
    repeat constructor; vm_compute; congruence.
Qed.

(** The bid at 101.5, which is crossed, is in the client's book and not in the
    answer. *)
Example ex_answer :
  handle_line 1300 ex_engine2 None $"SNAPSHOT btc" =
  map (fun c => if bool_decide (c = "'"%char) then DQUOTE else c)
    $"{'status':'ok','symbol':'BTC','books':[{'exchange':'Bybit','symbol':'BTCUSDT','bids':[[99.5,1]],'asks':[[101,3]],'timestamp_ms':1001}]}"
  ++ [NL].
Proof. vm_compute. reflexivity. Qed.

Lemma snapshot_serves_feed_witness :
  exists books, handle_line 1300 ex_engine2 None $"SNAPSHOT btc" = show (snapshot_text $"BTC" books 5) ++ [NL] /\
    exists s, s ∈ books /\ sn_exchange s = $"Bybit" /\ sn_symbol s = $"BTCUSDT".
Proof.
  destruct (snapshot_serves_feed Bybit ex_cb ex_c2 ex_engine2 1300 None $"btc") as (books & E & _ & H & _).
  - reflexivity.
  - exact ex_system_run.
  - by exists $"bt", "c"%char.
  - exists books. split; [exact E|]. apply H; [vm_compute; reflexivity|vm_compute; discriminate].
Defined.
End example.
