(* ===== verification/BenchClient.v ===== *)
(** * The query benchmark client (benchmarks/bench_query_client.cpp)

    The program that measures round trips against a query server: its options,
    the exchange of one request, the loops of the warm-up and the measurement,
    and the report.  What [send] and [recv] return and what the clock reads are
    the arguments of a [Trip]; [None] is a terminated process ([vector::reserve]
    throws on a negative count) or an [atoi] out of range. *)

From Stdlib Require Import Sorted.
From stdpp Require Import sorting.
From S2P Require Import Prelude Float64 IntDouble Rounding Str Fmt Types ArbEngine QueryProtocol CommandLine Reports QueryServers.

(** ** Options *)

Record Settings := mkSettings { host : bytes; bench_port : Z; sym : bytes; n_meas : Z; warmup : Z }.
#[export] Instance Settings_settable : Settable Settings :=
  fun s => mkSettings (host s) (bench_port s) (sym s) (n_meas s) (warmup s).
Definition defaults : Settings := mkSettings $"127.0.0.1" 9092 $"BTC" 100000 1000.

(** [atoi]: 0 when there are no digits, undefined when out of range. *)
Definition atoi_digits (neg : bool) (s : bytes) : ub Z :=
  let n := digits_value (fst (span is_digit s)) 0 in ub_int (if neg then - n else n).
Definition atoi (str : bytes) : ub Z :=
  match ltrim is_space (c_str str) with
  | "+"%char :: r => atoi_digits false r
  | "-"%char :: r => atoi_digits true r
  | s => atoi_digits false s
  end.

(** The settings, or the argument that is not an option. *)
Fixpoint parse_settings (args : list bytes) (s : Settings) : ub (Settings + bytes) :=
  match args with
  | [] => Some (inl s)
  | flag :: rest =>
      match rest with
      | v :: rest' =>
          if bool_decide (flag = $"--host") then parse_settings rest' (s <| host := v |>)
          else if bool_decide (flag = $"--port") then n ← atoi v; parse_settings rest' (s <| bench_port := n mod 2 ^ 16 |>)
          else if bool_decide (flag = $"--sym") then parse_settings rest' (s <| sym := v |>)
          else if bool_decide (flag = $"--n") then n ← atoi v; parse_settings rest' (s <| n_meas := n |>)
          else if bool_decide (flag = $"--warmup") then n ← atoi v; parse_settings rest' (s <| warmup := n |>)
          else Some (inr flag)
      | [] => Some (inr flag)
      end
  end.

(** ** One round trip *)

(** What the kernel does for one request: the results of [send], the bytes
    that are there at each [recv], the clock before and after. *)
Record Trip := mkTrip { tr_sends : list Z; tr_recvs : list bytes; tr_t0 : Z; tr_t1 : Z }.

(** When the results run out, the next one is an error. *)
Fixpoint send_all (results : list Z) (sent len : Z) : bool :=
  if sent <? len then
    match results with
    | n :: results' => if n <=? 0 then false else send_all results' (sent + n) len
    | [] => false
    end
  else true.

(** The loop of [recv_line]: [buf] is what is before [pos].  A [recv] takes no
    more than the room that is left. *)
Fixpoint recv_loop (fuel : nat) (bufsz : Z) (buf : bytes) (chunks : list bytes) : option bytes :=
  match fuel with
  | O => None
  | S fuel' =>
      let pos := Z.of_nat (length buf) in
      if pos <? bufsz - 1 then
        let room := Z.to_nat (bufsz - pos - 1) in
        match chunks with
        | [] => None
        | d :: chunks' =>
            let got := take room d in
            if bool_decide (got = []) then None
            else
              match find_char NL got with
              | Some i => Some (buf ++ take (S i) got)
              | None => recv_loop fuel' bufsz (buf ++ got) (if bool_decide (drop room d = []) then chunks' else drop room d :: chunks')
              end
        end
      else None
  end.

(** The line with its newline; every turn but the last fills at least a byte of
    the buffer. *)
Definition recv_line (bufsz : Z) (chunks : list bytes) : option bytes :=
  recv_loop (Z.to_nat bufsz) bufsz [] chunks.

Definition resp_size : Z := 65536.
Definition bench_request (s : Settings) : bytes := $"SNAPSHOT " ++ sym s ++ [NL].

(** Send the request and read the line of the response. *)
Definition exchange (s : Settings) (t : Trip) : option bytes :=
  if send_all (tr_sends t) 0 (Z.of_nat (length (bench_request s))) then recv_line resp_size (tr_recvs t) else None.

(** ** The loops *)

(** The warm-up: the trips from [k] on, [false] as soon as one fails. *)
Fixpoint warm_up (s : Settings) (trips : nat -> Trip) (k n : nat) : bool :=
  match n with
  | O => true
  | S n' => match exchange s (trips k) with Some _ => warm_up s trips (S k) n' | None => false end
  end.

(** The latencies measured until a trip fails. *)
Fixpoint measure (s : Settings) (trips : nat -> Trip) (k n : nat) : list Z :=
  match n with
  | O => []
  | S n' =>
      match exchange s (trips k) with
      | Some _ => wrap64 (tr_t1 (trips k) - tr_t0 (trips k)) :: measure s trips (S k) n'
      | None => []
      end
  end.

(** ** The report *)

Definition percentile (v : list Z) (pct : double) : ub double :=
  if bool_decide (v = []) then Some dzero
  else
    let sorted := merge_sort Z.le v in
    let n := Z.of_nat (length v) in
    idx ← dtrunc (dmul (ddiv pct (dZ 100)) (dZ n));
    x ← sorted !! Z.to_nat (if n <=? idx then n - 1 else idx);
    Some (dZ x).

Record BenchReport := mkBenchReport {
  requests : Z; throughput : double; mean_us : double; p50_us : double; p99_us : double; p999_us : double }.

Definition accumulate (v : list Z) : Z := foldl (fun a x => wrap64 (a + x)) 0 v.

Definition bench_report (wall_ns : Z) (v : list Z) : ub BenchReport :=
  let n := Z.of_nat (length v) in
  let wall_s := ddiv (dZ wall_ns) (dZ 1000000000) in
  p50 ← percentile v (dZ 50);
  p99 ← percentile v (dZ 99);
  p999 ← percentile v (dlit 999 10);
  Some (mkBenchReport n (ddiv (dZ n) wall_s) (ddiv (ddiv (dZ (accumulate v)) (dZ n)) (dZ 1000))
    (ddiv p50 (dZ 1000)) (ddiv p99 (dZ 1000)) (ddiv p999 (dZ 1000))).

Definition print_report (r : BenchReport) : bytes :=
  $"  Requests measured : " ++ to_string (requests r) ++ [NL] ++
  $"  Throughput        : " ++ fmt_fixed 0 (throughput r) ++ $" req/s" ++ [NL] ++
  $"  Mean RTT          : " ++ fmt_fixed 2 (mean_us r) ++ $" µs" ++ [NL] ++
  $"  p50  RTT          : " ++ fmt_fixed 2 (p50_us r) ++ $" µs" ++ [NL] ++
  $"  p99  RTT          : " ++ fmt_fixed 2 (p99_us r) ++ $" µs" ++ [NL] ++
  $"  p999 RTT          : " ++ fmt_fixed 2 (p999_us r) ++ $" µs" ++ [NL].

(** The exit code, and the report if there is one.  [connected] says whether
    [connect_to] succeeds. *)
Definition bench_main (args : list bytes) (connected : bool) (trips : nat -> Trip) (wall_ns : Z)
    : ub (Z * option BenchReport) :=
  o ← parse_settings args defaults;
  match o with
  | inr _ => Some (1, None)
  | inl s =>
      let w := Z.to_nat (warmup s) in
      if negb connected then Some (1, None)
      else if negb (warm_up s trips 0 w) then Some (1, None)
      else if n_meas s <? 0 then None
      else
        let v := measure s trips w (Z.to_nat (n_meas s)) in
        if bool_decide (v = []) then Some (1, None)
        else r ← bench_report wall_ns v; Some (0, Some r)
  end.

(** ** Reading a line *)

Lemma framed_prefix (l rest body : bytes) : l ++ NL :: rest = body ++ [NL] -> NL ∉ body -> rest = [] /\ l = body.
Proof.
  intros E Hb. destruct (decide (rest = [])) as [->|Hr]; [by apply app_inj_tail in E as [-> _]|].
  exfalso. apply Hb. destruct (exists_last Hr) as (r & x & ->).
  rewrite app_comm_cons, app_assoc in E. apply app_inj_tail in E as [<- _].
  apply elem_of_app. right. apply list_elem_of_here.
Qed.

Lemma find_char_take c s n : find_char c s = Some n -> take (S n) s = take n s ++ [c].
Proof.
  revert n. induction s as [|x s IH]; simpl; intros n; [done|]. case_decide as E; [by intros [= <-]; subst|].
  intros (m & Em & ->)%fmap_Some. simpl. by rewrite <-(IH m Em).
Qed.

Lemma recv_loop_line fuel bufsz buf chunks body :
  buf ++ concat chunks = body ++ [NL] -> NL ∉ body -> NL ∉ buf -> Forall (fun d => d <> []) chunks ->
  Z.of_nat (length body) + 1 < bufsz -> bufsz - Z.of_nat (length buf) <= Z.of_nat fuel ->
  recv_loop fuel bufsz buf chunks = Some (body ++ [NL]).
Proof.
  revert buf chunks. induction fuel as [|fuel IH]; intros buf chunks E Hb Hbuf Hne Hlen Hf.
  all: pose proof (f_equal length E) as El; rewrite !length_app in El; simpl in El.
  all: assert (Hlt : (length buf < length body + 1)%nat)
    by (destruct (decide (length buf < length body + 1)%nat) as [|Hge]; [done|]; exfalso;
        destruct (concat chunks) as [|c l]; simpl in El; [|lia]; rewrite app_nil_r in E; subst buf; apply Hbuf, elem_of_app; right; constructor).
  { lia. }
  cbn [recv_loop]. rewrite (proj2 (Z.ltb_lt _ _)) by lia.
  destruct chunks as [|d chunks]; [simpl in El; lia|]. apply Forall_cons in Hne as [Hd Hne].
  cbn [concat] in E, El. rewrite length_app in El. rewrite take_ge, drop_ge by lia.
  rewrite bool_decide_false by done. destruct (find_char NL d) as [i|] eqn:Ei.
  - rewrite (find_char_take _ _ _ Ei). apply find_char_some in Ei as [Ed _].
    rewrite Ed, <-app_assoc in E. cbn [app] in E. rewrite app_assoc in E.
    apply framed_prefix in E as [_ <-]; [|done]. by rewrite <-app_assoc.
  - rewrite bool_decide_true by done. apply find_char_none in Ei.
    assert (0 < length d)%nat by (destruct d; [done|simpl; lia]).
    apply IH; try done; [by rewrite <-app_assoc|..|rewrite length_app; lia].
    intros [?|?]%elem_of_app; done.
Qed.

(** A line that fits the buffer is read whole, in whatever pieces it comes. *)
Lemma recv_line_framed bufsz chunks body :
  concat chunks = body ++ [NL] -> NL ∉ body -> Forall (fun d => d <> []) chunks ->
  Z.of_nat (length body) + 1 < bufsz -> recv_line bufsz chunks = Some (body ++ [NL]).
Proof. intros. apply recv_loop_line; try done; [by intros ?%elem_of_nil|simpl; lia]. Qed.

(** A line that does not is an error, however it comes. *)
Lemma recv_loop_full fuel bufsz buf chunks :
  NL ∉ take (Z.to_nat (bufsz - Z.of_nat (length buf) - 1)) (concat chunks) -> recv_loop fuel bufsz buf chunks = None.
Proof.
  revert buf chunks. induction fuel as [|fuel IH]; intros buf chunks Hnl; [done|]. cbn [recv_loop].
  destruct (Z.of_nat (length buf) <? bufsz - 1) eqn:Eb; [|done]. apply Z.ltb_lt in Eb.
  destruct chunks as [|d chunks]; [done|]. case_bool_decide as Eg; [done|]. cbn [concat] in Hnl.
  set (room := Z.to_nat (bufsz - Z.of_nat (length buf) - 1)) in *.
  rewrite take_app in Hnl. rewrite not_elem_of_app in Hnl. destruct Hnl as [Hd Hrest].
  rewrite (proj2 (find_char_none NL _) Hd). apply IH. rewrite length_app, length_take.
  replace (Z.to_nat (bufsz - Z.of_nat (length buf + room `min` length d) - 1)) with (room - room `min` length d)%nat by lia.
  case_bool_decide as Er.
  - assert (length d <= room)%nat by (apply (f_equal length) in Er; rewrite length_drop in Er; simpl in Er; lia).
    by rewrite Nat.min_r by lia.
  - assert (room < length d)%nat by (destruct (decide (room < length d)%nat); [done|]; by rewrite drop_ge in Er by lia).
    rewrite Nat.min_l, Nat.sub_diag by lia. by intros ?%elem_of_nil.
Qed.

(** ** The measurement *)

Lemma measure_all s trips k n :
  (forall i, (k <= i < k + n)%nat -> exists r, exchange s (trips i) = Some r) ->
  measure s trips k n = map (fun i => wrap64 (tr_t1 (trips i) - tr_t0 (trips i))) (seq k n).
Proof.
  revert k. induction n as [|n IH]; intros k Hok; [done|]. simpl.
  destruct (Hok k) as [r ->]; [lia|]. f_equal. apply IH. intros i Hi. apply Hok. lia.
Qed.

Lemma warm_up_all s trips k n :
  (forall i, (k <= i < k + n)%nat -> exists r, exchange s (trips i) = Some r) -> warm_up s trips k n = true.
Proof.
  revert k. induction n as [|n IH]; intros k Hok; [done|]. simpl.
  destruct (Hok k) as [r ->]; [lia|]. apply IH. intros i Hi. apply Hok. lia.
Qed.

(** A percentile of a fraction of one hundred is an element of the sorted
    sample, whatever the rounding. *)
Lemma percentile_element v pct :
  v <> [] -> Z.of_nat (length v) < 2 ^ 53 -> at_most 1 (ddiv pct (dZ 100)) ->
  exists i x, merge_sort Z.le v !! i = Some x /\ (i < length v)%nat /\ percentile v pct = Some (dZ x).
Proof.
  intros Hv Hlen Hp. unfold percentile. rewrite bool_decide_false by done.
  assert (Hpos : 0 < Z.of_nat (length v)) by (destruct v; [done|simpl; lia]).
  destruct (trunc_at_most (Z.of_nat (length v)) (dmul (ddiv pct (dZ 100)) (dZ (Z.of_nat (length v))))) as (idx & Ei & Hi);
    [by apply mul_at_most|lia|]. rewrite Ei. cbn [mbind option_bind].
  set (i := Z.to_nat (if Z.of_nat (length v) <=? idx then Z.of_nat (length v) - 1 else idx)).
  assert (Hi' : (i < length v)%nat) by (unfold i; destruct (Z.leb_spec (Z.of_nat (length v)) idx); lia).
  destruct (lookup_lt_is_Some_2 (merge_sort Z.le v) i) as [x Hx]; [by rewrite merge_sort_Permutation|].
  exists i, x. split_and!; [done|done|]. by rewrite Hx.
Qed.

Lemma fractions : at_most 1 (ddiv (dZ 50) (dZ 100)) /\ at_most 1 (ddiv (dZ 99) (dZ 100)) /\ at_most 1 (ddiv (dlit 999 10) (dZ 100)).
Proof. split_and!; vm_compute; by split. Qed.

Lemma bench_report_defined wall_ns v :
  v <> [] -> Z.of_nat (length v) < 2 ^ 53 -> exists r, bench_report wall_ns v = Some r /\ requests r = Z.of_nat (length v).
Proof.
  intros Hv Hlen. destruct fractions as (H1 & H2 & H3). unfold bench_report.
  destruct (percentile_element v (dZ 50) Hv Hlen H1) as (? & ? & _ & _ & ->).
  destruct (percentile_element v (dZ 99) Hv Hlen H2) as (? & ? & _ & _ & ->).
  destruct (percentile_element v (dlit 999 10) Hv Hlen H3) as (? & ? & _ & _ & ->).
  by eexists.
Qed.

(** ** The client and the server *)

(** The benchmark against a server of the repository: if every request is
    taken by the socket and every response, at most 65535 bytes of it, comes in
    non-empty pieces, then all the requests asked for are measured, whatever
    the engine's books are at each of them, and the report is on exactly those
    latencies. *)
Theorem bench_measures_server `{IterOrder} args trips wall_ns s :
  parse_settings args defaults = Some (inl s) -> NL ∉ sym s -> 0 < n_meas s <= INT_MAX ->
  (forall i, (i < Z.to_nat (warmup s) + Z.to_nat (n_meas s))%nat ->
     send_all (tr_sends (trips i)) 0 (Z.of_nat (length (bench_request s))) = true /\
     Forall (fun d => d <> []) (tr_recvs (trips i)) /\
     exists now e, plain_engine e /\
       concat (tr_recvs (trips i)) = handle_line now e None ($"SNAPSHOT " ++ sym s) /\
       Z.of_nat (length (concat (tr_recvs (trips i)))) < resp_size) ->
  exists r, bench_main args true trips wall_ns = Some (0, Some r) /\ requests r = n_meas s /\
    bench_report wall_ns (map (fun i => wrap64 (tr_t1 (trips i) - tr_t0 (trips i)))
      (seq (Z.to_nat (warmup s)) (Z.to_nat (n_meas s)))) = Some r.
Proof.
  intros Hargs Hsym Hn Htrips.
  assert (Hok : forall i, (i < Z.to_nat (warmup s) + Z.to_nat (n_meas s))%nat -> exists r, exchange s (trips i) = Some r).
  { intros i Hi. destruct (Htrips i Hi) as (Hs & Hne & now & e & He & Er & Hlen). unfold exchange. rewrite Hs.
    destruct (handle_line_framed now e None ($"SNAPSHOT " ++ sym s)) as (body & Eb & Hb); [|done|done|].
    { apply not_elem_of_app. split; [by apply NL_literal|done]. }
    exists (body ++ [NL]). rewrite Er, Eb, length_app in Hlen. simpl in Hlen.
    apply recv_line_framed; [by rewrite Er|done|done|lia]. }
  unfold bench_main. rewrite Hargs. cbn [mbind option_bind negb].
  rewrite warm_up_all by (intros i Hi; apply Hok; lia). cbn [negb].
  rewrite (proj2 (Z.ltb_ge _ _)) by lia.
  rewrite measure_all by (intros i Hi; apply Hok; lia).
  set (v := map _ (seq _ _)). assert (Hlen : length v = Z.to_nat (n_meas s)) by (unfold v; by rewrite length_map, length_seq).
  assert (Hv : v <> []) by (intros E; rewrite E in Hlen; simpl in Hlen; lia).
  destruct (bench_report_defined wall_ns v Hv) as (r & Er & Hr); [unfold INT_MAX in Hn; lia|].
  rewrite bool_decide_false, Er by done. exists r. split_and!; [done|lia|done].
Qed.

(** ** Examples *)

(** The options, an option without its value, and one that is not known. *)
Example ex_settings :
  parse_settings [$"--n"; $" 12x"; $"--port"; $"-1"] defaults =
    Some (inl (mkSettings $"127.0.0.1" 65535 $"BTC" 12 1000)) /\
  parse_settings [$"--sym"; $"ETH"; $"--n"] defaults = Some (inr $"--n") /\
  parse_settings [$"-v"; $"1"] defaults = Some (inr $"-v").
Proof. split_and!; vm_compute; reflexivity. Qed.

(** A negative number of requests ends the process in [reserve]. *)
Example negative_count trips wall : bench_main [$"--n"; $"-1"; $"--warmup"; $"0"] true trips wall = None.
Proof. vm_compute. reflexivity. Qed.

(** What follows the newline in the same [recv] is dropped. *)
Example rest_dropped : recv_line 100 [$"a" ++ [NL] ++ $"b"; $"c" ++ [NL]] = Some ($"a" ++ [NL]).
Proof. vm_compute. reflexivity. Qed.

Definition ex_response : bytes := @handle_line default_order 1300 ex_e2 None $"SNAPSHOT BTC".
Definition ex_trips (i : nat) : Trip :=
  mkTrip [4; 9] [take 7 ex_response; drop 7 ex_response] 100 (1100 + 1000 * Z.of_nat i).
Definition ex_args : list bytes := [$"--n"; $"3"; $"--warmup"; $"1"].
Definition ex_bench : Settings := mkSettings $"127.0.0.1" 9092 $"BTC" 3 1.

Lemma ex_e2_plain : plain_engine ex_e2.
Proof.
  intros [k|k] b; simpl; [|by rewrite lookup_empty]. unfold ex_e2, ex_e1. cbn [update_books ws_books_ set_field].
  intros [[_ <-]|[_ [[_ <-]|[_ Hb]]%lookup_insert_Some]]%lookup_insert_Some; [..|by rewrite lookup_empty in Hb];
    split; apply NL_literal; vm_compute; reflexivity.
Qed.

Lemma nonempty_length (l : bytes) n : length l = S n -> l <> [].
Proof. by intros H ->. Qed.
Lemma ex_pieces i : Forall (fun d => d <> []) (tr_recvs (ex_trips i)).
Proof.
  unfold ex_trips, tr_recvs. apply Forall_cons. split; [apply nonempty_length with 6%nat; vm_compute; reflexivity|].
  apply Forall_singleton. apply nonempty_length with (length ex_response - 8)%nat. vm_compute. reflexivity.
Qed.
Lemma ex_whole i : concat (tr_recvs (ex_trips i)) = @handle_line default_order 1300 ex_e2 None $"SNAPSHOT BTC".
Proof. vm_compute. reflexivity. Qed.
Lemma ex_fits i : Z.of_nat (length (concat (tr_recvs (ex_trips i)))) < resp_size.
Proof. vm_compute. reflexivity. Qed.

Lemma bench_measures_server_witness :
  exists r, bench_main ex_args true ex_trips 9000 = Some (0, Some r) /\ requests r = 3.
Proof.
  destruct (@bench_measures_server default_order ex_args ex_trips 9000 ex_bench) as (r & H1 & H2 & _).
  - reflexivity.
  - apply NL_literal. reflexivity.
  - done.
  - intros i _. split; [reflexivity|]. split; [apply ex_pieces|]. exists 1300, ex_e2.
    split; [apply ex_e2_plain|]. split; [apply ex_whole|apply ex_fits].
  - exists r. split; [exact H1|exact H2].
Defined.
