(* ===== verification/MainProgram.v ===== *)
(** * The main program (src/main.cpp)

    How [main] puts the components together: which global objects each mode
    creates, in which order it wires, connects, starts and stops them, what the
    signal handler and the scenario thread do to them meanwhile, and how the
    program ends.  A mode is the list of calls it makes; a call is a step, or
    several, on the table of global objects, of which this file keeps what the
    calls depend on: does the object exist, is it wired, does it run, is its
    thread joinable, and has the thread ended.  What the objects do when they
    run is in their own files.

    [start], [connect] and [stop] are not atomic: a [start] sets the flag and
    then launches the thread, a [stop] tests, clears the flag, looks whether the
    thread is joinable and then waits until it has ended.  A signal may come
    between any two of these steps, to any thread, [main]'s, the scenario's, an
    object's or a library's; its handler makes the same steps, while the thread
    it interrupted stands still and the others go on, and may itself be
    interrupted.  What is undefined or ends the process is a [Fault].  Not
    modelled are the texts that the calls print, and the locks of the libraries
    that a handler may find taken by the thread it interrupted. *)

From stdpp Require Import functions.
From S2P Require Import Prelude Str StdSort Json FeedClients FeedTransport CommandLine ServerLifecycle Scenario LivePrices.

(** ** Objects *)

(** The globals of main.cpp. *)
Inductive Obj :=
  | Dashboard | Engine | Fix | Logger | Registry | Pipeline
  | Client (x : Exchange) | Server (k : Kind).

#[export] Instance Obj_eq_dec : EqDecision Obj.
Proof. solve_decision. Defined.

(** A thread that can be joined: it runs, or has ended. *)
Inductive Run := Alive | Ended.

#[export] Instance Run_eq_dec : EqDecision Run.
Proof. solve_decision. Defined.

(** [thread]: [None] when the [std::thread] is not joinable.  [wired]: its depth
    callback (a client), its FIX callback (the simulator) or its pipeline (a
    server) is set.  The others are not in the code.  [failed]: the set-up of a
    server's socket failed, and its thread has ended; [blocked]: the thread
    waits for something that clearing the flag does not bring (the engine's
    for a notification it has missed, a client's for its exchange, the simple
    server's in [select]); [overtaken]: a [stop] came before the thread was
    launched. *)
Record Worker := mkWorker {
  running : bool;
  thread : option Run;
  wired : bool;
  failed : bool;
  blocked : bool;
  overtaken : bool;
}.
#[export] Instance Worker_settable : Settable Worker :=
  fun w => mkWorker (running w) (thread w) (wired w) (failed w) (blocked w) (overtaken w).

Definition joinable (w : Worker) : bool := bool_decide (thread w <> None).

(** A new object; the tick logger starts its thread when it is constructed. *)
Definition new_worker (o : Obj) : Worker :=
  if bool_decide (o = Logger) then mkWorker true (Some Alive) false false false false
  else mkWorker false None false false false false.

Definition is_server (o : Obj) : bool := match o with Server _ => true | _ => false end.

(** The first lines of [stop], and of [disconnect]: does it go on? *)
Definition passes (o : Obj) (w : Worker) : bool :=
  match o with
  | Dashboard | Server _ => running w
  | Client _ => running w || joinable w
  | _ => true
  end.

(** ** Calls *)

(** The last four are parts of a [start], a [connect] or a [stop]. *)
Inductive Call :=
  | InstallHandlers
  | New (o : Obj)                       (* [g_o = std::make_unique<...>(...)] *)
  | Use (o : Obj)                       (* a call of a setter, or of a method without a thread *)
  | Give (o p : Obj)                    (* [g_o] is handed the pointer [g_p.get()] *)
  | Make (o p : Obj)                    (* [g_o] is constructed with [g_p.get()] *)
  | Wire (o : Obj)
  | Connect (x : Exchange) (needed : bool)
  | Start (o : Obj)
  | StartScenario
  | WaitConnected                       (* the main loop of the full mode *)
  | WaitShutdown                        (* the one of the fix-server mode *)
  | JoinScenario
  | Shutdown                            (* [g_shutdown = true] *)
  | Stop (o : Obj)                      (* [g_o->stop()] *)
  | StopIfSet (o : Obj)                 (* [if (g_o) g_o->stop()] *)
  | Return (code : Z)
  | Launch (o : Obj)                    (* [thread_ = std::thread(...)] *)
  | Clear (o : Obj)                     (* [running_ = false], and a notification *)
  | Join (o : Obj)                      (* [if (thread_.joinable()) thread_.join()], *)
  | Await (o : Obj).                    (* once inside [join] *)

Definition clients : list Exchange := [BinanceWs; VenueWs Coinbase; VenueWs Kraken; VenueWs Bybit].

(** [signal_handler] *)
Definition handler_calls : list Call :=
  [Shutdown; StopIfSet Engine; StopIfSet Dashboard] ++ map (fun x => StopIfSet (Client x)) clients.

(** The scenario thread: what its actions need of the globals. *)
Definition action_calls (a : Action) : list Call :=
  match a with
  | SetPaused _ | SetHz _ => [Use Fix]
  | RecordEvent _ _ | Sleep _ => []
  | Finish => [Shutdown; StopIfSet Engine; StopIfSet Dashboard]
  end.
Definition scenario_calls : list Call := concat (map action_calls scenario).

Definition register_remotes (o : Options) : list Call := map (fun _ => Use Registry) (remote_specs o).

(** [--mode report-client]; the last [Use] stands for the calls of its loop. *)
Definition report_client_calls (o : Options) : list Call :=
  [New Registry] ++ register_remotes o ++ [Use Registry; Make Pipeline Registry; Use Pipeline; Return 0].

(** [--mode fix-server] *)
Definition fix_server_calls (o : Options) : list Call :=
  [InstallHandlers; New Engine; Use Engine; New Registry; Give Registry Engine; Use Registry] ++
  register_remotes o ++
  [Make Pipeline Registry; Make (Server Simple) Engine; Give (Server Simple) Pipeline; Wire (Server Simple);
   Start (Server Simple); New Fix] ++ map (fun _ => Use Fix) fix_symbols ++ [Use Fix; Use Fix; Give Fix Engine; Wire Fix; Start Fix;
   Start Engine; WaitShutdown; Stop Fix; Stop Engine; Stop (Server Simple); Return 0].

(** The callbacks of a client capture the dashboard and the engine. *)
Definition wire_client (x : Exchange) : list Call :=
  [Give (Client x) Dashboard; Give (Client x) Engine; Wire (Client x)].

(** [--query-server=...] *)
Definition server_calls (o : Options) : list Call :=
  let served k := [Make (Server k) Engine; Give (Server k) Pipeline; Wire (Server k); Start (Server k)] in
  if bool_decide (query_server_mode o = $"epoll") then served Epoll
  else if bool_decide (query_server_mode o = $"uring") then served Uring
  else [].

(** The default mode, part by part: the objects, *)
Definition create_objects : list Call :=
  [InstallHandlers; New Dashboard; New Engine; New Logger; Give Engine Logger] ++ map (fun x => New (Client x)) clients.

(** the callbacks, *)
Definition wire_clients : list Call := concat (map wire_client clients) ++ [Give Dashboard Engine].

(** the simulator with its symbols, rates, oracle and callback, *)
Definition configure_fix (o : Options) : list Call :=
  [New Fix] ++ map (fun _ => Use Fix) fix_symbols ++ [Use Fix; Use Fix] ++
  (if 0 <? burst_interval_ms o then [Use Fix] else []) ++ [Use Fix; Give Fix Engine; Wire Fix].

(** the connections, of which only Binance's is needed, *)
Definition connect_all : list Call := map (fun x => Connect x (bool_decide (x = BinanceWs))) clients.

(** the reporting pipeline, a source per exchange, *)
Definition EXCHANGES : list bytes := [$"Binance"; $"Coinbase"; $"Kraken"; $"Bybit"; $"FIX"].
Definition create_pipeline : list Call :=
  [New Registry] ++ map (fun _ => Give Registry Engine) EXCHANGES ++ [Use Registry; Make Pipeline Registry].

(** the engine, *)
Definition start_engine : list Call := [Use Engine; Use Engine; Use Engine; Start Engine].

(** the simulator's thread and the scenario, *)
Definition start_fix (o : Options) : list Call :=
  if chaos_test o then [Start Fix; StartScenario] else if 0 <? burst_interval_ms o then [Start Fix] else [].

(** the dashboard and the main loop, *)
Definition run_dashboard : list Call := [Use Dashboard; Start Dashboard; WaitConnected].

(** and the end. *)
Definition shut_down : list Call :=
  [JoinScenario; StopIfSet Fix; StopIfSet Engine; StopIfSet Dashboard] ++
  map (fun x => StopIfSet (Client x)) clients ++
  [StopIfSet (Server Epoll); StopIfSet (Server Uring); Return 0].

Definition full_calls (o : Options) : list Call :=
  create_objects ++ wire_clients ++ configure_fix o ++ connect_all ++ create_pipeline ++ server_calls o ++
  start_engine ++ start_fix o ++ run_dashboard ++ shut_down.

Definition main_calls (o : Options) : list Call :=
  if bool_decide (mode o = $"report-client") then report_client_calls o
  else if bool_decide (mode o = $"fix-server") then fix_server_calls o
  else full_calls o.

(** ** State *)

(** What a signal handler interrupts: [main], the scenario thread, the thread of
    an object, or one that a library started. *)
Inductive Host := OnMain | OnScenario | OnThread (o : Obj) | OnLibrary (n : nat).

#[export] Instance Host_eq_dec : EqDecision Host.
Proof. solve_decision. Defined.

(** A signal handler that runs: what it has left to do. *)
Record Frame := mkFrame { host : Host; calls : list Call }.
#[export] Instance Frame_settable : Settable Frame := fun f => mkFrame (host f) (calls f).

(** [scenario_]: [None] when [g_scenario_thread] is not joinable, else what the
    thread has left to do; [todo]: what [main] has; [frames]: the handlers, the
    latest last. *)
Record Main := mkMain {
  objs : Obj -> option Worker;
  g_shutdown : bool;
  handlers : bool;
  scenario_ : option (list Call);
  todo : list Call;
  exit_code : option Z;
  frames : list Frame;
}.
#[export] Instance Main_settable : Settable Main :=
  fun m => mkMain (objs m) (g_shutdown m) (handlers m) (scenario_ m) (todo m) (exit_code m) (frames m).

Definition main_start (o : Options) : Main := mkMain (fun _ => None) false false None (main_calls o) None [].

Definition set_obj (o : Obj) (w : Worker) (m : Main) : Main := m <| objs := <[o := Some w]> (objs m) |>.

Definition is_running (m : Main) (o : Obj) : bool := match objs m o with Some w => running w | None => false end.
Definition exists_ (m : Main) (o : Obj) : bool := bool_decide (is_Some (objs m o)).

(** Who makes calls. *)
Inductive Agent := ByMain | ByScenario | ByHandler (i : nat).

#[export] Instance Agent_eq_dec : EqDecision Agent.
Proof. solve_decision. Defined.

Definition calls_of (a : Agent) (m : Main) : option (list Call) :=
  match a with ByMain => Some (todo m) | ByScenario => scenario_ m | ByHandler i => calls <$> frames m !! i end.

Definition set_calls (a : Agent) (cs : list Call) (m : Main) : Main :=
  match a with
  | ByMain => m <| todo := cs |>
  | ByScenario => m <| scenario_ := Some cs |>
  | ByHandler i => m <| frames := alter (fun f => f <| calls := cs |>) i (frames m) |>
  end.

(** The thread an agent runs on. *)
Definition host_of (a : Agent) (m : Main) : Host :=
  match a with
  | ByMain => OnMain
  | ByScenario => OnScenario
  | ByHandler i => default OnMain (host <$> frames m !! i)
  end.

(** A handler runs on this thread. *)
Definition hosted (h : Host) (fs : list Frame) : bool := existsb (fun f => bool_decide (host f = h)) fs.

(** A (later) handler has interrupted the agent. *)
Definition suspended (a : Agent) (m : Main) : bool :=
  match a with
  | ByMain => hosted OnMain (frames m)
  | ByScenario => hosted OnScenario (frames m)
  | ByHandler i => hosted (host_of a m) (drop (S i) (frames m))
  end.

(** ** Steps *)

(** What ends the process, or is undefined: a call through a null pointer,
    assigning to a joinable thread ([std::terminate]), a thread that joins
    itself ([std::system_error]), and a thread joined by two at a time. *)
Inductive Fault := NullPointer | Terminate | SelfJoin (o : Obj) | DoubleJoin (o : Obj).

(** The lists of calls there are. *)
Definition lists (m : Main) : list (list Call) := todo m :: default [] (scenario_ m) :: map calls (frames m).

(** Inside [join] of the thread of [o]. *)
Definition awaits (o : Obj) (cs : list Call) : bool :=
  match cs with Await o' :: _ => bool_decide (o' = o) | _ => false end.
Definition awaited (o : Obj) (m : Main) : bool := existsb (awaits o) (lists m).

Definition with_obj (o : Obj) (m : Main) (k : Worker -> Fault + (list Call * Main)) : Fault + (list Call * Main) :=
  match objs m o with Some w => k w | None => inl NullPointer end.

(** [stop]: a server's exchanges its flag for false, the others read it first. *)
Definition stop_calls (o : Obj) (w : Worker) : list Call :=
  if passes o w then if is_server o then [Join o] else [Clear o; Join o] else [].
Definition exchanged (o : Obj) (w : Worker) : Worker := if is_server o then w <| running := false |> else w.

(** [running_ = false]; [ArbitrageEngine::stop] also notifies. *)
Definition cleared (o : Obj) (w : Worker) : Worker :=
  w <| running := false |> <| blocked := if bool_decide (o = Engine) then false else blocked w |>.

(** [start] of the dashboard, the engine, the simulator (which also returns when
    it has no callback) and the servers, up to the thread. *)
Definition start_returns (o : Obj) (w : Worker) : bool := running w || bool_decide (o = Fix) && negb (wired w).

(** A call on the thread [h], and what the agent does next, with [rest] to do
    after the call; [through] is what the network gives to a [connect]. *)
Definition exec (h : Host) (through : bool) (c : Call) (rest : list Call) (m : Main) : Fault + (list Call * Main) :=
  match c with
  | InstallHandlers => inr (rest, m <| handlers := true |>)
  | New o => inr (rest, set_obj o (new_worker o) m)
  | Use o => with_obj o m (fun _ => inr (rest, m))
  | Give o p => with_obj o m (fun _ => with_obj p m (fun _ => inr (rest, m)))
  | Make o p => with_obj p m (fun _ => inr (rest, set_obj o (new_worker o) m))
  | Wire o => with_obj o m (fun w => inr (rest, set_obj o (w <| wired := true |>) m))
  | Connect x needed => with_obj (Client x) m (fun w =>
      if negb (running w) && through then inr (Launch (Client x) :: rest, set_obj (Client x) (w <| running := true |>) m)
      else if needed then inr ([], m <| exit_code := Some 1 |>) else inr (rest, m))
  | Start o => with_obj o m (fun w =>
      if start_returns o w then inr (rest, m) else inr (Launch o :: rest, set_obj o (w <| running := true |>) m))
  | StartScenario =>
      match scenario_ m with Some _ => inl Terminate | None => inr (rest, m <| scenario_ := Some scenario_calls |>) end
  | WaitConnected => if forallb (fun x => exists_ m (Client x)) clients then inr (rest, m) else inl NullPointer
  | WaitShutdown => inr (rest, m)
  | JoinScenario => inr (rest, m <| scenario_ := None |>)
  | Shutdown => inr (rest, m <| g_shutdown := true |>)
  | Stop o => with_obj o m (fun w => inr (stop_calls o w ++ rest, set_obj o (exchanged o w) m))
  | StopIfSet o =>
      match objs m o with
      | Some w => inr (stop_calls o w ++ rest, set_obj o (exchanged o w) m)
      | None => inr (rest, m)
      end
  | Return code => inr ([], m <| exit_code := Some code |>)
  | Launch o => with_obj o m (fun w =>
      if joinable w then inl Terminate
      else inr (rest, set_obj o (w <| thread := Some Alive |> <| overtaken := negb (running w) |>) m))
  | Clear o => with_obj o m (fun w => inr (rest, set_obj o (cleared o w) m))
  | Join o => with_obj o m (fun w =>
      if negb (joinable w) then inr (rest, m)
      else if bool_decide (h = OnThread o) then inl (SelfJoin o)
      else if awaited o m then inl (DoubleJoin o)
      else inr (Await o :: rest, m))
  | Await o => with_obj o m (fun w => inr (rest, set_obj o (w <| thread := None |>) m))
  end.

(** The calls that wait, and for what. *)
Definition ready (c : Call) (m : Main) : bool :=
  match c with
  | WaitConnected => g_shutdown m || negb (existsb (fun x => is_running m (Client x)) clients)
  | WaitShutdown => g_shutdown m
  | JoinScenario => match scenario_ m with Some (_ :: _) => false | _ => negb (hosted OnScenario (frames m)) end
  | Await o => match objs m o with Some w => bool_decide (thread w = Some Ended) | None => false end
  | _ => true
  end.

(** The next call of an agent; [None]: it has none, is interrupted or waits. *)
Definition run_call (a : Agent) (through : bool) (m : Main) : option (Fault + Main) :=
  match calls_of a m with
  | Some (c :: rest) =>
      if suspended a m || negb (ready c m) then None
      else Some (match exec (host_of a m) through c rest m with
                 | inl f => inl f
                 | inr (cs, m') => inr (set_calls a cs m')
                 end)
  | _ => None
  end.

(** A handler that has no call left returns. *)
Definition return_handler (i : nat) (m : Main) : option Main :=
  f ← frames m !! i;
  match calls f with
  | [] => if suspended (ByHandler i) m then None else Some (m <| frames := delete i (frames m) |>)
  | _ => None
  end.

(** The thread of an object sees that its flag is down, and ends. *)
Definition end_thread (o : Obj) (m : Main) : option Main :=
  w ← objs m o;
  if bool_decide (thread w = Some Alive) && negb (running w) && negb (blocked w) && negb (hosted (OnThread o) (frames m))
  then Some (set_obj o (w <| thread := Some Ended |>) m) else None.

(** The end of the process: the globals are destroyed in the reverse order of
    their declaration, each stopped once more; [None] is the destruction of a
    joinable thread. *)
Definition globals : list Obj :=
  map Client clients ++ [Dashboard; Engine; Fix; Server Epoll; Server Uring; Server Simple; Logger; Registry; Pipeline].

Definition destroy (o : Obj) (m : Main) : ub Main :=
  match objs m o with
  | None => Some m
  | Some w => if joinable w && negb (passes o w) then None else Some (m <| objs := <[o := None]> (objs m) |>)
  end.

Definition destroy_globals (m : Main) : ub Main :=
  match scenario_ m with
  | Some _ => None
  | None => foldr (fun o r => m ← r; destroy o m) (Some m) globals
  end.

(** ** Executions *)

(** The steps of the program's own threads. *)
Inductive own_step : Main -> Main -> Prop :=
  | own_call a through m m' : run_call a through m = Some (inr m') -> own_step m m'
  | own_return i m m' : return_handler i m = Some m' -> own_step m m'
  | own_end o m m' : end_thread o m = Some m' -> own_step m m'.

(** The thread that a signal may interrupt. *)
Definition live (h : Host) (m : Main) : Prop :=
  match h with
  | OnMain | OnLibrary _ => True
  | OnScenario => exists cs, scenario_ m = Some cs /\ cs <> []
  | OnThread o => exists w, objs m o = Some w /\ thread w = Some Alive
  end.

(** The objects whose thread can wait although its flag is down. *)
Definition can_block (o : Obj) : bool :=
  match o with Engine | Client _ | Server Simple => true | _ => false end.

(** Until [main] has returned: a signal, a connection that is lost, a server
    whose set-up fails, the engine's report limit, and a thread that gets stuck
    or is woken. *)
Inductive outside_step : Main -> Main -> Prop :=
  | outside_signal h m :
      handlers m = true -> todo m <> [] -> live h m ->
      outside_step m (m <| frames := frames m ++ [mkFrame h handler_calls] |>)
  | outside_lost x w m :
      objs m (Client x) = Some w -> thread w = Some Alive ->
      outside_step m (set_obj (Client x) (w <| running := false |>) m)
  | outside_failed k w m :
      objs m (Server k) = Some w -> thread w = Some Alive -> running w = true ->
      outside_step m (set_obj (Server k) (w <| running := false |> <| thread := Some Ended |> <| failed := true |>) m)
  | outside_limit w m :
      objs m Engine = Some w -> thread w = Some Alive ->
      outside_step m ((set_obj Engine (w <| running := false |>) m) <| g_shutdown := true |>)
  | outside_block o b w m :
      objs m o = Some w -> thread w = Some Alive -> can_block o = true ->
      outside_step m (set_obj o (w <| blocked := b |>) m).

Definition step (m m' : Main) : Prop := own_step m m' \/ outside_step m m'.

(** ** A checker of call lists

    What is known of an object at a point of [main], whatever the signals, the
    scenario thread, the network and the servers' set-up have done. *)
Inductive Phase :=
  | Absent
  | Fresh (wired : bool)        (* constructed, never started *)
  | Starting                    (* started, its thread not launched yet *)
  | Live                        (* launched, and perhaps stopped since *)
  | Stopped.

#[export] Instance Phase_eq_dec : EqDecision Phase.
Proof. solve_decision. Defined.

(** The phases of the objects, and whether there may be a scenario thread. *)
Record Known := mkKnown { phase : Obj -> Phase; scenario_on : bool }.
#[export] Instance Known_settable : Settable Known := fun s => mkKnown (phase s) (scenario_on s).

Definition nothing : Known := mkKnown (fun _ => Absent) false.
Definition set_phase (o : Obj) (p : Phase) (s : Known) : Known := s <| phase := <[o := p]> (phase s) |>.
Definition present (s : Known) (o : Obj) : bool := negb (bool_decide (phase s o = Absent)).
Definition started (s : Known) (o : Obj) : bool :=
  match phase s o with Starting | Live | Stopped => true | _ => false end.

(** Objects that may run without being wired. *)
Definition free (o : Obj) : bool := bool_decide (o = Dashboard) || bool_decide (o = Engine).

Definition created (o : Obj) : Phase := if bool_decide (o = Logger) then Live else Fresh false.

(** Only the logger's thread is left to its destructor. *)
Definition over (p : Phase) : bool := match p with Starting | Live => false | _ => true end.
Definition ended (s : Known) : bool :=
  negb (scenario_on s) && forallb (fun o => bool_decide (o = Logger) || over (phase s o)) globals.

Definition after_stop (p : Phase) : Phase := match p with Live => Stopped | _ => p end.

(** The scenario thread stops what [main] stops after it: it has to be joined
    before. *)
Definition know_stop (o : Obj) (s : Known) : option Known :=
  if scenario_on s then None else Some (set_phase o (after_stop (phase s o)) s).

Definition know (c : Call) (s : Known) : option Known :=
  match c with
  | InstallHandlers | Shutdown | WaitShutdown => Some s
  | New o => if present s o then None else Some (set_phase o (created o) s)
  | Use o => if present s o then Some s else None
  | Give o p => if present s o && present s p then Some s else None
  | Make o p => if present s p && negb (present s o) then Some (set_phase o (created o) s) else None
  | Wire o => match phase s o with Fresh _ => Some (set_phase o (Fresh true) s) | _ => None end
  | Connect x needed =>
      match phase s (Client x) with
      | Fresh true => if needed && negb (ended s) then None else Some (set_phase (Client x) Live s)
      | _ => None
      end
  | Start o =>
      match phase s o with
      | Fresh b => if b || free o then Some (set_phase o Live s) else None
      | _ => None
      end
  | StartScenario =>
      if scenario_on s || negb (present s Fix) || negb (started s Engine) then None else Some (s <| scenario_on := true |>)
  | WaitConnected => if forallb (fun x => present s (Client x)) clients then Some s else None
  | JoinScenario => Some (s <| scenario_on := false |>)
  | Stop o | Join o | Await o => if present s o then know_stop o s else None
  | StopIfSet o => know_stop o s
  | Return _ => Some s
  | Launch o => match phase s o with Starting => Some (set_phase o Live s) | _ => None end
  | Clear o => if present s o && negb (scenario_on s) then Some s else None
  end.

Fixpoint check (cs : list Call) (s : Known) : bool :=
  match cs with
  | [] => false
  | Return _ :: _ => ended s
  | c :: cs' => match know c s with Some s' => check cs' s' | None => false end
  end.

Fixpoint know_all (cs : list Call) (s : Known) : option Known :=
  match cs with [] => Some s | c :: cs' => s ← know c s; know_all cs' s end.

Definition is_return (c : Call) : bool := match c with Return _ => true | _ => false end.

Lemma check_app cs cs' s :
  forallb (fun c => negb (is_return c)) cs = true ->
  check (cs ++ cs') s = match know_all cs s with Some s' => check cs' s' | None => false end.
Proof.
  revert s. induction cs as [|c cs IH]; intros s; [done|]. intros [Hc Hcs]%andb_true_iff. cbn [app know_all].
  transitivity (match know c s with Some s' => check (cs ++ cs') s' | None => false end); [by destruct c|].
  destruct (know c s) as [s'|]; [by apply IH|done].
Qed.

(** Every mode passes, whatever the options: the loop over the remotes makes
    no difference. *)
Lemma check_remotes pre o cs :
  forallb (fun c => negb (is_return c)) pre = true ->
  match know_all pre nothing with Some s => present s Registry && check cs s | None => false end = true ->
  check (pre ++ register_remotes o ++ cs) nothing = true.
Proof.
  intros Hpre Hs. rewrite check_app by done. destruct (know_all pre nothing) as [s|]; [|done].
  apply andb_true_iff in Hs as [Hr Hc]. rewrite <-Hc. unfold register_remotes.
  induction (remote_specs o) as [|r rs IH]; [done|]. simpl. by rewrite Hr.
Qed.

Lemma check_main o : check (main_calls o) nothing = true.
Proof.
  unfold main_calls. case_bool_decide; [|case_bool_decide].
  - apply check_remotes; by vm_compute.
  - apply check_remotes; by vm_compute.
  - unfold full_calls, server_calls, configure_fix, start_fix. destruct (bool_decide (query_server_mode o = _)), (bool_decide (query_server_mode o = _)),
      (0 <? burst_interval_ms o), (chaos_test o); by vm_compute.
Qed.

Lemma forallb_same {A} (f g : A -> bool) l : (forall x, f x = g x) -> forallb f l = forallb g l.
Proof. intros H. induction l as [|x l IH]; simpl; [done|by rewrite H, IH]. Qed.

(** Two states of knowledge that agree everywhere. *)
Definition same_known (s s' : Known) : Prop := (forall o, phase s o = phase s' o) /\ scenario_on s = scenario_on s'.

Lemma same_set_phase o p s s' : same_known s s' -> same_known (set_phase o p s) (set_phase o p s').
Proof.
  intros [H1 H2]. split; [|done]. intros o'. simpl. destruct (decide (o = o')) as [<-|Hne].
  - by rewrite !fn_lookup_insert.
  - by rewrite !fn_lookup_insert_ne.
Qed.

Lemma same_ended s s' : same_known s s' -> ended s = ended s'.
Proof.
  intros [H1 H2]. unfold ended. rewrite H2. f_equal. apply forallb_same. intros o. by rewrite H1.
Qed.

Lemma same_know c s s' :
  same_known s s' ->
  match know c s, know c s' with Some s1, Some s2 => same_known s1 s2 | None, None => True | _, _ => False end.
Proof.
  intros H. pose proof H as [H1 H2].
  assert (Hp : forall o, present s o = present s' o) by (intros o; unfold present; by rewrite H1).
  assert (Hst : forall o, started s o = started s' o) by (intros o; unfold started; by rewrite H1).
  destruct c; cbn [know]; unfold know_stop; rewrite ?Hp, ?Hst, ?H1, ?H2, ?(same_ended s s' H);
    try (repeat (match goal with
           | |- context [match phase s' ?o with _ => _ end] => destruct (phase s' o)
           | |- context [if ?b then _ else _] => destruct b
           end); first [done|by apply same_set_phase]).
  rewrite (forallb_same _ (fun x => present s' (Client x))) by (intros; apply Hp). by destruct (forallb _ _).
Qed.

Lemma check_same cs s s' : same_known s s' -> check cs s = check cs s'.
Proof.
  revert s s'. induction cs as [|c cs IH]; intros s s' H; [done|].
  pose proof (same_know c s s' H) as Hk. pose proof (same_ended s s' H) as He.
  destruct c; try exact He; cbn [check]; destruct (know _ s), (know _ s'); try done; by apply IH.
Qed.

Lemma same_phase_id o s p : phase s o = p -> same_known (set_phase o p s) s.
Proof.
  intros <-. split; [|done]. intros o'. simpl. destruct (decide (o = o')) as [<-|Hne].
  - by rewrite fn_lookup_insert.
  - by rewrite fn_lookup_insert_ne.
Qed.

Lemma same_phase_twice o p q s : same_known (set_phase o p (set_phase o q s)) (set_phase o p s).
Proof.
  split; [|done]. intros o'. simpl. destruct (decide (o = o')) as [<-|Hne].
  - by rewrite !fn_lookup_insert.
  - by rewrite !fn_lookup_insert_ne.
Qed.

(** ** The lists of calls *)

Definition idx (a : Agent) : nat := match a with ByMain => 0 | ByScenario => 1 | ByHandler i => S (S i) end.

Lemma lists_lookup a m cs : calls_of a m = Some cs -> lists m !! idx a = Some cs.
Proof. destruct a as [| |i]; simpl; [by intros [= <-]|by intros ->|]. intros H. by rewrite list_lookup_fmap. Qed.

Lemma lists_elem m cs : cs ∈ lists m -> cs = [] \/ exists a, calls_of a m = Some cs.
Proof.
  intros [->|[->|Hin]%elem_of_cons]%elem_of_cons.
  - right. by exists ByMain.
  - destruct (scenario_ m) as [l|] eqn:E; [right; by exists ByScenario|by left].
  - apply list_elem_of_lookup in Hin as [i Hi]. right. exists (ByHandler i). simpl. by rewrite list_lookup_fmap in Hi.
Qed.

Lemma elem_lists a m cs : calls_of a m = Some cs -> cs ∈ lists m.
Proof. intros H%lists_lookup. by eapply list_elem_of_lookup_2. Qed.

(** The agent's list is replaced, and nothing else about the agents. *)
Definition moved (a : Agent) (cs : list Call) (m m' : Main) : Prop :=
  lists m' = <[idx a := cs]> (lists m) /\
  (forall b, calls_of b m' = if decide (a = b) then Some cs else calls_of b m) /\
  map host (frames m') = map host (frames m).

Lemma set_calls_moved a cs old m m1 :
  calls_of a m = Some old -> todo m1 = todo m -> scenario_ m1 = scenario_ m -> frames m1 = frames m ->
  moved a cs m (set_calls a cs m1).
Proof.
  intros Ho E1 E2 E3. destruct a as [| |i]; unfold moved, lists; simpl in *; rewrite ?E1, ?E2, ?E3.
  - split_and!; [done| |done]. by intros [| |j].
  - split_and!; [done| |done]. by intros [| |j].
  - apply fmap_Some in Ho as (f & Hf & ->). split_and!.
    + do 2 f_equal. rewrite list_insert_alter.
      refine (list_fmap_alter calls (fun f => mkFrame (host f) cs) (fun _ => cs) (frames m) i _). by apply Forall_forall.
    + intros [| |j]; [done..|]. destruct (decide (i = j)) as [<-|Hne].
      * rewrite decide_True by done. cbn [calls_of frames]. by rewrite list_lookup_alter_eq, Hf.
      * rewrite decide_False by congruence. cbn [calls_of frames]. by rewrite list_lookup_alter_ne.
    + etransitivity; [refine (list_fmap_alter host (fun f => mkFrame (host f) cs) id (frames m) i _); by apply Forall_forall|].
      by apply list_alter_id.
Qed.

(** Parts of calls come first, and a [Clear] is followed by its [Join]. *)
Definition simple (c : Call) : bool :=
  match c with Launch _ | Clear _ | Join _ | Await _ => false | _ => true end.
Definition shape (cs : list Call) : bool :=
  match cs with
  | Clear o :: Join o' :: rest => bool_decide (o = o') && forallb simple rest
  | (Launch _ | Join _ | Await _) :: rest => forallb simple rest
  | _ => forallb simple cs
  end.

Definition joins (o : Obj) (cs : list Call) : bool :=
  match cs with (Join o' | Await o') :: _ => bool_decide (o' = o) | _ => false end.

Lemma shape_simple cs : forallb simple cs = true -> shape cs = true.
Proof. intros H. destruct cs as [|c cs]; [done|]. by destruct c. Qed.

Lemma simple_free o cs : forallb simple cs = true -> awaits o cs = false /\ joins o cs = false /\ (Join o ∉ cs) /\ (Await o ∉ cs).
Proof.
  intros H. rewrite forallb_forall in H.
  assert (Hn : forall c, simple c = false -> c ∉ cs).
  { intros c Hc Hin. apply list_elem_of_In, H in Hin. congruence. }
  split_and!; [| |by apply Hn|by apply Hn]; (destruct cs as [|c cs]; [done|]);
    specialize (H c (or_introl eq_refl)); by destruct c.
Qed.

(** What is left after the first call. *)
Lemma shape_rest c rest :
  shape (c :: rest) = true ->
  shape rest = true /\ (forall o, awaits o rest = false) /\
  match c with
  | Clear o => exists r, rest = Join o :: r /\ forallb simple r = true
  | _ => forallb simple rest = true
  end.
Proof.
  intros H.
  assert (Hs : forallb simple rest = true -> shape rest = true /\ (forall o, awaits o rest = false)).
  { intros Hr. split; [by apply shape_simple|]. intros o. by apply simple_free. }
  destruct c; simpl in H; try (split_and!; [by apply Hs|by apply Hs|exact H]); try done.
  destruct rest as [|[] rest]; try done. apply andb_true_iff in H as [->%bool_decide_eq_true_1 H].
  split_and!; [exact H|done|by eexists].
Qed.

(** An agent is inside, or about to enter, a [join] of the thread of [o]. *)
Definition pend (o : Obj) (m : Main) : Prop := Exists (fun cs => Join o ∈ cs \/ Await o ∈ cs) (lists m).

Definition awaiters (o : Obj) (m : Main) : nat :=
  sum_list_with (fun cs => if awaits o cs then 1%nat else 0%nat) (lists m).

Lemma awaited_awaiters o m : awaited o m = false -> awaiters o m = 0%nat.
Proof.
  unfold awaited, awaiters. induction (lists m) as [|cs l IH]; [done|]. simpl. destruct (awaits o cs); [done|]. exact IH.
Qed.

Lemma awaiters_moved o a cs old m m' :
  calls_of a m = Some old -> moved a cs m m' ->
  (awaiters o m' + (if awaits o old then 1 else 0) = awaiters o m + (if awaits o cs then 1 else 0))%nat.
Proof.
  intros Ho (E & _). unfold awaiters. rewrite E.
  apply (sum_list_insert (fun cs => if awaits o cs then 1%nat else 0%nat)). by apply lists_lookup.
Qed.

Lemma pend_moved o a cs old m m' :
  calls_of a m = Some old -> moved a cs m m' ->
  (Join o ∈ old -> Join o ∈ cs \/ Await o ∈ cs) -> (Await o ∈ old -> Await o ∈ cs) -> pend o m -> pend o m'.
Proof.
  intros Ho (E & _) H1 H2. unfold pend. rewrite E. apply lists_lookup in Ho. rewrite !Exists_exists.
  intros (l & Hl & Hin). apply list_elem_of_lookup in Hl as [k Hk].
  destruct (decide (idx a = k)) as [<-|Hne].
  - exists cs. split; [apply list_elem_of_lookup; exists (idx a); apply list_lookup_insert_eq; by eapply lookup_lt_Some|].
    rewrite Ho in Hk. injection Hk as <-. destruct Hin as [Hin|Hin]; [by apply H1|right; by apply H2].
  - exists l. split; [|done]. apply list_elem_of_lookup. exists k. by rewrite list_lookup_insert_ne.
Qed.

(** ** What the checker's knowledge means *)

Definition guarded (o : Obj) : bool := bool_decide (o = Dashboard) || is_server o.

(** [P] is that somebody is about to join the thread.  A guarded [stop] joins
    only if it finds the flag up; so when the flag is down and the thread still
    joinable, somebody else is about to join it, or it never will be. *)
Definition abandoned (o : Obj) (w : Worker) (P : Prop) : Prop :=
  guarded o = true /\ (failed w = true \/ overtaken w = true \/ P).

Definition worker_ok (o : Obj) (p : Phase) (P : Prop) (w : Worker) : Prop :=
  (failed w = true -> is_server o = true) /\
  match p with
  | Absent => False
  | Fresh b => running w = false /\ thread w = None /\ wired w = b
  | Starting => thread w = None /\ (wired w = true \/ free o = true)
  | Live => (wired w = true \/ free o = true \/ o = Logger) /\
      (guarded o = true -> joinable w = true -> running w = false -> abandoned o w P)
  | Stopped => running w = false /\ (wired w = true \/ free o = true \/ o = Logger) /\
      (joinable w = true -> abandoned o w P)
  end.

Definition obj_ok (p : Phase) (o : Obj) (P : Prop) (ow : option Worker) : Prop :=
  match ow with None => p = Absent | Some w => worker_ok o p P w end.

(** What the scenario thread and the signal handlers stop. *)
Definition stoppable (o : Obj) : bool := match o with Engine | Dashboard | Client _ => true | _ => false end.

(** The calls they make; [scen]: on the scenario's thread. *)
Definition side_call (s : Known) (scen : bool) (c : Call) : bool :=
  match c with
  | Use o => bool_decide (o = Fix) && scen
  | Shutdown => true
  | StopIfSet o => stoppable o
  | Clear o | Join o | Await o => stoppable o && present s o && (negb scen || started s o)
  | _ => false
  end.

Definition scen_side (a : Agent) (m : Main) : bool := bool_decide (host_of a m = OnScenario).

(** Not on a thread that goes on while [main] does, but for the scenario's. *)
Definition quiet_host (h : Host) : bool := match h with OnMain | OnScenario => true | _ => false end.
Definition quiet (a : Agent) (m : Main) : bool := quiet_host (host_of a m).

Record known_ok (s : Known) (m : Main) : Prop := {
  ko_objs o : obj_ok (phase s o) o (pend o m) (objs m o);
  ko_shape cs : cs ∈ lists m -> shape cs = true;
  ko_side a cs : calls_of a m = Some cs -> a <> ByMain -> forallb (side_call s (scen_side a m)) cs = true;
  ko_scen a cs : calls_of a m = Some cs -> scen_side a m = true -> scenario_on s = true;
  ko_on : scenario_on s = true -> present s Fix = true /\ started s Engine = true;
  ko_quiet a cs o w : calls_of a m = Some cs -> quiet a m = true -> joins o cs = true -> objs m o = Some w -> running w = false;
  ko_await o : (awaiters o m <= 1)%nat /\ ((0 < awaiters o m)%nat -> exists w, objs m o = Some w /\ joinable w = true);
}.

Lemma worker_ok_impl o p (P Q : Prop) w : (P -> Q) -> worker_ok o p P w -> worker_ok o p Q w.
Proof.
  intros H [Hf Hp]. split; [done|]. unfold abandoned in *. destruct p; [done..| |].
  - destruct Hp as [H1 H2]. split; [done|]. intros. destruct H2 as [? [?|[?|?]]]; auto.
  - destruct Hp as (H1 & H2 & H3). split_and!; try done. intros. destruct H3 as [? [?|[?|?]]]; auto.
Qed.

Lemma obj_ok_impl p o (P Q : Prop) ow : (P -> Q) -> obj_ok p o P ow -> obj_ok p o Q ow.
Proof. intros H. destruct ow; [by apply worker_ok_impl|done]. Qed.

Lemma present_worker s m o : known_ok s m -> present s o = true -> exists w, objs m o = Some w /\ worker_ok o (phase s o) (pend o m) w.
Proof.
  intros Hk Hp. pose proof (ko_objs s m Hk o) as Ho. unfold present, obj_ok in *. destruct (objs m o) as [w|]; [by exists w|].
  by rewrite Ho in Hp.
Qed.

Lemma worker_present s m o w : known_ok s m -> objs m o = Some w -> present s o = true.
Proof.
  intros Hk Hw. pose proof (ko_objs s m Hk o) as Ho. rewrite Hw in Ho. unfold present.
  destruct (phase s o); try done. by destruct Ho.
Qed.

Lemma host_of_moved a b cs m m' : moved a cs m m' -> host_of b m' = host_of b m.
Proof.
  intros (_ & _ & E). destruct b as [| |i]; [done..|]. simpl.
  assert (E' : host <$> frames m' = host <$> frames m) by exact E. by rewrite <-!list_lookup_fmap, E'.
Qed.

(** ** Steps of one agent on one object *)


(** The agent [a] goes on with [cs], the object [o] is now [ow], and more may be
    known of it; everything else is as it was. *)
Lemma upd_ok s s' m m' a old cs o ow :
  known_ok s m -> calls_of a m = Some old -> moved a cs m m' ->
  (forall o', o' <> o -> objs m' o' = objs m o' /\ phase s' o' = phase s o') -> objs m' o = ow ->
  scenario_on s' = scenario_on s ->
  (present s o = true -> present s' o = true) -> (started s o = true -> started s' o = true) ->
  shape cs = true ->
  (a <> ByMain -> forallb (side_call s' (scen_side a m)) cs = true) ->
  (forall o' w, quiet a m = true -> joins o' cs = true -> objs m' o' = Some w -> running w = false) ->
  (forall w', ow = Some w' -> running w' = true ->
     (exists w, objs m o = Some w /\ running w = true) \/
     (forall b bs, b <> a -> calls_of b m = Some bs -> quiet b m = true -> joins o bs = false)) ->
  obj_ok (phase s' o) o (pend o m') ow ->
  (forall o', o' <> o -> (Join o' ∈ old -> Join o' ∈ cs) /\ (Await o' ∈ old -> Await o' ∈ cs)) ->
  (forall o', o' <> o -> awaits o' cs = awaits o' old) ->
  (awaiters o m' <= 1)%nat -> ((0 < awaiters o m')%nat -> exists w, ow = Some w /\ joinable w = true) ->
  known_ok s' m'.
Proof.
  intros Hk Ho Hm Hother Hobj Hon Hpres Hst Hshape Hside Hquiet Hrun Hok Hpend Haw Hle Hjoin.
  pose proof Hm as (El & Ec & Eh).
  assert (Hp' : forall o', present s o' = true -> present s' o' = true).
  { intros o' H. destruct (decide (o' = o)) as [->|Hne]; [by apply Hpres|]. unfold present in *. by rewrite (proj2 (Hother o' Hne)). }
  assert (Hst' : forall o', started s o' = true -> started s' o' = true).
  { intros o' H. destruct (decide (o' = o)) as [->|Hne]; [by apply Hst|]. unfold started in *. by rewrite (proj2 (Hother o' Hne)). }
  constructor.
  - intros o'. destruct (decide (o' = o)) as [->|Hne]; [by rewrite Hobj|]. destruct (Hother o' Hne) as [-> ->].
    eapply obj_ok_impl; [|apply (ko_objs s m Hk)]. destruct (Hpend o' Hne) as [H1 H2].
    eapply pend_moved; [exact Ho|exact Hm|by left; apply H1|exact H2].
  - intros l Hl. rewrite El in Hl. apply list_elem_of_lookup in Hl as [k Hkk].
    apply list_lookup_insert_Some in Hkk as [(_ & <- & _)|[_ Hkk]]; [done|].
    apply (ko_shape s m Hk). by apply list_elem_of_lookup_2 in Hkk.
  - intros b bs Hb Hne. unfold scen_side. rewrite (host_of_moved a b cs m m' Hm). rewrite Ec in Hb. destruct (decide (a = b)) as [<-|Hab].
    + injection Hb as <-. by apply Hside.
    + pose proof (ko_side s m Hk b bs Hb Hne) as Hs. rewrite forallb_forall in Hs |- *. intros c Hc. specialize (Hs c Hc).
      unfold scen_side in Hs. destruct c; simpl in *; try done; apply andb_true_iff in Hs as [[H1 H2]%andb_true_iff H3];
        rewrite H1, (Hp' _ H2); simpl; destruct (negb _); simpl in *; auto.
  - intros b bs Hb. unfold scen_side. rewrite (host_of_moved a b cs m m' Hm), Hon. rewrite Ec in Hb. intros Hsc.
    destruct (decide (a = b)) as [<-|Hab]; by eapply (ko_scen s m Hk).
  - rewrite Hon. intros H. destruct (ko_on s m Hk H). auto.
  - intros b bs o' w Hb. unfold quiet. rewrite (host_of_moved a b cs m m' Hm). intros Hq Hj Hw. rewrite Ec in Hb.
    destruct (decide (a = b)) as [<-|Hab]; [injection Hb as <-; by eapply Hquiet|].
    destruct (decide (o' = o)) as [->|Hne].
    + destruct (running w) eqn:Hr; [|done]. rewrite Hobj in Hw. destruct (Hrun w Hw Hr) as [(w0 & Hw0 & Hr0)|H0].
      * pose proof (ko_quiet s m Hk b bs o w0 Hb Hq Hj Hw0). congruence.
      * rewrite (H0 b bs) in Hj; [done|congruence|done|done].
    + rewrite (proj1 (Hother o' Hne)) in Hw. by eapply (ko_quiet s m Hk b bs o').
  - intros o'. destruct (decide (o' = o)) as [->|Hne].
    + split; [done|]. intros H. destruct (Hjoin H) as (w & -> & Hw). eexists. split; [exact Hobj|done].
    + pose proof (awaiters_moved o' a cs old m m' Ho Hm) as Ha. rewrite (Haw o' Hne) in Ha.
      rewrite (proj1 (Hother o' Hne)). assert (awaiters o' m' = awaiters o' m) as -> by lia. apply (ko_await s m Hk).
Qed.

(** A step outside the agents' lists: the object [o] is now [w']. *)
Lemma obj_upd_ok s m o w w' :
  known_ok s m -> objs m o = Some w ->
  (running w' = true -> running w = true) -> (joinable w = true -> joinable w' = true) ->
  worker_ok o (phase s o) (pend o m) w' -> known_ok s (set_obj o w' m).
Proof.
  intros Hk Hw Hr Hj Hok.
  assert (Hl : lists (set_obj o w' m) = lists m) by done.
  assert (Hobj : forall o', objs (set_obj o w' m) o' = if decide (o' = o) then Some w' else objs m o').
  { intros o'. simpl. destruct (decide (o' = o)) as [->|Hne]; [by rewrite fn_lookup_insert|by rewrite fn_lookup_insert_ne]. }
  constructor.
  - intros o'. rewrite Hobj. destruct (decide (o' = o)) as [->|Hne]; [exact Hok|apply (ko_objs s m Hk)].
  - apply (ko_shape s m Hk).
  - apply (ko_side s m Hk).
  - apply (ko_scen s m Hk).
  - apply (ko_on s m Hk).
  - intros b bs o' w0 Hb Hq Hjo. rewrite Hobj. destruct (decide (o' = o)) as [->|Hne].
    + intros [= <-]. destruct (running w') eqn:E; [|done]. pose proof (ko_quiet s m Hk b bs o w Hb Hq Hjo Hw) as H. by rewrite Hr in H.
    + by apply (ko_quiet s m Hk b bs o' w0).
  - intros o'. rewrite Hobj. destruct (decide (o' = o)) as [->|Hne]; [|apply (ko_await s m Hk)].
    destruct (ko_await s m Hk o) as [H1 H2]. split; [exact H1|]. intros H. destruct (H2 H) as (w0 & Hw0 & Hj0).
    exists w'. split; [done|]. apply Hj. congruence.
Qed.

(** More is known of an object. *)
Lemma set_phase_ok s m o p :
  known_ok s m -> obj_ok p o (pend o m) (objs m o) ->
  (started s o = true -> match p with Starting | Live | Stopped => True | _ => False end) ->
  known_ok (set_phase o p s) m.
Proof.
  intros Hk Hok Hst.
  assert (Hph : forall o', phase (set_phase o p s) o' = if decide (o' = o) then p else phase s o').
  { intros o'. simpl. destruct (decide (o' = o)) as [->|Hne]; [by rewrite fn_lookup_insert|by rewrite fn_lookup_insert_ne]. }
  assert (Hp' : forall o', present s o' = true -> present (set_phase o p s) o' = true).
  { intros o' H. unfold present. rewrite Hph. destruct (decide (o' = o)) as [->|Hne]; [|exact H].
    destruct (present_worker s m o Hk H) as (w & Hw & _). rewrite Hw in Hok. destruct p; try done. by destruct Hok. }
  assert (Hst' : forall o', started s o' = true -> started (set_phase o p s) o' = true).
  { intros o' H. unfold started. rewrite Hph. destruct (decide (o' = o)) as [->|Hne]; [|exact H].
    specialize (Hst H). by destruct p. }
  constructor; try apply Hk.
  - intros o'. rewrite Hph. destruct (decide (o' = o)) as [->|Hne]; [exact Hok|apply (ko_objs s m Hk)].
  - intros a cs Ha Hne. pose proof (ko_side s m Hk a cs Ha Hne) as Hs. rewrite forallb_forall in Hs |- *.
    intros c Hc. specialize (Hs c Hc).
    destruct c; simpl in *; try done; apply andb_true_iff in Hs as [[H1 H2]%andb_true_iff H3];
      rewrite H1, (Hp' _ H2); simpl; destruct (negb _); simpl in *; auto.
  - intros H. destruct (ko_on s m Hk H). auto.
Qed.

(** ** The steps of a [stop] *)

Definition stops (o : Obj) (c : Call) : Prop :=
  match c with Stop o' | StopIfSet o' | Clear o' | Join o' | Await o' => o' = o | _ => False end.

(** The state a call leaves differs from [m] in the object [o] alone. *)
Definition changed (o : Obj) (w' : Worker) (m m1 : Main) : Prop :=
  todo m1 = todo m /\ scenario_ m1 = scenario_ m /\ frames m1 = frames m /\ objs m1 o = Some w' /\
  forall o', o' <> o -> objs m1 o' = objs m o'.

Lemma set_obj_changed o w m : changed o w m (set_obj o w m).
Proof.
  repeat split; simpl; [by rewrite fn_lookup_insert|]. intros o' Hne. by rewrite fn_lookup_insert_ne.
Qed.

Lemma same_changed o w m : objs m o = Some w -> changed o w m m.
Proof. by repeat split. Qed.

Lemma set_calls_objs a cs m : objs (set_calls a cs m) = objs m.
Proof. by destruct a. Qed.

Lemma changed_objs a cs o w m m1 :
  changed o w m m1 ->
  (forall o', o' <> o -> objs (set_calls a cs m1) o' = objs m o') /\ objs (set_calls a cs m1) o = Some w.
Proof. intros (_ & _ & _ & E & H). rewrite set_calls_objs. by split. Qed.

Lemma changed_moved a old cs o w m m1 :
  calls_of a m = Some old -> changed o w m m1 -> moved a cs m (set_calls a cs m1).
Proof. intros Ho (E1 & E2 & E3 & _). by eapply set_calls_moved. Qed.

Lemma worker_unjoinable o p (P Q : Prop) w : joinable w = false -> worker_ok o p P w -> worker_ok o p Q w.
Proof.
  intros Hj [Hf Hp]. split; [done|]. destruct p; [done..| |].
  - destruct Hp as [H1 _]. split; [done|]. congruence.
  - destruct Hp as (H1 & H2 & _). split_and!; try done. congruence.
Qed.

Lemma stop_upd s m m1 a c rest cs o w w' :
  known_ok s m -> calls_of a m = Some (c :: rest) -> objs m o = Some w -> stops o c -> changed o w' m m1 ->
  (running w' = true -> running w = true) ->
  shape cs = true -> (forall x, x ∈ rest -> x ∈ cs) ->
  (a <> ByMain -> forallb (side_call s (scen_side a m)) cs = true) ->
  (quiet a m = true -> joins o cs = true -> running w' = false) ->
  (forall o', o' <> o -> joins o' cs = false) -> (forall o', o' <> o -> awaits o' cs = false) ->
  worker_ok o (phase s o) (pend o (set_calls a cs m1)) w' ->
  (awaiters o m + (if awaits o cs then 1 else 0) <= 1 + (if awaits o (c :: rest) then 1 else 0))%nat ->
  (joinable w = true -> awaits o (c :: rest) = false -> joinable w' = true) -> (awaits o cs = true -> joinable w' = true) ->
  known_ok s (set_calls a cs m1).
Proof.
  intros Hk Ha Hw Hc Hm1 Hrun Hsh Hsub Hside Hq Hj Haw Hok Hle Hj1 Hj2.
  pose proof (changed_moved a _ cs o w' m m1 Ha Hm1) as Hm. pose proof (changed_objs a cs o w' m m1 Hm1) as [Hne Heq].
  pose proof (awaiters_moved o a cs _ m _ Ha Hm) as Haws.
  assert (Hold : forall o', o' <> o -> awaits o' (c :: rest) = false).
  { intros o' Ho'. destruct c; try done; simpl in *. subst. by apply bool_decide_eq_false_2. }
  eapply (upd_ok s s m _ a (c :: rest) cs o (Some w')); try done.
  - intros o' Ho'. by rewrite Hne.
  - intros o' w0 Hqa Hjo Hw0. destruct (decide (o' = o)) as [->|Ho']; [|by rewrite Hj in Hjo].
    rewrite Heq in Hw0. injection Hw0 as <-. by apply Hq.
  - intros w0 [= <-] Hr. left. exists w. split; [done|by apply Hrun].
  - intros o' Ho'. split; intros Hin; apply elem_of_cons in Hin as [<-|Hin]; try (by apply Hsub); simpl in Hc; by subst.
  - intros o' Ho'. rewrite Haw, Hold by done. done.
  - lia.
  - intros Hpos. exists w'. split; [done|]. destruct (awaits o cs) eqn:E; [by apply Hj2|].
    destruct (ko_await s m Hk o) as [H0 H]. destruct (awaits o (c :: rest)) eqn:E2; [lia|]. apply Hj1; [|done].
    destruct H as (w0 & Hw0 & Hj0); [lia|]. congruence.
Qed.

Lemma mem_calls a cs m m1 (c : Call) : moved a cs m m1 -> calls_of a m <> None -> c ∈ cs -> exists l, l ∈ lists m1 /\ c ∈ l.
Proof.
  intros (E & _) Ha Hc. exists cs. split; [|done]. rewrite E. destruct (calls_of a m) as [old|] eqn:Eo; [|done].
  apply list_elem_of_lookup. exists (idx a). apply list_lookup_insert_eq. apply lists_lookup in Eo. by eapply lookup_lt_Some.
Qed.

Lemma pend_join a cs m m1 o : moved a cs m m1 -> calls_of a m <> None -> Join o ∈ cs -> pend o m1.
Proof.
  intros Hm Ha Hc. destruct (mem_calls a cs m m1 _ Hm Ha Hc) as (l & Hl & Hin). apply Exists_exists. exists l. by split; [|left].
Qed.

(** The flag is cleared by somebody who is going to join. *)
Lemma lowered_ok o p (P Q : Prop) w w' :
  worker_ok o p P w -> Q -> running w' = false -> thread w' = thread w -> wired w' = wired w -> failed w' = failed w ->
  worker_ok o p Q w'.
Proof.
  intros [Hf Hp] HQ E1 E2 E3 E4. unfold worker_ok, abandoned, joinable in *. rewrite E1, E2, E3, E4. split; [done|].
  destruct p; try done.
  - by destruct Hp as (_ & H2 & H3).
  - destruct Hp as [H1 H2]. split; [done|]. intros Hg _ _. by auto.
  - destruct Hp as (H1 & H2 & H3). split_and!; try done. intros Hj. destruct (H3 Hj) as [Hg _]. by auto.
Qed.

Lemma passes_started s o w P :
  worker_ok o (phase s o) P w -> passes o w = true -> stoppable o = true -> o <> Engine -> started s o = true.
Proof.
  intros [_ Hp] Hpass Hs Hne. unfold started. destruct (phase s o); try done. destruct Hp as (H1 & H2 & _).
  unfold passes, joinable in Hpass. rewrite H1, H2 in Hpass. by destruct o.
Qed.

(** What an agent that is not [main] has left after a call. *)
Lemma side_rest s m a c rest :
  known_ok s m -> calls_of a m = Some (c :: rest) -> a <> ByMain ->
  side_call s (scen_side a m) c = true /\ forallb (side_call s (scen_side a m)) rest = true.
Proof. intros Hk Ha Hne. pose proof (ko_side s m Hk a _ Ha Hne) as H. by apply andb_true_iff in H. Qed.

Lemma shape_of s m a cs : known_ok s m -> calls_of a m = Some cs -> shape cs = true.
Proof. intros Hk Ha. apply (ko_shape s m Hk). by eapply elem_lists. Qed.

Lemma exchanged_ok o p (P Q : Prop) w :
  worker_ok o p P w -> (P -> Q) -> (is_server o = true -> running w = true -> Q) -> worker_ok o p Q (exchanged o w).
Proof.
  intros Hw HPQ HQ. unfold exchanged. destruct (is_server o) eqn:Hs; [|by eapply worker_ok_impl].
  destruct (running w) eqn:Hr.
  - apply (lowered_ok o p P Q w); try done. by apply HQ.
  - replace (w <| running := false |>) with w by (destruct w; simpl in *; by subst). by eapply worker_ok_impl.
Qed.

(** A [stop] that returns at once leaves the object stopped. *)
Lemma skipped_ok o p P w : worker_ok o p P w -> passes o w = false -> worker_ok o (after_stop p) P w.
Proof.
  intros Hw Hpass. destruct p; try done. destruct Hw as (Hf & H1 & H2). split; [done|].
  assert (Hr : running w = false /\ (joinable w = true -> guarded o = true)).
  { unfold passes, guarded in *. destruct o; try done. apply orb_false_iff in Hpass as [Hr Hj]. split; [done|congruence]. }
  destruct Hr as [Hr Hg]. split_and!; try done. intros Hj. by apply H2; [apply Hg| |].
Qed.

(** The first step of [stop]. *)
Lemma stop_first_ok s m a c rest o w :
  known_ok s m -> calls_of a m = Some (c :: rest) -> c = Stop o \/ c = StopIfSet o -> objs m o = Some w ->
  known_ok s (set_calls a (stop_calls o w ++ rest) (set_obj o (exchanged o w) m)).
Proof.
  intros Hk Ha Hc Hw. pose proof (ko_objs s m Hk o) as Ho. rewrite Hw in Ho.
  assert (Hr : forallb simple rest = true).
  { pose proof (shape_of s m a _ Hk Ha) as H. by destruct Hc as [-> | ->]. }
  set (cs := stop_calls o w ++ rest).
  assert (Hcs : cs = Join o :: rest /\ is_server o = true \/ cs = Clear o :: Join o :: rest \/ cs = rest /\ passes o w = false).
  { unfold cs, stop_calls. destruct (passes o w), (is_server o); auto. }
  pose proof (set_obj_changed o (exchanged o w) m) as Hch.
  pose proof (changed_moved a _ cs o _ m _ Ha Hch) as Hm.
  assert (Hnone : calls_of a m <> None) by congruence.
  apply (stop_upd s m _ a c rest cs o w (exchanged o w)); try done.
  - destruct Hc as [-> | ->]; done.
  - unfold exchanged. by case_match.
  - destruct Hcs as [[-> _]|[-> |[-> _]]]; [exact Hr|cbn [shape]; by rewrite bool_decide_true, Hr|by apply shape_simple].
  - intros x Hx. destruct Hcs as [[-> _]|[-> |[-> _]]]; [by apply elem_of_cons; right|by do 2 (apply elem_of_cons; right)|done].
  - intros Hne. destruct (side_rest s m a c rest Hk Ha Hne) as [Hsc Hsr].
    assert (Hst : stoppable o = true) by (by destruct Hc as [-> | ->]). destruct Hcs as [[_ Hsv]|[E |[-> _]]]; [by destruct o| |done].
    rewrite E. simpl. rewrite Hsr, Hst, (worker_present s m o w Hk Hw). simpl.
    destruct (scen_side a m) eqn:Hscen; [|done]. simpl. assert (Hstarted : started s o = true); [|by rewrite Hstarted].
    destruct (decide (o = Engine)) as [->|HnE]; [by apply (ko_on s m Hk), (ko_scen s m Hk a _ Ha)|].
    eapply passes_started; [exact Ho| |done|done]. unfold cs, stop_calls in E. destruct (passes o w); [done|].
    simpl in E. by rewrite E in Hr.
  - intros _ Hj. destruct Hcs as [[-> Hsv]|[E |[E _]]].
    + unfold exchanged. by rewrite Hsv.
    + by rewrite E in Hj.
    + rewrite E in Hj. destruct (simple_free o rest Hr) as (_ & H & _). congruence.
  - intros o' Ho'. destruct Hcs as [[-> _]|[-> |[-> _]]]; simpl; [by apply bool_decide_eq_false_2|done|by apply simple_free].
  - intros o' Ho'. destruct Hcs as [[-> _]|[-> |[-> _]]]; simpl; [done..|by apply simple_free].
  - apply (exchanged_ok o _ (pend o m)); [done| |].
    + eapply pend_moved; [exact Ha|exact Hm| |].
      * intros Hin. left. destruct Hc as [-> | ->]; apply elem_of_cons in Hin as [?|Hin]; try done;
          by destruct (simple_free o rest Hr) as (_ & _ & H & _).
      * intros Hin. destruct Hc as [-> | ->]; apply elem_of_cons in Hin as [?|Hin]; try done;
          by destruct (simple_free o rest Hr) as (_ & _ & _ & H).
    + intros Hsv Hrun. eapply (pend_join a cs); [exact Hm|done|]. unfold cs, stop_calls, passes. rewrite Hsv.
      destruct o; try done. rewrite Hrun. simpl. apply elem_of_cons. by left.
  - destruct (ko_await s m Hk o) as [Hle _].
    assert (awaits o cs = false) as ->; [|lia]. destruct Hcs as [[-> _]|[-> |[-> _]]]; [done..|by apply simple_free].
  - intros Hj _. unfold exchanged. by case_match.
  - intros H. exfalso. destruct Hcs as [[E _]|[E |[E _]]]; rewrite E in H; try done.
    destruct (simple_free o rest Hr) as (H2 & _). congruence.
Qed.

Lemma clear_step_ok s m a rest o w :
  known_ok s m -> calls_of a m = Some (Clear o :: rest) -> objs m o = Some w ->
  known_ok s (set_calls a rest (set_obj o (cleared o w) m)).
Proof.
  intros Hk Ha Hw. pose proof (ko_objs s m Hk o) as Ho. rewrite Hw in Ho.
  destruct (shape_rest _ _ (shape_of s m a _ Hk Ha)) as (Hsh & Haw & r & -> & Hr).
  pose proof (changed_moved a _ (Join o :: r) o _ m _ Ha (set_obj_changed o (cleared o w) m)) as Hm.
  apply (stop_upd s m _ a (Clear o) (Join o :: r) (Join o :: r) o w (cleared o w)); try done.
  - apply set_obj_changed.
  - intros Hne. by apply (side_rest s m a (Clear o)).
  - intros o' Ho'. simpl. by apply bool_decide_eq_false_2.
  - apply (lowered_ok o _ (pend o m) _ w); try done. eapply (pend_join a); [exact Hm|congruence|]. apply elem_of_cons. by left.
  - destruct (ko_await s m Hk o). simpl. lia.
Qed.

Lemma join_unjoinable_ok s m a rest o w :
  known_ok s m -> calls_of a m = Some (Join o :: rest) -> objs m o = Some w -> joinable w = false ->
  known_ok s (set_calls a rest m).
Proof.
  intros Hk Ha Hw Hj. pose proof (ko_objs s m Hk o) as Ho. rewrite Hw in Ho.
  destruct (shape_rest _ _ (shape_of s m a _ Hk Ha)) as (Hsh & Haw & Hr).
  apply (stop_upd s m m a (Join o) rest rest o w w); try done.
  - intros Hne. by apply (side_rest s m a (Join o)).
  - intros _ H. destruct (simple_free o rest Hr) as (_ & H2 & _). congruence.
  - intros o' Ho'. by apply simple_free.
  - by eapply worker_unjoinable.
  - destruct (ko_await s m Hk o). rewrite Haw. simpl. lia.
  - by rewrite Haw.
Qed.

Lemma join_waits_ok s m a rest o w :
  known_ok s m -> calls_of a m = Some (Join o :: rest) -> objs m o = Some w -> joinable w = true -> awaited o m = false ->
  known_ok s (set_calls a (Await o :: rest) m).
Proof.
  intros Hk Ha Hw Hj Hna. pose proof (ko_objs s m Hk o) as Ho. rewrite Hw in Ho.
  destruct (shape_rest _ _ (shape_of s m a _ Hk Ha)) as (Hsh & Haw & Hr).
  pose proof (changed_moved a _ (Await o :: rest) o w m m Ha (same_changed o w m Hw)) as Hm.
  apply (stop_upd s m m a (Join o) rest (Await o :: rest) o w w); try done.
  - intros x Hx. apply elem_of_cons. by right.
  - intros Hne. exact (ko_side s m Hk a _ Ha Hne).
  - intros Hq _. apply (ko_quiet s m Hk a _ o w Ha Hq); [|done]. simpl. by apply bool_decide_eq_true_2.
  - intros o' Ho'. simpl. by apply bool_decide_eq_false_2.
  - intros o' Ho'. simpl. by apply bool_decide_eq_false_2.
  - eapply worker_ok_impl; [|exact Ho]. eapply pend_moved; [exact Ha|exact Hm| |].
    + intros _. right. apply elem_of_cons. by left.
    + intros Hin. apply elem_of_cons. by left.
  - rewrite (awaited_awaiters _ _ Hna). simpl. by rewrite bool_decide_true.
Qed.

Lemma await_step_ok s m a rest o w :
  known_ok s m -> calls_of a m = Some (Await o :: rest) -> objs m o = Some w ->
  known_ok s (set_calls a rest (set_obj o (w <| thread := None |>) m)).
Proof.
  intros Hk Ha Hw. pose proof (ko_objs s m Hk o) as Ho. rewrite Hw in Ho.
  destruct (shape_rest _ _ (shape_of s m a _ Hk Ha)) as (Hsh & Haw & Hr).
  apply (stop_upd s m _ a (Await o) rest rest o w (w <| thread := None |>)); try done.
  - apply set_obj_changed.
  - intros Hne. by apply (side_rest s m a (Await o)).
  - intros _ H. destruct (simple_free o rest Hr) as (_ & H2 & _). congruence.
  - intros o' Ho'. by apply simple_free.
  - destruct Ho as [Hf Hp]. split; [done|]. destruct (phase s o); try done.
    + by destruct Hp as (H1 & _ & H3).
    + by destruct Hp as [_ H].
    + destruct Hp as [H _]. split; [done|]. by intros.
    + destruct Hp as (H1 & H2 & _). by split_and!.
  - destruct (ko_await s m Hk o). rewrite Haw. simpl. rewrite bool_decide_true by done. lia.
  - simpl. by rewrite bool_decide_true.
  - by rewrite Haw.
Qed.

(** ** The scenario thread and the handlers *)

(** The faults there can be: a handler joins the thread it runs on, or joins a
    thread that somebody joins already, or somebody joins a thread that a
    handler joins already. *)
Definition handler_fault (a : Agent) (f : Fault) (m : Main) : Prop :=
  match f with
  | SelfJoin o => exists i fr, a = ByHandler i /\ frames m !! i = Some fr /\ host fr = OnThread o
  | DoubleJoin o => (exists i, a = ByHandler i) \/ (exists fr, fr ∈ frames m /\ awaits o (calls fr) = true)
  | _ => False
  end.

(** What a step keeps of the flags. *)
Definition flags_kept (m m' : Main) : Prop :=
  exit_code m' = exit_code m /\ (g_shutdown m = true -> g_shutdown m' = true) /\ map host (frames m') = map host (frames m).

Lemma set_calls_kept a cs old m m1 :
  calls_of a m = Some old -> exit_code m1 = exit_code m -> (g_shutdown m = true -> g_shutdown m1 = true) ->
  todo m1 = todo m -> scenario_ m1 = scenario_ m -> frames m1 = frames m ->
  flags_kept m (set_calls a cs m1) /\ (a <> ByMain -> todo (set_calls a cs m1) = todo m).
Proof.
  intros Ha E1 E2 E3 E4 E5. destruct (set_calls_moved a cs old m m1 Ha E3 E4 E5) as (_ & _ & Eh).
  split; [|by destruct a]. split_and!; [by destruct a|by destruct a|done].
Qed.

Lemma awaited_by o m :
  awaited o m = true ->
  awaits o (todo m) = true \/ awaits o (default [] (scenario_ m)) = true \/
  exists fr, fr ∈ frames m /\ awaits o (calls fr) = true.
Proof.
  unfold awaited, lists. simpl. intros [H|[H|H]%orb_true_iff]%orb_true_iff; [by left|by right; left|right; right].
  apply existsb_exists in H as (cs & Hin & H). apply list_elem_of_In in Hin.
  apply (list_elem_of_fmap_1 calls) in Hin as (fr & -> & Hin). by exists fr.
Qed.

(** A [join] that cannot be. *)
Lemma join_fault s m a rest o w f :
  known_ok s m -> calls_of a m = Some (Join o :: rest) -> objs m o = Some w -> joinable w = true ->
  (forall o', awaits o' (todo m) = true -> scenario_on s = false) -> (a = ByMain -> scenario_on s = false) ->
  (if bool_decide (host_of a m = OnThread o) then Some (SelfJoin o)
   else if awaited o m then Some (DoubleJoin o) else None) = Some f ->
  handler_fault a f m.
Proof.
  intros Hk Ha Hw Hj Hmain Hoff. case_bool_decide as Hh.
  - intros [= <-]. destruct a as [| |i]; simpl in Hh; [done..|]. simpl in Ha.
    destruct (frames m !! i) as [fr|] eqn:Ef; [|done]. by exists i, fr.
  - destruct (awaited o m) eqn:Haw; [|done]. intros [= <-]. destruct (awaited_by o m Haw) as [H|[H|H]]; [| |by right].
    + left. destruct a as [| |i]; [|exfalso|by exists i].
      * injection Ha as Ha. by rewrite Ha in H.
      * pose proof (ko_scen s m Hk ByScenario _ Ha eq_refl). rewrite (Hmain o H) in *. done.
    + left. destruct (scenario_ m) as [cs|] eqn:Es; [|done]. destruct a as [| |i]; [exfalso|exfalso|by exists i].
      * pose proof (ko_scen s m Hk ByScenario cs Es eq_refl). rewrite Hoff in *; done.
      * simpl in Ha. rewrite Es in Ha. injection Ha as ->. done.
Qed.

(** No object changes. *)
Lemma same_upd s m m1 a c rest :
  known_ok s m -> calls_of a m = Some (c :: rest) -> simple c = true -> shape rest = true -> (forall o, awaits o rest = false) ->
  (forall o, joins o rest = false) ->
  todo m1 = todo m -> scenario_ m1 = scenario_ m -> frames m1 = frames m -> objs m1 = objs m ->
  known_ok s (set_calls a rest m1).
Proof.
  intros Hk Ha Hc Hsh Haw Hjo E1 E2 E3 E4. pose proof (set_calls_moved a rest _ m m1 Ha E1 E2 E3) as Hm.
  assert (Eo : forall o, objs (set_calls a rest m1) o = objs m o) by (intros o; by rewrite set_calls_objs, E4).
  pose proof (awaiters_moved Engine a rest _ m _ Ha Hm) as Hn. rewrite Haw in Hn.
  assert (Hc' : awaits Engine (c :: rest) = false) by (by destruct c). rewrite Hc' in Hn.
  destruct (ko_await s m Hk Engine) as [H1 H2].
  assert (Hp : forall o, (Join o ∈ c :: rest -> Join o ∈ rest) /\ (Await o ∈ c :: rest -> Await o ∈ rest)).
  { intros o. split; intros [<-|Hin]%elem_of_cons; done. }
  eapply (upd_ok s s m _ a _ rest Engine (objs m Engine) Hk Ha Hm); try done.
  - intros Hne. by apply (side_rest s m a c).
  - intros o w _ Hj. by rewrite Hjo in Hj.
  - intros w Hw Hr. left. by exists w.
  - eapply obj_ok_impl; [|apply (ko_objs s m Hk)]. eapply pend_moved; [exact Ha|exact Hm|left; by apply Hp|by apply Hp].
  - intros o _. rewrite Haw. by destruct c.
  - lia.
  - intros H. apply H2. lia.
Qed.

Lemma same_call_ok s m m1 a c rest :
  known_ok s m -> calls_of a m = Some (c :: rest) -> simple c = true ->
  todo m1 = todo m -> scenario_ m1 = scenario_ m -> frames m1 = frames m -> objs m1 = objs m ->
  known_ok s (set_calls a rest m1).
Proof.
  intros Hk Ha Hc. destruct (shape_rest _ _ (shape_of s m a _ Hk Ha)) as (Hsh & Haw & Hr).
  assert (Hs : forallb simple rest = true) by (by destruct c).
  apply (same_upd s m m1 a c rest); try done. intros o. by apply simple_free.
Qed.

Lemma side_step_ok s m a through r :
  known_ok s m -> (forall o', awaits o' (todo m) = true -> scenario_on s = false) -> a <> ByMain ->
  run_call a through m = Some r ->
  match r with
  | inl f => handler_fault a f m
  | inr m' => known_ok s m' /\ flags_kept m m' /\ todo m' = todo m
  end.
Proof.
  intros Hk Hmain Hne. unfold run_call. destruct (calls_of a m) as [[|c rest]|] eqn:Ha; try done.
  destruct (suspended a m || negb (ready c m)); [done|]. intros [= <-].
  destruct (side_rest s m a c rest Hk Ha Hne) as [Hc _].
  assert (Hkeep : forall cs m1, exit_code m1 = exit_code m -> (g_shutdown m = true -> g_shutdown m1 = true) ->
    todo m1 = todo m -> scenario_ m1 = scenario_ m -> frames m1 = frames m ->
    flags_kept m (set_calls a cs m1) /\ todo (set_calls a cs m1) = todo m).
  { intros cs m1 E1 E2 E3 E4 E5. destruct (set_calls_kept a cs _ m m1 Ha E1 E2 E3 E4 E5) as [H1 H2]. auto. }
  destruct c as [|o|o|o p|o p|o|x needed|o| | | | | |o|o|code|o|o|o|o]; try done; simpl in Hc; cbn [exec]; unfold with_obj.
  - apply andb_true_iff in Hc as [->%bool_decide_eq_true_1 Hsc].
    destruct (ko_on s m Hk (ko_scen s m Hk a _ Ha Hsc)) as [Hp _].
    destruct (present_worker s m Fix Hk Hp) as (w & -> & _). split; [by eapply (same_call_ok s m m a)|by apply Hkeep].
  - split; [by eapply (same_call_ok s m)|by apply Hkeep].
  - destruct (objs m o) as [w|] eqn:Hw; [|split; [by eapply (same_call_ok s m m a)|by apply Hkeep]].
    split; [eapply stop_first_ok; try done; by right|by apply Hkeep].
  - apply andb_true_iff in Hc as [[_ Hp]%andb_true_iff _]. destruct (present_worker s m o Hk Hp) as (w & Hw & _). rewrite Hw.
    split; [by eapply clear_step_ok|by apply Hkeep].
  - apply andb_true_iff in Hc as [[_ Hp]%andb_true_iff _]. destruct (present_worker s m o Hk Hp) as (w & Hw & _). rewrite Hw.
    destruct (joinable w) eqn:Hj; simpl; [|split; [by eapply join_unjoinable_ok|by apply Hkeep]].
    pose proof (join_fault s m a rest o w) as Hf. specialize (fun f => Hf f Hk Ha Hw Hj Hmain (fun H => False_ind _ (Hne H))).
    destruct (bool_decide _); [by apply Hf|]. destruct (awaited o m) eqn:Haw; [by apply Hf|].
    split; [by eapply join_waits_ok|by apply Hkeep].
  - apply andb_true_iff in Hc as [[_ Hp]%andb_true_iff _]. destruct (present_worker s m o Hk Hp) as (w & Hw & _). rewrite Hw.
    split; [by eapply await_step_ok|by apply Hkeep].
Qed.

(** ** The calls of [main] *)

(** What [main] is known to be: at a call that the checker accepts, or returned. *)
Definition main_ok (m : Main) : Prop :=
  exists s, known_ok s m /\
    (exit_code m = None /\ check (todo m) s = true \/ is_Some (exit_code m) /\ todo m = [] /\ ended s = true).

Lemma check_cons c rest s :
  check (c :: rest) s = true -> is_return c = false -> exists s', know c s = Some s' /\ check rest s' = true.
Proof. intros H Hr. destruct c; try done; cbn [check] in H; destruct (know _ s) as [s'|]; try done; by exists s'. Qed.

(** While [main] goes on, no handler runs on its thread. *)
Lemma quiet_side s m b bs o :
  known_ok s m -> hosted OnMain (frames m) = false -> b <> ByMain -> calls_of b m = Some bs -> quiet b m = true ->
  joins o bs = true -> present s o = true /\ started s o = true.
Proof.
  intros Hk Hh Hne Hb Hq Hj. pose proof (ko_side s m Hk b bs Hb Hne) as Hs.
  assert (Hsc : scen_side b m = true).
  { unfold quiet, scen_side in *. apply bool_decide_eq_true_2. destruct (host_of b m) eqn:E; try done. exfalso.
    destruct b as [| |i]; [done..|]. simpl in E, Hb. destruct (frames m !! i) as [fr|] eqn:Ef; [|done]. simpl in E.
    assert (hosted OnMain (frames m) = true); [|congruence]. apply existsb_exists. exists fr.
    split; [by apply list_elem_of_In, (list_elem_of_lookup_2 _ i)|by apply bool_decide_eq_true_2]. }
  rewrite Hsc in Hs. destruct bs as [|[] bs]; try done; simpl in Hj; apply bool_decide_eq_true_1 in Hj as ->;
    apply andb_true_iff in Hs as [Hs _]; simpl in Hs; by apply andb_true_iff in Hs as [[_ ?]%andb_true_iff ?].
Qed.

(** A call of [main] that starts, wires or makes an object. *)
Lemma main_upd s m m1 c rest cs o p ow w' :
  known_ok s m -> todo m = c :: rest -> hosted OnMain (frames m) = false -> objs m o = ow -> changed o w' m m1 ->
  (forall o', awaits o' (c :: rest) = false) -> (forall o', Join o' ∉ c :: rest) -> (forall o', Await o' ∉ c :: rest) ->
  shape cs = true -> (forall o', awaits o' cs = false) -> (forall o', joins o' cs = false) ->
  (running w' = true -> (exists w, ow = Some w /\ running w = true) \/ started s o = false) ->
  (started s o = true -> match p with Starting | Live | Stopped => True | _ => False end) ->
  (forall w, ow = Some w -> joinable w = true -> joinable w' = true) ->
  (forall P : Prop, worker_ok o p P w') ->
  known_ok (set_phase o p s) (set_calls ByMain cs m1).
Proof.
  intros Hk Ht Hh How Hch Haw Hj1 Hj2 Hsh Hawc Hjc Hrun Hst Hjo Hok.
  assert (Ha : calls_of ByMain m = Some (c :: rest)) by (simpl; by rewrite Ht).
  pose proof (changed_moved ByMain _ cs o w' m m1 Ha Hch) as Hm. pose proof (changed_objs ByMain cs o w' m m1 Hch) as [Hne Heq].
  assert (Hph : forall o', phase (set_phase o p s) o' = if decide (o' = o) then p else phase s o').
  { intros o'. simpl. destruct (decide (o' = o)) as [->|]; [by rewrite fn_lookup_insert|by rewrite fn_lookup_insert_ne]. }
  pose proof (awaiters_moved o ByMain cs _ m _ Ha Hm) as Hn. rewrite Hawc, Haw in Hn. destruct (ko_await s m Hk o) as [A1 A2].
  assert (Hpne : p <> Absent) by (intros ->; by destruct (Hok True)).
  eapply (upd_ok s _ m _ ByMain _ cs o (Some w') Hk Ha Hm); try done.
  - intros o' Ho'. rewrite Hne, Hph, decide_False by done. done.
  - intros _. unfold present. rewrite Hph, decide_True by done. by apply negb_true_iff, bool_decide_eq_false_2.
  - intros H. unfold started. rewrite Hph, decide_True by done. specialize (Hst H). by destruct p.
  - intros o' w _ Hj. by rewrite Hjc in Hj.
  - intros w0 [= <-] Hr. rewrite How. destruct (Hrun Hr) as [?|Hs]; [by left|right]. intros b bs Hb Hbs Hq.
    destruct (joins o bs) eqn:Hj; [|done]. destruct (quiet_side s m b bs o Hk Hh Hb Hbs Hq Hj). congruence.
  - rewrite Hph, decide_True by done. apply Hok.
  - intros o' _. split; intros Hin; exfalso; [by apply (Hj1 o')|by apply (Hj2 o')].
  - intros o' _. by rewrite Hawc, Haw.
  - lia.
  - intros Hpos. destruct A2 as (w & Hw & Hjw); [lia|]. exists w'. split; [done|]. apply (Hjo w); [congruence|done].
Qed.

(** A simple call has no part of a [stop] after it, nor at its place. *)
Lemma simple_todo s m c rest :
  known_ok s m -> todo m = c :: rest -> simple c = true ->
  forallb simple rest = true /\ (forall o', awaits o' (c :: rest) = false) /\
  (forall o', Join o' ∉ c :: rest) /\ (forall o', Await o' ∉ c :: rest).
Proof.
  intros Hk Ht Hc. destruct (shape_rest c rest) as (_ & _ & Hr); [rewrite <-Ht; by apply (shape_of s m ByMain)|].
  assert (Hs : forallb simple (c :: rest) = true) by (simpl; rewrite Hc; by destruct c).
  split; [by destruct c|]. split_and!; intros o'; by apply (simple_free o').
Qed.

(** It goes on after a call that changes no object. *)
Lemma main_goes_on s m m1 c rest s' :
  known_ok s m -> todo m = c :: rest -> simple c = true -> exit_code m = None -> check rest s' = true -> s' = s ->
  todo m1 = todo m -> scenario_ m1 = scenario_ m -> frames m1 = frames m -> objs m1 = objs m -> exit_code m1 = exit_code m ->
  main_ok (set_calls ByMain rest m1).
Proof.
  intros Hk Ht Hc Hx Hrest -> E1 E2 E3 E4 E5. exists s. split; [|left; simpl; by rewrite E5].
  apply (same_call_ok s m m1 ByMain c rest); try done. simpl. by rewrite Ht.
Qed.

(** Objects that do not exist, and new ones. *)
Lemma absent_obj s m o : known_ok s m -> present s o = false -> phase s o = Absent /\ objs m o = None.
Proof.
  intros Hk Hp. apply negb_false_iff, bool_decide_eq_true_1 in Hp. split; [done|].
  pose proof (ko_objs s m Hk o) as Ho. rewrite Hp in Ho. destruct (objs m o); [by destruct Ho|done].
Qed.

Lemma created_ok o (P : Prop) : worker_ok o (created o) P (new_worker o).
Proof.
  unfold created, new_worker. destruct (decide (o = Logger)) as [->|Hne].
  - rewrite !bool_decide_true by done. split; [done|]. split; [by right; right|done].
  - rewrite !bool_decide_false by done. split; [done|]. by split_and!.
Qed.

Lemma main_new_ok s m c rest o :
  known_ok s m -> todo m = c :: rest -> simple c = true -> exit_code m = None -> hosted OnMain (frames m) = false ->
  present s o = false -> check rest (set_phase o (created o) s) = true ->
  main_ok (set_calls ByMain rest (set_obj o (new_worker o) m)).
Proof.
  intros Hk Ht Hc Hx Hh Hp Hrest. destruct (simple_todo s m c rest Hk Ht Hc) as (Hr & H1 & H2 & H3).
  destruct (absent_obj s m o Hk Hp) as [Hph Hno].
  exists (set_phase o (created o) s). split; [|by left].
  eapply (main_upd s m _ c rest rest o (created o) None (new_worker o)); try done.
  - apply set_obj_changed.
  - by apply shape_simple.
  - intros o'. by apply simple_free.
  - intros o'. by apply simple_free.
  - intros _. right. unfold started. by rewrite Hph.
  - unfold started. by rewrite Hph.
  - intros P. apply created_ok.
Qed.

Lemma fresh_obj s m o b :
  known_ok s m -> phase s o = Fresh b ->
  started s o = false /\ exists w, objs m o = Some w /\ running w = false /\ thread w = None /\ wired w = b /\
    (failed w = true -> is_server o = true).
Proof.
  intros Hk Hp. split; [unfold started; by rewrite Hp|]. pose proof (ko_objs s m Hk o) as Ho. rewrite Hp in Ho.
  destruct (objs m o) as [w|]; [|done]. exists w. destruct Ho as (Hf & H1 & H2 & H3). by split_and!.
Qed.

(** [start] and [connect] up to the launch of the thread. *)
Lemma main_raised_ok s m c rest o b w :
  known_ok s m -> todo m = c :: rest -> simple c = true -> exit_code m = None -> hosted OnMain (frames m) = false ->
  phase s o = Fresh b -> b || free o = true -> objs m o = Some w -> check rest (set_phase o Live s) = true ->
  main_ok (set_calls ByMain (Launch o :: rest) (set_obj o (w <| running := true |>) m)).
Proof.
  intros Hk Ht Hc Hx Hh Hp Hb Hw Hrest. destruct (simple_todo s m c rest Hk Ht Hc) as (Hr & H1 & H2 & H3).
  destruct (fresh_obj s m o b Hk Hp) as (Hst & w0 & Hw0 & Hrun & Hth & Hwi & Hf). rewrite Hw in Hw0. injection Hw0 as <-.
  exists (set_phase o Starting s). split.
  - eapply (main_upd s m _ c rest (Launch o :: rest) o Starting (Some w) (w <| running := true |>)); try done.
    + apply set_obj_changed.
    + intros _. by right.
    + intros w1 [= <-] Hj. done.
    + intros P. split; [done|]. split; [done|]. apply orb_true_iff in Hb as [Hb|Hb]; [left; by rewrite <-Hb|by right].
  - left. split; [done|]. cbn [todo set_calls check know set_field]. simpl. rewrite fn_lookup_insert.
    rewrite <-Hrest. apply check_same, same_phase_twice.
Qed.

(** Everything about a fresh object but [wired] stays. *)
Lemma main_touched_ok s m m1 c rest o b p w w' :
  known_ok s m -> todo m = c :: rest -> simple c = true -> exit_code m = None -> hosted OnMain (frames m) = false ->
  phase s o = Fresh b -> objs m o = Some w -> running w' = false -> thread w' = None -> (forall P : Prop, worker_ok o p P w') ->
  check rest (set_phase o p s) = true -> changed o w' m m1 -> exit_code m1 = exit_code m ->
  main_ok (set_calls ByMain rest m1).
Proof.
  intros Hk Ht Hc Hx Hh Hp Hw Hrun' Hth' Hok Hrest Hch Hx1. destruct (simple_todo s m c rest Hk Ht Hc) as (Hr & H1 & H2 & H3).
  destruct (fresh_obj s m o b Hk Hp) as (Hst & w0 & Hw0 & Hrun & Hth & Hwi & Hf). rewrite Hw in Hw0. injection Hw0 as <-.
  exists (set_phase o p s). split; [|left; split; [by rewrite <-Hx|done]].
  eapply (main_upd s m _ c rest rest o p (Some w) w'); try done.
  - by apply shape_simple.
  - intros o'. by apply simple_free.
  - intros o'. by apply simple_free.
  - congruence.
  - unfold started. by rewrite Hp.
  - intros w1 [= <-]. unfold joinable. by rewrite Hth.
Qed.

Lemma return_ok s m c rest code :
  known_ok s m -> todo m = c :: rest -> simple c = true -> ended s = true ->
  main_ok (set_calls ByMain [] (m <| exit_code := Some code |>)).
Proof.
  intros Hk Ht Hc He. destruct (simple_todo s m c rest Hk Ht Hc) as (Hr & H1 & H2 & H3).
  assert (Ha : calls_of ByMain m = Some (c :: rest)) by (simpl; by rewrite Ht).
  assert (Hm : moved ByMain [] m (set_calls ByMain [] (m <| exit_code := Some code |>))) by by eapply set_calls_moved.
  exists s. split; [|right; by split_and!; [by eexists| |]].
  pose proof (awaiters_moved Engine ByMain [] _ m _ Ha Hm) as Hn. rewrite H1 in Hn. cbn [awaits] in Hn.
  destruct (ko_await s m Hk Engine) as [A1 A2].
  eapply (upd_ok s s m _ ByMain _ [] Engine (objs m Engine) Hk Ha Hm); try done.
  - intros w Hw Hrun. left. by exists w.
  - eapply obj_ok_impl; [|apply (ko_objs s m Hk)]. eapply pend_moved; [exact Ha|exact Hm|intros H; by destruct (H2 Engine)|].
    intros H. by destruct (H3 Engine).
  - intros o' _. split; intros H; [by destruct (H2 o')|by destruct (H3 o')].
  - lia.
  - intros H. apply A2. lia.
Qed.

(** The scenario thread starts, and is joined. *)
Lemma scenario_calls_ok s : present s Fix = true -> started s Engine = true -> forallb (side_call s true) scenario_calls = true.
Proof. intros _ _. by vm_compute. Qed.

Lemma start_scenario_ok s m rest :
  known_ok s m -> todo m = StartScenario :: rest -> exit_code m = None -> hosted OnMain (frames m) = false ->
  scenario_on s = false -> scenario_ m = None -> present s Fix = true -> started s Engine = true ->
  check rest (s <| scenario_on := true |>) = true ->
  main_ok (set_calls ByMain rest (m <| scenario_ := Some scenario_calls |>)).
Proof.
  intros Hk Ht Hx Hh Hoff Hnone Hp Hst Hrest. destruct (simple_todo s m _ rest Hk Ht eq_refl) as (Hr & H1 & H2 & H3).
  set (m1 := set_calls ByMain rest m).
  assert (Hk1 : known_ok s m1) by by apply (same_call_ok s m m ByMain StartScenario rest); [|simpl; rewrite Ht|..].
  assert (Hsimple : forallb simple scenario_calls = true) by by vm_compute.
  exists (s <| scenario_on := true |>). split; [|by left].
  set (m2 := set_calls ByMain rest _).
  assert (El : lists m2 = <[1%nat := scenario_calls]> (lists m1)) by done.
  assert (E1 : lists m1 !! 1%nat = Some []) by (unfold lists; simpl; by rewrite Hnone).
  assert (Ea : forall o, awaiters o m2 = awaiters o m1).
  { intros o. unfold awaiters. rewrite El. pose proof (sum_list_insert (fun cs => if awaits o cs then 1%nat else 0%nat) _ _ _ scenario_calls E1) as H.
    cbv beta in H. rewrite (proj1 (simple_free o _ Hsimple)) in H. simpl in *. lia. }
  constructor.
  - intros o. eapply obj_ok_impl; [|apply (ko_objs s m1 Hk1)]. unfold pend. rewrite El, !Exists_exists. intros (l & Hl & Hin).
    apply list_elem_of_lookup in Hl as [k Hkk]. destruct (decide (k = 1%nat)) as [->|Hne].
    + rewrite E1 in Hkk. injection Hkk as <-. by destruct Hin as [H%not_elem_of_nil|H%not_elem_of_nil].
    + exists l. split; [|done]. apply (list_elem_of_lookup_2 _ k). by rewrite list_lookup_insert_ne.
  - intros l Hl. rewrite El in Hl. apply list_elem_of_lookup in Hl as [k Hkk].
    apply list_lookup_insert_Some in Hkk as [(_ & <- & _)|[_ Hkk]]; [by apply shape_simple|].
    apply (ko_shape s m1 Hk1). by eapply list_elem_of_lookup_2.
  - intros [| |i] cs Hcs Hne; [done| |].
    + injection Hcs as <-. by apply scenario_calls_ok.
    + exact (ko_side s m1 Hk1 (ByHandler i) cs Hcs Hne).
  - done.
  - done.
  - intros [| |i] cs o w Hcs Hq Hj Hw; [exact (ko_quiet s m1 Hk1 ByMain cs o w Hcs Hq Hj Hw)| |
      exact (ko_quiet s m1 Hk1 (ByHandler i) cs o w Hcs Hq Hj Hw)].
    injection Hcs as <-. destruct (simple_free o _ Hsimple) as (_ & H & _). congruence.
  - intros o. rewrite Ea. apply (ko_await s m1 Hk1).
Qed.

Lemma join_scenario_ok s m rest :
  known_ok s m -> todo m = JoinScenario :: rest -> exit_code m = None -> ready JoinScenario m = true ->
  check rest (s <| scenario_on := false |>) = true ->
  main_ok (set_calls ByMain rest (m <| scenario_ := None |>)).
Proof.
  intros Hk Ht Hx Hready Hrest. destruct (simple_todo s m _ rest Hk Ht eq_refl) as (Hr & H1 & H2 & H3).
  assert (Hk1 : known_ok s (set_calls ByMain rest m)) by by apply (same_call_ok s m m ByMain JoinScenario rest); [|simpl; rewrite Ht|..].
  exists (s <| scenario_on := false |>). split; [|by left]. set (m2 := set_calls ByMain rest _).
  assert (Hs : default [] (scenario_ m) = [] /\ hosted OnScenario (frames m) = false).
  { unfold ready in Hready. destruct (scenario_ m) as [[|]|]; try done; by apply negb_true_iff in Hready. }
  destruct Hs as [Hs Hh].
  assert (El : lists m2 = lists (set_calls ByMain rest m)) by (unfold lists; simpl; by rewrite Hs).
  constructor.
  - intros o. unfold pend. rewrite El. apply (ko_objs _ _ Hk1).
  - intros l. rewrite El. apply (ko_shape _ _ Hk1).
  - intros [| |i] cs Hcs Hne; [done|done|]. exact (ko_side _ _ Hk1 (ByHandler i) cs Hcs Hne).
  - intros [| |i] cs Hcs Hsc; [done|done|]. exfalso. simpl in Hcs. destruct (frames m !! i) as [fr|] eqn:Ef; [|done].
    unfold scen_side in Hsc. simpl in Hsc. rewrite Ef in Hsc. apply bool_decide_eq_true_1 in Hsc. simpl in Hsc.
    assert (hosted OnScenario (frames m) = true); [|congruence]. apply existsb_exists. exists fr.
    split; [by apply list_elem_of_In, (list_elem_of_lookup_2 _ i)|by apply bool_decide_eq_true_2].
  - done.
  - intros [| |i] cs o w Hcs Hq Hj Hw; [exact (ko_quiet _ _ Hk1 ByMain cs o w Hcs Hq Hj Hw)|done|
      exact (ko_quiet _ _ Hk1 (ByHandler i) cs o w Hcs Hq Hj Hw)].
  - intros o. unfold awaiters. rewrite El. apply (ko_await _ _ Hk1).
Qed.

(** [main] stops an object: what the checker then knows. *)
Lemma stopped_by_main s m o rest :
  known_ok s m -> exit_code m = None -> todo m = rest ->
  (forall w, objs m o = Some w -> worker_ok o (after_stop (phase s o)) (pend o m) w) ->
  (objs m o = None -> phase s o = Absent) ->
  check rest (set_phase o (after_stop (phase s o)) s) = true -> main_ok m.
Proof.
  intros Hk Hx Ht Hw Hn Hrest. exists (set_phase o (after_stop (phase s o)) s). split; [|by left; rewrite Ht].
  apply set_phase_ok; [done| |].
  - destruct (objs m o) as [w|] eqn:E; [by apply Hw|]. by rewrite Hn.
  - unfold started. by destruct (phase s o).
Qed.

(** Once the flag is down and the thread joined. *)
Lemma down_ok o p (P : Prop) w :
  worker_ok o p P w -> running w = false -> joinable w = false -> worker_ok o (after_stop p) P w.
Proof.
  intros [Hf Hp] Hr Hj. split; [done|]. destruct p; try done. destruct Hp as [H _]. split_and!; try done. congruence.
Qed.

Lemma main_stop_ok s m c rest o through r :
  known_ok s m -> exit_code m = None -> todo m = c :: rest -> stops o c -> scenario_on s = false ->
  (match c with StopIfSet _ => True | _ => present s o = true end) ->
  check rest (match c with Clear _ => s | _ => set_phase o (after_stop (phase s o)) s end) = true ->
  run_call ByMain through m = Some r ->
  match r with
  | inl f => handler_fault ByMain f m
  | inr m' => main_ok m' /\ (g_shutdown m = true -> g_shutdown m' = true) /\ map host (frames m') = map host (frames m)
  end.
Proof.
  intros Hk Hx Ht Hc Hoff Hp Hrest. unfold run_call. simpl calls_of. rewrite Ht.
  destruct (suspended ByMain m || negb (ready c m)); [done|]. intros [= <-].
  assert (Ha : calls_of ByMain m = Some (c :: rest)) by (simpl; by rewrite Ht).
  pose proof (ko_objs s m Hk o) as Ho.
  assert (Hown : forall w, objs m o = Some w -> joins o (c :: rest) = true -> running w = false).
  { intros w Hw Hj. by apply (ko_quiet s m Hk ByMain _ o w Ha). }
  assert (Hnow : objs m o = None -> phase s o = Absent).
  { intros E. by rewrite E in Ho. }
  assert (Hfirst : forall w, objs m o = Some w -> c = Stop o \/ c = StopIfSet o ->
    main_ok (set_calls ByMain (stop_calls o w ++ rest) (set_obj o (exchanged o w) m))).
  { intros w Hw Hcc.
    assert (Hrest' : check rest (set_phase o (after_stop (phase s o)) s) = true) by (by destruct Hcc as [-> | ->]).
    pose proof (stop_first_ok s m ByMain c rest o w Hk Ha Hcc Hw) as H1.
    unfold stop_calls in *. destruct (passes o w) eqn:Hpass.
    - exists s. split; [exact H1|]. left. split; [done|]. pose proof (worker_present s m o w Hk Hw) as Hpr.
      destruct (is_server o); cbn [set_calls todo set_field app check know]; unfold know_stop;
        rewrite Hpr, Hoff; cbn [andb negb]; rewrite ?Hpr, ?Hoff; exact Hrest'.
    - apply (stopped_by_main s _ o rest); [exact H1|done|done| |simpl; by rewrite fn_lookup_insert|done].
      intros w1 Hw1. pose proof (ko_objs _ _ H1 o) as H2. rewrite Hw1 in H2. apply skipped_ok; [exact H2|].
      simpl in Hw1. rewrite fn_lookup_insert in Hw1. injection Hw1 as <-. unfold exchanged, passes in *.
      destruct (is_server o) eqn:Hs; [by destruct o|done]. }
  destruct c as [|?|?|? ?|? ?|?|? ?|?| | | | | |o'|o'|?|?|o'|o'|o']; try done; simpl in Hc; subst o'; cbn [exec]; unfold with_obj.
  - destruct (present_worker s m o Hk Hp) as (w & Hw & _). rewrite Hw. split_and!; [apply Hfirst; auto|done|done].
  - destruct (objs m o) as [w|] eqn:Hw; [split_and!; [apply Hfirst; auto|done|done]|].
    split_and!; [|done|done]. apply (stopped_by_main s _ o rest); try done.
    + by apply (same_call_ok s m m ByMain (StopIfSet o)).
    + simpl. intros w. by rewrite Hw.
  - destruct (present_worker s m o Hk Hp) as (w & Hw & _). rewrite Hw. split_and!; [|done|done].
    exists s. split; [exact (clear_step_ok s m ByMain rest o w Hk Ha Hw)|]. by left.
  - destruct (present_worker s m o Hk Hp) as (w & Hw & _). rewrite Hw. destruct (joinable w) eqn:Hj; cbn [negb].
    + pose proof (fun f => join_fault s m ByMain rest o w f Hk Ha Hw Hj) as Hf.
      assert (Hmain : forall o', awaits o' (todo m) = true -> scenario_on s = false) by done.
      specialize (fun f => Hf f Hmain (fun _ => Hoff)).
      destruct (bool_decide _); [by apply Hf|]. destruct (awaited o m) eqn:Haw; [by apply Hf|].
      split_and!; [|done|done]. exists s. split; [exact (join_waits_ok s m ByMain rest o w Hk Ha Hw Hj Haw)|]. left. split; [done|].
      cbn [set_calls todo set_field check know]. unfold know_stop. rewrite Hp, Hoff. exact Hrest.
    + split_and!; [|done|done]. apply (stopped_by_main s _ o rest); [exact (join_unjoinable_ok s m ByMain rest o w Hk Ha Hw Hj)|done|done| |by simpl; rewrite Hw|done].
      simpl. intros w1 Hw1. rewrite Hw in Hw1. injection Hw1 as <-. apply down_ok; [|apply Hown; [done|by apply bool_decide_eq_true_2]|done].
      eapply worker_unjoinable; [done|]. rewrite Hw in Ho. exact Ho.
  - destruct (present_worker s m o Hk Hp) as (w & Hw & _). rewrite Hw. split_and!; [|done|done].
    pose proof (await_step_ok s m ByMain rest o w Hk Ha Hw) as H1.
    apply (stopped_by_main s _ o rest); [exact H1|done|done| |simpl; by rewrite fn_lookup_insert|done].
    pose proof (ko_objs s (set_calls ByMain rest (set_obj o (w <| thread := None |>) m)) H1 o) as H2.
    cbn [set_calls objs set_obj set_field] in H2. rewrite fn_lookup_insert in H2.
    intros w1. simpl. rewrite fn_lookup_insert. intros [= <-].
    apply down_ok; [exact H2| |done]. simpl. apply Hown; [done|]. simpl. by apply bool_decide_eq_true_2.
Qed.

Definition kept (m m' : Main) : Prop :=
  (g_shutdown m = true -> g_shutdown m' = true) /\ map host (frames m') = map host (frames m).

Lemma launch_ok s m rest o :
  known_ok s m -> exit_code m = None -> todo m = Launch o :: rest -> hosted OnMain (frames m) = false ->
  phase s o = Starting -> check rest (set_phase o Live s) = true ->
  exists w, objs m o = Some w /\ joinable w = false /\
    main_ok (set_calls ByMain rest (set_obj o (w <| thread := Some Alive |> <| overtaken := negb (running w) |>) m)).
Proof.
  intros Hk Hx Ht Hh Hph Hrest. pose proof (ko_objs s m Hk o) as Ho. rewrite Hph in Ho.
  destruct (objs m o) as [w|] eqn:Hw; [|done]. destruct Ho as (Hf & Hth & Hwi). exists w. split; [done|].
  split; [unfold joinable; by rewrite Hth|].
  destruct (shape_rest (Launch o) rest) as (_ & _ & Hr); [rewrite <-Ht; by apply (shape_of s m ByMain)|].
  exists (set_phase o Live s). split; [|by left].
  eapply (main_upd s m _ (Launch o) rest rest o Live (Some w)); try done.
  - apply set_obj_changed.
  - intros o' [?|Hin]%elem_of_cons; [done|]. by destruct (simple_free o' rest Hr) as (_ & _ & H & _).
  - intros o' [?|Hin]%elem_of_cons; [done|]. by destruct (simple_free o' rest Hr) as (_ & _ & _ & H).
  - by apply shape_simple.
  - intros o'. by apply simple_free.
  - intros o'. by apply simple_free.
  - simpl. intros Hrun. left. by exists w.
  - done.
  - intros P. split; [done|]. simpl. split; [destruct Hwi; auto|]. intros Hg _ Hrun. split; [done|].
    right. left. by rewrite Hrun.
Qed.

Lemma main_step_ok m through r :
  main_ok m -> run_call ByMain through m = Some r ->
  match r with inl f => handler_fault ByMain f m | inr m' => main_ok m' /\ kept m m' end.
Proof.
  intros (s & Hk & [[Hx Hcheck]|(_ & Ht & _)]) Hrun; [|by unfold run_call in Hrun; simpl in Hrun; rewrite Ht in Hrun].
  destruct (todo m) as [|c rest] eqn:Ht; [done|].
  assert (Hstop : forall o, stops o c -> scenario_on s = false ->
    (match c with StopIfSet _ => True | _ => present s o = true end) ->
    check rest (match c with Clear _ => s | _ => set_phase o (after_stop (phase s o)) s end) = true ->
    match r with inl f => handler_fault ByMain f m | inr m' => main_ok m' /\ kept m m' end).
  { intros o H1 H2 H3 H4. exact (main_stop_ok s m c rest o through r Hk Hx Ht H1 H2 H3 H4 Hrun). }
  pose proof Hrun as Hrun0. unfold run_call in Hrun. cbn [calls_of] in Hrun. rewrite Ht in Hrun.
  destruct (suspended ByMain m) eqn:Hh; [done|]. destruct (ready c m) eqn:Hready; [|done]. cbn [orb negb] in Hrun.
  injection Hrun as <-. change (hosted OnMain (frames m) = false) in Hh.
  destruct (is_return c) eqn:Hret.
  { destruct c; try done. split; [|done]. apply (return_ok s m (Return code) rest); try done. }
  destruct (check_cons c rest s Hcheck Hret) as (s' & Hs' & Hrest).
  assert (Hsame : forall m1, simple c = true -> s' = s -> todo m1 = todo m -> scenario_ m1 = scenario_ m -> frames m1 = frames m ->
    objs m1 = objs m -> exit_code m1 = exit_code m -> main_ok (set_calls ByMain rest m1)).
  { intros m1 H1 H2 H3 H4 H5 H6 H7. by apply (main_goes_on s m m1 c rest s'). }
  assert (Hex : forall o, present s o = true -> exists w, objs m o = Some w).
  { intros o Hp. destruct (present_worker s m o Hk Hp) as (w & Hw & _). by exists w. }
  destruct c as [|o|o|o p|o p|o|x needed|o| | | | | |o|o|code|o|o|o|o]; try done; cbn [know] in Hs'; unfold know_stop in *;
    repeat match goal with H : match ?b with _ => _ end = Some _ |- _ => let E := fresh "E" in destruct b eqn:E; try done end;
    injection Hs' as <-; bool_to_prop; cbn [exec]; unfold with_obj;
    try (by eapply Hstop; [reflexivity|done..]).
  - split; [by apply Hsame|done].
  - split; [|done]. eapply (main_new_ok s m _ rest o); eauto; congruence.
  - destruct (Hex o) as (w & ->); [done|]. split; [by apply Hsame|done].
  - destruct (Hex o) as (w & ->); [done|]. destruct (Hex p) as (w' & ->); [done|]. split; [by apply Hsame|done].
  - destruct (Hex p) as (w & ->); [done|]. split; [|done]. eapply (main_new_ok s m _ rest o); eauto.
  - destruct (fresh_obj s m o wired0 Hk E) as (_ & w & Hw & H1 & H2 & H3 & H4). rewrite Hw. split; [|done].
    eapply (main_touched_ok s m _ _ rest o wired0 (Fresh true) w (w <| wired := true |>)); try done.
    by apply set_obj_changed.
  - destruct (fresh_obj s m (Client x) true Hk E) as (_ & w & Hw & H1 & H2 & H3 & H4). rewrite Hw, H1. cbn [negb andb].
    destruct through.
    + split; [|done]. eapply (main_raised_ok s m _ rest (Client x) true w); eauto.
    + destruct needed; cbn [andb negb] in *.
      * split; [|done]. eapply (return_ok s m (Connect x true) rest); eauto. by apply negb_false_iff.
      * split; [|done].
        eapply (main_touched_ok s m m _ rest (Client x) true Live w w); eauto using same_changed.
        intros P. split; [done|]. split; [by left|]. intros Hg. done.
  - destruct (fresh_obj s m o wired0 Hk E) as (_ & w & Hw & H1 & H2 & H3 & H4). rewrite Hw.
    assert (Hgo : start_returns o w = false).
    { unfold start_returns. rewrite H1, H3. simpl. case_bool_decide as Ho; [subst o|done]. by destruct wired0. }
    rewrite Hgo. split; [|done]. by eapply (main_raised_ok s m _ rest o wired0 w).
  - assert (Hnone : scenario_ m = None).
    { destruct (scenario_ m) as [cs|] eqn:Es; [|done]. pose proof (ko_scen s m Hk ByScenario cs Es eq_refl). congruence. }
    rewrite Hnone. split; [|done]. by apply (start_scenario_ok s m rest).
  - assert (Hall : forallb (fun x => exists_ m (Client x)) clients = true).
    { rewrite forallb_forall in E |- *. intros x Hx0. destruct (Hex (Client x) (E x Hx0)) as (w & Hw).
      unfold exists_. apply bool_decide_eq_true_2. by exists w. }
    rewrite Hall. split; [by apply Hsame|done].
  - split; [by apply Hsame|done].
  - split; [|done]. by apply (join_scenario_ok s m rest).
  - split; [by apply Hsame|done].
  - destruct (launch_ok s m rest o Hk Hx Ht Hh E Hrest) as (w & Hw & Hj & Hm). rewrite Hw, Hj. split; [exact Hm|done].
Qed.

(** ** Every step *)

Lemma handler_calls_ok s scen : forallb (side_call s scen) handler_calls = true.
Proof. done. Qed.

Lemma handler_calls_simple : forallb simple handler_calls = true.
Proof. done. Qed.

(** Handlers come and go. *)
Lemma frames_ok s m fs :
  known_ok s m ->
  (forall f, f ∈ fs -> f ∈ frames m \/ calls f = handler_calls /\ (host f = OnScenario -> scenario_ m <> None)) ->
  (forall o, awaiters o (m <| frames := fs |>) = awaiters o m) ->
  (forall o, pend o m -> pend o (m <| frames := fs |>)) ->
  known_ok s (m <| frames := fs |>).
Proof.
  intros Hk Hfs Haw Hpend. set (m' := m <| frames := fs |>).
  assert (Hframe : forall i cs, calls_of (ByHandler i) m' = Some cs ->
    (exists j, calls_of (ByHandler j) m = Some cs /\ host_of (ByHandler j) m = host_of (ByHandler i) m') \/
    cs = handler_calls /\ (host_of (ByHandler i) m' = OnScenario -> scenario_ m <> None)).
  { intros i cs H. simpl in H. destruct (fs !! i) as [f|] eqn:Ef; [|done]. injection H as <-.
    destruct (Hfs f (list_elem_of_lookup_2 _ i _ Ef)) as [Hin|[Hc Hh]].
    - left. apply list_elem_of_lookup in Hin as [j Hj]. exists j. simpl. by rewrite Ef, Hj.
    - right. split; [done|]. simpl. by rewrite Ef. }
  assert (Hsimple : forall o, joins o handler_calls = false) by done.
  constructor.
  - intros o. eapply obj_ok_impl; [apply Hpend|apply (ko_objs s m Hk)].
  - intros cs Hcs. apply lists_elem in Hcs as [->|([| |i] & Hcs)]; [done| | |].
    + by apply (shape_of s m ByMain).
    + by apply (shape_of s m ByScenario).
    + destruct (Hframe i cs Hcs) as [(j & Hj & _)|[-> _]]; [by apply (shape_of s m (ByHandler j))|done].
  - intros [| |i] cs Hcs Hne; [done|exact (ko_side s m Hk ByScenario cs Hcs Hne)|].
    destruct (Hframe i cs Hcs) as [(j & Hj & Hh)|[-> _]]; [|done]. unfold scen_side. rewrite <-Hh.
    by apply (ko_side s m Hk (ByHandler j)).
  - intros [| |i] cs Hcs; [done|exact (ko_scen s m Hk ByScenario cs Hcs)|]. unfold scen_side.
    destruct (Hframe i cs Hcs) as [(j & Hj & Hh)|[_ Hh]].
    + rewrite <-Hh. by apply (ko_scen s m Hk (ByHandler j) cs).
    + intros E%bool_decide_eq_true_1. destruct (scenario_ m) as [l|] eqn:Es; [|by destruct Hh].
      by apply (ko_scen s m Hk ByScenario l).
  - apply (ko_on s m Hk).
  - intros [| |i] cs o w Hcs Hq Hj; [exact (ko_quiet s m Hk ByMain cs o w Hcs Hq Hj)|exact (ko_quiet s m Hk ByScenario cs o w Hcs Hq Hj)|].
    destruct (Hframe i cs Hcs) as [(j & Hjj & Hh)|[-> _]]; [|by rewrite Hsimple in Hj].
    unfold quiet in Hq. rewrite <-Hh in Hq. by apply (ko_quiet s m Hk (ByHandler j) cs o w).
  - intros o. fold m' in Haw. rewrite Haw. apply (ko_await s m Hk).
Qed.

Lemma signal_ok s m h :
  known_ok s m -> live h m -> known_ok s (m <| frames := frames m ++ [mkFrame h handler_calls] |>).
Proof.
  intros Hk Hl.
  assert (El : lists (m <| frames := frames m ++ [mkFrame h handler_calls] |>) = lists m ++ [handler_calls]).
  { unfold lists. simpl. by rewrite map_app. }
  apply frames_ok; [done| | |].
  - intros f [Hin|E%list_elem_of_singleton]%elem_of_app; [by left|right]. subst f. split; [done|]. simpl. intros ->.
    destruct Hl as (cs & -> & _). done.
  - intros o. unfold awaiters. rewrite El, sum_list_with_app. simpl. lia.
  - intros o. unfold pend. rewrite El. intros H. apply Exists_app. by left.
Qed.

Lemma return_handler_ok s m i m' :
  known_ok s m -> return_handler i m = Some m' -> known_ok s m' /\ m' = m <| frames := delete i (frames m) |>.
Proof.
  intros Hk (f & Hf & E)%bind_Some. destruct (calls f) eqn:Ec; [|done]. destruct (suspended _ _); [done|]. injection E as <-.
  split; [|done]. set (m' := m <| frames := delete i (frames m) |>).
  assert (E1 : lists m !! S (S i) = Some []) by (unfold lists; simpl; rewrite list_lookup_fmap, Hf; simpl; by rewrite Ec).
  assert (El : lists m' = delete (S (S i)) (lists m)).
  { unfold lists. simpl. do 2 f_equal. by rewrite <-list_fmap_delete. }
  apply frames_ok; [done| | |].
  - intros f0 Hin. left. apply list_elem_of_lookup in Hin as [j Hj]. destruct (decide (j < i)%nat) as [Hlt|Hge].
    + rewrite list_lookup_delete_lt in Hj by done. by eapply list_elem_of_lookup_2.
    + rewrite list_lookup_delete_ge in Hj by lia. by eapply list_elem_of_lookup_2.
  - intros o. unfold awaiters. fold m'. rewrite El.
    pose proof (sum_list_delete (fun cs => if awaits o cs then 1%nat else 0%nat) _ _ _ E1) as H. cbn [awaits] in H. lia.
  - intros o. unfold pend. fold m'. rewrite El, !Exists_exists. intros (l & Hl & Hin). exists l. split; [|done].
    apply list_elem_of_lookup in Hl as [k Hkk]. apply list_elem_of_lookup.
    destruct (decide (k < S (S i))%nat) as [Hlt|Hge]; [exists k; by rewrite list_lookup_delete_lt|].
    destruct (decide (k = S (S i))) as [->|Hne].
    { rewrite E1 in Hkk. injection Hkk as <-. by destruct Hin as [H%not_elem_of_nil|H%not_elem_of_nil]. }
    exists (k - 1)%nat. rewrite list_lookup_delete_ge by lia. by replace (S (k - 1)) with k by lia.
Qed.

(** The thread of an object goes its own way. *)
Lemma worker_step_ok o p (P : Prop) w w' :
  worker_ok o p P w -> thread w <> None -> (running w' = true -> running w = true) -> wired w' = wired w -> thread w' <> None ->
  (failed w' = failed w \/ is_server o = true /\ failed w' = true) -> overtaken w' = overtaken w ->
  (running w' = running w \/ guarded o = false \/ failed w' = true) -> worker_ok o p P w'.
Proof.
  intros [Hf Hp] Ht Hr Hw Ht' Hfail Hov Hrun.
  assert (Hrf : running w = false -> running w' = false) by (intros; destruct (running w'); [specialize (Hr eq_refl); congruence|done]).
  assert (Hj : joinable w = true) by by apply bool_decide_eq_true_2.
  split; [destruct Hfail as [->|[? _]]; auto|]. unfold abandoned in *. rewrite Hw, Hov.
  destruct p; [done|by destruct Hp as (_ & ? & _)|by destruct Hp| |].
  - destruct Hp as [H1 H2]. split; [done|]. intros Hg _ Hr'. split; [done|].
    destruct Hfail as [Ef|[_ ->]]; [|by left]. rewrite Ef. destruct Hrun as [E|[E|E]]; [|congruence|left; congruence].
    by apply H2; [..|congruence].
  - destruct Hp as (H1 & H2 & H3). split_and!; [by apply Hrf|done|]. intros _. destruct (H3 Hj) as [Hg H4]. split; [done|].
    destruct Hfail as [->|[_ ->]]; [done|by left].
Qed.

Lemma main_ok_obj s m o w w' :
  known_ok s m -> objs m o = Some w -> thread w <> None -> (running w' = true -> running w = true) -> wired w' = wired w ->
  thread w' <> None -> (failed w' = failed w \/ is_server o = true /\ failed w' = true) -> overtaken w' = overtaken w ->
  (running w' = running w \/ guarded o = false \/ failed w' = true) -> known_ok s (set_obj o w' m).
Proof.
  intros Hk Hw Ht Hr Hwi Ht' Hf Hov Hrun. apply (obj_upd_ok s m o w); try done.
  - intros _. by apply bool_decide_eq_true_2.
  - pose proof (ko_objs s m Hk o) as Ho. rewrite Hw in Ho. by apply (worker_step_ok o _ _ w).
Qed.

Lemma end_thread_ok s m o m' :
  known_ok s m -> end_thread o m = Some m' ->
  exists w, objs m o = Some w /\ thread w = Some Alive /\ m' = set_obj o (w <| thread := Some Ended |>) m /\ known_ok s m'.
Proof.
  intros Hk (w & Hw & E)%bind_Some. destruct (bool_decide (thread w = Some Alive) && _ && _ && _) eqn:Eb; [|done].
  bool_to_prop. injection E as <-. assert (Ha : thread w = Some Alive) by (by eapply bool_decide_eq_true_1). exists w. split_and!; try done.
  apply (main_ok_obj s m o w); try done; [congruence|by left|by left].
Qed.

(** What [main] awaits it awaits after the scenario. *)
Lemma main_awaits s m o :
  exit_code m = None /\ check (todo m) s = true \/ is_Some (exit_code m) /\ todo m = [] /\ ended s = true ->
  awaits o (todo m) = true -> scenario_on s = false.
Proof.
  intros [[_ Hc]|(_ & -> & _)]; [|done]. destruct (todo m) as [|[] rest]; try done. intros _.
  cbn [check know] in Hc. unfold know_stop in Hc. destruct (present s _), (scenario_on s); done.
Qed.

Lemma call_ok m a through r :
  main_ok m -> run_call a through m = Some r ->
  match r with inl f => handler_fault a f m | inr m' => main_ok m' /\ kept m m' end.
Proof.
  intros Hm Hrun. destruct (decide (a = ByMain)) as [->|Hne]; [by apply main_step_ok in Hrun|].
  pose proof Hm as (s & Hk & Hat).
  pose proof (side_step_ok s m a through r Hk (fun o => main_awaits s m o Hat) Hne Hrun) as Hs.
  destruct r as [f|m']; [done|]. destruct Hs as (Hk' & (H1 & H2 & H3) & H4). split; [|done].
  exists s. split; [done|]. by rewrite H1, H4.
Qed.

Lemma own_keeps_main m m' : main_ok m -> own_step m m' -> main_ok m'.
Proof.
  intros Hm Hs. destruct Hs as [a through m m' E|i m m' E|o m m' E].
  - apply (call_ok m a through (inr m') Hm E).
  - destruct Hm as (s & Hk & Hat). destruct (return_handler_ok s m i m' Hk E) as [Hk' ->]. by exists s.
  - destruct Hm as (s & Hk & Hat). destruct (end_thread_ok s m o m' Hk E) as (w & _ & _ & -> & Hk'). by exists s.
Qed.

Lemma step_ok m m' : main_ok m -> step m m' -> main_ok m'.
Proof.
  intros Hm [Hs|Hs]; [by eapply own_keeps_main|]. destruct Hm as (s & Hk & Hat).
  destruct Hs as [h m Hh Ht Hl|x w m Hw Ht|k w m Hw Ht Hr|w m Hw Ht|o b w m Hw Ht Hc]; exists s; (split; [|exact Hat]).
  - by apply signal_ok.
  - apply (main_ok_obj s m _ w); try done; [congruence| |by left|by right; left]. simpl. congruence.
  - apply (main_ok_obj s m _ w); try done; [congruence|by right|by right; right].
  - assert (H : known_ok s (set_obj Engine (w <| running := false |>) m)).
    { apply (main_ok_obj s m _ w); try done; [congruence| |by left|by right; left]. simpl. congruence. }
    destruct H as [H1 H2 H3 H4 H5 H6 H7]. by constructor.
  - apply (main_ok_obj s m _ w); try done; [congruence| |by left|by left]. simpl. congruence.
Qed.

Lemma main_start_ok o : main_ok (main_start o).
Proof.
  exists nothing. split; [|left; split; [done|apply check_main]].
  assert (Hs : forallb simple (main_calls o) = true).
  { unfold main_calls, register_remotes, report_client_calls, fix_server_calls.
    assert (Hr : forallb simple (register_remotes o) = true) by (unfold register_remotes; by induction (remote_specs o)).
    case_bool_decide; [|case_bool_decide]; [by rewrite !forallb_app, Hr..|].
    unfold full_calls, server_calls, configure_fix, start_fix. by repeat (case_match || case_bool_decide). }
  constructor; try done.
  - intros cs [->|[->|Hin]%elem_of_cons]%elem_of_cons; [by apply shape_simple|done|by apply not_elem_of_nil in Hin].
  - intros [| |i] cs Hcs; done.
  - intros [| |i] cs Hcs; done.
  - intros o'. unfold awaiters. simpl. destruct (simple_free o' _ Hs) as [-> _]. simpl. split; [lia|]. lia.
Qed.

Lemma reachable_main o m : rtc step (main_start o) m -> main_ok m.
Proof.
  intros Hr. apply (rtc_invariant step main_ok (main_start o) m); [apply step_ok|done|apply main_start_ok].
Qed.

(** ** The end of the process *)




Lemma all_globals o : o ∈ globals.
Proof.
  destruct o as [| | | | | |[|[]]|[]]; unfold globals, clients; simpl; repeat (apply list_elem_of_here || apply list_elem_of_further).
Qed.


(** ** How much there is left to do *)

Definition simple_weight (c : Call) : nat :=
  (match c with
   | Await _ => 1
   | Join _ | Launch _ | New _ | Make _ _ => 2
   | Clear _ | Start _ | Connect _ _ => 3
   | Stop _ | StopIfSet _ => 6
   | _ => 1
   end)%nat.
Definition call_weight (c : Call) : nat :=
  match c with StartScenario => S (sum_list_with simple_weight scenario_calls) | _ => simple_weight c end.
Definition weight (cs : list Call) : nat := sum_list_with call_weight cs.

Definition alive1 (ow : option Worker) : nat :=
  (match ow with Some w => if bool_decide (thread w = Some Alive) then 1 else 0 | None => 0 end)%nat.
Definition alive (m : Main) : nat := sum_list_with (fun o => alive1 (objs m o)) globals.

(** The calls of every agent, the handlers and the threads that run. *)
Definition work (m : Main) : nat := (sum_list_with weight (lists m) + length (frames m) + alive m)%nat.

Lemma sum_list_fn (f : Obj -> option Worker) o v l :
  NoDup l -> o ∈ l ->
  (sum_list_with (fun o' => alive1 (<[o := v]> f o')) l + alive1 (f o) = sum_list_with (fun o' => alive1 (f o')) l + alive1 v)%nat.
Proof.
  induction 1 as [|x l Hx Hl IH]; [by intros ?%not_elem_of_nil|]. simpl. intros [->|Hin]%elem_of_cons.
  - rewrite fn_lookup_insert.
    assert (E : sum_list_with (fun o' => alive1 (<[x := v]> f o')) l = sum_list_with (fun o' => alive1 (f o')) l); [|lia].
    clear IH Hl. induction l as [|y l IH]; [done|]. simpl. apply not_elem_of_cons in Hx as [Hne Hx].
    rewrite fn_lookup_insert_ne by done. by rewrite IH.
  - rewrite fn_lookup_insert_ne by (by intros ->). specialize (IH Hin). lia.
Qed.

Lemma alive_set o w m : (alive (set_obj o w m) + alive1 (objs m o) = alive m + alive1 (Some w))%nat.
Proof.
  unfold alive. apply sum_list_fn; [|apply all_globals]. apply (bool_decide_unpack _). by vm_compute.
Qed.

Lemma alive_le o w m : (alive (set_obj o w m) <= alive m + 1)%nat.
Proof. pose proof (alive_set o w m). unfold alive1 at 2 in H. case_bool_decide; lia. Qed.

Lemma alive_same o w w' m : objs m o = Some w -> thread w' = thread w -> alive (set_obj o w' m) = alive m.
Proof. intros Hw Ht. pose proof (alive_set o w' m) as H. rewrite Hw in H. unfold alive1 in H. rewrite Ht in H. lia. Qed.

Lemma stop_weight o w rest : (weight (stop_calls o w ++ rest) <= 5 + weight rest)%nat.
Proof. unfold stop_calls. destruct (passes o w), (is_server o); unfold weight; simpl; lia. Qed.

(** A call costs less than it was worth. *)
Lemma exec_weight h through c rest m cs m1 :
  exec h through c rest m = inr (cs, m1) -> c <> StartScenario -> c <> JoinScenario ->
  todo m1 = todo m /\ scenario_ m1 = scenario_ m /\ frames m1 = frames m /\
  (weight cs + alive m1 < weight (c :: rest) + alive m)%nat.
Proof.
  intros E H1 H2.
  assert (Hnew : forall o, (weight rest + alive (set_obj o (new_worker o) m) < 2 + weight rest + alive m)%nat).
  { intros o. pose proof (alive_le o (new_worker o) m). lia. }
  assert (Hkeep : forall o w w' n cs, objs m o = Some w -> thread w' = thread w -> (weight cs < n + weight rest)%nat ->
    (weight cs + alive (set_obj o w' m) < n + weight rest + alive m)%nat).
  { intros o w w' n cs0 Hw Ht Hn. rewrite (alive_same o w) by done. lia. }
  assert (Hstop : forall o w, objs m o = Some w ->
    (weight (stop_calls o w ++ rest) + alive (set_obj o (exchanged o w) m) < 6 + weight rest + alive m)%nat).
  { intros o w Hw. apply (Hkeep o w); [done|unfold exchanged; by case_match|]. pose proof (stop_weight o w rest). lia. }
  change (weight (c :: rest)) with (call_weight c + weight rest)%nat.
  destruct c; cbn [exec] in E; unfold with_obj in E; try done;
    repeat match goal with H : context [match objs m ?o with _ => _ end] |- _ => destruct (objs m o) as [?w|] eqn:?; try done end;
    repeat match goal with H : (if ?b then _ else _) = inr _ |- _ => destruct b eqn:?; try done end;
    injection E as <- <-; (split_and!; [done..|]); cbn [call_weight];
    try (by auto); try (change (weight []) with 0%nat); try (change (alive m) with (alive m); unfold alive; simpl; lia).
  all: cbn [simple_weight];
    try (by apply Hnew); try (by eapply Hstop); try (eapply Hkeep; [eassumption|done|unfold weight; simpl; lia]).
  - match goal with |- context [alive (set_obj ?o ?w m)] => pose proof (alive_le o w m) end. lia.
  - match goal with |- context [alive (set_obj ?o ?w m)] => pose proof (alive_set o w m) as Ha; set (m2 := set_obj o w m) in * end.
    cbn [alive1 thread] in Ha. rewrite bool_decide_false in Ha by done. lia.
Qed.

Lemma work_moved a old cs m m' :
  calls_of a m = Some old -> moved a cs m m' ->
  (work m' + weight old + alive m = work m + weight cs + alive m')%nat.
Proof.
  intros Ha (El & _ & Eh). unfold work. rewrite El. apply lists_lookup in Ha.
  pose proof (sum_list_insert weight _ _ _ cs Ha). apply (f_equal length) in Eh. rewrite !length_map in Eh. lia.
Qed.

Lemma alive_calls a cs m : alive (set_calls a cs m) = alive m.
Proof. unfold alive. by rewrite set_calls_objs. Qed.

(** Only [main] starts and joins the scenario. *)
Lemma call_weight_down m a through m' : main_ok m -> run_call a through m = Some (inr m') -> (work m' < work m)%nat.
Proof.
  intros (s & Hk & _). unfold run_call. destruct (calls_of a m) as [[|c rest]|] eqn:Ha; try done.
  destruct (suspended a m || negb (ready c m)) eqn:Hrd; [done|]. apply orb_false_iff in Hrd as [_ Hready%negb_false_iff].
  destruct (exec (host_of a m) through c rest m) as [f|[cs m1]] eqn:E; [done|]. intros [= <-].
  assert (Hmain : c = StartScenario \/ c = JoinScenario -> a = ByMain).
  { intros Hc. destruct (decide (a = ByMain)) as [|Hne]; [done|]. destruct (side_rest s m a c rest Hk Ha Hne) as [Hs _].
    by destruct Hc as [-> | ->]. }
  assert (Hgo : c <> StartScenario -> c <> JoinScenario -> (work (set_calls a cs m1) < work m)%nat).
  { intros H1 H2. destruct (exec_weight _ _ _ _ _ _ _ E H1 H2) as (E1 & E2 & E3 & Hw).
    pose proof (set_calls_moved a cs _ m m1 Ha E1 E2 E3) as Hm. pose proof (work_moved a _ cs m _ Ha Hm) as Hwk.
    rewrite alive_calls in Hwk. lia. }
  destruct c; try (by apply Hgo).
  - rewrite (Hmain (or_introl eq_refl)) in *. cbn [exec] in E. destruct (scenario_ m) eqn:Es; [done|]. injection E as <- <-.
    simpl in Ha. injection Ha as Ht.
    assert (Ew : weight (StartScenario :: rest) = S (weight scenario_calls + weight rest)%nat) by reflexivity.
    unfold work, lists, alive. cbn [set_calls set_field todo scenario_ frames objs default id].
    rewrite Es, Ht. cbn [default id sum_list_with]. rewrite Ew. change (weight []) with 0%nat. lia.
  - rewrite (Hmain (or_intror eq_refl)) in *. cbn [exec] in E. injection E as <- <-.
    simpl in Ha. injection Ha as Ht.
    assert (Ew : weight (JoinScenario :: rest) = S (weight rest)) by reflexivity.
    unfold work, lists, alive. cbn [set_calls set_field todo scenario_ frames objs default id].
    rewrite Ht. cbn [default id sum_list_with]. rewrite Ew. change (weight []) with 0%nat. lia.
Qed.

(** Only the threads of [can_block] are ever stuck. *)
Definition stuck_ok (m : Main) : Prop := forall o w, objs m o = Some w -> blocked w = true -> can_block o = true.

Lemma stuck_set o w m : stuck_ok m -> (blocked w = true -> can_block o = true) -> stuck_ok (set_obj o w m).
Proof.
  intros Hm Hw o' w'. simpl. destruct (decide (o = o')) as [<-|Hne].
  - rewrite fn_lookup_insert. by intros [= <-].
  - rewrite fn_lookup_insert_ne by done. apply Hm.
Qed.

Lemma stuck_exec h through c rest m cs m' : stuck_ok m -> exec h through c rest m = inr (cs, m') -> stuck_ok m'.
Proof.
  intros Hm E. destruct c; simpl in E; unfold with_obj in E; repeat (case_match; try done); simplify_eq; try done;
    (apply stuck_set; [done|]); unfold new_worker, exchanged, cleared; simpl; repeat case_match; simpl;
    first [done|by (intros; eapply Hm)|idtac].
Qed.

Lemma stuck_calls a cs m : stuck_ok m -> stuck_ok (set_calls a cs m).
Proof. by destruct a. Qed.

Lemma stuck_own m m' : own_step m m' -> stuck_ok m -> stuck_ok m'.
Proof.
  intros Hs Hm. destruct Hs as [a through m m' E|i m m' E|o m m' E].
  - unfold run_call in E. repeat (case_match; try done). simplify_eq. by eapply stuck_calls, stuck_exec.
  - apply bind_Some in E as (f & _ & E). repeat (case_match; try done). by simplify_eq.
  - apply bind_Some in E as (w & Hw & E). case_match; [|done]. injection E as <-. apply stuck_set; [done|]. simpl. by apply Hm.
Qed.

Lemma stuck_step m m' : step m m' -> stuck_ok m -> stuck_ok m'.
Proof.
  intros [Hs|Hs] Hm; [by eapply stuck_own|]. destruct Hs.
  - exact Hm.
  - apply stuck_set; [done|]. first [done|exact (Hm _ _ H)].
  - apply stuck_set; [done|]. first [done|exact (Hm _ _ H)].
  - change (stuck_ok (set_obj Engine (w <| running := false |>) m)). apply stuck_set; [done|]. first [done|exact (Hm _ _ H)].
  - by apply stuck_set.
Qed.

Lemma stuck_reachable o m : rtc step (main_start o) m -> stuck_ok m.
Proof.
  intros Hr. assert (H : stuck_ok (main_start o)) by done. revert H. induction Hr as [m|m m1 m' Hs _ IH]; [done|].
  intros H. by apply IH, (stuck_step m).
Qed.

Lemma own_work m m' : main_ok m -> own_step m m' -> (work m' < work m)%nat.
Proof.
  intros Hm Hs. destruct Hs as [a through m m' E|i m m' E|o m m' E].
  - by eapply call_weight_down.
  - apply bind_Some in E as (f & Hf & E). destruct (calls f) eqn:Ec; [|done]. destruct (suspended _ _); [done|]. injection E as <-.
    set (m' := m <| frames := delete i (frames m) |>). change (work m' < work m)%nat.
    assert (E1 : lists m !! S (S i) = Some []) by (unfold lists; simpl; rewrite list_lookup_fmap, Hf; simpl; by rewrite Ec).
    assert (El : lists m' = delete (S (S i)) (lists m)) by (unfold lists; simpl; do 2 f_equal; by rewrite <-list_fmap_delete).
    assert (Ea : alive m' = alive m) by done.
    pose proof (sum_list_delete weight _ _ _ E1) as H. change (weight []) with 0%nat in H.
    assert (En : length (frames m') = (length (frames m) - 1)%nat) by (apply length_delete; by eexists).
    apply lookup_lt_Some in Hf. unfold work. rewrite El, Ea, En. lia.
  - apply bind_Some in E as (w & Hw & E). destruct (bool_decide (thread w = Some Alive) && _ && _ && _) eqn:Eb; [|done].
    injection E as <-. assert (Ht : thread w = Some Alive).
    { repeat apply andb_true_iff in Eb as [Eb _]. by apply bool_decide_eq_true_1 in Eb. }
    pose proof (alive_set o (w <| thread := Some Ended |>) m) as Ha. rewrite Hw in Ha.
    change (alive1 (Some (w <| thread := Some Ended |>))) with 0%nat in Ha. simpl alive1 in Ha. rewrite Ht in Ha. simpl in Ha.
    unfold work. set (m' := set_obj o _ m) in *. change (lists m') with (lists m). change (frames m') with (frames m).
    change (alive m' + 1 = alive m + 0)%nat in Ha. lia.
Qed.

(** ** Where the program can stand still *)

Definition quiet_frames (m : Main) : Prop := Forall (fun f => quiet_host (host f) = true) (frames m).

Lemma own_keeps m m' : main_ok m -> own_step m m' ->
  (g_shutdown m = true -> g_shutdown m' = true) /\ (quiet_frames m -> quiet_frames m').
Proof.
  intros Hm Hs. destruct Hs as [a through m m' E|i m m' E|o m m' E].
  - destruct (call_ok m a through (inr m') Hm E) as (_ & H1 & H2). split; [done|]. unfold quiet_frames.
    rewrite !Forall_forall. intros Hq f Hf. apply (list_elem_of_fmap_2 host) in Hf.
    change (host f ∈ map host (frames m')) in Hf. rewrite H2 in Hf. apply (list_elem_of_fmap_1 host) in Hf as (f0 & -> & Hf).
    by apply Hq.
  - apply bind_Some in E as (f & _ & E). repeat (case_match; try done). injection E as <-. split; [done|].
    unfold quiet_frames. simpl. apply Forall_delete.
  - apply bind_Some in E as (w & _ & E). case_match; [|done]. by injection E as <-.
Qed.

(** Nothing goes on by itself any more. *)
Definition still (m : Main) : Prop := forall m', ~ own_step m m'.

(** A call that ends the process or is undefined, or somebody in [join] of a
    thread that was told to end and waits for something else. *)
Definition held_up (m : Main) : Prop :=
  (frames m <> [] /\ exists a through f, run_call a through m = Some (inl f)) \/
  exists o w, objs m o = Some w /\ thread w = Some Alive /\ running w = false /\
    blocked w = true /\ can_block o = true /\ awaited o m = true.

Lemma fault_frames a f m : handler_fault a f m -> frames m <> [] \/ exists i, a = ByHandler i.
Proof.
  destruct f as [| |o|o]; simpl; [done|done| |].
  - intros (i & fr & -> & _). right. by exists i.
  - intros [(i & ->)|(fr & Hin & _)]; [right; by exists i|left]. intros E. rewrite E in Hin. by apply not_elem_of_nil in Hin.
Qed.

Lemma still_agent m a c rest :
  main_ok m -> stuck_ok m -> quiet_frames m -> still m -> calls_of a m = Some (c :: rest) -> suspended a m = false ->
  (ready c m = true \/ exists o, c = Await o) -> held_up m.
Proof.
  intros Hm Hb0 Hq Hst Ha Hsus Hc. destruct (ready c m) eqn:Hr.
  - destruct (run_call a true m) as [[f|m']|] eqn:E; [|by destruct (Hst m'); eapply own_call|].
    + left. split; [|by exists a, true, f]. destruct (fault_frames a f m (call_ok m a true (inl f) Hm E)) as [H|(i & ->)]; [done|].
      simpl in Ha. intros E0. by rewrite E0 in Ha.
    + unfold run_call in E. rewrite Ha, Hsus, Hr in E. done.
  - destruct Hc as [?|(o & ->)]; [done|]. destruct Hm as (s & Hk & _). right. exists o.
    assert (Haw : awaited o m = true).
    { unfold awaited. apply existsb_exists. exists (Await o :: rest).
      split; [by apply list_elem_of_In, (elem_lists a)|by apply bool_decide_eq_true_2]. }
    destruct (ko_await s m Hk o) as [_ Hw]. destruct Hw as (w & Hw & Hj).
    { unfold awaited, awaiters in *. clear -Haw. induction (lists m) as [|cs l IH]; [done|]. simpl in *.
      destruct (awaits o cs); simpl in *; [lia|by apply IH]. }
    exists w. split; [done|]. simpl in Hr. rewrite Hw in Hr. apply bool_decide_eq_false_1 in Hr.
    assert (Ht : thread w = Some Alive).
    { unfold joinable in Hj. apply bool_decide_eq_true_1 in Hj. by destruct (thread w) as [[]|]. }
    assert (Hqa : quiet a m = true).
    { destruct a as [| |i]; [done|done|]. unfold quiet. simpl in *. destruct (frames m !! i) as [f|] eqn:Ef; [|done].
      by apply (Forall_lookup_1 _ _ _ _ Hq Ef). }
    assert (Hrun : running w = false) by (apply (ko_quiet s m Hk a _ o w Ha Hqa); [by apply bool_decide_eq_true_2|done]).
    destruct (blocked w) eqn:Hb; [split_and!; try done; by apply (Hb0 o w)|]. exfalso.
    assert (Hh : hosted (OnThread o) (frames m) = false).
    { destruct (hosted (OnThread o) (frames m)) eqn:E; [|done]. apply existsb_exists in E as (f & Hin%list_elem_of_In & E%bool_decide_eq_true_1).
      unfold quiet_frames in Hq. rewrite Forall_forall in Hq. specialize (Hq f Hin). by rewrite E in Hq. }
    destruct (end_thread o m) as [m'|] eqn:E; [by destruct (Hst m'); eapply own_end|].
    unfold end_thread in E. rewrite Hw in E. cbn [mbind option_bind] in E. rewrite Ht, Hrun, Hb, Hh in E. done.
Qed.

Lemma top_frame h fs :
  hosted h fs = true -> exists i f, fs !! i = Some f /\ host f = h /\ hosted h (drop (S i) fs) = false.
Proof.
  induction fs as [|f fs IH]; [done|]. simpl. destruct (hosted h fs) eqn:E.
  - intros _. destruct (IH eq_refl) as (i & f' & H1 & H2 & H3). by exists (S i), f'.
  - rewrite orb_false_r. intros Hf%bool_decide_eq_true_1. exists 0%nat, f. split_and!; [done..|]. simpl. by rewrite drop_0.
Qed.

(** The calls of the scenario and the handlers wait only in [join]. *)
Lemma side_ready s scen c m : side_call s scen c = true -> ready c m = true \/ exists o, c = Await o.
Proof. destruct c; try done; try (by left); right; by eexists. Qed.

Lemma still_host m h : main_ok m -> stuck_ok m -> quiet_frames m -> still m -> hosted h (frames m) = true -> held_up m.
Proof.
  intros Hm Hb0 Hq Hst Hh. destruct (top_frame h (frames m) Hh) as (i & f & Hf & Ef & Htop).
  assert (Hsus : suspended (ByHandler i) m = false) by (simpl; rewrite Hf; simpl; by rewrite Ef).
  destruct (calls f) as [|c rest] eqn:Ec.
  - destruct (Hst (m <| frames := delete i (frames m) |>)). apply (own_return i). unfold return_handler. rewrite Hf. cbn [mbind option_bind]. by rewrite Ec, Hsus.
  - assert (Ha : calls_of (ByHandler i) m = Some (c :: rest)) by (simpl; rewrite Hf; simpl; by rewrite Ec).
    eapply (still_agent m (ByHandler i)); try done. destruct Hm as (s & Hk & _).
    destruct (side_rest s m (ByHandler i) c rest Hk Ha) as [Hc _]; [done|]. by eapply side_ready.
Qed.

Lemma still_main m :
  main_ok m -> stuck_ok m -> quiet_frames m -> still m -> g_shutdown m = true -> (todo m = [] /\ is_Some (exit_code m)) \/ held_up m.
Proof.
  intros Hm Hb0 Hq Hst Hg. destruct (todo m) as [|c rest] eqn:Ht.
  { left. split; [done|]. destruct Hm as (s & _ & [[_ Hc]|(Hx & _)]); [by rewrite Ht in Hc|done]. }
  right. destruct (hosted OnMain (frames m)) eqn:Hh; [by eapply still_host|].
  assert (Ha : calls_of ByMain m = Some (c :: rest)) by (simpl; by rewrite Ht).
  assert (Hc : c = JoinScenario \/ c <> JoinScenario) by (destruct c; first [by left|by right]).
  destruct Hc as [->|Hne]; [destruct (ready JoinScenario m) eqn:Hr|].
  - eapply (still_agent m ByMain); try done. by left.
  - destruct (hosted OnScenario (frames m)) eqn:Hs; [by eapply still_host|]. simpl in Hr. rewrite Hs in Hr.
    destruct (scenario_ m) as [[|c' rest']|] eqn:Es; [done| |done].
    eapply (still_agent m ByScenario c' rest'); try done. destruct Hm as (s & Hk & _).
    destruct (side_rest s m ByScenario c' rest' Hk Es) as [Hc _]; [done|]. by eapply side_ready.
  - eapply (still_agent m ByMain c rest); try done. destruct c; try done; try (by left); try (by right; eexists).
    + left. simpl. by rewrite Hg.
Qed.

(** ** Properties *)


(** C38: A shutdown ends the program unless a thread does not end or a handler
    is in the way.  Once [g_shutdown] is set, by a signal, the report limit or
    the end of the scenario, and whatever handlers still run run on [main]'s
    thread or the scenario's: every execution without further signals, lost
    connections or other outside events is finite, with at most as many steps
    as there are calls, parts of calls, handlers and threads left; and where it
    stands still, [main] has returned, or a call of a handler, or beside one,
    is a fault as above, or somebody waits in [join] of a thread that was
    told to end and is blocked, the engine's after the notification it has
    missed, a client's in its read, or the simple server's in [select]. *)
Theorem main_ends o m :
  rtc step (main_start o) m -> g_shutdown m = true -> quiet_frames m ->
  (forall n m', nsteps own_step n m m' -> (n <= work m)%nat) /\
  (forall m', rtc own_step m m' -> still m' -> (todo m' = [] /\ is_Some (exit_code m')) \/ held_up m').
Proof.
  intros Hr Hg Hq. pose proof (stuck_reachable o m Hr) as Hb. apply reachable_main in Hr. split.
  - intros n m' Hn. clear Hb Hg Hq. induction Hn as [m|n m m1 m' Hs _ IH]; [lia|].
    pose proof (own_work m m1 Hr Hs). specialize (IH (own_keeps_main m m1 Hr Hs)). lia.
  - intros m' Hs. induction Hs as [m|m m1 m' Hs _ IH]; intros Hst; [by apply still_main|].
    destruct (own_keeps m m1 Hr Hs) as [H1 H2].
    apply IH; [by eapply own_keeps_main|by apply H1|by apply H2|by eapply stuck_own|done].
Qed.

(** ** Executions *)

(** One order of the steps: the latest handler first, then [main], the scenario
    thread, and the ends of threads; [through]: which connections succeed. *)
Definition connects (through : Exchange -> bool) (a : Agent) (m : Main) : bool :=
  match calls_of a m with Some (Connect x _ :: _) => through x | _ => true end.

Definition candidates (through : Exchange -> bool) (m : Main) : list (option (Fault + Main)) :=
  let call a := run_call a (connects through a m) m in
  concat (map (fun i => [call (ByHandler i); inr <$> return_handler i m]) (rev (seq 0 (length (frames m))))) ++
  [call ByMain; call ByScenario] ++ map (fun o => inr <$> end_thread o m) globals.

(** Until [halt] holds, a call is a fault, or nothing goes on. *)
Fixpoint play (fuel : nat) (through : Exchange -> bool) (halt : Main -> bool) (m : Main) : Main :=
  match fuel with
  | O => m
  | S fuel =>
      if halt m then m
      else match head (omap id (candidates through m)) with
           | Some (inr m') => play fuel through halt m'
           | _ => m
           end
  end.

Lemma candidate_step through m m' : Some (inr m') ∈ candidates through m -> own_step m m'.
Proof.
  unfold candidates. intros [H|[H|H]%elem_of_app]%elem_of_app.
  - apply list_elem_of_In, in_concat in H as (l & Hl & H). apply in_map_iff in Hl as (i & <- & _).
    destruct H as [H|[H|[]]]; [by eapply own_call|]. apply fmap_Some in H as (m1 & H & [= ->]). by eapply own_return.
  - apply list_elem_of_In in H as [H|[H|[]]]; by eapply own_call.
  - apply list_elem_of_fmap in H as (o & H & _). symmetry in H. apply fmap_Some in H as (m1 & H & [= ->]). by eapply own_end.
Qed.

Lemma play_steps fuel through halt m : rtc own_step m (play fuel through halt m).
Proof.
  revert m. induction fuel as [|fuel IH]; intros m; [done|]. cbn [play]. destruct (halt m); [done|].
  destruct (head _) as [[f|m']|] eqn:E; [done| |done]. apply head_Some_elem_of, list_elem_of_omap in E as (r & Hr & Er). unfold id in Er. rewrite Er in Hr.
  eapply rtc_l; [by eapply candidate_step|apply IH].
Qed.

Lemma play_reachable o fuel through halt m : rtc step (main_start o) m -> rtc step (main_start o) (play fuel through halt m).
Proof.
  intros Hr. etransitivity; [exact Hr|]. eapply rtc_subrel; [|apply play_steps]. intros ? ?. by left.
Qed.

(** A signal to a thread. *)
Definition signal (h : Host) (m : Main) : Main := m <| frames := frames m ++ [mkFrame h handler_calls] |>.

Lemma signal_reachable o h m :
  rtc step (main_start o) m -> handlers m = true -> todo m <> [] -> live h m -> rtc step (main_start o) (signal h m).
Proof. intros Hr H1 H2 H3. eapply rtc_r; [exact Hr|]. right. by apply outside_signal. Qed.

(** The epoll mode up to its main loop, a signal to [main]'s thread there, whose
    handler sets [g_shutdown], and the rest. *)
Definition ex_options : Options := default_options <| query_server_mode := $"epoll" |>.
Definition all_through : Exchange -> bool := fun _ => true.
Definition ex_looping : Main := play 300 all_through (fun _ => false) (main_start ex_options).
Definition ex_signalled : Main := signal OnMain ex_looping.
Definition ex_shutdown : Main := play 1 all_through (fun _ => false) ex_signalled.
Definition ex_returned : Main := play 300 all_through (fun _ => false) ex_shutdown.

(** Which threads can be joined, and the exit code. *)
Definition summary (m : Main) : list bool * option Z :=
  (map (fun o => match objs m o with Some w => joinable w | None => false end) globals, exit_code m).

Example ex_summaries :
  map summary [ex_looping; ex_returned] =
    [([true; true; true; true; true; true; false; true; false; false; true; false; false], None);
     ([false; false; false; false; false; false; false; false; false; false; true; false; false], Some 0)] /\
  frames ex_returned = [] /\ is_Some (destroy_globals ex_returned).
Proof. split_and!; [by vm_compute..|by eexists; vm_compute]. Qed.

Lemma ex_looping_reachable : rtc step (main_start ex_options) ex_looping.
Proof. by apply play_reachable. Qed.

Lemma ex_signalled_reachable : rtc step (main_start ex_options) ex_signalled.
Proof. apply signal_reachable; [exact ex_looping_reachable|by vm_compute|by vm_compute|done]. Qed.



Lemma main_ends_witness :
  (forall n m', nsteps own_step n ex_shutdown m' -> (n <= 125)%nat) /\
  rtc own_step ex_shutdown ex_returned /\ todo ex_returned = [].
Proof.
  assert (Hr : rtc step (main_start ex_options) ex_shutdown) by (apply play_reachable, ex_signalled_reachable).
  assert (Hg : g_shutdown ex_shutdown = true) by by vm_compute.
  assert (Hq : quiet_frames ex_shutdown) by (repeat constructor).
  destruct (main_ends ex_options ex_shutdown Hr Hg Hq) as [H _]. split; [|split].
  - intros n m' Hn. specialize (H n m' Hn). assert (Hw : work ex_shutdown = 102%nat) by by vm_compute. lia.
  - apply play_steps.
  - by vm_compute.
Defined.

(** A Binance connection that fails ends the program with code 1 before
    anything but the logger was started; any other does not. *)
Example binance_is_needed :
  map (fun x => exit_code (play 300 (fun y => negb (bool_decide (x = y))) (fun _ => false) (main_start ex_options)))
    clients = [Some 1; None; None; None].
Proof. by vm_compute. Qed.

(** ** What can go wrong *)

(** The thread of an object. *)
Definition thread_of (o : Obj) (m : Main) : option Run := w ← objs m o; thread w.

Lemma thread_of_live o m : thread_of o m = Some Alive -> live (OnThread o) m.
Proof. intros (w & Hw & Ht)%bind_Some. by exists w. Qed.

(** A signal that is delivered to the engine's thread: its handler joins it. *)
Definition ex_self : Main := play 300 all_through (fun _ => false) (signal (OnThread Engine) ex_looping).

Example engine_joins_itself :
  rtc step (main_start ex_options) ex_self /\ run_call (ByHandler 0) true ex_self = Some (inl (SelfJoin Engine)).
Proof.
  split; [|by vm_compute]. apply play_reachable, signal_reachable; [exact ex_looping_reachable|by vm_compute|by vm_compute|].
  apply thread_of_live. by vm_compute.
Qed.

(** The report limit is reached, [main] waits for the engine's thread, and a
    signal comes: its handler joins the same thread. *)
Definition at_limit (m : Main) : Main :=
  match objs m Engine with Some w => (set_obj Engine (w <| running := false |>) m) <| g_shutdown := true |> | None => m end.
Lemma limit_step m : thread_of Engine m = Some Alive -> outside_step m (at_limit m).
Proof. intros (w & Hw & Ht)%bind_Some. unfold at_limit. rewrite Hw. by apply outside_limit. Qed.

Definition ex_awaiting : Main := play 300 all_through (awaited Engine) (at_limit ex_looping).
Definition ex_double : Main := play 300 all_through (fun _ => false) (signal OnMain ex_awaiting).

Lemma ex_awaiting_reachable : rtc step (main_start ex_options) ex_awaiting.
Proof. apply play_reachable, (rtc_r _ ex_looping); [exact ex_looping_reachable|]. right. apply limit_step. by vm_compute. Qed.

Example engine_joined_twice :
  rtc step (main_start ex_options) ex_double /\ run_call (ByHandler 0) true ex_double = Some (inl (DoubleJoin Engine)).
Proof.
  split; [|by vm_compute]. apply play_reachable, signal_reachable; [exact ex_awaiting_reachable|by vm_compute|by vm_compute|done].
Qed.

(** The scenario waits for the engine's thread, and a signal comes to [main]'s:
    its handler joins the same thread. *)
Definition chaos_options : Options := default_options <| chaos_test := true |>.
Definition ex_scenario : Main := play 300 all_through (awaited Engine) (main_start chaos_options).
Definition ex_scenario_double : Main := play 300 all_through (fun _ => false) (signal OnMain ex_scenario).

Example scenario_and_handler :
  rtc step (main_start chaos_options) ex_scenario_double /\
  run_call (ByHandler 0) true ex_scenario_double = Some (inl (DoubleJoin Engine)).
Proof.
  split; [|by vm_compute]. apply play_reachable, signal_reachable; [by apply play_reachable|by vm_compute|by vm_compute|done].
Qed.

(** A signal in the middle of the dashboard's [start]: its thread is launched
    and ends, no [stop] joins it, and its destructor terminates the process. *)
Definition launching (o : Obj) (m : Main) : bool :=
  match todo m with Launch o' :: _ => bool_decide (o' = o) | _ => false end.
Definition ex_starting : Main := play 300 all_through (launching Dashboard) (main_start ex_options).
Definition ex_overtaken : Main := play 300 all_through (fun _ => false) (signal OnMain ex_starting).

Example overtaken_dashboard_terminates :
  rtc step (main_start ex_options) ex_overtaken /\
  exit_code ex_overtaken = Some 0 /\ frames ex_overtaken = [] /\ destroy_globals ex_overtaken = None.
Proof.
  split; [|by vm_compute]. apply play_reachable, signal_reachable; [by apply play_reachable|by vm_compute|by vm_compute|done].
Qed.

(** A port that is taken: [main] returns, and the destructor of the server, its
    thread joinable, terminates the process. *)
Definition port_taken (m : Main) : Main :=
  match objs m (Server Epoll) with
  | Some w => set_obj (Server Epoll) (w <| running := false |> <| thread := Some Ended |> <| failed := true |>) m
  | None => m
  end.
Lemma taken_step m : thread_of (Server Epoll) m = Some Alive -> is_running m (Server Epoll) = true -> outside_step m (port_taken m).
Proof.
  intros (w & Hw & Ht)%bind_Some Hr. unfold is_running in Hr. unfold port_taken. rewrite Hw in *. by apply outside_failed.
Qed.

Definition ex_port_taken : Main := play 300 all_through (fun _ => false) (signal OnMain (port_taken ex_looping)).

Example failed_server_terminates :
  rtc step (main_start ex_options) ex_port_taken /\
  exit_code ex_port_taken = Some 0 /\ frames ex_port_taken = [] /\ destroy_globals ex_port_taken = None.
Proof.
  split; [|by vm_compute]. apply play_reachable, signal_reachable; [|by vm_compute|by vm_compute|done].
  apply (rtc_r _ ex_looping); [exact ex_looping_reachable|]. right. apply taken_step; by vm_compute.
Qed.

(** The engine's thread has missed its notification: [main] waits for it in
    [join], and no thread goes on. *)
Definition engine_stuck (m : Main) : Main :=
  match objs m Engine with Some w => set_obj Engine (w <| blocked := true |>) m | None => m end.
Lemma stuck_engine m : thread_of Engine m = Some Alive -> outside_step m (engine_stuck m).
Proof. intros (w & Hw & Ht)%bind_Some. unfold engine_stuck. rewrite Hw. by apply outside_block. Qed.

Definition ex_stuck : Main := play 300 all_through (fun _ => false) (engine_stuck ex_awaiting).

Example main_waits_for_ever :
  rtc step (main_start ex_options) ex_stuck /\ head (todo ex_stuck) = Some (Await Engine) /\
  omap id (candidates all_through ex_stuck) = [] /\ frames ex_stuck = [].
Proof.
  split; [|by vm_compute]. apply play_reachable, (rtc_r _ ex_awaiting); [exact ex_awaiting_reachable|].
  right. apply stuck_engine. by vm_compute.
Qed.
