(* ===== verification/SpscRing.v ===== *)
(** * Single-producer single-consumer ring (src/ring_buffer.hpp)

    [SPSCRingBuffer] and [BlockingSPSCRingBuffer], whose operations differ only
    in the drop counter.  The operations are given twice: as whole functions on
    the ring, and as a machine in which the producer and the consumer advance
    independently, one access to a shared variable at a time.  Acquire/release
    on [head_] and [tail_] is what makes interleavings of those accesses a
    sound view of the program; the machine also shows that the plain accesses
    to the array never meet on one slot.

    The specification is a bounded FIFO queue of capacity [Size - 1]: the
    machine's ghost lists [pushed] and [popped] hold every element whose [tail_]
    (resp. [head_]) store has been executed. *)

From S2P Require Import Prelude Queues.

Section spsc.
Context {T : Type} (k : nat).
Implicit Types (x y : T).

(** The template parameter, a power of two, and the index mask. *)
Definition Size : Z := 2 ^ Z.of_nat k.
Definition mask (i : Z) : Z := Z.land i (Size - 1).
Definition next (i : Z) : Z := mask (wrap64 (i + 1)).

Record Ring := mkRing {
  head_ : Z;
  tail_ : Z;
  buffer_ : list T;
  dropped_count_ : Z;
}.
#[local] Instance Ring_settable : Settable Ring :=
  fun r => mkRing (head_ r) (tail_ r) (buffer_ r) (dropped_count_ r).

(** The constructor: [Size] elements, both indices zero. *)
Definition new_ring (d : T) : Ring := mkRing 0 0 (replicate (Z.to_nat Size) d) 0.

(** ** Whole operations *)

Definition write_slot (i : Z) (x : T) (r : Ring) : Ring :=
  r <| buffer_ := <[Z.to_nat i := x]> (buffer_ r) |>.

(** [SPSCRingBuffer::try_push] *)
Definition try_push (x : T) (r : Ring) : bool * Ring :=
  let current_tail := tail_ r in
  let next_tail := next current_tail in
  if next_tail =? head_ r then (false, r)
  else (true, (write_slot current_tail x r) <| tail_ := next_tail |>).

(** [BlockingSPSCRingBuffer::push] *)
Definition push (x : T) (r : Ring) : bool * Ring :=
  let current_tail := tail_ r in
  let next_tail := next current_tail in
  if next_tail =? head_ r then
    (false, r <| dropped_count_ := wrap64 (dropped_count_ r + 1) |>)
  else (true, (write_slot current_tail x r) <| tail_ := next_tail |>).

(** [try_pop] of both classes. *)
Definition try_pop (r : Ring) : option T * Ring :=
  let current_head := head_ r in
  if current_head =? tail_ r then (None, r)
  else (buffer_ r !! Z.to_nat current_head, r <| head_ := next current_head |>).

Definition ring_empty (r : Ring) : bool := head_ r =? tail_ r.
Definition ring_full (r : Ring) : bool := next (tail_ r) =? head_ r.
Definition ring_size (r : Ring) : Z := mask (wrap64 (tail_ r - head_ r)).
Definition capacity : Z := Size - 1.
Definition get_dropped_count (r : Ring) : Z := dropped_count_ r.
Definition reset_dropped_count (r : Ring) : Ring := r <| dropped_count_ := 0 |>.

(** ** Interleaved execution *)

Inductive ProdPc :=
  | PIdle
  | PLoaded (x : T) (current_tail : Z)     (* tail_ loaded, about to load head_ *)
  | PRoom (x : T) (current_tail : Z)       (* not full, about to write the slot *)
  | PWritten (x : T) (current_tail : Z).   (* slot written, about to store tail_ *)

Inductive ConsPc :=
  | CIdle
  | CLoaded (current_head : Z)             (* head_ loaded, about to load tail_ *)
  | CData (current_head : Z)               (* not empty, about to read the slot *)
  | CRead (x : T) (current_head : Z).      (* slot read, about to store head_ *)

Record Machine := mkMachine {
  ring : Ring;
  prod : ProdPc;
  cons : ConsPc;
  pushed : list T;
  popped : list T;
}.
#[local] Instance Machine_settable : Settable Machine :=
  fun m => mkMachine (ring m) (prod m) (cons m) (pushed m) (popped m).

Definition new_machine (d : T) : Machine := mkMachine (new_ring d) PIdle CIdle [] [].

Inductive Act := ProdCall (x : T) | ProdStep | ConsCall | ConsStep.

(** What a step returns to its caller. *)
Inductive Event := Silent | PushOk | PushFull | PopGot (x : T) | PopEmpty.

Definition prod_step (m : Machine) : option (Machine * Event) :=
  match prod m with
  | PIdle => None
  | PLoaded x t =>
      if next t =? head_ (ring m) then
        Some (m <| prod := PIdle |>
                <| ring := (ring m) <| dropped_count_ := wrap64 (dropped_count_ (ring m) + 1) |> |>, PushFull)
      else Some (m <| prod := PRoom x t |>, Silent)
  | PRoom x t => Some (m <| ring := write_slot t x (ring m) |> <| prod := PWritten x t |>, Silent)
  | PWritten x t =>
      Some (m <| ring := (ring m) <| tail_ := next t |> |> <| prod := PIdle |>
              <| pushed := pushed m ++ [x] |>, PushOk)
  end.

Definition cons_step (m : Machine) : option (Machine * Event) :=
  match cons m with
  | CIdle => None
  | CLoaded h =>
      if h =? tail_ (ring m) then Some (m <| cons := CIdle |>, PopEmpty)
      else Some (m <| cons := CData h |>, Silent)
  | CData h =>
      x ← buffer_ (ring m) !! Z.to_nat h;
      Some (m <| cons := CRead x h |>, Silent)
  | CRead x h =>
      Some (m <| ring := (ring m) <| head_ := next h |> |> <| cons := CIdle |>
              <| popped := popped m ++ [x] |>, PopGot x)
  end.

Definition step (a : Act) (m : Machine) : option (Machine * Event) :=
  match a with
  | ProdCall x => match prod m with PIdle => Some (m <| prod := PLoaded x (tail_ (ring m)) |>, Silent) | _ => None end
  | ProdStep => prod_step m
  | ConsCall => match cons m with CIdle => Some (m <| cons := CLoaded (head_ (ring m)) |>, Silent) | _ => None end
  | ConsStep => cons_step m
  end.

Definition mstep (m m' : Machine) : Prop := exists a e, step a m = Some (m', e).

(** ** Invariant *)

(** The ring holds the elements of [l] from position [c] on. *)
Definition ring_holds (r : Ring) (l : list T) (c : nat) : Prop :=
  let p := length l in
  head_ r = Z.of_nat c mod Size /\ tail_ r = Z.of_nat p mod Size /\
  (c <= p)%nat /\ Z.of_nat p - Z.of_nat c < Size /\
  length (buffer_ r) = Z.to_nat Size /\
  forall i, (c <= i < p)%nat -> buffer_ r !! Z.to_nat (Z.of_nat i mod Size) = l !! i.

(** The elements in the queue. *)
Definition contents (m : Machine) : list T := drop (length (popped m)) (pushed m).

Definition prod_ok (m : Machine) : Prop :=
  let room := Z.of_nat (length (pushed m)) + 1 - Z.of_nat (length (popped m)) < Size in
  match prod m with
  | PIdle => True
  | PLoaded x t => t = tail_ (ring m)
  | PRoom x t => t = tail_ (ring m) /\ room
  | PWritten x t => t = tail_ (ring m) /\ room /\ buffer_ (ring m) !! Z.to_nat t = Some x
  end.

Definition cons_ok (m : Machine) : Prop :=
  let some := (length (popped m) < length (pushed m))%nat in
  match cons m with
  | CIdle => True
  | CLoaded h => h = head_ (ring m)
  | CData h => h = head_ (ring m) /\ some
  | CRead x h => h = head_ (ring m) /\ some /\ pushed m !! length (popped m) = Some x
  end.

Definition machine_ok (m : Machine) : Prop :=
  ring_holds (ring m) (pushed m) (length (popped m)) /\
  popped m = take (length (popped m)) (pushed m) /\ prod_ok m /\ cons_ok m.

(** ** Index arithmetic *)

Context (Hk : (k <= 63)%nat).

Lemma Size_pos : 0 < Size.
Proof. unfold Size. apply Z.pow_pos_nonneg; lia. Qed.

Lemma mask_mod i : mask i = i mod Size.
Proof.
  unfold mask, Size. replace (2 ^ Z.of_nat k - 1) with (Z.ones (Z.of_nat k)) by (rewrite Z.ones_equiv; lia).
  by rewrite Z.land_ones by lia.
Qed.

Lemma wrap64_mod z : wrap64 z mod Size = z mod Size.
Proof.
  unfold wrap64, two64, Size. apply Z.mod_mod_divide.
  exists (2 ^ (64 - Z.of_nat k)). rewrite <-Z.pow_add_r by lia. f_equal. lia.
Qed.

Lemma next_mod i : next (i mod Size) = (i + 1) mod Size.
Proof. unfold next. rewrite mask_mod, wrap64_mod. by rewrite Zplus_mod_idemp_l. Qed.

(** Two positions at most a lap apart share a slot only when they are equal or
    exactly a lap apart. *)
Lemma same_slot a b : 0 <= a - b <= Size -> a mod Size = b mod Size -> a = b \/ a - b = Size.
Proof.
  intros Hab E. pose proof Size_pos as HS.
  destruct (proj1 (Z.mod_divide (a - b) Size ltac:(lia))) as [q Hq].
  { rewrite Zminus_mod, E, Z.sub_diag. apply Z.mod_0_l. lia. }
  assert (q = 0 \/ q = 1) as [Hq0 | Hq1] by nia; subst; lia.
Qed.

Lemma slot_range i : (Z.to_nat (i mod Size) < Z.to_nat Size)%nat.
Proof. pose proof (Z.mod_pos_bound i Size Size_pos). lia. Qed.

Lemma slot_inj i j :
  Z.to_nat (i mod Size) = Z.to_nat (j mod Size) -> i mod Size = j mod Size.
Proof. pose proof (Z.mod_pos_bound i Size Size_pos). pose proof (Z.mod_pos_bound j Size Size_pos). lia. Qed.

(** ** The ring as a window on a list *)

Section window.
Context (r : Ring) (l : list T) (c : nat) (H : ring_holds r l c).

Lemma ring_full_spec : (next (tail_ r) =? head_ r) = true <-> Z.of_nat (length l) + 1 - Z.of_nat c = Size.
Proof.
  destruct H as (Hh & Ht & Hc & Hs & _). rewrite Ht, Hh, next_mod, Z.eqb_eq. split.
  - intros E. destruct (same_slot (Z.of_nat (length l) + 1) (Z.of_nat c) ltac:(lia) E); lia.
  - intros E. replace (Z.of_nat (length l) + 1) with (Z.of_nat c + 1 * Size) by lia. apply Z_mod_plus_full.
Qed.

Lemma ring_empty_spec : (head_ r =? tail_ r) = true <-> c = length l.
Proof.
  destruct H as (Hh & Ht & Hc & Hs & _). rewrite Ht, Hh, Z.eqb_eq. split.
  - intros E. symmetry in E. destruct (same_slot (Z.of_nat (length l)) (Z.of_nat c) ltac:(lia) E); lia.
  - by intros ->.
Qed.

Lemma ring_size_spec : ring_size r = Z.of_nat (length l - c).
Proof.
  destruct H as (Hh & Ht & Hc & Hs & _). unfold ring_size. rewrite mask_mod, wrap64_mod, Hh, Ht.
  rewrite <-Zminus_mod, Z.mod_small; lia.
Qed.

Lemma ring_front : (c < length l)%nat -> buffer_ r !! Z.to_nat (head_ r) = l !! c.
Proof. destruct H as (-> & _ & _ & _ & _ & Hb). intros Hlt. apply Hb. lia. Qed.

(** Writing the slot at the tail touches no element of the window. *)
Lemma write_tail_holds x :
  Z.of_nat (length l) + 1 - Z.of_nat c < Size + 1 -> ring_holds (write_slot (tail_ r) x r) l c.
Proof.
  destruct H as (Hh & Ht & Hc & Hs & Hlen & Hb). intros Hroom. unfold ring_holds, write_slot. simpl.
  split_and!; try done; [by rewrite length_insert|].
  intros i Hi. rewrite list_lookup_insert_ne; [by apply Hb|].
  rewrite Ht. intros E%slot_inj. destruct (same_slot (Z.of_nat (length l)) (Z.of_nat i) ltac:(lia) E); lia.
Qed.

Lemma write_tail_lookup x : buffer_ (write_slot (tail_ r) x r) !! Z.to_nat (tail_ r) = Some x.
Proof.
  destruct H as (Hh & Ht & Hc & Hs & Hlen & Hb). unfold write_slot. simpl.
  apply list_lookup_insert_eq. rewrite Hlen, Ht. apply slot_range.
Qed.

(** Moving the tail over a written slot appends its element. *)
Lemma publish_holds x :
  Z.of_nat (length l) + 1 - Z.of_nat c < Size -> buffer_ r !! Z.to_nat (tail_ r) = Some x ->
  ring_holds (r <| tail_ := next (tail_ r) |>) (l ++ [x]) c.
Proof.
  destruct H as (Hh & Ht & Hc & Hs & Hlen & Hb). intros Hroom Hx. unfold ring_holds. simpl.
  rewrite length_app. simpl. rewrite Ht, next_mod. split_and!; try done; try lia.
  intros i Hi. destruct (decide (i < length l)%nat).
  - rewrite Hb by lia. by rewrite lookup_app_l.
  - replace i with (length l) by lia. rewrite <-Ht, Hx. by rewrite lookup_app_r, Nat.sub_diag.
Qed.

(** Moving the head drops the front. *)
Lemma reclaim_holds :
  (c < length l)%nat -> ring_holds (r <| head_ := next (head_ r) |>) l (S c).
Proof.
  destruct H as (Hh & Ht & Hc & Hs & Hlen & Hb). intros Hlt. unfold ring_holds. simpl.
  rewrite Hh, next_mod. split_and!; try done; try lia.
  intros i Hi. apply Hb. lia.
Qed.
End window.

Lemma new_ring_holds d : ring_holds (new_ring d) [] 0.
Proof.
  unfold ring_holds. simpl. pose proof Size_pos. rewrite length_replicate, Z.mod_0_l by lia.
  split_and!; try done; lia.
Qed.

(** ** Preservation *)

Lemma call_ok_prod m x :
  machine_ok m -> machine_ok (m <| prod := PLoaded x (tail_ (ring m)) |>).
Proof. intros (Hr & Hp & _ & Hcons). by split_and!. Qed.

Lemma call_ok_cons m : machine_ok m -> machine_ok (m <| cons := CLoaded (head_ (ring m)) |>).
Proof. intros (Hr & Hp & Hprod & _). by split_and!. Qed.

(** The queue is full exactly when the head the producer loads is one past. *)
Lemma loaded_full m :
  ring_holds (ring m) (pushed m) (length (popped m)) ->
  (next (tail_ (ring m)) =? head_ (ring m)) = false ->
  Z.of_nat (length (pushed m)) + 1 - Z.of_nat (length (popped m)) < Size.
Proof.
  intros Hr E. pose proof (ring_full_spec _ _ _ Hr) as Hf.
  destruct (decide (Z.of_nat (length (pushed m)) + 1 - Z.of_nat (length (popped m)) = Size)) as [Es|Hne].
  - apply Hf in Es. congruence.
  - destruct Hr as (_ & _ & _ & Hs & _). lia.
Qed.

Lemma prod_step_ok m m' e : machine_ok m -> prod_step m = Some (m', e) -> machine_ok m'.
Proof.
  intros (Hr & Hp & Hprod & Hcons). unfold prod_step, prod_ok in *.
  destruct (prod m) as [|x t|x t|x t] eqn:Epc; [done|..].
  - subst t. destruct (next (tail_ (ring m)) =? head_ (ring m)) eqn:E; intros [= <- _]; [by split_and!|].
    pose proof (loaded_full m Hr E). by split_and!.
  - destruct Hprod as [-> Hroom]. intros [= <- _].
    split_and!; [apply write_tail_holds; [done|simpl; lia]|done| |done].
    split_and!; [done|done|]. by eapply write_tail_lookup.
  - destruct Hprod as (-> & Hroom & Hx). intros [= <- _].
    assert (Hq : take (length (popped m)) (pushed m ++ [x]) = take (length (popped m)) (pushed m)).
    { apply take_app_le. destruct Hr as (_ & _ & ? & _). done. }
    split_and!; [by apply publish_holds|simpl; by rewrite Hq|done|].
    unfold cons_ok in *. simpl. rewrite length_app. simpl.
    destruct (cons m) as [|h|h|y h]; [done|done| |].
    + destruct Hcons. split; [done|lia].
    + destruct Hcons as (? & ? & ?). split_and!; [done|lia|]. by rewrite lookup_app_l.
Qed.

Lemma cons_step_ok m m' e : machine_ok m -> cons_step m = Some (m', e) -> machine_ok m'.
Proof.
  intros (Hr & Hp & Hprod & Hcons). unfold cons_step, cons_ok in *.
  destruct (cons m) as [|h|h|x h] eqn:Epc; [done|..].
  - subst h. destruct (head_ (ring m) =? tail_ (ring m)) eqn:E; intros [= <- _]; [by split_and!|].
    split_and!; [done..|]. split; [done|]. pose proof (ring_empty_spec _ _ _ Hr) as He.
    destruct Hr as (_ & _ & Hc & _). destruct (decide (length (popped m) = length (pushed m))) as [Ee|]; [|simpl; lia].
    apply He in Ee. congruence.
  - destruct Hcons as [-> Hlt]. rewrite (ring_front _ _ _ Hr Hlt).
    intros (x & Hx & [= <- _])%bind_Some. by split_and!.
  - destruct Hcons as (-> & Hlt & Hx). intros [= <- _].
    pose proof (reclaim_holds _ _ _ Hr Hlt) as Hr'.
    assert (Hl : length (popped m ++ [x]) = S (length (popped m))) by (rewrite length_app; simpl; lia).
    unfold machine_ok. simpl. rewrite Hl. split_and!; [done| | |done].
    + rewrite (take_S_r _ _ x) by done. by rewrite <-Hp.
    + unfold prod_ok in *. simpl. rewrite Hl. destruct (prod m) as [|y t|y t|y t]; [done|done|..].
      * destruct Hprod. split; [done|lia].
      * destruct Hprod as (? & ? & ?). split_and!; [done|lia|done].
Qed.

Lemma machine_ok_step m m' : machine_ok m -> mstep m m' -> machine_ok m'.
Proof.
  intros Hm (a & e & Ha). unfold step in Ha. destruct a as [x| | |].
  - destruct (prod m); try done. injection Ha as <- _. by apply call_ok_prod.
  - by eapply prod_step_ok.
  - destruct (cons m); try done. injection Ha as <- _. by apply call_ok_cons.
  - by eapply cons_step_ok.
Qed.

Lemma new_machine_ok d : machine_ok (new_machine d).
Proof. split_and!; [apply new_ring_holds|done..]. Qed.

Lemma reachable_ok d m : rtc mstep (new_machine d) m -> machine_ok m.
Proof.
  intros H. eapply (rtc_invariant mstep machine_ok); [|exact H|apply new_machine_ok].
  intros ? ?; apply machine_ok_step.
Qed.

(** ** The specification: a bounded FIFO queue *)

Inductive fifo_step : list T -> Event -> list T -> Prop :=
  | fifo_silent q : fifo_step q Silent q
  | fifo_push q x : Z.of_nat (length q) < capacity -> fifo_step q PushOk (q ++ [x])
  | fifo_full q : Z.of_nat (length q) = capacity -> fifo_step q PushFull q
  | fifo_pop q x : fifo_step (x :: q) (PopGot x) q
  | fifo_empty : fifo_step [] PopEmpty [].

(** ** Properties *)

(** C9: The ring refines a bounded FIFO queue of capacity Size - 1, under
    every interleaving of the producer's and the consumer's accesses: each step
    of a reachable state is invisible, or appends one element while there is
    room, or hands out exactly the oldest element; a push is refused only in a
    state with Size - 1 elements, and a pop comes back empty only in a state
    with none.  So nothing is lost, duplicated or reordered. *)
Theorem spsc_refines_fifo d m a m' e :
  rtc mstep (new_machine d) m -> step a m = Some (m', e) -> fifo_step (contents m) e (contents m').
Proof.
  intros Hreach Hstep. destruct (reachable_ok d m Hreach) as (Hr & Hp & Hprod & Hcons).
  pose proof Hr as (_ & _ & Hc & Hs & _).
  assert (Hlen : length (contents m) = (length (pushed m) - length (popped m))%nat) by apply length_drop.
  unfold step in Hstep. destruct a as [x| | |].
  - destruct (prod m); try done. injection Hstep as <- <-. constructor.
  - unfold prod_step, prod_ok in *. destruct (prod m) as [|x t|x t|x t]; [done|..].
    + subst t. destruct (next (tail_ (ring m)) =? head_ (ring m)) eqn:E; injection Hstep as <- <-; [|constructor].
      apply (ring_full_spec _ _ _ Hr) in E. constructor. unfold capacity, contents in *. simpl. lia.
    + injection Hstep as <- <-. constructor.
    + destruct Hprod as (-> & Hroom & _). injection Hstep as <- <-. unfold contents. simpl.
      rewrite drop_app_le by done. constructor. unfold capacity, contents in *. lia.
  - destruct (cons m); try done. injection Hstep as <- <-. constructor.
  - unfold cons_step, cons_ok in *. destruct (cons m) as [|h|h|x h]; [done|..].
    + subst h. destruct (head_ (ring m) =? tail_ (ring m)) eqn:E; injection Hstep as <- <-; [|constructor].
      apply (ring_empty_spec _ _ _ Hr) in E.
      assert (E1 : contents m = []) by (apply nil_length_inv; lia).
      change (fifo_step (contents m) PopEmpty (contents m)). rewrite E1. constructor.
    + apply bind_Some in Hstep as (x & _ & [= <- <-]). constructor.
    + destruct Hcons as (-> & Hlt & Hx). injection Hstep as <- <-. unfold contents. simpl.
      rewrite length_app. simpl. rewrite Nat.add_1_r. rewrite (drop_S _ x) by done. constructor.
Qed.

(** Lossless order and absence of data races: in every reachable state the
    elements popped are a prefix of those pushed, at most Size - 1 are in
    flight, and when the producer is about to write a slot while the consumer
    is about to read one, they are different slots. *)
Theorem spsc_safe d m :
  rtc mstep (new_machine d) m ->
  popped m = take (length (popped m)) (pushed m) /\
  Z.of_nat (length (pushed m)) - Z.of_nat (length (popped m)) <= capacity /\
  (forall x t h, prod m = PRoom x t -> cons m = CData h -> t <> h).
Proof.
  intros (Hr & Hp & Hprod & Hcons)%reachable_ok. pose proof Hr as (Hh & Ht & Hc & Hs & _).
  split_and!; [done|unfold capacity; lia|].
  intros x t h E1 E2. unfold prod_ok, cons_ok in *. rewrite E1 in Hprod. rewrite E2 in Hcons.
  destruct Hprod as [-> _], Hcons as [-> Hlt]. intros E.
  assert (E' : (head_ (ring m) =? tail_ (ring m)) = true) by by apply Z.eqb_eq.
  apply (ring_empty_spec _ _ _ Hr) in E'. lia.
Qed.

(** ** Whole operations *)

Section operations.
Context (r : Ring) (l : list T) (c : nat) (H : ring_holds r l c).

Lemma push_accepts x :
  Z.of_nat (length l - c) < capacity ->
  exists r', try_push x r = (true, r') /\ push x r = (true, r') /\ ring_holds r' (l ++ [x]) c.
Proof.
  unfold capacity, try_push, push. intros Hlt. pose proof (ring_full_spec _ _ _ H) as Hf.
  pose proof H as (_ & _ & Hc & Hs & _).
  destruct (next (tail_ r) =? head_ r) eqn:E; [assert (Hf' := proj1 Hf eq_refl); lia|].
  eexists. split_and!; [done|done|].
  refine (publish_holds (write_slot (tail_ r) x r) l c _ x _ _);
    [exact (write_tail_holds r l c H x ltac:(lia))|lia|exact (write_tail_lookup r l c H x)].
Qed.

Lemma push_refuses x :
  capacity <= Z.of_nat (length l - c) ->
  try_push x r = (false, r) /\ push x r = (false, r <| dropped_count_ := wrap64 (dropped_count_ r + 1) |>).
Proof.
  unfold capacity, try_push, push. intros Hge. pose proof H as (_ & _ & Hc & Hs & _).
  assert (Hf : (next (tail_ r) =? head_ r) = true) by (apply (ring_full_spec _ _ _ H); lia). by rewrite Hf.
Qed.

Lemma pop_front y : l !! c = Some y -> exists r', try_pop r = (Some y, r') /\ ring_holds r' l (S c).
Proof.
  unfold try_pop. intros Ey. pose proof (lookup_lt_Some _ _ _ Ey) as Hlt. pose proof (ring_empty_spec _ _ _ H) as He.
  destruct (head_ r =? tail_ r) eqn:E; [assert (He' := proj1 He eq_refl); lia|].
  rewrite (ring_front _ _ _ H Hlt), Ey. eexists. split; [done|]. by apply reclaim_holds.
Qed.

Lemma pop_nothing : c = length l -> try_pop r = (None, r).
Proof. unfold try_pop. intros E. by rewrite (proj2 (ring_empty_spec _ _ _ H) E). Qed.
End operations.

(** Run without interference, on a ring holding the elements [l] from
    position [c]: both pushes append below capacity and otherwise refuse,
    leaving the ring alone but for the drop counter of the blocking variant;
    a pop returns the oldest element or reports emptiness; and the three
    observers tell the number of elements. *)
Theorem spsc_operations r l c x :
  ring_holds r l c ->
  let n := Z.of_nat (length l - c) in
  (if n <? capacity
   then exists r', try_push x r = (true, r') /\ push x r = (true, r') /\ ring_holds r' (l ++ [x]) c
   else try_push x r = (false, r) /\
        push x r = (false, r <| dropped_count_ := wrap64 (dropped_count_ r + 1) |>)) /\
  (match l !! c with
   | Some y => exists r', try_pop r = (Some y, r') /\ ring_holds r' l (S c)
   | None => try_pop r = (None, r)
   end) /\
  ring_size r = n /\ ring_empty r = (n =? 0) /\ ring_full r = (n =? capacity).
Proof.
  intros H n. pose proof (ring_full_spec _ _ _ H) as Hf. pose proof (ring_empty_spec _ _ _ H) as He.
  pose proof H as (_ & _ & Hc & Hs & _). split_and!.
  - destruct (Z.ltb_spec n capacity); [by apply push_accepts|by apply (push_refuses r l c)].
  - destruct (l !! c) as [y|] eqn:Ey; [by apply pop_front|].
    apply lookup_ge_None in Ey. apply (pop_nothing r l c H). lia.
  - by apply ring_size_spec.
  - unfold ring_empty. destruct (Z.eqb_spec n 0); [apply He; lia|]. apply not_true_iff_false. rewrite He. lia.
  - unfold ring_full, capacity. destruct (Z.eqb_spec n (Size - 1)); [apply Hf; lia|].
    apply not_true_iff_false. rewrite Hf. lia.
Qed.

(** ** The queue interface *)

#[refine] Instance spsc_queue : BoundedQueue Ring T :=
  {| q_push := fun x r => Some (push x r);
     q_pop := fun r => Some (try_pop r);
     q_size := ring_size;
     q_room := fun l => Z.of_nat (length l) <? capacity;
     q_holds := fun _ r l => exists pushed c, ring_holds r pushed c /\ l = drop c pushed |}.
Proof.
  - done.
  - intros _ r l x (p & c & Hr & ->) Hroom. apply Z.ltb_lt in Hroom. rewrite length_drop in Hroom.
    destruct (push_accepts r p c Hr x Hroom) as (r' & _ & -> & Hr'). eexists. split; [done|].
    exists (p ++ [x]), c. split; [done|]. symmetry. apply drop_app_le. by destruct Hr as (_ & _ & ? & _).
  - intros _ r l x (p & c & Hr & ->) Hroom. apply Z.ltb_ge in Hroom. rewrite length_drop in Hroom.
    destruct (push_refuses r p c Hr x Hroom) as [_ ->]. eexists. split; [done|]. exists p, c. by split.
  - intros _ r x l (p & c & Hr & E).
    assert (Hx : p !! c = Some x) by (rewrite <-(Nat.add_0_r c), <-lookup_drop, <-E; done).
    destruct (pop_front r p c Hr x Hx) as (r' & -> & Hr'). eexists. split; [done|]. exists p, (S c). split; [done|].
    by rewrite (drop_S _ x) in E by done; injection E.
  - intros _ r (p & c & Hr & E). f_equal. apply (pop_nothing r p c Hr).
    assert (Hl : length (drop c p) = 0%nat) by by rewrite <-E.
    rewrite length_drop in Hl. destruct Hr as (_ & _ & ? & _). lia.
  - intros _ r l (p & c & Hr & ->). rewrite length_drop. by apply ring_size_spec.
Defined.
End spsc.

(** ** Witnesses *)

(** A ring of two slots: one element fits. *)
Definition ex_trace : list (@Act Z) := [ProdCall 5; ProdStep; ConsCall; ProdStep; ProdStep; ConsStep; ProdCall 6].

Fixpoint run_acts {T} (k : nat) (l : list (@Act T)) (m : @Machine T) : option (@Machine T) :=
  match l with [] => Some m | a :: l' => '(m', _) ← step k a m; run_acts k l' m' end.

Lemma run_acts_rtc {T} k l (m m' : @Machine T) : run_acts k l m = Some m' -> rtc (mstep k) m m'.
Proof.
  revert m. induction l as [|a l IH]; simpl; intros m; [by intros [= ->]|].
  intros ([m1 e] & H1 & H2)%bind_Some. eapply rtc_l; [by exists a, e|by apply IH].
Qed.

Definition ex_machine : @Machine Z := default (new_machine 1 0) (run_acts 1 ex_trace (new_machine 1 0)).

Lemma ex_machine_reachable : rtc (mstep 1) (new_machine 1 0) ex_machine.
Proof. apply (run_acts_rtc 1 ex_trace). vm_compute. reflexivity. Qed.

Lemma spsc_refines_fifo_witness :
  exists m', step 1 ProdStep ex_machine = Some (m', PushFull) /\ fifo_step 1 (contents ex_machine) PushFull (contents m').
Proof.
  destruct (step 1 ProdStep ex_machine) as [[m' e]|] eqn:E; [|done].
  pose proof E as E'. vm_compute in E'. injection E' as Hm He. exists m'.
  split; [by rewrite <-He|]. rewrite He.
  apply (spsc_refines_fifo 1 ltac:(lia) 0 ex_machine ProdStep m' e ex_machine_reachable E).
Defined.

Lemma spsc_safe_witness : popped ex_machine = take (length (popped ex_machine)) (pushed ex_machine).
Proof. apply (spsc_safe 1 ltac:(lia) 0 ex_machine ex_machine_reachable). Defined.

Lemma spsc_operations_witness :
  exists r', push 1 7 (new_ring 1 0) = (true, r') /\ ring_holds 1 r' [7] 0.
Proof.
  destruct (spsc_operations 1 ltac:(lia) (new_ring 1 0) [] 0 7 (new_ring_holds 1 ltac:(lia) 0)) as [(r' & _ & H1 & H2) _].
  by exists r'.
Defined.
