(* ===== verification/MpscRing.v ===== *)
(** * Multi-producer single-consumer ring (src/mpsc_ring_buffer.hpp)

    [MPSCRingBuffer]: producers claim a position by a compare-and-swap on
    [tail_] and publish it through the slot's sequence number; the consumer
    reclaims slots in order.  The model is a machine in which any number of
    producers and the consumer advance independently, one access to a shared
    variable at a time (a load is one step with the local decision taken on
    it).  A weak compare-and-swap may fail spuriously.

    The counters are 64-bit and the code compares them as signed numbers; the
    theorems are about executions in which fewer than 2^62 positions have been
    claimed. *)

From S2P Require Import Prelude Types Queues.

Section mpsc.
Context {T : Type} (k : nat).

Definition MSize : Z := 2 ^ Z.of_nat k.
Definition slot_of (pos : Z) : nat := Z.to_nat (Z.land pos (MSize - 1)).

Record Slot := mkSlot { sequence : Z; data : T }.
#[local] Instance Slot_settable : Settable Slot := fun s => mkSlot (sequence s) (data s).

Record MRing := mkMRing { mhead : Z; mtail : Z; slots : list Slot }.
#[local] Instance MRing_settable : Settable MRing := fun r => mkMRing (mhead r) (mtail r) (slots r).

(** The constructor: slot [i] has sequence [i]. *)
Definition new_mring (d : T) : MRing :=
  mkMRing 0 0 (map (fun i => mkSlot (Z.of_nat i) d) (seq 0 (Z.to_nat MSize))).

Definition set_slot (pos : Z) (f : Slot -> Slot) (r : MRing) : MRing :=
  r <| slots := alter f (slot_of pos) (slots r) |>.

(** [static_cast<intptr_t>(seq) - static_cast<intptr_t>(pos)] *)
Definition diff (a b : Z) : Z := to_int64 a - to_int64 b.

Definition mring_empty (r : MRing) : bool := mhead r =? mtail r.
Definition mring_size (r : MRing) : Z := wrap64 (mtail r - mhead r).
Definition mcapacity : Z := MSize.

(** ** Whole calls

    What a call does when no other call runs.  The loop of [try_push] goes
    round again only when another producer moved [tail_] or the
    compare-and-swap failed spuriously. *)

Definition claim_slot (x : T) (pos : Z) (r : MRing) : MRing :=
  let r := r <| mtail := wrap64 (pos + 1) |> in
  let r := set_slot pos (fun s => s <| data := x |>) r in
  set_slot pos (fun s => s <| sequence := wrap64 (pos + 1) |>) r.

Fixpoint mtry_push_loop (fuel : nat) (x : T) (pos : Z) (r : MRing) : ub (bool * MRing) :=
  match fuel with
  | O => None
  | S fuel =>
      s ← slots r !! slot_of pos;
      let d := diff (sequence s) pos in
      if d =? 0 then
        if mtail r =? pos then Some (true, claim_slot x pos r)
        else mtry_push_loop fuel x (mtail r) r
      else if d <? 0 then Some (false, r)
      else mtry_push_loop fuel x (mtail r) r
  end.

Definition mtry_push (x : T) (r : MRing) : ub (bool * MRing) := mtry_push_loop 1 x (mtail r) r.

Definition mtry_pop (r : MRing) : ub (option T * MRing) :=
  let pos := mhead r in
  s ← slots r !! slot_of pos;
  if diff (sequence s) (wrap64 (pos + 1)) <? 0 then Some (None, r)
  else
    let r := set_slot pos (fun s => s <| sequence := wrap64 (pos + MSize) |>) r in
    Some (Some (data s), r <| mhead := wrap64 (pos + 1) |>).

(** ** Threads *)

Inductive MProd :=
  | MLoop (x : T) (pos : Z)       (* about to load the sequence of the slot *)
  | MCas (x : T) (pos : Z)        (* slot writable, about to claim it *)
  | MReload (x : T)               (* about to reload [tail_] *)
  | MClaimed (x : T) (pos : Z)    (* claimed, about to write the data *)
  | MWritten (x : T) (pos : Z).   (* about to publish *)

Inductive MCons :=
  | KIdle
  | KLoaded (pos : Z)             (* about to load the sequence *)
  | KReady (pos : Z)              (* about to move the data out *)
  | KTaken (x : T) (pos : Z)      (* about to reclaim the slot *)
  | KReclaimed (x : T) (pos : Z). (* about to store [head_] *)

Record MMachine := mkMMachine {
  mring : MRing;
  prods : gmap nat MProd;         (* a producer that is not in a call is absent *)
  mcons : MCons;
  claims : list T;                (* the elements, in the order of their positions *)
  mpopped : list T;               (* those whose slot was reclaimed *)
}.
#[local] Instance MMachine_settable : Settable MMachine :=
  fun m => mkMMachine (mring m) (prods m) (mcons m) (claims m) (mpopped m).

Definition new_mmachine (d : T) : MMachine := mkMMachine (new_mring d) ∅ KIdle [] [].

Inductive MAct :=
  | MPush (id : nat) (x : T)          (* call of try_push: loads [tail_] *)
  | MStep (id : nat) (spurious : bool)
  | MPop                              (* call of try_pop: loads [head_] *)
  | MConsStep.

Inductive MEvent := MSilent | MPushOk | MPushFull | MPopGot (x : T) | MPopEmpty.

Definition set_prod (id : nat) (pc : MProd) (m : MMachine) : MMachine :=
  m <| prods := <[id := pc]> (prods m) |>.
Definition done_prod (id : nat) (m : MMachine) : MMachine := m <| prods := delete id (prods m) |>.

Definition mprod_step (id : nat) (spurious : bool) (m : MMachine) : option (MMachine * MEvent) :=
  pc ← prods m !! id;
  match pc with
  | MLoop x pos =>
      s ← slots (mring m) !! slot_of pos;
      let d := diff (sequence s) pos in
      if d =? 0 then Some (set_prod id (MCas x pos) m, MSilent)
      else if d <? 0 then Some (done_prod id m, MPushFull)
      else Some (set_prod id (MReload x) m, MSilent)
  | MCas x pos =>
      if (mtail (mring m) =? pos) && negb spurious then
        Some (set_prod id (MClaimed x pos)
                (m <| mring := (mring m) <| mtail := wrap64 (pos + 1) |> |> <| claims := claims m ++ [x] |>),
              MSilent)
      else Some (set_prod id (MLoop x (mtail (mring m))) m, MSilent)
  | MReload x => Some (set_prod id (MLoop x (mtail (mring m))) m, MSilent)
  | MClaimed x pos =>
      Some (set_prod id (MWritten x pos)
              (m <| mring := set_slot pos (fun s => s <| data := x |>) (mring m) |>), MSilent)
  | MWritten x pos =>
      Some (done_prod id
              (m <| mring := set_slot pos (fun s => s <| sequence := wrap64 (pos + 1) |>) (mring m) |>),
            MPushOk)
  end.

Definition mcons_step (m : MMachine) : option (MMachine * MEvent) :=
  match mcons m with
  | KIdle => None
  | KLoaded pos =>
      s ← slots (mring m) !! slot_of pos;
      if diff (sequence s) (wrap64 (pos + 1)) <? 0 then Some (m <| mcons := KIdle |>, MPopEmpty)
      else Some (m <| mcons := KReady pos |>, MSilent)
  | KReady pos =>
      s ← slots (mring m) !! slot_of pos;
      Some (m <| mcons := KTaken (data s) pos |>, MSilent)
  | KTaken x pos =>
      Some (m <| mring := set_slot pos (fun s => s <| sequence := wrap64 (pos + MSize) |>) (mring m) |>
              <| mcons := KReclaimed x pos |> <| mpopped := mpopped m ++ [x] |>, MSilent)
  | KReclaimed x pos =>
      Some (m <| mring := (mring m) <| mhead := wrap64 (pos + 1) |> |> <| mcons := KIdle |>, MPopGot x)
  end.

Definition mact (a : MAct) (m : MMachine) : option (MMachine * MEvent) :=
  match a with
  | MPush id x =>
      match prods m !! id with
      | None => Some (set_prod id (MLoop x (mtail (mring m))) m, MSilent)
      | Some _ => None
      end
  | MStep id spurious => mprod_step id spurious m
  | MPop =>
      match mcons m with
      | KIdle => Some (m <| mcons := KLoaded (mhead (mring m)) |>, MSilent)
      | _ => None
      end
  | MConsStep => mcons_step m
  end.

Fixpoint mrun (l : list MAct) (m : MMachine) : option MMachine :=
  match l with
  | [] => Some m
  | a :: l => '(m1, _) ← mact a m; mrun l m1
  end.

Definition mmstep (m m' : MMachine) : Prop := exists a e, mact a m = Some (m', e).

(** ** Invariant *)

Definition nclaimed (m : MMachine) : Z := Z.of_nat (length (claims m)).
Definition npopped (m : MMachine) : Z := Z.of_nat (length (mpopped m)).

Definition slot_at (m : MMachine) (pos : Z) : option Slot := slots (mring m) !! slot_of pos.

(** The element claimed at a position. *)
Definition claim_at (m : MMachine) (pos : Z) : option T := claims m !! Z.to_nat pos.

(** A producer owns a position between its claim and its publication. *)
Definition owns (m : MMachine) (id : nat) (pos : Z) : Prop :=
  exists x, prods m !! id = Some (MClaimed x pos) \/ prods m !! id = Some (MWritten x pos).

Definition published (m : MMachine) (pos : Z) : Prop :=
  exists s, slot_at m pos = Some s /\ sequence s = pos + 1 /\ claim_at m pos = Some (data s).

(** The slot of a position that is not published: its sequence is the position
    itself. *)
Definition unpublished (m : MMachine) (pos : Z) : Prop :=
  exists s, slot_at m pos = Some s /\ sequence s = pos.

Definition mprod_ok (m : MMachine) (pc : MProd) : Prop :=
  match pc with
  | MLoop x pos => 0 <= pos <= nclaimed m
  | MCas x pos => 0 <= pos < npopped m + MSize
  | MReload x => True
  | MClaimed x pos =>
      npopped m <= pos < nclaimed m /\ claim_at m pos = Some x /\ unpublished m pos
  | MWritten x pos =>
      npopped m <= pos < nclaimed m /\ claim_at m pos = Some x /\ unpublished m pos /\
      exists s, slot_at m pos = Some s /\ data s = x
  end.

Definition mcons_ok (m : MMachine) : Prop :=
  match mcons m with
  | KIdle => True
  | KLoaded pos => pos = npopped m
  | KReady pos => pos = npopped m /\ npopped m < nclaimed m /\ published m pos
  | KTaken x pos =>
      pos = npopped m /\ npopped m < nclaimed m /\ published m pos /\ claim_at m pos = Some x
  | KReclaimed x pos => pos + 1 = npopped m /\ last (mpopped m) = Some x
  end.

Record mmachine_ok (m : MMachine) : Prop := mk_ok {
  ok_tail : mtail (mring m) = nclaimed m;
  ok_head : mhead (mring m) = match mcons m with KReclaimed _ _ => npopped m - 1 | _ => npopped m end;
  ok_order : mpopped m = take (length (mpopped m)) (claims m);
  ok_window : npopped m <= nclaimed m <= npopped m + MSize;
  ok_slots : length (slots (mring m)) = Z.to_nat MSize;
  ok_pending : forall pos, npopped m <= pos < nclaimed m ->
    published m pos \/ unpublished m pos /\ exists id, owns m id pos;
  ok_free : forall pos, nclaimed m <= pos < npopped m + MSize -> unpublished m pos;
  ok_prods : forall id pc, prods m !! id = Some pc -> mprod_ok m pc;
  ok_unique : forall id id' pos, owns m id pos -> owns m id' pos -> id = id';
  ok_cons : mcons_ok m;
}.

(** ** Positions and slots *)

Context (Hk : (1 <= k <= 61)%nat).

Lemma MSize_bounds : 2 <= MSize <= 2 ^ 61.
Proof.
  unfold MSize. split; [|apply Z.pow_le_mono_r; lia].
  transitivity (2 ^ 1); [lia|apply Z.pow_le_mono_r; lia].
Qed.

Lemma slot_of_mod pos : slot_of pos = Z.to_nat (pos mod MSize).
Proof.
  unfold slot_of, MSize. replace (2 ^ Z.of_nat k - 1) with (Z.ones (Z.of_nat k)) by (rewrite Z.ones_equiv; lia).
  by rewrite Z.land_ones by lia.
Qed.

Lemma slot_of_lt pos : (slot_of pos < Z.to_nat MSize)%nat.
Proof.
  rewrite slot_of_mod. pose proof MSize_bounds. pose proof (Z.mod_pos_bound pos MSize). lia.
Qed.

(** Two positions of one slot are whole laps apart. *)
Lemma slot_of_laps a b : slot_of a = slot_of b -> exists q, a - b = q * MSize.
Proof.
  rewrite !slot_of_mod. intros E. pose proof MSize_bounds.
  pose proof (Z.mod_pos_bound a MSize). pose proof (Z.mod_pos_bound b MSize).
  destruct (proj1 (Z.mod_divide (a - b) MSize ltac:(lia))) as [q Hq]; [|by exists q].
  rewrite Zminus_mod. replace (b mod MSize) with (a mod MSize) by lia. by rewrite Z.sub_diag, Z.mod_0_l by lia.
Qed.

Lemma slot_of_inj a b : slot_of a = slot_of b -> - MSize < a - b < MSize -> a = b.
Proof. intros [q Hq]%slot_of_laps Hab. pose proof MSize_bounds. assert (q = 0) by nia. nia. Qed.

Lemma slot_of_lap pos : slot_of (pos + MSize) = slot_of pos.
Proof. rewrite !slot_of_mod. f_equal. rewrite <-(Z_mod_plus_full pos 1 MSize). f_equal. lia. Qed.

(** Every slot holds one position of the window that starts at [c]. *)
Lemma window_position c pos :
  exists i, c <= i < c + MSize /\ slot_of i = slot_of pos /\ exists q, pos - i = q * MSize.
Proof.
  pose proof MSize_bounds. pose proof (Z.mod_pos_bound (pos - c) MSize ltac:(lia)).
  exists (c + (pos - c) mod MSize).
  assert (Hq : pos - (c + (pos - c) mod MSize) = ((pos - c) / MSize) * MSize).
  { pose proof (Z.div_mod (pos - c) MSize ltac:(lia)). lia. }
  split_and!; [lia|lia| |by eexists]. rewrite !slot_of_mod. f_equal.
  replace pos with ((c + (pos - c) mod MSize) + ((pos - c) / MSize) * MSize) at 2 by lia.
  by rewrite Z_mod_plus_full.
Qed.

Lemma slot_at_set m p f pos :
  slot_at (m <| mring := set_slot p f (mring m) |>) pos =
    if decide (slot_of p = slot_of pos) then f <$> slot_at m pos else slot_at m pos.
Proof.
  unfold slot_at, set_slot. simpl. case_decide as E.
  - rewrite E. by rewrite list_lookup_alter_eq.
  - by rewrite list_lookup_alter_ne.
Qed.

Lemma small_counter z : 0 <= z < 2 ^ 63 -> wrap64 z = z /\ to_int64 z = z.
Proof.
  intros Hz. unfold to_int64. rewrite wrap64_small by (unfold in_u64, two64; lia).
  rewrite (proj2 (Z.leb_gt _ _)) by lia. done.
Qed.

(** ** What one slot says *)

Section reading.
Context (m : MMachine) (Hm : mmachine_ok m) (Hb : nclaimed m < 2 ^ 62).

Lemma sequence_at pos s :
  slot_at m pos = Some s ->
  exists i, npopped m <= i < npopped m + MSize /\ (exists q, pos - i = q * MSize) /\
    (sequence s = i /\ unpublished m i \/ sequence s = i + 1 /\ i < nclaimed m /\ published m i).
Proof.
  intros Hs. destruct (window_position (npopped m) pos) as (i & Hi & Hsl & Hq).
  assert (Hsi : slot_at m i = Some s) by (unfold slot_at in *; by rewrite Hsl).
  exists i. split_and!; [lia..|done|]. destruct (decide (i < nclaimed m)) as [Hlt|Hge].
  - destruct (ok_pending m Hm i ltac:(lia)) as [Hp|[Hu _]].
    + right. pose proof Hp as (s' & E & ? & ?). rewrite Hsi in E. injection E as <-. done.
    + left. pose proof Hu as (s' & E & ?). rewrite Hsi in E. injection E as <-. done.
  - left. pose proof (ok_free m Hm i ltac:(lia)) as Hu. pose proof Hu as (s' & E & ?).
    rewrite Hsi in E. injection E as <-. done.
Qed.

Lemma slot_exists pos : is_Some (slot_at m pos).
Proof. unfold slot_at. apply lookup_lt_is_Some_2. rewrite (ok_slots m Hm). apply slot_of_lt. Qed.

(** The comparison the code makes is the comparison of the counters. *)
Lemma diff_counters pos s :
  slot_at m pos = Some s -> 0 <= pos <= nclaimed m + MSize ->
  diff (sequence s) pos = sequence s - pos /\ 0 <= sequence s < 2 ^ 63.
Proof.
  intros Hs Hpos. pose proof MSize_bounds. destruct (sequence_at pos s Hs) as (i & Hi & _ & Hseq).
  pose proof (ok_window m Hm). assert (0 <= npopped m) by (unfold npopped; lia).
  assert (0 <= sequence s < 2 ^ 63) by (destruct Hseq as [[-> _]|(-> & _)]; lia).
  split; [|done]. unfold diff.
  rewrite (proj2 (small_counter (sequence s) ltac:(lia))), (proj2 (small_counter pos ltac:(lia))). lia.
Qed.
End reading.

(** ** Steps that change no slot *)

Definition owning (pc : MProd) : bool :=
  match pc with MClaimed _ _ | MWritten _ _ => true | _ => false end.

Lemma owns_set m id pc id' pos :
  owning pc = false -> (forall pc0, prods m !! id = Some pc0 -> owning pc0 = false) ->
  owns (set_prod id pc m) id' pos <-> owns m id' pos.
Proof.
  intros Hpc Hold. unfold owns, set_prod. simpl. destruct (decide (id = id')) as [<-|Hne].
  - rewrite lookup_insert_eq. split.
    + intros (x & [[= ->]|[= ->]]); done.
    + intros (x & [Hx|Hx]); by apply Hold in Hx.
  - by rewrite lookup_insert_ne.
Qed.

Lemma set_prod_ok m id pc :
  owning pc = false -> (forall pc0, prods m !! id = Some pc0 -> owning pc0 = false) ->
  mprod_ok m pc -> mmachine_ok m -> mmachine_ok (set_prod id pc m).
Proof.
  intros Hpc Hold Hok []. split; try done.
  - intros pos Hpos. destruct (ok_pending0 pos Hpos) as [?|[? [id' Hid]]]; [by left|right].
    split; [done|]. exists id'. by apply owns_set.
  - intros id' pc'. unfold set_prod. cbn [prods set_field]. intros [[<- <-]|[_ H]]%lookup_insert_Some; [done|].
    by apply (ok_prods0 id').
  - intros id1 id2 pos H1 H2. rewrite owns_set in H1, H2 by done. by eapply ok_unique0.
Qed.

Lemma owns_done m id id' pos :
  (forall pc0, prods m !! id = Some pc0 -> owning pc0 = false) ->
  owns (done_prod id m) id' pos <-> owns m id' pos.
Proof.
  intros Hold. unfold owns, done_prod. simpl. destruct (decide (id = id')) as [<-|Hne].
  - rewrite lookup_delete_eq. split; [by intros (x & [?|?])|].
    intros (x & [Hx|Hx]); by apply Hold in Hx.
  - by rewrite lookup_delete_ne.
Qed.

Lemma done_prod_ok m id :
  (forall pc0, prods m !! id = Some pc0 -> owning pc0 = false) ->
  mmachine_ok m -> mmachine_ok (done_prod id m).
Proof.
  intros Hold []. split; try done.
  - intros pos Hpos. destruct (ok_pending0 pos Hpos) as [?|[? [id' Hid]]]; [by left|right].
    split; [done|]. exists id'. by apply owns_done.
  - intros id' pc'. unfold done_prod. cbn [prods set_field]. intros [_ H]%lookup_delete_Some. by apply (ok_prods0 id').
  - intros id1 id2 pos H1 H2. rewrite owns_done in H1, H2 by done. by eapply ok_unique0.
Qed.

Lemma set_cons_ok m c :
  (match mcons m with KReclaimed _ _ => False | _ => True end) ->
  (match c with KReclaimed _ _ => False | _ => True end) ->
  mcons_ok (m <| mcons := c |>) -> mmachine_ok m -> mmachine_ok (m <| mcons := c |>).
Proof.
  intros H1 H2 Hc []. split; try done. simpl. rewrite ok_head0. by destruct (mcons m), c.
Qed.

(** ** Producer steps *)

Section stepping.
Context (m : MMachine) (Hm : mmachine_ok m) (Hb : nclaimed m < 2 ^ 62).

Lemma one_lap q : 0 < q * MSize <= MSize -> q = 1.
Proof.
  pose proof MSize_bounds. intros Hq. assert (0 < q) by nia. destruct (decide (q = 1)); [done|].
  assert (2 * MSize <= q * MSize) by (apply Z.mul_le_mono_nonneg_r; lia). lia.
Qed.

(** What the sequence of the slot of [pos] says to a producer. *)
Lemma loop_reading pos s :
  0 <= pos <= nclaimed m -> slot_at m pos = Some s ->
  (sequence s = pos -> pos < npopped m + MSize) /\
  (sequence s < pos -> nclaimed m = npopped m + MSize).
Proof.
  intros Hpos Hs. pose proof MSize_bounds. pose proof (ok_window m Hm).
  destruct (sequence_at m Hm pos s Hs) as (i & Hi & [q Hq] & [[Hseq _]|(Hseq & Hlt & _)]); rewrite Hseq.
  - split; [lia|]. intros Hlt. rewrite (one_lap q ltac:(lia)) in Hq. lia.
  - split.
    + intros E. exfalso. assert (q * MSize = 1) as Hq1 by lia. rewrite (one_lap q ltac:(lia)) in Hq1. lia.
    + intros Hlt'. rewrite (one_lap q ltac:(lia)) in Hq. lia.
Qed.

(** Claiming the position [nclaimed m]. *)
Definition claimed (id : nat) (x : T) : MMachine :=
  set_prod id (MClaimed x (nclaimed m))
    (m <| mring := (mring m) <| mtail := wrap64 (nclaimed m + 1) |> |> <| claims := claims m ++ [x] |>).

Lemma claim_at_claimed id x pos :
  0 <= pos -> claim_at (claimed id x) pos = if decide (pos = nclaimed m) then Some x
                                            else claim_at m pos.
Proof.
  intros Hpos. unfold claim_at, claimed, nclaimed. simpl. case_decide as E.
  - subst pos. rewrite Nat2Z.id. by apply list_lookup_middle.
  - destruct (decide (pos < nclaimed m)) as [Hl|Hl]; unfold nclaimed in Hl.
    + rewrite lookup_app_l by lia. done.
    + rewrite !lookup_ge_None_2; [done|lia|rewrite length_app; simpl; lia].
Qed.

Lemma nclaimed_claimed id x : nclaimed (claimed id x) = nclaimed m + 1.
Proof. unfold nclaimed, claimed. simpl. rewrite length_app. simpl. lia. Qed.

Lemma owns_claimed id x id' pos :
  (forall pc0, prods m !! id = Some pc0 -> owning pc0 = false) ->
  owns (claimed id x) id' pos <-> owns m id' pos \/ id' = id /\ pos = nclaimed m.
Proof.
  intros Hold. unfold owns, claimed, set_prod. simpl. destruct (decide (id = id')) as [<-|Hne].
  - rewrite lookup_insert_eq. split.
    + intros (y & [[= -> ->]|[=]]). by right.
    + intros [(y & [H|H])|[_ ->]]; [by apply Hold in H..|]. exists x. by left.
  - rewrite lookup_insert_ne by done. split; [by left|]. intros [?|[E _]]; [done|by subst].
Qed.

Lemma published_claimed id x pos : 0 <= pos < nclaimed m -> published m pos -> published (claimed id x) pos.
Proof.
  intros Hpos (s & Hs & Hq & Hc). exists s. split_and!; [done..|].
  rewrite claim_at_claimed by lia. by rewrite decide_False by lia.
Qed.

Lemma mprod_ok_claimed id x pc : mprod_ok m pc -> mprod_ok (claimed id x) pc.
Proof.
  pose proof (nclaimed_claimed id x). assert (0 <= npopped m) by (unfold npopped; lia).
  destruct pc; unfold mprod_ok; rewrite ?nclaimed_claimed; change (npopped (claimed id x)) with (npopped m).
  - lia.
  - done.
  - done.
  - intros (? & Hc & ?). split_and!; [lia..| |done]. rewrite claim_at_claimed by lia. by rewrite decide_False by lia.
  - intros (? & Hc & ? & ?). split_and!; [lia..| |done|done].
    rewrite claim_at_claimed by lia. by rewrite decide_False by lia.
Qed.

Lemma claim_ok id x :
  (forall pc0, prods m !! id = Some pc0 -> owning pc0 = false) ->
  nclaimed m < npopped m + MSize -> mmachine_ok (claimed id x).
Proof.
  intros Hold Hfree. assert (Hp0 : 0 <= npopped m) by (unfold npopped; lia).
  pose proof (nclaimed_claimed id x) as Hn. pose proof (ok_window m Hm) as Hw.
  assert (Hlast : unpublished m (nclaimed m)) by (apply (ok_free m Hm); lia).
  split; try rewrite Hn; change (npopped (claimed id x)) with (npopped m).
  - change (wrap64 (nclaimed m + 1) = nclaimed m + 1).
    apply wrap64_small. unfold in_u64, two64. lia.
  - apply (ok_head m Hm).
  - change (mpopped m = take (length (mpopped m)) (claims m ++ [x])).
    rewrite take_app_le; [apply (ok_order m Hm)|]. unfold npopped, nclaimed in Hw. lia.
  - lia.
  - apply (ok_slots m Hm).
  - intros pos Hpos. destruct (decide (pos = nclaimed m)) as [->|Hne].
    + right. split; [exact Hlast|]. exists id. apply owns_claimed; [done|by right].
    + destruct (ok_pending m Hm pos ltac:(lia)) as [?|[? [id' ?]]].
      * left. apply published_claimed; [lia|done].
      * right. split; [done|]. exists id'. apply owns_claimed; [done|by left].
  - intros pos Hpos. apply (ok_free m Hm). lia.
  - intros id' pc' H. change (<[id := MClaimed x (nclaimed m)]> (prods m) !! id' = Some pc') in H.
    apply lookup_insert_Some in H. destruct H as [[<- <-]|[_ H]].
    + unfold mprod_ok. rewrite Hn. split_and!; [change (npopped m <= nclaimed m); lia|lia| |exact Hlast].
      rewrite claim_at_claimed by lia. by rewrite decide_True.
    + apply (mprod_ok_claimed id x). by apply (ok_prods m Hm id').
  - intros id1 id2 pos. rewrite !owns_claimed by done.
    assert (Hfresh : forall i, ~ owns m i (nclaimed m)).
    { intros i (y & [H|H]); apply (ok_prods m Hm) in H; simpl in H; lia. }
    intros [H1|[-> ->]] [H2|[-> E]]; [by eapply (ok_unique m Hm)| | |done].
    + subst. by apply Hfresh in H1.
    + by apply Hfresh in H2.
  - pose proof (ok_cons m Hm) as Hc. unfold mcons_ok in *. change (mcons (claimed id x)) with (mcons m).
    destruct (mcons m) as [|p|p|y p|y p]; rewrite ?Hn; change (npopped (claimed id x)) with (npopped m); try done.
    + destruct Hc as (-> & ? & ?). split_and!; [done|lia|]. apply published_claimed; [lia|done].
    + destruct Hc as (-> & ? & ? & ?). split_and!; [done|lia|apply published_claimed; [lia|done]|].
      rewrite claim_at_claimed by lia. by rewrite decide_False by lia.
Qed.

(** Writing the slot of a position of the window. *)
Definition write (pos : Z) (f : Slot -> Slot) : MMachine := m <| mring := set_slot pos f (mring m) |>.

Definition in_window (pos : Z) : Prop := npopped m <= pos < npopped m + MSize.

Lemma slot_at_other pos f p : in_window pos -> in_window p -> p <> pos -> slot_at (write pos f) p = slot_at m p.
Proof.
  intros Hpos Hp Hne. unfold write. rewrite slot_at_set. rewrite decide_False; [done|].
  intros E%slot_of_inj; [congruence|unfold in_window in *; lia].
Qed.

Lemma slot_at_same pos f : slot_at (write pos f) pos = f <$> slot_at m pos.
Proof. unfold write. rewrite slot_at_set. by rewrite decide_True. Qed.

Lemma published_other pos f p :
  in_window pos -> in_window p -> p <> pos -> published m p -> published (write pos f) p.
Proof. intros ??? (s & Hs & ?). exists s. by rewrite slot_at_other. Qed.

Lemma unpublished_other pos f p :
  in_window pos -> in_window p -> p <> pos -> unpublished m p -> unpublished (write pos f) p.
Proof. intros ??? (s & Hs & ?). exists s. by rewrite slot_at_other. Qed.

Lemma not_both pos : published m pos -> unpublished m pos -> False.
Proof. intros (s & Hs & ? & _) (s' & Hs' & ?). rewrite Hs in Hs'. injection Hs' as <-. lia. Qed.

Lemma owned_ok id pos : owns m id pos -> npopped m <= pos < nclaimed m /\ unpublished m pos /\ in_window pos.
Proof.
  pose proof (ok_window m Hm). unfold in_window.
  intros (x & [H'|H']); apply (ok_prods m Hm) in H'; destruct H' as (? & ? & ?); intuition lia.
Qed.

(** What another producer relies on survives a write of the slot of [pos]
    as long as that producer does not own [pos]. *)
Lemma mprod_ok_write pos f pc id' :
  in_window pos -> prods m !! id' = Some pc -> ~ owns m id' pos -> mprod_ok m pc -> mprod_ok (write pos f) pc.
Proof.
  intros Hpos Hid Hown Hpc. pose proof (ok_window m Hm) as Hw.
  destruct pc as [y p|y p|y|y p|y p]; simpl in *; try exact Hpc.
  all: assert (p <> pos) by (intros ->; apply Hown; exists y; auto).
  - destruct Hpc as (Hp & Hc & Hu). assert (in_window p) by (unfold in_window; lia).
    split; [exact Hp|]. split; [exact Hc|]. by apply unpublished_other.
  - destruct Hpc as (Hp & Hc & Hu & Hd). assert (in_window p) by (unfold in_window; lia).
    split; [exact Hp|]. split; [exact Hc|]. split; [by apply unpublished_other|]. by rewrite slot_at_other.
Qed.

Lemma mcons_ok_write pos f : unpublished m pos -> in_window pos -> mcons_ok (write pos f).
Proof.
  intros Hu Hpos. pose proof (ok_cons m Hm) as Hc. unfold mcons_ok in *. change (mcons (write pos f)) with (mcons m).
  pose proof (ok_window m Hm).
  destruct (mcons m) as [|p|p|y p|y p]; try done.
  - destruct Hc as (-> & ? & Hpub). split_and!; [done..|].
    apply published_other; [done|unfold in_window; lia| |done]. intros E. subst pos. by eapply not_both.
  - destruct Hc as (-> & ? & Hpub & ?). split_and!; [done..| |done].
    apply published_other; [done|unfold in_window; lia| |done]. intros E. subst pos. by eapply not_both.
Qed.

Lemma owns_moved id x pos f id' p :
  prods m !! id = Some (MClaimed x pos) ->
  owns (set_prod id (MWritten x pos) (write pos f)) id' p <-> owns m id' p.
Proof.
  intros Hid. unfold owns, set_prod. simpl. destruct (decide (id = id')) as [<-|Hne].
  - rewrite lookup_insert_eq, Hid. split; intros (y & [E|E]); try done; injection E as <- <-; exists x; tauto.
  - by rewrite lookup_insert_ne.
Qed.

Lemma owns_released id f pos id' p : owns (done_prod id (write pos f)) id' p <-> owns m id' p /\ id' <> id.
Proof.
  unfold owns, done_prod. simpl. destruct (decide (id = id')) as [<-|Hne].
  - rewrite lookup_delete_eq. split; [by intros (y & [?|?])|]. by intros [_ ?].
  - rewrite lookup_delete_ne by done. split; [|by intros [? _]]. intros ?. split; [done|congruence].
Qed.

(** Writing the data of a claimed slot. *)
Lemma write_data_ok id x pos :
  prods m !! id = Some (MClaimed x pos) ->
  mmachine_ok (set_prod id (MWritten x pos) (write pos (fun s => s <| data := x |>))).
Proof.
  intros Hid. assert (Hown : owns m id pos) by (exists x; by left).
  destruct (owned_ok id pos Hown) as (Hpos & Hu & Hw). set (f := fun s : Slot => s <| data := x |>).
  assert (Hu' : unpublished (write pos f) pos).
  { destruct Hu as (s & Hs & Hq). exists (f s). by rewrite slot_at_same, Hs. }
  assert (Hoth : forall p, in_window p -> unpublished m p -> unpublished (write pos f) p).
  { intros p Hp Hup. destruct (decide (p = pos)) as [->|]; [done|by apply unpublished_other]. }
  pose proof (ok_window m Hm) as Hn. split; try apply Hm.
  - unfold set_prod, write, set_slot. simpl. rewrite length_alter. apply (ok_slots m Hm).
  - intros p Hp. change (npopped m <= p < nclaimed m) in Hp.
    destruct (ok_pending m Hm p Hp) as [?|[? [id' ?]]].
    + left. apply published_other; [done|unfold in_window; lia| |done]. intros ->. by eapply not_both.
    + right. split; [apply Hoth; [unfold in_window; lia|done]|]. exists id'. by apply owns_moved.
  - intros p Hp. change (nclaimed m <= p < npopped m + MSize) in Hp.
    apply Hoth; [unfold in_window; lia|]. by apply (ok_free m Hm).
  - intros id' pc' H. change (<[id := MWritten x pos]> (prods m) !! id' = Some pc') in H.
    apply lookup_insert_Some in H. destruct H as [[<- <-]|[Hne H]].
    + pose proof (ok_prods m Hm _ _ Hid) as (Hp & Hc & _). split; [exact Hp|]. split; [exact Hc|].
      split; [exact Hu'|]. destruct Hu as (s & Hs & _). exists (f s).
      split; [|done]. change (slot_at (write pos f) pos = Some (f s)). by rewrite slot_at_same, Hs.
    + eapply (mprod_ok_write pos f pc' id'); [done..| |by apply (ok_prods m Hm id')].
      intros Ho. by apply Hne, (ok_unique m Hm _ _ pos).
  - intros id1 id2 p. rewrite !owns_moved by done. apply (ok_unique m Hm).
  - exact (mcons_ok_write pos f Hu Hw).
Qed.

(** Publishing it. *)
Lemma publish_ok id x pos :
  prods m !! id = Some (MWritten x pos) ->
  mmachine_ok (done_prod id (write pos (fun s => s <| sequence := wrap64 (pos + 1) |>))).
Proof.
  intros Hid. assert (Hown : owns m id pos) by (exists x; by right).
  destruct (owned_ok id pos Hown) as (Hpos & Hu & Hw).
  set (f := fun s : Slot => s <| sequence := wrap64 (pos + 1) |>).
  assert (H0 : 0 <= npopped m) by (unfold npopped; lia).
  assert (Hpub : published (write pos f) pos).
  { pose proof (ok_prods m Hm _ _ Hid) as (_ & Hc & _ & s & Hs & Hd). exists (f s). rewrite slot_at_same, Hs.
    split_and!; [done| |by simpl; rewrite Hd]. simpl. apply wrap64_small. unfold in_u64, two64. lia. }
  pose proof (ok_window m Hm) as Hn. split; try apply Hm.
  - unfold done_prod, write, set_slot. simpl. rewrite length_alter. apply (ok_slots m Hm).
  - intros p Hp. change (npopped m <= p < nclaimed m) in Hp.
    destruct (decide (p = pos)) as [->|Hne]; [by left|].
    destruct (ok_pending m Hm p Hp) as [?|[? [id' Ho]]].
    + left. apply published_other; [done|unfold in_window; lia|done|done].
    + right. split; [apply unpublished_other; [done|unfold in_window; lia|done|done]|].
      exists id'. apply owns_released. split; [done|]. intros ->.
      destruct Ho as (y & [E|E]); rewrite Hid in E; [done|]. by injection E as _ <-.
  - intros p Hp. change (nclaimed m <= p < npopped m + MSize) in Hp.
    apply unpublished_other; [done|unfold in_window; lia|lia|]. by apply (ok_free m Hm).
  - intros id' pc' H. change (delete id (prods m) !! id' = Some pc') in H.
    apply lookup_delete_Some in H. destruct H as [Hne H].
    eapply (mprod_ok_write pos f pc' id'); [done..| |by apply (ok_prods m Hm id')].
    intros Ho. by apply Hne, (ok_unique m Hm _ _ pos).
  - intros id1 id2 p. rewrite !owns_released. intros [? _] [? _]. by eapply (ok_unique m Hm).
  - exact (mcons_ok_write pos f Hu Hw).
Qed.

(** Reclaiming the oldest slot. *)
Lemma reclaim_ok x pos :
  mcons m = KTaken x pos ->
  mmachine_ok ((write pos (fun s => s <| sequence := wrap64 (pos + MSize) |>))
                 <| mcons := KReclaimed x pos |> <| mpopped := mpopped m ++ [x] |>).
Proof.
  intros Hk'. pose proof (ok_cons m Hm) as Hc. unfold mcons_ok in Hc. rewrite Hk' in Hc.
  destruct Hc as (-> & Hlt & Hpub & Hx). set (f := fun s : Slot => s <| sequence := wrap64 (npopped m + MSize) |>).
  pose proof MSize_bounds as HM. pose proof (ok_window m Hm) as Hn.
  assert (H0 : 0 <= npopped m) by (unfold npopped; lia).
  assert (Hw : in_window (npopped m)) by (unfold in_window; lia).
  set (m' := (write (npopped m) f) <| mcons := KReclaimed x (npopped m) |> <| mpopped := mpopped m ++ [x] |>).
  assert (Hn' : npopped m' = npopped m + 1) by (unfold npopped, m'; simpl; rewrite length_app; simpl; lia).
  split.
  - apply (ok_tail m Hm).
  - change (mhead (mring m) = npopped m' - 1). rewrite Hn', (ok_head m Hm), Hk'. lia.
  - change (mpopped m ++ [x] = take (length (mpopped m ++ [x])) (claims m)).
    rewrite length_app, Nat.add_1_r. rewrite (take_S_r _ _ x).
    + by rewrite <-(ok_order m Hm).
    + unfold claim_at, npopped in Hx. by rewrite Nat2Z.id in Hx.
  - fold m'. rewrite Hn'. change (nclaimed m') with (nclaimed m). lia.
  - unfold m', write, set_slot. simpl. rewrite length_alter. apply (ok_slots m Hm).
  - intros p Hp. fold m' in Hp. rewrite Hn' in Hp. change (nclaimed m') with (nclaimed m) in Hp.
    destruct (ok_pending m Hm p ltac:(lia)) as [?|[? [id' ?]]].
    + left. apply (published_other (npopped m) f); [done|unfold in_window; lia|lia|done].
    + right. split; [apply (unpublished_other (npopped m) f); [done|unfold in_window; lia|lia|done]|by exists id'].
  - intros p Hp. fold m' in Hp. rewrite Hn' in Hp. change (nclaimed m') with (nclaimed m) in Hp.
    destruct (decide (p = npopped m + MSize)) as [->|Hne].
    + destruct Hpub as (s & Hs & _). exists (f s). split.
      * change (slot_at (write (npopped m) f) (npopped m + MSize) = Some (f s)).
        unfold slot_at. rewrite slot_of_lap. fold (slot_at (write (npopped m) f) (npopped m)).
        by rewrite slot_at_same, Hs.
      * simpl. apply wrap64_small. unfold in_u64, two64. lia.
    + apply (unpublished_other (npopped m) f); [done|unfold in_window; lia|lia|]. apply (ok_free m Hm). lia.
  - intros id' pc' H. change (prods m !! id' = Some pc') in H. fold m'.
    assert (Hpc : mprod_ok (write (npopped m) f) pc').
    { apply (mprod_ok_write _ f pc' id'); [done|done| |by apply (ok_prods m Hm id')].
      intros Ho%owned_ok. eapply not_both; [done|apply Ho]. }
    assert (Hne : owning pc' = true -> ~ owns m id' (npopped m)).
    { intros _ Ho%owned_ok. eapply not_both; [done|apply Ho]. }
    destruct pc' as [y p|y p|y|y p|y p]; simpl in Hpc |- *; rewrite ?Hn'; try done.
    + change (npopped (write (npopped m) f)) with (npopped m) in Hpc. lia.
    + destruct Hpc as (Hp & Hc & Hu). split; [|split; [exact Hc|exact Hu]].
      change (npopped m <= p < nclaimed m) in Hp. change (nclaimed m') with (nclaimed m).
      destruct (decide (p = npopped m)) as [->|]; [|lia]. exfalso. apply Hne; [done|]. exists y. by left.
    + destruct Hpc as (Hp & Hc & Hu). split; [|split; [exact Hc|exact Hu]].
      change (npopped m <= p < nclaimed m) in Hp. change (nclaimed m') with (nclaimed m).
      destruct (decide (p = npopped m)) as [->|]; [|lia]. exfalso. apply Hne; [done|]. exists y. by right.
  - apply (ok_unique m Hm).
  - unfold mcons_ok. simpl. fold m'. rewrite Hn'. split; [done|]. by rewrite last_snoc.
Qed.

(** Storing [head_]. *)
Lemma store_head_ok x pos :
  mcons m = KReclaimed x pos ->
  mmachine_ok (m <| mring := (mring m) <| mhead := wrap64 (pos + 1) |> |> <| mcons := KIdle |>).
Proof.
  intros Hk'. pose proof (ok_cons m Hm) as Hc. unfold mcons_ok in Hc. rewrite Hk' in Hc. destruct Hc as (Hpos & _).
  pose proof (ok_window m Hm). split; try apply Hm; try done.
  change (wrap64 (pos + 1) = npopped m). rewrite Hpos. apply wrap64_small. unfold in_u64, two64, npopped in *. lia.
Qed.
End stepping.

(** ** Reachable machines *)

Lemma not_owning m id pc : prods m !! id = Some pc -> owning pc = false ->
  forall pc0, prods m !! id = Some pc0 -> owning pc0 = false.
Proof. intros H1 H2 pc0 H0. rewrite H1 in H0. by injection H0 as <-. Qed.

Lemma mprod_step_ok m id sp m' e :
  mmachine_ok m -> nclaimed m < 2 ^ 62 -> mprod_step id sp m = Some (m', e) -> mmachine_ok m'.
Proof.
  intros Hm Hb. unfold mprod_step. destruct (prods m !! id) as [pc|] eqn:Hid; [|done].
  pose proof (ok_prods m Hm _ _ Hid) as Hpc. pose proof (ok_tail m Hm) as Ht. pose proof MSize_bounds.
  pose proof (ok_window m Hm). assert (0 <= npopped m) by (unfold npopped; lia).
  destruct pc as [x pos|x pos|x|x pos|x pos]; simpl; [..|intros [= <- _]; by apply (write_data_ok m Hm)|
    intros [= <- _]; by eapply (publish_ok m Hm)].
  - fold (slot_at m pos). destruct (slot_exists m Hm pos) as [s Hs]. rewrite Hs. simpl.
    destruct (diff_counters m Hm Hb pos s Hs) as [-> _]; [simpl in Hpc; lia|].
    destruct (loop_reading m Hm pos s Hpc Hs) as [Hr _].
    destruct (Z.eqb_spec (sequence s - pos) 0) as [E|E]; [|destruct (_ <? _)]; intros [= <- _].
    + apply set_prod_ok; [done|by eapply not_owning| |done]. simpl in *. lia.
    + apply done_prod_ok; [by eapply not_owning|done].
    + apply set_prod_ok; [done|by eapply not_owning| done|done].
  - destruct (Z.eqb_spec (mtail (mring m)) pos) as [E|E]; [destruct sp|]; simpl; intros [= <- _].
    + apply set_prod_ok; [done|by eapply not_owning| |done]. simpl. lia.
    + rewrite <-E, Ht. apply (claim_ok m Hm Hb id x); [by eapply not_owning|]. simpl in Hpc. lia.
    + apply set_prod_ok; [done|by eapply not_owning| |done]. simpl. lia.
  - intros [= <- _]. apply set_prod_ok; [done|by eapply not_owning| |done]. simpl. lia.
Qed.

Lemma oldest_reading m s :
  mmachine_ok m -> nclaimed m < 2 ^ 62 -> slot_at m (npopped m) = Some s ->
  (diff (sequence s) (wrap64 (npopped m + 1)) < 0 ->
     nclaimed m = npopped m \/ exists id, owns m id (npopped m)) /\
  (0 <= diff (sequence s) (wrap64 (npopped m + 1)) -> npopped m < nclaimed m /\ published m (npopped m)).
Proof.
  intros Hm Hb Hs. pose proof MSize_bounds. pose proof (ok_window m Hm) as Hw.
  assert (0 <= npopped m) by (unfold npopped; lia).
  destruct (sequence_at m Hm _ s Hs) as (i & Hi & [q Hq] & Hseq).
  assert (i = npopped m) as ->.
  { destruct (decide (i = npopped m)); [done|]. pose proof (one_lap (- q) ltac:(lia)). lia. }
  assert (Hd : diff (sequence s) (wrap64 (npopped m + 1)) = sequence s - (npopped m + 1)).
  { rewrite (proj1 (small_counter (npopped m + 1) ltac:(lia))). unfold diff. 
    rewrite (proj2 (small_counter (sequence s) ltac:(lia))), (proj2 (small_counter (npopped m + 1) ltac:(lia))). lia. }
  rewrite Hd. destruct Hseq as [[E Hu]|(E & ? & ?)]; (split; [|lia || done]); [|lia].
  intros _. destruct (decide (nclaimed m = npopped m)); [by left|right].
  destruct (ok_pending m Hm (npopped m) ltac:(lia)) as [Hp|[_ ?]]; [|done]. by destruct (not_both m (npopped m)).
Qed.

Lemma mcons_step_ok m m' e :
  mmachine_ok m -> nclaimed m < 2 ^ 62 -> mcons_step m = Some (m', e) -> mmachine_ok m'.
Proof.
  intros Hm Hb. unfold mcons_step. pose proof (ok_cons m Hm) as Hc. unfold mcons_ok in Hc.
  destruct (mcons m) as [|pos|pos|x pos|x pos] eqn:Hk'; [done|..].
  - fold (slot_at m pos). destruct (slot_exists m Hm pos) as [s Hs]. rewrite Hs. simpl. subst pos.
    destruct (oldest_reading m s Hm Hb Hs) as [_ Hr].
    destruct (Z.ltb_spec (diff (sequence s) (wrap64 (npopped m + 1))) 0); intros [= <- _].
    + apply set_cons_ok; [by rewrite Hk'|done..].
    + apply set_cons_ok; [by rewrite Hk'|done| |done]. unfold mcons_ok. simpl. split; [done|]. by apply Hr.
  - fold (slot_at m pos). destruct Hc as (-> & Hlt & Hp). pose proof Hp as (s & Hs & Hq & Hd). rewrite Hs. simpl.
    intros [= <- _]. apply set_cons_ok; [by rewrite Hk'|done| |done]. unfold mcons_ok. simpl. done.
  - intros [= <- _]. by apply (reclaim_ok m Hm Hb).
  - intros [= <- _]. by eapply (store_head_ok m Hm Hb).
Qed.

Lemma mact_ok a m m' e :
  mmachine_ok m -> nclaimed m < 2 ^ 62 -> mact a m = Some (m', e) -> mmachine_ok m'.
Proof.
  intros Hm Hb. destruct a as [id x|id sp| |]; simpl.
  - destruct (prods m !! id) as [pc|] eqn:Hid; [done|]. intros [= <- _].
    pose proof (ok_tail m Hm). apply set_prod_ok; [done|by rewrite Hid| |done].
    change (0 <= mtail (mring m) <= nclaimed m). rewrite (ok_tail m Hm). unfold nclaimed. lia.
  - by apply mprod_step_ok.
  - destruct (mcons m) eqn:Hk'; try done. intros [= <- _].
    apply set_cons_ok; [by rewrite Hk'|done| |done]. unfold mcons_ok. simpl.
    rewrite (ok_head m Hm). by rewrite Hk'.
  - by apply mcons_step_ok.
Qed.

Lemma mact_claims a m m' e : mact a m = Some (m', e) -> nclaimed m <= nclaimed m'.
Proof.
  unfold nclaimed. destruct a as [id x|id sp| |]; simpl.
  - destruct (prods m !! id); [done|]. by intros [= <- _].
  - unfold mprod_step. destruct (prods m !! id) as [[]|]; simpl; try done.
    + destruct (slots _ !! _); simpl; [|done]. repeat case_match; by intros [= <- _].
    + case_match; intros [= <- _]; simpl; rewrite ?length_app; lia.
    + by intros [= <- _].
    + by intros [= <- _].
    + by intros [= <- _].
  - by destruct (mcons m); intros [= <- _].
  - unfold mcons_step. destruct (mcons m); try done; simpl.
    + destruct (slots _ !! _); simpl; [|done]. case_match; by intros [= <- _].
    + destruct (slots _ !! _); simpl; [|done]. by intros [= <- _].
    + by intros [= <- _].
    + by intros [= <- _].
Qed.

Lemma new_mmachine_ok d : mmachine_ok (new_mmachine d).
Proof.
  pose proof MSize_bounds. split; try done.
  - unfold npopped, nclaimed. simpl. lia.
  - simpl. by rewrite length_map, length_seq.
  - unfold npopped, nclaimed. simpl. lia.
  - unfold npopped, nclaimed. simpl. intros pos Hpos. exists (mkSlot pos d). split; [|done].
    unfold slot_at. simpl. rewrite slot_of_mod, Z.mod_small by lia.
    rewrite list_lookup_fmap, lookup_seq_lt by lia. simpl. by rewrite Z2Nat.id by lia.
  - by intros id id' pos (x & [Hx|Hx]).
Qed.

Lemma mreachable_ok d m : rtc mmstep (new_mmachine d) m -> nclaimed m < 2 ^ 62 -> mmachine_ok m.
Proof.
  intros Hr. eapply (rtc_invariant mmstep (fun m => nclaimed m < 2 ^ 62 -> mmachine_ok m));
    [|exact Hr|intros _; apply new_mmachine_ok].
  intros m1 m2 IH (a & e & Hs) Hb. pose proof (mact_claims _ _ _ _ Hs). eapply mact_ok; [apply IH; lia|lia|done].
Qed.

(** ** Calls without interference *)

Lemma mrun_ok l m m' :
  mmachine_ok m -> mrun l m = Some m' -> nclaimed m' < 2 ^ 62 -> mmachine_ok m' /\ nclaimed m <= nclaimed m'.
Proof.
  revert m. induction l as [|a l IH]; simpl; intros m Hm; [intros [= <-]; split; [done|lia]|].
  intros ([m1 e] & H1 & H2)%bind_Some Hb. simpl in H2.
  assert (Hle : nclaimed m1 <= nclaimed m').
  { clear IH Hm H1. revert m1 H2. induction l as [|b l IH]; simpl; intros m1; [intros [= <-]; lia|].
    intros ([m2 e2] & H1 & H2)%bind_Some. apply mact_claims in H1. apply IH in H2. lia. }
  pose proof (mact_claims _ _ _ _ H1). assert (Hm1 : mmachine_ok m1) by (eapply mact_ok; [exact Hm|lia|exact H1]).
  destruct (IH m1 Hm1 H2 Hb). split; [done|lia].
Qed.

(** No call is in progress. *)
Definition quiet (r : MRing) (claims popped : list T) : MMachine := mkMMachine r ∅ KIdle claims popped.

(** The five steps of a push that meets no other thread. *)
Lemma solo_push m id x s :
  prods m !! id = None -> slots (mring m) !! slot_of (mtail (mring m)) = Some s ->
  diff (sequence s) (mtail (mring m)) = 0 ->
  mrun [MPush id x; MStep id false; MStep id false; MStep id false; MStep id false] m =
    Some (mkMMachine (claim_slot x (mtail (mring m)) (mring m)) (prods m) (mcons m) (claims m ++ [x]) (mpopped m)).
Proof.
  intros Hid Hs Hd. destruct m as [r pr mc cl po]. simpl in *. rewrite Hid. simpl.
  unfold set_prod, done_prod, mprod_step. simpl. rewrite lookup_insert_eq. simpl. rewrite Hs. simpl.
  rewrite Hd. simpl. rewrite lookup_insert_eq. simpl. rewrite Z.eqb_refl. simpl.
  rewrite lookup_insert_eq. simpl. rewrite lookup_insert_eq. simpl. unfold done_prod, claim_slot, set_slot. simpl. do 2 f_equal.
  apply map_eq. intros i. destruct (decide (i = id)) as [->|Hi].
  - by rewrite lookup_delete_eq.
  - by rewrite lookup_delete_ne, !lookup_insert_ne.
Qed.

Section quiet.
Context (r : MRing) (cl po : list T) (Hm : mmachine_ok (quiet r cl po)) (Hb : nclaimed (quiet r cl po) + 1 < 2 ^ 62).

Lemma quiet_push x :
  nclaimed (quiet r cl po) < npopped (quiet r cl po) + MSize ->
  exists r', mtry_push x r = Some (true, r') /\ mmachine_ok (quiet r' (cl ++ [x]) po).
Proof.
  intros Hroom. set (m := quiet r cl po) in *. pose proof (ok_tail m Hm) as Ht. change (mring m) with r in Ht.
  destruct (ok_free m Hm (nclaimed m) ltac:(lia)) as (s & Hs & Hq). rewrite <-Ht in Hs, Hq.
  assert (Hd : (diff (sequence s) (mtail r) =? 0) = true) by (apply Z.eqb_eq; unfold diff; rewrite Hq; lia).
  exists (claim_slot x (mtail r) r). split.
  - unfold mtry_push. simpl. unfold slot_at in Hs. change (mring m) with r in Hs. rewrite Hs. simpl.
    by rewrite Hd, Z.eqb_refl.
  - pose proof (solo_push m 0 x s) as Hrun. unfold slot_at in Hs. change (mring m) with r in *.
    specialize (Hrun eq_refl Hs (proj1 (Z.eqb_eq _ _) Hd)).
    apply (mrun_ok _ m _ Hm Hrun). unfold nclaimed in *. simpl in *. rewrite length_app. simpl. lia.
Qed.

Lemma quiet_full x :
  nclaimed (quiet r cl po) = npopped (quiet r cl po) + MSize -> mtry_push x r = Some (false, r).
Proof.
  intros Hfull. set (m := quiet r cl po) in *. pose proof (ok_tail m Hm) as Ht. change (mring m) with r in Ht.
  pose proof MSize_bounds. assert (H0 : 0 <= npopped m) by (unfold npopped; lia).
  assert (Hpub : published m (npopped m)).
  { destruct (ok_pending m Hm (npopped m) ltac:(lia)) as [?|[_ (id & y & [E|E])]]; done. }
  destruct Hpub as (s & Hs & Hq & _). unfold mtry_push. simpl.
  assert (Hs' : slots r !! slot_of (mtail r) = Some s).
  { rewrite Ht, Hfull, slot_of_lap. exact Hs. }
  destruct (diff_counters m Hm ltac:(lia) (mtail r) s Hs' ltac:(lia)) as [Hd _]. rewrite Hs'. simpl.
  rewrite Hd, Hq, Ht, Hfull. rewrite (proj2 (Z.eqb_neq _ _)) by lia. by rewrite (proj2 (Z.ltb_lt _ _)) by lia.
Qed.

Lemma quiet_pop x q :
  cl = po ++ x :: q -> exists r', mtry_pop r = Some (Some x, r') /\ mmachine_ok (quiet r' cl (po ++ [x])).
Proof.
  intros Hcl. set (m := quiet r cl po) in *. pose proof (ok_head m Hm) as Hh. change (mhead r = npopped m) in Hh.
  assert (Hlt : npopped m < nclaimed m).
  { unfold npopped, nclaimed. simpl. rewrite Hcl, length_app. simpl. lia. }
  assert (Hpub : published m (npopped m)).
  { destruct (ok_pending m Hm (npopped m) ltac:(lia)) as [?|[_ (id & y & [E|E])]]; done. }
  pose proof Hpub as (s & Hs & Hq & Hx). unfold claim_at, npopped in Hx. rewrite Nat2Z.id in Hx. simpl in Hx.
  rewrite Hcl, list_lookup_middle in Hx by done. injection Hx as Hx.
  destruct (oldest_reading m s Hm ltac:(lia) Hs) as [Hlow _].
  assert (Hd : (diff (sequence s) (wrap64 (npopped m + 1)) <? 0) = false).
  { apply Z.ltb_ge. rewrite Hq. unfold diff. rewrite (proj1 (small_counter (npopped m + 1) ltac:(unfold npopped in *; lia))). lia. }
  unfold slot_at in Hs. change (mring m) with r in Hs. rewrite <-Hh in Hs, Hd.
  eexists. split.
  - unfold mtry_pop. rewrite Hs. simpl. rewrite Hd, <-Hx. reflexivity.
  - eapply (mrun_ok [MPop; MConsStep; MConsStep; MConsStep; MConsStep] m _ Hm); [|unfold nclaimed in *; simpl in *; lia].
    cbn -[diff slot_of wrap64]. unfold mcons_step. cbn -[diff slot_of wrap64]. rewrite Hs. cbn -[diff slot_of wrap64].
    rewrite Hd. cbn -[diff slot_of wrap64]. rewrite Hs. cbn -[diff slot_of wrap64]. by rewrite <-Hx.
Qed.

Lemma quiet_empty : cl = po -> mtry_pop r = Some (None, r).
Proof.
  intros Hcl. set (m := quiet r cl po) in *. pose proof (ok_head m Hm) as Hh. change (mhead r = npopped m) in Hh.
  pose proof MSize_bounds. assert (Hn : nclaimed m = npopped m) by (unfold nclaimed, npopped; simpl; by rewrite Hcl).
  destruct (ok_free m Hm (npopped m) ltac:(lia)) as (s & Hs & Hq).
  assert (Hd : (diff (sequence s) (wrap64 (mhead r + 1)) <? 0) = true).
  { apply Z.ltb_lt. rewrite Hq, Hh. unfold npopped in *.
    rewrite (proj1 (small_counter (Z.of_nat (length (mpopped m)) + 1) ltac:(lia))). unfold diff.
    rewrite (proj2 (small_counter (Z.of_nat (length (mpopped m))) ltac:(lia))).
    rewrite (proj2 (small_counter (Z.of_nat (length (mpopped m)) + 1) ltac:(lia))). lia. }
  unfold mtry_pop. rewrite Hh in *. unfold slot_at in Hs. change (mring m) with r in Hs. rewrite Hs. simpl. by rewrite Hd.
Qed.
End quiet.

#[refine] Instance mpsc_queue : BoundedQueue MRing T :=
  {| q_push := mtry_push;
     q_pop := mtry_pop;
     q_size := mring_size;
     q_room := fun l => Z.of_nat (length l) <? MSize;
     q_holds := fun n r l => exists popped,
       mmachine_ok (quiet r (popped ++ l) popped) /\
       Z.of_nat (length (popped ++ l)) + Z.of_nat n + 1 < 2 ^ 62 |}.
Proof.
  - intros n' n r l Hn (po & Hm & Hb). exists po. split; [done|lia].
  - intros n r l x (po & Hm & Hb) Hroom. apply Z.ltb_lt in Hroom.
    destruct (quiet_push r (po ++ l) po Hm ltac:(unfold nclaimed; simpl; lia) x) as (r' & E & Hm').
    { unfold nclaimed, npopped. simpl. rewrite length_app. lia. }
    exists r'. split; [done|]. exists po. rewrite app_assoc. split; [done|].
    rewrite length_app. simpl. lia.
  - intros n r l x (po & Hm & Hb) Hroom. apply Z.ltb_ge in Hroom. exists r. split; [|by exists po].
    apply (quiet_full r (po ++ l) po Hm); [unfold nclaimed; simpl; lia|].
    pose proof (ok_window _ Hm) as Hw. unfold nclaimed, npopped in *. simpl in *. rewrite length_app in *. lia.
  - intros n r x l (po & Hm & Hb).
    destruct (quiet_pop r (po ++ x :: l) po Hm ltac:(unfold nclaimed; simpl; lia) x l eq_refl) as (r' & E & Hm').
    exists r'. split; [done|]. exists (po ++ [x]). by rewrite <-app_assoc.
  - intros n r (po & Hm & Hb). rewrite app_nil_r in *.
    apply (quiet_empty r po po Hm); [unfold nclaimed; simpl; lia|done].
  - intros n r l (po & Hm & Hb). pose proof (ok_window _ Hm) as Hw. pose proof MSize_bounds.
    unfold mring_size. pose proof (ok_tail _ Hm) as Ht. pose proof (ok_head _ Hm) as Hh. simpl in Ht, Hh.
    rewrite Ht, Hh. unfold nclaimed, npopped in *. simpl in *. rewrite length_app in *.
    rewrite wrap64_small; unfold in_u64, two64; lia.
Defined.

(** C8: in every interleaving of any number of producers and the consumer
    (with spurious compare-and-swap failures), as long as fewer than 2^62
    elements were pushed: the elements come out in the order in which their
    positions were claimed, at most [Size] positions are claimed and not
    reclaimed, no two producers own the same position, the position the
    consumer is reading is published (no producer is writing it), and between
    calls of [try_pop] the [size] is the number of claimed elements not yet
    popped. *)
Theorem mpsc_refines_fifo d m :
  rtc mmstep (new_mmachine d) m -> nclaimed m < 2 ^ 62 ->
  mpopped m `prefix_of` claims m /\
  0 <= nclaimed m - npopped m <= MSize /\
  (forall id id' pos, owns m id pos -> owns m id' pos -> id = id') /\
  (forall pos, mcons m = KReady pos -> (forall id, ~ owns m id pos) /\
     exists s, slot_at m pos = Some s /\ claims m !! length (mpopped m) = Some (data s)) /\
  (mcons m = KIdle -> mring_size (mring m) = nclaimed m - npopped m).
Proof.
  intros Hr Hb. pose proof (mreachable_ok d m Hr Hb) as Hm. pose proof (ok_window m Hm).
  pose proof MSize_bounds. split_and!; [..|intros id id' pos; by apply (ok_unique m Hm)| |].
  - rewrite (ok_order m Hm). apply prefix_take.
  - lia.
  - lia.
  - intros pos Hk'. pose proof (ok_cons m Hm) as Hc. unfold mcons_ok in Hc. rewrite Hk' in Hc.
    destruct Hc as (-> & Hlt & Hp). split.
    + intros id (_ & Hu & _)%(owned_ok m Hm). by eapply not_both.
    + destruct Hp as (s & Hs & _ & Hd). exists s. split; [done|].
      unfold claim_at, npopped in Hd. by rewrite Nat2Z.id in Hd.
  - intros Hk'. unfold mring_size. rewrite (ok_tail m Hm), (ok_head m Hm), Hk'.
    apply wrap64_small. unfold in_u64, two64. lia.
Qed.

(** what the results of the calls mean, in every interleaving: [try_push]
    answers false only when [Size] positions are claimed and not reclaimed;
    when it answers true its element is at its position and published;
    [try_pop] answers false only when every claimed element was popped or the
    oldest one is still being written by a producer; and it hands over the
    element of the oldest position. *)
Theorem mpsc_results d m a m' e :
  rtc mmstep (new_mmachine d) m -> nclaimed m < 2 ^ 62 -> mact a m = Some (m', e) ->
  match e with
  | MSilent => True
  | MPushFull => nclaimed m = npopped m + MSize
  | MPushOk => exists id x pos, prods m !! id = Some (MWritten x pos) /\ claim_at m pos = Some x /\ published m' pos
  | MPopGot x => claims m !! (length (mpopped m) - 1)%nat = Some x /\ last (mpopped m) = Some x
  | MPopEmpty => nclaimed m = npopped m \/ exists id, owns m id (npopped m)
  end.
Proof.
  intros Hr Hb Ha. pose proof (mreachable_ok d m Hr Hb) as Hm. pose proof MSize_bounds as HM.
  pose proof (ok_window m Hm) as Hw. assert (H0 : 0 <= npopped m) by (unfold npopped; lia).
  destruct a as [id x|id sp| |]; simpl in Ha.
  - destruct (prods m !! id); [done|]. by injection Ha as _ <-.
  - unfold mprod_step in Ha. destruct (prods m !! id) as [pc|] eqn:Hid; [|done].
    pose proof (ok_prods m Hm _ _ Hid) as Hpc. destruct pc as [x pos|x pos|x|x pos|x pos]; simpl in Ha.
    + fold (slot_at m pos) in Ha. destruct (slot_exists m Hm pos) as [s Hs]. rewrite Hs in Ha. simpl in Ha.
      destruct (diff_counters m Hm Hb pos s Hs) as [Hd _]; [simpl in Hpc; lia|]. rewrite Hd in Ha.
      destruct (Z.eqb_spec (sequence s - pos) 0); [by injection Ha as _ <-|].
      destruct (Z.ltb_spec (sequence s - pos) 0); injection Ha as _ <-; [|done].
      apply (loop_reading m Hm pos s Hpc Hs). lia.
    + case_match; by injection Ha as _ <-.
    + by injection Ha as _ <-.
    + by injection Ha as _ <-.
    + injection Ha as <- <-. exists id, x, pos. split_and!; [done|apply Hpc|].
      assert (Hown : owns m id pos) by (exists x; by right). pose proof (owned_ok m Hm id pos Hown) as (Hp & _ & _).
      destruct Hpc as (_ & Hc & _ & s & Hs & Hd).
      exists (s <| sequence := wrap64 (pos + 1) |>). split_and!; [|simpl; apply wrap64_small; unfold in_u64, two64; lia|].
      * change (slot_at (write m pos (fun s => s <| sequence := wrap64 (pos + 1) |>)) pos =
                Some (s <| sequence := wrap64 (pos + 1) |>)). by rewrite slot_at_same, Hs.
      * simpl. by rewrite Hd.
  - destruct (mcons m); try done. by injection Ha as _ <-.
  - unfold mcons_step in Ha. pose proof (ok_cons m Hm) as Hc. unfold mcons_ok in Hc.
    destruct (mcons m) as [|pos|pos|x pos|x pos] eqn:Hk'; [done|..].
    + fold (slot_at m pos) in Ha. destruct (slot_exists m Hm pos) as [s Hs]. rewrite Hs in Ha. simpl in Ha. subst pos.
      destruct (Z.ltb_spec (diff (sequence s) (wrap64 (npopped m + 1))) 0); injection Ha as _ <-; [|done].
      by apply (oldest_reading m s Hm Hb Hs).
    + fold (slot_at m pos) in Ha. destruct (slot_exists m Hm pos) as [s Hs]. rewrite Hs in Ha. by injection Ha as _ <-.
    + by injection Ha as _ <-.
    + injection Ha as _ <-. destruct Hc as (_ & Hl). split; [|done].
      rewrite last_lookup in Hl. replace (pred (length (mpopped m))) with (length (mpopped m) - 1)%nat in Hl by lia.
      pose proof (prefix_take (claims m) (length (mpopped m))) as Hpre. rewrite <-(ok_order m Hm) in Hpre.
      by eapply prefix_lookup_Some.
Qed.
End mpsc.

(** ** Witnesses *)

Lemma mrun_rtc {T} k l (m m' : @MMachine T) : mrun k l m = Some m' -> rtc (mmstep k) m m'.
Proof.
  revert m. induction l as [|a l IH]; simpl; intros m; [intros [= ->]; constructor|].
  intros ([m1 e] & H1 & H2)%bind_Some. eapply rtc_l; [by exists a, e|by apply IH].
Qed.

(** Two producers race for the first position; the loser claims the second
    and publishes first; the consumer has popped the first element. *)
Definition ex_trace : list MAct :=
  [MPush 0 7; MPush 1 8; MStep 0 false; MStep 1 false; MStep 0 false; MStep 1 false;
   MStep 1 true; MStep 1 false; MStep 1 false; MStep 1 false;
   MPop; MConsStep; MStep 0 false; MStep 0 false; MPop; MConsStep; MConsStep; MConsStep; MConsStep].

Definition ex_mid : @MMachine Z := default (new_mmachine 1 0) (mrun 1 (take 11 ex_trace) (new_mmachine 1 0)).

Definition ex_end : @MMachine Z := default (new_mmachine 1 0) (mrun 1 ex_trace (new_mmachine 1 0)).

Lemma ex_mid_reachable : rtc (mmstep 1) (new_mmachine 1 0) ex_mid.
Proof. apply (mrun_rtc 1 (take 11 ex_trace)). vm_compute. reflexivity. Qed.

Lemma ex_end_reachable : rtc (mmstep 1) (new_mmachine 1 0) ex_end.
Proof. apply (mrun_rtc 1 ex_trace). vm_compute. reflexivity. Qed.

Lemma mpsc_refines_fifo_witness :
  mpopped ex_end = [7] /\ claims ex_end = [7; 8] /\ mcons ex_end = KIdle /\ mring_size (mring ex_end) = 1.
Proof.
  split_and!; [vm_compute; reflexivity..|].
  pose proof (mpsc_refines_fifo 1 ltac:(lia) 0 ex_end ex_end_reachable ltac:(vm_compute; reflexivity)) as H.
  rewrite (proj2 (proj2 (proj2 (proj2 H)))) by (vm_compute; reflexivity). vm_compute. reflexivity.
Defined.

(** Element 8 is published at position 1, but position 0 is still being
    written: [try_pop] answers that the queue is empty. *)
Lemma mpsc_results_witness :
  exists m', mact 1 MConsStep ex_mid = Some (m', MPopEmpty) /\
    (nclaimed ex_mid = npopped ex_mid \/ exists id, owns ex_mid id (npopped ex_mid)).
Proof.
  eexists. split; [vm_compute; reflexivity|].
  eapply (mpsc_results 1 ltac:(lia) 0 ex_mid MConsStep _ MPopEmpty);
    [exact ex_mid_reachable|vm_compute; reflexivity|vm_compute; reflexivity].
Defined.
