(* ===== verification/ItchMessages.v ===== *)
(** * ITCH 5.0 messages (tests/replay/itch_replay.hpp,
    tests/replay/itch_replay.cpp)

    The big-endian readers and writers, and the builders of the synthetic
    messages.  A buffer is its bytes; reading past its end is undefined
    behaviour.  The readers invert the writers, and each builder puts every
    field where the handlers of [ItchReplay] look for it. *)

From Stdlib Require Import ZArith Lia Ascii.
From S2P Require Import Prelude Str.

(** ** Big-endian numbers *)

(** The bytes of a number, most significant first, ORed together. *)
Fixpoint be_value (l : list Z) : Z :=
  match l with
  | [] => 0
  | b :: l' => Z.lor (Z.shiftl b (8 * Z.of_nat (length l'))) (be_value l')
  end.

(** [n] bytes of [buf] from position [p]. *)
Definition slice (p n : nat) (buf : bytes) : ub bytes :=
  if (p + n <=? length buf)%nat then Some (take n (drop p buf)) else None.

Definition read_be (n p : nat) (buf : bytes) : ub Z := (fun l => be_value (map byte_val l)) <$> slice p n buf.

Definition ru16 : nat -> bytes -> ub Z := read_be 2.
Definition ru32 : nat -> bytes -> ub Z := read_be 4.
Definition ru48 : nat -> bytes -> ub Z := read_be 6.
Definition ru64 : nat -> bytes -> ub Z := read_be 8.

(** [buf[p]] *)
Definition byte_at (p : nat) (buf : bytes) : ub ascii := buf !! p.

Definition is_space (c : ascii) : bool := bool_decide (c = " "%char).

Definition read_stock (p : nat) (buf : bytes) : ub bytes := rtrim is_space <$> slice p 8 buf.

(** [static_cast<uint8_t>(v >> 8k)] for each byte, most significant first. *)
Fixpoint be_bytes (n : nat) (v : Z) : bytes :=
  match n with
  | O => []
  | S n' => byte_of (Z.land (Z.shiftr v (8 * Z.of_nat n')) 255) :: be_bytes n' v
  end.

(** Bytes stored in a message from position [p], inside it. *)
Definition write_at (p : nat) (l : bytes) (msg : bytes) : bytes :=
  take p msg ++ l ++ drop (p + length l) msg.

Definition wu16 (p : nat) (v : Z) : bytes -> bytes := write_at p (be_bytes 2 v).
Definition wu32 (p : nat) (v : Z) : bytes -> bytes := write_at p (be_bytes 4 v).
Definition wu48 (p : nat) (v : Z) : bytes -> bytes := write_at p (be_bytes 6 v).
Definition wu64 (p : nat) (v : Z) : bytes -> bytes := write_at p (be_bytes 8 v).

(** ** Builders *)

(** [std::vector<uint8_t> msg(n, 0)] *)
Definition zeroed (n : nat) : bytes := replicate n (byte_of 0).

(** [stock] is a C string: what precedes its terminator. *)
Definition make_add_order (ref_num : Z) (side : ascii) (shares : Z) (stock : bytes) (price_raw timestamp_ns : Z) : bytes :=
  let msg := zeroed 36 in
  let msg := write_at 0 ["A"%char] msg in
  let msg := wu48 5 timestamp_ns msg in
  let msg := wu64 11 ref_num msg in
  let msg := write_at 19 [side] msg in
  let msg := wu32 20 shares msg in
  let msg := write_at 24 (replicate 8 " "%char) msg in
  let slen := Nat.min (length stock) 8 in
  let msg := write_at 24 (take slen stock) msg in
  wu32 32 price_raw msg.

Definition make_order_executed (ref_num executed_shares timestamp_ns : Z) : bytes :=
  let msg := zeroed 31 in
  let msg := write_at 0 ["E"%char] msg in
  let msg := wu48 5 timestamp_ns msg in
  let msg := wu64 11 ref_num msg in
  wu32 19 executed_shares msg.

Definition make_order_cancel (ref_num cancelled_shares timestamp_ns : Z) : bytes :=
  let msg := zeroed 23 in
  let msg := write_at 0 ["X"%char] msg in
  let msg := wu48 5 timestamp_ns msg in
  let msg := wu64 11 ref_num msg in
  wu32 19 cancelled_shares msg.

Definition make_order_delete (ref_num timestamp_ns : Z) : bytes :=
  let msg := zeroed 19 in
  let msg := write_at 0 ["D"%char] msg in
  let msg := wu48 5 timestamp_ns msg in
  wu64 11 ref_num msg.

Definition make_order_replace (old_ref_num new_ref_num new_shares new_price_raw timestamp_ns : Z) : bytes :=
  let msg := zeroed 35 in
  let msg := write_at 0 ["U"%char] msg in
  let msg := wu48 5 timestamp_ns msg in
  let msg := wu64 11 old_ref_num msg in
  let msg := wu64 19 new_ref_num msg in
  let msg := wu32 27 new_shares msg in
  wu32 31 new_price_raw msg.

(** ** Reading what was written *)

Lemma length_be_bytes n v : length (be_bytes n v) = n.
Proof. induction n as [|n IH]; [done|]. simpl. by rewrite IH. Qed.

(** The bytes of a number are the number, modulo what they can hold. *)
Lemma be_roundtrip n v : 0 <= v -> be_value (map byte_val (be_bytes n v)) = v mod 2 ^ (8 * Z.of_nat n).
Proof.
  intros Hv. induction n as [|n IH]; [by rewrite Z.mod_1_r|]. cbn [be_bytes map be_value].
  rewrite length_map, length_be_bytes, IH.
  assert (Hb : 0 <= Z.land (Z.shiftr v (8 * Z.of_nat n)) 255 < 256).
  { change 255 with (Z.ones 8). rewrite Z.land_ones by lia. apply Z.mod_pos_bound. lia. }
  rewrite byte_val_of by done. rewrite <-!Z.land_ones by lia. apply Z.bits_inj'. intros k Hk.
  rewrite Z.lor_spec, Z.shiftl_spec, !Z.land_spec by lia.
  rewrite (Z.testbit_ones_nonneg (8 * Z.of_nat n)), (Z.testbit_ones_nonneg (8 * Z.of_nat (S n))) by lia.
  destruct (Z.ltb_spec k (8 * Z.of_nat n)) as [Hlt|Hge].
  - rewrite (Z.testbit_neg_r 255) by lia. rewrite andb_false_r. rewrite (proj2 (Z.ltb_lt k (8 * Z.of_nat (S n)))) by lia. by rewrite orb_false_l.
  - rewrite Z.shiftr_spec by lia. change 255 with (Z.ones 8). rewrite (Z.testbit_ones_nonneg 8) by lia.
    replace (k - 8 * Z.of_nat n + 8 * Z.of_nat n) with k by lia. rewrite andb_false_r, orb_false_r. f_equal.
    destruct (Z.ltb_spec (k - 8 * Z.of_nat n) 8), (Z.ltb_spec k (8 * Z.of_nat (S n))); (done || lia).
Qed.

(** ** The fields of the messages *)

Lemma read_be_slice n p v buf :
  slice p n buf = Some (be_bytes n v) -> 0 <= v < 2 ^ (8 * Z.of_nat n) -> read_be n p buf = Some v.
Proof.
  intros Hs Hv. unfold read_be. rewrite Hs. cbn [fmap option_fmap option_map]. rewrite be_roundtrip by lia.
  by rewrite Z.mod_small by done.
Qed.

(** A symbol as it is read back: its first eight bytes, trailing blanks
    removed. *)
Definition stock_symbol (stock : bytes) : bytes := rtrim is_space (take 8 stock).

(** The eight bytes of the message that hold it. *)
Definition padded (stock : bytes) : bytes := take 8 stock ++ replicate (8 - length (take 8 stock)) " "%char.

Lemma write_padded p stock msg :
  (p + 8 <= length msg)%nat ->
  write_at p (take (Nat.min (length stock) 8) stock) (write_at p (replicate 8 " "%char) msg) = write_at p (padded stock) msg.
Proof.
  intros Hp. replace (take (Nat.min (length stock) 8) stock) with (take 8 stock).
  2: { destruct (decide (length stock <= 8)%nat); [rewrite Nat.min_l, !take_ge by lia; done|by rewrite Nat.min_r by lia]. }
  unfold padded. set (s := take 8 stock). assert (Hs : (length s <= 8)%nat) by (unfold s; rewrite length_take; lia).
  unfold write_at at 1. unfold write_at at 1. rewrite take_app_le by (rewrite length_take; lia).
  rewrite take_take, Nat.min_id. unfold write_at. rewrite <-!app_assoc. do 2 f_equal.
  rewrite drop_app_ge by (rewrite length_take; lia). rewrite length_take, Nat.min_l by lia.
  replace (p + length s - p)%nat with (length s) by lia.
  rewrite drop_app_le by (rewrite length_replicate; lia). rewrite drop_replicate. do 2 f_equal.
  rewrite length_app, !length_replicate. lia.
Qed.

Lemma length_padded stock : length (padded stock) = 8%nat.
Proof. unfold padded. rewrite length_app, length_replicate, length_take. lia. Qed.

Lemma rtrim_stock stock : rtrim is_space (padded stock) = stock_symbol stock.
Proof. apply rtrim_app_trailing. by apply Forall_replicate. Qed.

(** An add message is as long as the handler expects, and holds its fields. *)
Lemma add_order_fields ref_num side shares stock price_raw ts :
  0 <= ref_num < 2 ^ 64 -> 0 <= shares < 2 ^ 32 -> 0 <= price_raw < 2 ^ 32 -> 0 <= ts < 2 ^ 48 ->
  let buf := make_add_order ref_num side shares stock price_raw ts in
  length buf = 36%nat /\ byte_at 0 buf = Some "A"%char /\ ru48 5 buf = Some ts /\ ru64 11 buf = Some ref_num /\
  byte_at 19 buf = Some side /\ ru32 20 buf = Some shares /\ read_stock 24 buf = Some (stock_symbol stock) /\
  ru32 32 buf = Some price_raw.
Proof.
  intros Hr Hs Hp Ht buf. unfold buf, make_add_order. cbv zeta. rewrite write_padded by (cbn; lia).
  rewrite <-rtrim_stock. pose proof (length_padded stock) as Hl.
  destruct (padded stock) as [|c1 [|c2 [|c3 [|c4 [|c5 [|c6 [|c7 [|c8 [|]]]]]]]]]; try done.
  split_and!; try reflexivity; by apply read_be_slice.
Qed.

Lemma reduce_fields ref_num n ts :
  0 <= ref_num < 2 ^ 64 -> 0 <= n < 2 ^ 32 -> 0 <= ts < 2 ^ 48 ->
  (let buf := make_order_executed ref_num n ts in
   length buf = 31%nat /\ byte_at 0 buf = Some "E"%char /\ ru48 5 buf = Some ts /\ ru64 11 buf = Some ref_num /\ ru32 19 buf = Some n) /\
  (let buf := make_order_cancel ref_num n ts in
   length buf = 23%nat /\ byte_at 0 buf = Some "X"%char /\ ru48 5 buf = Some ts /\ ru64 11 buf = Some ref_num /\ ru32 19 buf = Some n).
Proof. intros. cbv zeta. split; (split_and!; try reflexivity; by apply read_be_slice). Qed.

Lemma delete_fields ref_num ts :
  0 <= ref_num < 2 ^ 64 -> 0 <= ts < 2 ^ 48 ->
  let buf := make_order_delete ref_num ts in
  length buf = 19%nat /\ byte_at 0 buf = Some "D"%char /\ ru48 5 buf = Some ts /\ ru64 11 buf = Some ref_num.
Proof. intros. cbv zeta. split_and!; try reflexivity; by apply read_be_slice. Qed.

Lemma replace_fields old_ref new_ref shares price_raw ts :
  0 <= old_ref < 2 ^ 64 -> 0 <= new_ref < 2 ^ 64 -> 0 <= shares < 2 ^ 32 -> 0 <= price_raw < 2 ^ 32 -> 0 <= ts < 2 ^ 48 ->
  let buf := make_order_replace old_ref new_ref shares price_raw ts in
  length buf = 35%nat /\ byte_at 0 buf = Some "U"%char /\ ru48 5 buf = Some ts /\ ru64 11 buf = Some old_ref /\
  ru64 19 buf = Some new_ref /\ ru32 27 buf = Some shares /\ ru32 31 buf = Some price_raw.
Proof. intros. cbv zeta. split_and!; try reflexivity; by apply read_be_slice. Qed.
