(* ===== verification/ItchReplay.v ===== *)
(** * ITCH replay (tests/replay/itch_replay.hpp,
    tests/replay/itch_replay.cpp)

    [ITCHReplay] turns the order-by-order ITCH feed into price levels: it keeps
    the live orders and, per stock and side, the shares and the number of
    orders at each price, and calls back with every level that changes.  The
    regression tests (tests/replay/order_book_test.cpp, [ReplayTests]) feed
    those calls to an [OrderBook].

    An exception ([std::map::at]) is [Throw]; overflow of an order count is
    [Undef].  The theorem: on a feed in which order numbers are not reused and
    orders have shares, nothing throws, the levels are the sums over the live
    orders, and so is every book fed with the callbacks. *)

From Stdlib Require Import ZArith Lia Ascii SpecFloat.
From S2P Require Import Prelude Float64 IntDouble Stod SortedMap Str OrderBook ItchMessages.

(** ** State *)

Inductive L2Type := L2Set | L2Delete.

Record L2Event := mkL2Event {
  ev_type : L2Type;
  ev_side : Side;
  ev_price : double;
  ev_quantity : double;
  ev_order_count : Z;
  ev_stock : bytes;
  ev_timestamp_ns : Z;
}.

Record Order := mkOrder {
  ref_num : Z;
  side : ascii;
  remaining : Z;
  o_price : double;
  stock : bytes;
}.
#[export] Instance Order_settable : Settable Order :=
  fun o => mkOrder (ref_num o) (side o) (remaining o) (o_price o) (stock o).

Record LevelInfo := mkLevelInfo { qty : double; count : Z }.
Definition no_level : LevelInfo := mkLevelInfo dzero 0.

Abbreviation level_map := (list (double * LevelInfo)).

Record BookSides := mkBookSides { bids : level_map; asks : level_map }.

Record ITCHReplay := mkITCHReplay {
  orders_ : gmap Z Order;
  l2_ : gmap bytes BookSides;
  callback_ : bool;            (* a callback is set *)
  calls : list L2Event;        (* what it has been called with *)
  filter_ : bytes;
  add_count_ : Z;
  execute_count_ : Z;
  cancel_count_ : Z;
  delete_count_ : Z;
  replace_count_ : Z;
}.
#[export] Instance ITCHReplay_settable : Settable ITCHReplay :=
  fun r => mkITCHReplay (orders_ r) (l2_ r) (callback_ r) (calls r) (filter_ r) (add_count_ r) (execute_count_ r)
    (cancel_count_ r) (delete_count_ r) (replace_count_ r).

Definition new_replay (filter : bytes) : ITCHReplay := mkITCHReplay ∅ ∅ true [] filter 0 0 0 0 0.

Definition total_messages (r : ITCHReplay) : Z :=
  wrap64 (add_count_ r + execute_count_ r + cancel_count_ r + delete_count_ r + replace_count_ r).

(** ** Levels *)

(** [(o.side == 'B') ? Bid : Ask] *)
Definition side_of_char (c : ascii) : Side := if bool_decide (c = "B"%char) then Bid else Ask.

Definition side_map (s : Side) (b : BookSides) : level_map := match s with Bid => bids b | Ask => asks b end.
Definition set_side (s : Side) (m : level_map) (b : BookSides) : BookSides :=
  match s with Bid => mkBookSides m (asks b) | Ask => mkBookSides (bids b) m end.

(** [l2_[stock]] *)
Definition sides_of (st : bytes) (r : ITCHReplay) : BookSides := default (mkBookSides [] []) (l2_ r !! st).

Definition stored_level (st : bytes) (s : Side) (p : double) (r : ITCHReplay) : option LevelInfo :=
  sm_find (before s) p (side_map s (sides_of st r)).

(** [sides.bids[price]] and [sides.asks[price]], assigned. *)
Definition put_level (st : bytes) (s : Side) (p : double) (i : LevelInfo) (r : ITCHReplay) : ITCHReplay :=
  let b := sides_of st r in
  r <| l2_ := <[st := set_side s (sm_assign (before s) p i (side_map s b)) b]> (l2_ r) |>.

Definition erase_level (st : bytes) (s : Side) (p : double) (r : ITCHReplay) : ITCHReplay :=
  let b := sides_of st r in
  r <| l2_ := <[st := set_side s (sm_erase (before s) p (side_map s b)) b]> (l2_ r) |>.

(** [emit] *)
Definition emit (ev : L2Event) (r : ITCHReplay) : ITCHReplay :=
  if callback_ r then r <| calls := calls r ++ [ev] |> else r.

(** The event of a level that is still there: [at] throws when it is not. *)
Definition emit_set (o : Order) (ts : Z) (r : ITCHReplay) : res ITCHReplay :=
  let s := side_of_char (side o) in
  info ← or_throw (stored_level (stock o) s (o_price o) r);
  Ret (emit (mkL2Event L2Set s (o_price o) (qty info) (count info) (stock o) ts) r).

Definition emit_delete (o : Order) (ts : Z) (r : ITCHReplay) : ITCHReplay :=
  emit (mkL2Event L2Delete (side_of_char (side o)) (o_price o) dzero 0 (stock o) ts) r.

(** Undefined behaviour as an outcome that may also be an exception. *)
Definition or_undef {A} (o : ub A) : res A := match o with Some a => Ret a | None => Undef end.

(** The filter lets the orders of its stock through, and all when it is empty. *)
Definition passes (r : ITCHReplay) (st : bytes) : bool :=
  bool_decide (filter_ r = []) || bool_decide (st = filter_ r).

(** ** Orders *)

(** [handle_add_order] once the message is read. *)
Definition add_order (o : Order) (ts : Z) (r : ITCHReplay) : res ITCHReplay :=
  if negb (passes r (stock o)) then Ret r
  else
    let s := side_of_char (side o) in
    let r := r <| orders_ := <[ref_num o := o]> (orders_ r) |> in
    let info := default no_level (stored_level (stock o) s (o_price o) r) in
    n ← or_undef (ub_int (count info + 1));
    let r := put_level (stock o) s (o_price o) (mkLevelInfo (dadd (qty info) (dZ (remaining o))) n) r in
    r ← emit_set o ts r;
    Ret (r <| add_count_ := wrap64 (add_count_ r + 1) |>).

Definition erase_order (ref : Z) (r : ITCHReplay) : ITCHReplay := r <| orders_ := delete ref (orders_ r) |>.

Definition remove_order (ref : Z) (ts : Z) (r : ITCHReplay) : res ITCHReplay :=
  match orders_ r !! ref with
  | None => Ret r
  | Some o =>
      if negb (passes r (stock o)) then Ret (erase_order ref r)
      else
        let s := side_of_char (side o) in
        '(level_gone, r) ←
          match stored_level (stock o) s (o_price o) r with
          | None => Ret (false, r)
          | Some info =>
              n ← or_undef (ub_int (count info - 1));
              let q := dsub (qty info) (dZ (remaining o)) in
              if (n <=? 0) || dle q dzero then Ret (true, erase_level (stock o) s (o_price o) r)
              else Ret (false, put_level (stock o) s (o_price o) (mkLevelInfo q n) r)
          end;
        r ← (if level_gone : bool then Ret (emit_delete o ts r) else emit_set o ts r);
        Ret (erase_order ref r)
  end.

Definition reduce_order (ref by_shares ts : Z) (r : ITCHReplay) : res ITCHReplay :=
  match orders_ r !! ref with
  | None => Ret r
  | Some o =>
      if negb (passes r (stock o)) then Ret r
      else if remaining o <=? by_shares then remove_order ref ts r
      else
        let s := side_of_char (side o) in
        let o := o <| remaining := wrap32 (remaining o - by_shares) |> in
        let r := r <| orders_ := <[ref := o]> (orders_ r) |> in
        let info := default no_level (stored_level (stock o) s (o_price o) r) in
        let r := put_level (stock o) s (o_price o) (mkLevelInfo (dsub (qty info) (dZ by_shares)) (count info)) r in
        emit_set o ts r
  end.

(** ** Handlers *)

(** [static_cast<double>(raw) / 10'000.0] *)
Definition dollars (price_raw : Z) : double := ddiv (dZ price_raw) (dZ 10000).

Definition handle_add_order (buf : bytes) (ts : Z) (r : ITCHReplay) : res ITCHReplay :=
  if (length buf <? 36)%nat then Ret r
  else
    ref ← or_undef (ru64 11 buf);
    sd ← or_undef (byte_at 19 buf);
    shares ← or_undef (ru32 20 buf);
    st ← or_undef (read_stock 24 buf);
    raw ← or_undef (ru32 32 buf);
    add_order (mkOrder ref sd shares (dollars raw) st) ts r.

Definition handle_order_executed (buf : bytes) (ts : Z) (r : ITCHReplay) : res ITCHReplay :=
  if (length buf <? 31)%nat then Ret r
  else
    ref ← or_undef (ru64 11 buf);
    exec_shares ← or_undef (ru32 19 buf);
    r ← reduce_order ref exec_shares ts r;
    Ret (r <| execute_count_ := wrap64 (execute_count_ r + 1) |>).

Definition handle_order_cancel (buf : bytes) (ts : Z) (r : ITCHReplay) : res ITCHReplay :=
  if (length buf <? 23)%nat then Ret r
  else
    ref ← or_undef (ru64 11 buf);
    cancel_shares ← or_undef (ru32 19 buf);
    r ← reduce_order ref cancel_shares ts r;
    Ret (r <| cancel_count_ := wrap64 (cancel_count_ r + 1) |>).

Definition handle_order_delete (buf : bytes) (ts : Z) (r : ITCHReplay) : res ITCHReplay :=
  if (length buf <? 19)%nat then Ret r
  else
    ref ← or_undef (ru64 11 buf);
    r ← remove_order ref ts r;
    Ret (r <| delete_count_ := wrap64 (delete_count_ r + 1) |>).

(** The new order's fields are read and dropped. *)
Definition handle_order_replace (buf : bytes) (ts : Z) (r : ITCHReplay) : res ITCHReplay :=
  if (length buf <? 35)%nat then Ret r
  else
    old_ref ← or_undef (ru64 11 buf);
    _ ← or_undef (ru64 19 buf);
    _ ← or_undef (ru32 27 buf);
    _ ← or_undef (ru32 31 buf);
    r ← remove_order old_ref ts r;
    Ret (r <| replace_count_ := wrap64 (replace_count_ r + 1) |>).

Definition process_message (buf : bytes) (r : ITCHReplay) : res (bool * ITCHReplay) :=
  if (length buf =? 0)%nat then Ret (false, r)
  else
    ts ← (if (11 <=? length buf)%nat then or_undef (ru48 5 buf) else Ret 0);
    type ← or_undef (byte_at 0 buf);
    let handled (x : res ITCHReplay) : res (bool * ITCHReplay) := r ← x; Ret (true, r) in
    if bool_decide (type = "A"%char) || bool_decide (type = "F"%char) then handled (handle_add_order buf ts r)
    else if bool_decide (type = "E"%char) || bool_decide (type = "C"%char) then handled (handle_order_executed buf ts r)
    else if bool_decide (type = "X"%char) then handled (handle_order_cancel buf ts r)
    else if bool_decide (type = "D"%char) then handled (handle_order_delete buf ts r)
    else if bool_decide (type = "U"%char) then handled (handle_order_replace buf ts r)
    else Ret (false, r).

(** ** Files *)

(** The loop of [replay_file] on what is left of the file: [fuel] bounds the
    messages read. *)
Fixpoint replay_loop (fuel : nat) (file : bytes) (n : Z) (r : ITCHReplay) : res (Z * ITCHReplay) :=
  match fuel with
  | O => Undef
  | S fuel' =>
      match slice 0 2 file with
      | None => Ret (n, r)
      | Some len_buf =>
          let file := drop 2 file in
          msg_len ← or_undef (ru16 0 len_buf);
          if msg_len =? 0 then replay_loop fuel' file n r
          else
            match slice 0 (Z.to_nat msg_len) file with
            | None => Ret (n, r)
            | Some msg =>
                '(ok, r) ← process_message msg r;
                replay_loop fuel' (drop (Z.to_nat msg_len) file) (if ok : bool then wrap64 (n + 1) else n) r
            end
      end
  end.

(** [contents] is [None] when the file cannot be opened. *)
Definition replay_file (contents : option bytes) (r : ITCHReplay) : res (Z * ITCHReplay) :=
  file ← or_throw contents;
  replay_loop (S (length file)) file 0 r.

(** ** The order-by-order book *)

(** What one order message does to the live orders, by their numbers. *)
Inductive OrderMsg :=
  | Add (ref : Z) (sd : ascii) (shares : Z) (st : bytes) (price_raw : Z)
  | Execute (ref n : Z)
  | Cancel (ref n : Z)
  | Delete (ref : Z)
  | Replace (old_ref new_ref shares price_raw : Z).

Definition encode (x : OrderMsg * Z) : bytes :=
  let '(m, ts) := x in
  match m with
  | Add ref sd shares st raw => make_add_order ref sd shares st raw ts
  | Execute ref n => make_order_executed ref n ts
  | Cancel ref n => make_order_cancel ref n ts
  | Delete ref => make_order_delete ref ts
  | Replace old_ref new_ref shares raw => make_order_replace old_ref new_ref shares raw ts
  end.

Definition order_of (ref : Z) (sd : ascii) (shares : Z) (st : bytes) (raw : Z) : Order :=
  mkOrder ref sd shares (dollars raw) (stock_symbol st).

Definition reduced (ref n : Z) (live : gmap Z Order) : gmap Z Order :=
  match live !! ref with
  | None => live
  | Some o => if remaining o <=? n then delete ref live else <[ref := o <| remaining := remaining o - n |>]> live
  end.

Definition l3_step (filter : bytes) (live : gmap Z Order) (x : OrderMsg * Z) : gmap Z Order :=
  match fst x with
  | Add ref sd shares st raw =>
      if bool_decide (filter = []) || bool_decide (stock_symbol st = filter)
      then <[ref := order_of ref sd shares st raw]> live else live
  | Execute ref n | Cancel ref n => reduced ref n live
  | Delete ref => delete ref live
  | Replace old_ref _ _ _ => delete old_ref live
  end.

(** The fields fit their widths; a new order has shares, a number no live
    order has, and at most 2^21 orders are live before it. *)
Definition admissible (live : gmap Z Order) (x : OrderMsg * Z) : Prop :=
  0 <= snd x < 2 ^ 48 /\
  match fst x with
  | Add ref sd shares st raw =>
      0 <= ref < 2 ^ 64 /\ 0 < shares < 2 ^ 32 /\ 0 <= raw < 2 ^ 32 /\ live !! ref = None /\ Z.of_nat (size live) < 2 ^ 21
  | Execute ref n | Cancel ref n => 0 <= ref < 2 ^ 64 /\ 0 <= n < 2 ^ 32
  | Delete ref => 0 <= ref < 2 ^ 64
  | Replace old_ref new_ref shares raw =>
      0 <= old_ref < 2 ^ 64 /\ 0 <= new_ref < 2 ^ 64 /\ 0 <= shares < 2 ^ 32 /\ 0 <= raw < 2 ^ 32
  end.

Fixpoint session (filter : bytes) (live : gmap Z Order) (xs : list (OrderMsg * Z)) : Prop :=
  match xs with
  | [] => True
  | x :: xs' => admissible live x /\ session filter (l3_step filter live x) xs'
  end.

(** The orders that rest at a price of a side of a stock, and what the price
    level should say of them. *)
Definition at_level (st : bytes) (s : Side) (p : double) (o : Order) : Prop :=
  stock o = st /\ side_of_char (side o) = s /\ deq p (o_price o) = true.
#[export] Instance at_level_dec st s p o : Decision (at_level st s p o).
Proof. unfold at_level. apply _. Defined.

Definition resting (st : bytes) (s : Side) (p : double) (live : gmap Z Order) : list Order :=
  filter (at_level st s p) (map snd (map_to_list live)).

Definition shares_of (os : list Order) : Z := foldr (fun o n => remaining o + n) 0 os.

Definition aggregate (os : list Order) : option LevelInfo :=
  match os with
  | [] => None
  | _ => Some (mkLevelInfo (dZ (shares_of os)) (Z.of_nat (length os)))
  end.

(** ** A book fed with the callbacks *)

(** The callback of the tests, and of the real-file mode, which keeps to one
    stock. *)
Definition wire (now : Z) (b : OrderBook) (ev : L2Event) : OrderBook :=
  match ev_type ev with
  | L2Set => set_level now (ev_side ev) (ev_price ev) (ev_quantity ev) (ev_order_count ev) b
  | L2Delete => delete_level now (ev_side ev) (ev_price ev) b
  end.

Definition book_of (now : Z) (st : bytes) (b0 : OrderBook) (evs : list L2Event) : OrderBook :=
  foldl (wire now) b0 (filter (fun ev => ev_stock ev = st) evs).

Definition info_of (l : PriceLevel) : LevelInfo := mkLevelInfo (lv_quantity l) (lv_order_count l).

(** ** Level maps *)

Definition levels_wf (r : ITCHReplay) : Prop := forall st s, sm_wf (before s) (side_map s (sides_of st r)).

(** The state with one level map replaced. *)
Definition with_side (st : bytes) (s : Side) (m : level_map) (r : ITCHReplay) : ITCHReplay :=
  r <| l2_ := <[st := set_side s m (sides_of st r)]> (l2_ r) |>.

Lemma side_with st st' s s' m r :
  side_map s (sides_of st (with_side st' s' m r)) =
    if bool_decide (st = st' /\ s = s') then m else side_map s (sides_of st r).
Proof.
  unfold with_side, sides_of. simpl. destruct (decide (st = st')) as [->|Hne].
  - rewrite lookup_insert_eq. simpl. by destruct s, s'; case_bool_decide; naive_solver.
  - rewrite lookup_insert_ne by done. by rewrite bool_decide_false by naive_solver.
Qed.

Lemma levels_wf_with st s m r : sm_wf (before s) m -> levels_wf r -> levels_wf (with_side st s m r).
Proof. intros Hm Hr st' s'. rewrite side_with. case_bool_decide as E; [by destruct E as [_ ->]|apply Hr]. Qed.

Lemma put_level_wf st s p i r : is_nan p = false -> levels_wf r -> levels_wf (put_level st s p i r).
Proof. intros Hp Hr. apply levels_wf_with; [|done]. by apply assign_wf; [apply _| |apply Hr]. Qed.

Lemma erase_level_wf st s p r : levels_wf r -> levels_wf (erase_level st s p r).
Proof. intros Hr. apply levels_wf_with; [|done]. by apply erase_wf. Qed.

Lemma stored_put st st' s s' p p' i r :
  is_nan p = false -> is_nan p' = false -> levels_wf r ->
  stored_level st s p (put_level st' s' p' i r) =
    if bool_decide (st = st' /\ s = s') && deq p p' then Some i else stored_level st s p r.
Proof.
  intros Hp Hp' Hr. unfold stored_level. change (put_level st' s' p' i r) with
    (with_side st' s' (sm_assign (before s') p' i (side_map s' (sides_of st' r))) r).
  rewrite side_with. case_bool_decide as E; [|done]. destruct E as [-> ->]. rewrite andb_true_l.
  rewrite find_assign by (done || apply _ || apply Hr). by rewrite same_key_deq.
Qed.

Lemma stored_erase st st' s s' p p' r :
  is_nan p = false -> is_nan p' = false -> levels_wf r ->
  stored_level st s p (erase_level st' s' p' r) =
    if bool_decide (st = st' /\ s = s') && deq p p' then None else stored_level st s p r.
Proof.
  intros Hp Hp' Hr. unfold stored_level. change (erase_level st' s' p' r) with
    (with_side st' s' (sm_erase (before s') p' (side_map s' (sides_of st' r))) r).
  rewrite side_with. case_bool_decide as E; [|done]. destruct E as [-> ->]. rewrite andb_true_l.
  rewrite find_erase by (done || apply _ || apply Hr). by rewrite same_key_deq.
Qed.

(** Equal prices find the same level. *)
Lemma stored_same st s p p' r :
  is_nan p = false -> is_nan p' = false -> levels_wf r -> deq p p' = true -> stored_level st s p r = stored_level st s p' r.
Proof. intros Hp Hp' Hr Hd. apply find_same; [apply _|done|done|apply Hr|]. by rewrite same_key_deq. Qed.

(** ** Books *)

(** Every book fed with the callbacks of one stock shows its levels. *)
Definition books_show (r : ITCHReplay) : Prop :=
  forall now st sym ex, let b := book_of now st (new_book sym ex) (calls r) in
    book_wf b /\ forall s p, is_nan p = false -> info_of <$> level_at s p b = stored_level st s p r.

Lemma book_of_emit now st b0 evs ev :
  book_of now st b0 (evs ++ [ev]) =
    if bool_decide (ev_stock ev = st) then wire now (book_of now st b0 evs) ev else book_of now st b0 evs.
Proof.
  unfold book_of. rewrite filter_app, filter_cons, filter_nil. case_bool_decide; [rewrite decide_True by done|rewrite decide_False by done].
  - by rewrite foldl_snoc.
  - by rewrite app_nil_r.
Qed.

(** A level replaced and announced. *)
Lemma books_show_put st s p i ts r :
  is_nan p = false -> callback_ r = true -> levels_wf r -> books_show r ->
  books_show (emit (mkL2Event L2Set s p (qty i) (count i) st ts) (put_level st s p i r)).
Proof.
  intros Hp Hcb Hw Hb now st' sym ex. destruct (Hb now st' sym ex) as [Wb Sb]. unfold emit. cbn [callback_ put_level set_field].
  rewrite Hcb. cbn [calls]. change (calls (put_level st s p i r)) with (calls r). rewrite book_of_emit. cbn [ev_stock].
  set (b := book_of now st' (new_book sym ex) (calls r)) in *. split.
  - case_bool_decide; [|done]. by apply put_wf.
  - intros s' p' Hp'. change (stored_level st' s' p' _) with (stored_level st' s' p' (put_level st s p i r)).
    rewrite stored_put by done. case_bool_decide as E.
    + subst st'. assert (El : level_at s' p' (wire now b (mkL2Event L2Set s p (qty i) (count i) st ts)) =
        level_at s' p' (put s p (mkPriceLevel p (qty i) (count i)) b)) by by destruct s'.
      rewrite El, level_at_put by done. case_bool_decide; [rewrite bool_decide_true by done|rewrite bool_decide_false by naive_solver];
        simpl; [|by apply Sb]. destruct (deq p' p); [by destruct i|by apply Sb].
    + rewrite bool_decide_false by naive_solver. by apply Sb.
Qed.

(** A level removed and announced. *)
Lemma books_show_erase st s p ts r :
  is_nan p = false -> callback_ r = true -> levels_wf r -> books_show r ->
  books_show (emit (mkL2Event L2Delete s p dzero 0 st ts) (erase_level st s p r)).
Proof.
  intros Hp Hcb Hw Hb now st' sym ex. destruct (Hb now st' sym ex) as [Wb Sb]. unfold emit. cbn [callback_ erase_level set_field].
  rewrite Hcb. cbn [calls]. change (calls (erase_level st s p r)) with (calls r). rewrite book_of_emit. cbn [ev_stock].
  set (b := book_of now st' (new_book sym ex) (calls r)) in *. split.
  - case_bool_decide; [|done]. by apply drop_level_wf.
  - intros s' p' Hp'. change (stored_level st' s' p' _) with (stored_level st' s' p' (erase_level st s p r)).
    rewrite stored_erase by done. case_bool_decide as E.
    + subst st'. assert (El : level_at s' p' (wire now b (mkL2Event L2Delete s p dzero 0 st ts)) =
        level_at s' p' (drop_level s p b)) by by destruct s'.
      rewrite El, level_at_drop by done. case_bool_decide; [rewrite bool_decide_true by done|rewrite bool_decide_false by naive_solver];
        simpl; [|by apply Sb]. destruct (deq p' p); [done|by apply Sb].
    + rewrite bool_decide_false by naive_solver. by apply Sb.
Qed.

(** ** Sums over the live orders *)

Lemma shares_perm os os' : os ≡ₚ os' -> shares_of os = shares_of os'.
Proof. induction 1; simpl; lia. Qed.

Lemma aggregate_perm os os' : os ≡ₚ os' -> aggregate os = aggregate os'.
Proof.
  intros H. unfold aggregate. destruct os as [|o os]; [by apply Permutation_nil in H as ->|].
  destruct os' as [|o' os']; [by apply Permutation_sym, Permutation_nil in H|]. by rewrite (shares_perm _ _ H), (Permutation_length H).
Qed.

#[export] Instance aggregate_proper : Proper ((≡ₚ) ==> (=)) aggregate.
Proof. intros ? ?. apply aggregate_perm. Qed.

Lemma aggregate_cons o os :
  aggregate (o :: os) = Some (mkLevelInfo (dZ (remaining o + shares_of os)) (Z.of_nat (length os) + 1)).
Proof. unfold aggregate. simpl shares_of. do 2 f_equal. simpl length. lia. Qed.

(** The orders resting at a level, with one order set apart. *)
Lemma resting_insert st s p ref o live :
  live !! ref = None ->
  resting st s p (<[ref := o]> live) ≡ₚ (if decide (at_level st s p o) then [o] else []) ++ resting st s p live.
Proof.
  intros H. unfold resting. rewrite map_to_list_insert by done. cbn [map snd]. rewrite filter_cons.
  by destruct (decide (at_level st s p o)).
Qed.

Lemma resting_delete st s p ref o live :
  live !! ref = Some o ->
  resting st s p live ≡ₚ (if decide (at_level st s p o) then [o] else []) ++ resting st s p (delete ref live).
Proof. intros H. rewrite <-resting_insert with (ref := ref) by apply lookup_delete_eq. by rewrite insert_delete_id. Qed.

Lemma resting_update st s p ref o live :
  resting st s p (<[ref := o]> live) ≡ₚ (if decide (at_level st s p o) then [o] else []) ++ resting st s p (delete ref live).
Proof. rewrite <-(insert_delete_eq live ref o). apply resting_insert, lookup_delete_eq. Qed.

(** Live orders are filed under their numbers, have shares, and are few. *)
Definition order_ok (ref : Z) (o : Order) : Prop :=
  ref_num o = ref /\ 0 < remaining o < 2 ^ 32 /\ is_nan (o_price o) = false.

Definition live_ok (live : gmap Z Order) : Prop :=
  map_Forall order_ok live /\ Z.of_nat (size live) <= 2 ^ 21.

Lemma resting_ok st s p live :
  map_Forall order_ok live -> Forall (fun o => 0 < remaining o < 2 ^ 32) (resting st s p live).
Proof.
  intros H. apply Forall_forall. intros o [_ ([ref o'] & -> & Hin%elem_of_map_to_list)%list_elem_of_fmap]%list_elem_of_filter.
  by destruct (H _ _ Hin) as (_ & ? & _).
Qed.

Lemma resting_length st s p live : (length (resting st s p live) <= size live)%nat.
Proof. unfold resting. rewrite length_filter. by rewrite length_map, length_map_to_list. Qed.

Lemma shares_bounds os :
  Forall (fun o => 0 < remaining o < 2 ^ 32) os ->
  Z.of_nat (length os) <= shares_of os <= Z.of_nat (length os) * (2 ^ 32 - 1).
Proof. induction 1 as [|o os Ho Hos IH]; [simpl; lia|]. cbn [shares_of foldr length] in *. fold (shares_of os). lia. Qed.

(** Sums of shares are exact, and counts are within [int]. *)
Lemma resting_bounds st s p live :
  live_ok live ->
  Z.of_nat (length (resting st s p live)) <= 2 ^ 21 /\
  Z.of_nat (length (resting st s p live)) <= shares_of (resting st s p live) <= 2 ^ 53 - 2 ^ 21.
Proof.
  intros [Ho Hs]. pose proof (resting_length st s p live). pose proof (shares_bounds _ (resting_ok st s p live Ho)). lia.
Qed.

(** ** The invariant *)

Definition levels_ok (r : ITCHReplay) : Prop :=
  forall st s p, is_nan p = false -> stored_level st s p r = aggregate (resting st s p (orders_ r)).

Definition replay_ok (r : ITCHReplay) : Prop :=
  live_ok (orders_ r) /\ map_Forall (fun _ o => passes r (stock o) = true) (orders_ r) /\
  callback_ r = true /\ levels_wf r /\ levels_ok r /\ books_show r.

Lemma deq_nan p x : is_nan x = true -> deq p x = false.
Proof. destruct x; try done. by destruct p. Qed.

(** Orders rest at a price, not at a representation of it. *)
Lemma resting_same st s p p' live :
  is_nan p = false -> is_nan p' = false -> deq p p' = true -> resting st s p live = resting st s p' live.
Proof.
  intros Hp Hp' Hd. unfold resting. apply list_filter_iff. intros o. unfold at_level.
  assert (E : deq p (o_price o) = deq p' (o_price o)); [|by rewrite E].
  destruct (is_nan (o_price o)) eqn:En; [by rewrite !deq_nan|].
  rewrite <-!(same_key_deq Ask) in * by done. apply same_key_spec in Hd as [H1 H2].
  unfold same_key. rewrite (before_same_l (before Ask) p p'), (before_same_r (before Ask) p p') by (done || by apply same_key_spec).
  done.
Qed.

Lemma aggregate_default os : default no_level (aggregate os) = mkLevelInfo (dZ (shares_of os)) (Z.of_nat (length os)).
Proof. by destruct os. Qed.

(** The level of an order after it is put, and every other level. *)
Lemma levels_after st s p (i : option LevelInfo) (o : Order) (os : list Order) r (live' : gmap Z Order) :
  levels_ok r -> is_nan (o_price o) = false -> is_nan p = false ->
  (forall p', is_nan p' = false -> deq p' (o_price o) = true ->
     resting (stock o) (side_of_char (side o)) p' live' ≡ₚ os) ->
  aggregate os = i ->
  (forall st' s' p', ~ at_level st' s' p' o -> resting st' s' p' live' ≡ₚ resting st' s' p' (orders_ r)) ->
  (if bool_decide (st = stock o /\ s = side_of_char (side o)) && deq p (o_price o) then i else stored_level st s p r)
  = aggregate (resting st s p live').
Proof.
  intros Hl Hn Hp Hos <- Hother. destruct (decide (at_level st s p o)) as [Ha|Ha].
  - destruct Ha as (<- & <- & Hd). rewrite bool_decide_true, Hd by done. by rewrite (Hos p Hp Hd).
  - rewrite (Hother _ _ _ Ha). destruct (bool_decide _ && _) eqn:E; [|by apply Hl].
    apply andb_true_iff in E as [[-> ->]%bool_decide_eq_true_1 Hd]. by destruct Ha.
Qed.

(** What [emit_set] announces is what was just put. *)
Lemma emit_set_put o i ts r :
  is_nan (o_price o) = false -> levels_wf r ->
  let s := side_of_char (side o) in
  let r' := put_level (stock o) s (o_price o) i r in
  emit_set o ts r' = Ret (emit (mkL2Event L2Set s (o_price o) (qty i) (count i) (stock o) ts) r').
Proof.
  intros Hn Hw s r'. unfold emit_set, r'. rewrite stored_put by done. rewrite bool_decide_true, deq_refl by done. done.
Qed.

Lemma emit_fields ev r :
  orders_ (emit ev r) = orders_ r /\ l2_ (emit ev r) = l2_ r /\ callback_ (emit ev r) = callback_ r /\ filter_ (emit ev r) = filter_ r.
Proof. unfold emit. destruct (callback_ r) eqn:E; simpl; by rewrite ?E. Qed.

(** A state like another as far as levels, orders and calls go. *)
Lemma replay_ok_same r r' :
  orders_ r' = orders_ r -> l2_ r' = l2_ r -> callback_ r' = callback_ r -> filter_ r' = filter_ r -> calls r' = calls r ->
  replay_ok r -> replay_ok r'.
Proof.
  destruct r, r'. cbn. intros -> -> -> -> -> H. exact H.
Qed.

(** The level of order [o] becomes [i], the live orders become [live'], and
    the new level is announced. *)
Lemma replay_ok_put o i ts r live' os :
  replay_ok r -> is_nan (o_price o) = false ->
  live_ok live' -> map_Forall (fun _ o => passes r (stock o) = true) live' ->
  (forall p', is_nan p' = false -> deq p' (o_price o) = true ->
     resting (stock o) (side_of_char (side o)) p' live' ≡ₚ os) ->
  aggregate os = Some i ->
  (forall st' s' p', ~ at_level st' s' p' o -> resting st' s' p' live' ≡ₚ resting st' s' p' (orders_ r)) ->
  let s := side_of_char (side o) in
  let r' := (emit (mkL2Event L2Set s (o_price o) (qty i) (count i) (stock o) ts)
               (put_level (stock o) s (o_price o) i r)) <| orders_ := live' |> in
  replay_ok r'.
Proof.
  intros (Hlive & Hpass & Hcb & Hw & Hl & Hb) Hn Hlive' Hpass' Hos Hag Hother s r'.
  destruct (emit_fields (mkL2Event L2Set s (o_price o) (qty i) (count i) (stock o) ts) (put_level (stock o) s (o_price o) i r))
    as (E1 & E2 & E3 & E4).
  split_and!.
  - exact Hlive'.
  - unfold r', passes. cbn [filter_ set_field]. rewrite E4. exact Hpass'.
  - unfold r'. simpl. by rewrite E3.
  - intros st' s'. unfold r', sides_of. simpl. rewrite E2. by apply put_level_wf.
  - intros st' s' p' Hp'. unfold r', stored_level, sides_of. simpl. rewrite E2.
    fold (sides_of st' (put_level (stock o) s (o_price o) i r)). fold (stored_level st' s' p' (put_level (stock o) s (o_price o) i r)).
    rewrite stored_put by done. by apply (levels_after st' s' p' (Some i) o os).
  - intros now st' sym ex. exact (books_show_put (stock o) s (o_price o) i ts r Hn Hcb Hw Hb now st' sym ex).
Qed.

Lemma replay_ok_erase o ts r live' :
  replay_ok r -> is_nan (o_price o) = false ->
  live_ok live' -> map_Forall (fun _ o => passes r (stock o) = true) live' ->
  (forall p', is_nan p' = false -> deq p' (o_price o) = true ->
     resting (stock o) (side_of_char (side o)) p' live' ≡ₚ []) ->
  (forall st' s' p', ~ at_level st' s' p' o -> resting st' s' p' live' ≡ₚ resting st' s' p' (orders_ r)) ->
  let s := side_of_char (side o) in
  replay_ok ((emit (mkL2Event L2Delete s (o_price o) dzero 0 (stock o) ts)
                (erase_level (stock o) s (o_price o) r)) <| orders_ := live' |>).
Proof.
  intros (Hlive & Hpass & Hcb & Hw & Hl & Hb) Hn Hlive' Hpass' Hos Hother s.
  destruct (emit_fields (mkL2Event L2Delete s (o_price o) dzero 0 (stock o) ts) (erase_level (stock o) s (o_price o) r))
    as (E1 & E2 & E3 & E4).
  split_and!.
  - exact Hlive'.
  - unfold passes. cbn [filter_ set_field]. rewrite E4. exact Hpass'.
  - simpl. by rewrite E3.
  - intros st' s'. unfold sides_of. simpl. rewrite E2. by apply erase_level_wf.
  - intros st' s' p' Hp'. unfold stored_level, sides_of. simpl. rewrite E2.
    fold (sides_of st' (erase_level (stock o) s (o_price o) r)). fold (stored_level st' s' p' (erase_level (stock o) s (o_price o) r)).
    rewrite stored_erase by done. by apply (levels_after st' s' p' None o []).
  - intros now st' sym ex. exact (books_show_erase (stock o) s (o_price o) ts r Hn Hcb Hw Hb now st' sym ex).
Qed.

(** ** The operations *)

(** What an operation leads to. *)
Definition leads (x : res ITCHReplay) (r : ITCHReplay) (live' : gmap Z Order) : Prop :=
  exists r', x = Ret r' /\ replay_ok r' /\ filter_ r' = filter_ r /\ orders_ r' = live'.

(** Fields of a state that differs from [r] by announcements and updates. *)
Ltac fields Hcb := unfold emit_delete, erase_order, emit, put_level, erase_level; simpl; rewrite ?Hcb; done.

Lemma exact_le n : 0 <= n <= 2 ^ 53 - 1 -> exact_int n.
Proof. unfold exact_int. lia. Qed.

Lemma at_own o : is_nan (o_price o) = false -> at_level (stock o) (side_of_char (side o)) (o_price o) o.
Proof. intros H. split_and!; [done..|by apply deq_refl]. Qed.

Lemma cons_bounds st s p live o os :
  live_ok live -> resting st s p live ≡ₚ o :: os ->
  Z.of_nat (length os) + 1 <= 2 ^ 21 /\ 0 < remaining o < 2 ^ 32 /\ Z.of_nat (length os) <= shares_of os /\
  remaining o + shares_of os <= 2 ^ 53 - 2 ^ 21.
Proof.
  intros Hl E. destruct (resting_bounds st s p live Hl) as [B1 B2]. pose proof (resting_ok st s p live (proj1 Hl)) as Ho.
  rewrite E in Ho. apply Forall_cons in Ho as [Ho Hos]. pose proof (shares_bounds os Hos) as B3.
  rewrite (shares_perm _ _ E), E in B2. rewrite E in B1. cbn [length shares_of foldr] in B1, B2. fold (shares_of os) in B2. lia.
Qed.

Lemma add_order_ok o ts r :
  replay_ok r -> orders_ r !! ref_num o = None -> 0 < remaining o < 2 ^ 32 -> is_nan (o_price o) = false ->
  Z.of_nat (size (orders_ r)) < 2 ^ 21 ->
  leads (add_order o ts r) r (if passes r (stock o) then <[ref_num o := o]> (orders_ r) else orders_ r).
Proof.
  intros Hr Hnew Hrem Hn Hsize. pose proof Hr as (Hlive & Hpass & Hcb & Hw & Hl & Hb).
  unfold add_order. destruct (passes r (stock o)) eqn:Hp; [|by exists r]. cbn [negb].
  set (s := side_of_char (side o)). set (live' := <[ref_num o := o]> (orders_ r)). set (os := resting (stock o) s (o_price o) (orders_ r)).
  change (stored_level (stock o) s (o_price o) (r <| orders_ := live' |>)) with (stored_level (stock o) s (o_price o) r).
  rewrite (Hl _ _ _ Hn). fold os. rewrite aggregate_default. cbn [qty count].
  assert (Hlive' : live_ok live').
  { split; [by apply map_Forall_insert_2; [|apply Hlive]|]. unfold live'. rewrite map_size_insert_None by done. lia. }
  assert (Hnew' : resting (stock o) s (o_price o) live' ≡ₚ o :: os).
  { unfold live', os. rewrite resting_insert by done. rewrite decide_True by (by apply at_own). done. }
  destruct (cons_bounds _ _ _ _ _ _ Hlive' Hnew') as (B1 & _ & B2 & B3).
  rewrite ub_int_some by (unfold INT_MIN, INT_MAX; lia). cbn [or_undef mbind res_bind].
  rewrite dadd_int by (apply exact_le; lia).
  set (i := mkLevelInfo (dZ (shares_of os + remaining o)) (Z.of_nat (length os) + 1)).
  rewrite (emit_set_put o i ts (r <| orders_ := live' |>)) by done. cbn [mbind res_bind].
  assert (Hag : aggregate (o :: os) = Some i) by (rewrite aggregate_cons; unfold i; do 3 f_equal; lia).
  assert (Hpass' : map_Forall (fun _ o => passes r (stock o) = true) live') by by apply map_Forall_insert_2.
  assert (Hos : forall p', is_nan p' = false -> deq p' (o_price o) = true -> resting (stock o) s p' live' ≡ₚ o :: os).
  { intros p' Hp' Hd. by rewrite (resting_same _ _ p' (o_price o)). }
  assert (Hother : forall st' s' p', ~ at_level st' s' p' o -> resting st' s' p' live' ≡ₚ resting st' s' p' (orders_ r)).
  { intros st' s' p' Ha. unfold live'. rewrite resting_insert by done. by rewrite decide_False. }
  eexists. split; [done|]. split; [|fields Hcb].
  pose proof (replay_ok_put o i ts r live' (o :: os) Hr Hn Hlive' Hpass' Hos Hag Hother) as Hok.
  eapply replay_ok_same; [..|exact Hok]; fields Hcb.
Qed.

Lemma live_ok_delete ref live : live_ok live -> live_ok (delete ref live).
Proof.
  intros [H Hs]. split; [by apply map_Forall_delete|]. rewrite map_size_delete.
  destruct (live !! ref); [|done]. pose proof (Nat.le_pred_l (size live)). lia.
Qed.

Lemma remove_order_ok ref ts r :
  replay_ok r -> leads (remove_order ref ts r) r (delete ref (orders_ r)).
Proof.
  intros Hr. pose proof Hr as (Hlive & Hpass & Hcb & Hw & Hl & Hb). unfold remove_order.
  destruct (orders_ r !! ref) as [o|] eqn:Ho; [|exists r; by rewrite delete_id].
  pose proof (proj1 Hlive _ _ Ho) as (_ & Hrem & Hn). pose proof (Hpass _ _ Ho) as Hp. cbv beta in Hp. rewrite Hp. cbn [negb].
  set (s := side_of_char (side o)). set (live' := delete ref (orders_ r)). set (os := resting (stock o) s (o_price o) live').
  assert (Hlive' : live_ok live') by by apply live_ok_delete.
  assert (Hpass' : map_Forall (fun _ o => passes r (stock o) = true) live') by by apply map_Forall_delete.
  assert (Hsplit : resting (stock o) s (o_price o) (orders_ r) ≡ₚ o :: os).
  { rewrite (resting_delete _ _ _ ref o) by done. rewrite decide_True by (by apply at_own). reflexivity. }
  assert (Hos : forall p', is_nan p' = false -> deq p' (o_price o) = true -> resting (stock o) s p' live' ≡ₚ os).
  { intros p' Hp' Hd. by rewrite (resting_same _ _ p' (o_price o)). }
  assert (Hother : forall st' s' p', ~ at_level st' s' p' o -> resting st' s' p' live' ≡ₚ resting st' s' p' (orders_ r)).
  { intros st' s' p' Ha. rewrite (resting_delete st' s' p' ref o (orders_ r)) by done. rewrite decide_False by done. reflexivity. }
  rewrite (Hl _ _ _ Hn), Hsplit, aggregate_cons. cbn [qty count].
  destruct (cons_bounds _ _ _ _ _ _ Hlive Hsplit) as (B1 & _ & B2 & B3).
  rewrite ub_int_some by (unfold INT_MIN, INT_MAX; lia). cbn [or_undef mbind res_bind].
  rewrite dsub_int by (apply exact_le; lia). rewrite dle_int_0 by (apply exact_le; lia).
  replace (Z.of_nat (length os) + 1 - 1) with (Z.of_nat (length os)) by lia.
  replace (remaining o + shares_of os - remaining o) with (shares_of os) by lia.
  destruct os as [|o' os'] eqn:Eos.
  - change (Z.of_nat (length []) <=? 0) with true. cbn [orb mbind res_bind].
    eexists. split; [done|]. split; [|fields Hcb].
    pose proof (replay_ok_erase o ts r live' Hr Hn Hlive' Hpass' Hos Hother) as Hok.
    eapply replay_ok_same; [..|exact Hok]; fields Hcb.
  - rewrite <-Eos in *. assert (Hlen : (1 <= length os)%nat) by (rewrite Eos; simpl; lia).
    rewrite (proj2 (Z.leb_gt _ _)) by lia. rewrite (proj2 (Z.leb_gt _ _)) by lia. cbn [orb mbind res_bind].
    set (i := mkLevelInfo (dZ (shares_of os)) (Z.of_nat (length os))).
    pose proof (emit_set_put o i ts r Hn Hw) as Eset. cbv zeta in Eset. fold s in Eset. rewrite Eset. cbn [mbind res_bind].
    eexists. split; [done|]. split; [|fields Hcb].
    assert (Hag : aggregate os = Some i) by (unfold i; by rewrite Eos).
    pose proof (replay_ok_put o i ts r live' os Hr Hn Hlive' Hpass' Hos Hag Hother) as Hok.
    eapply replay_ok_same; [..|exact Hok]; fields Hcb.
Qed.

Lemma reduce_order_ok ref n ts r :
  replay_ok r -> 0 <= n < 2 ^ 32 -> leads (reduce_order ref n ts r) r (reduced ref n (orders_ r)).
Proof.
  intros Hr Hnn. pose proof Hr as (Hlive & Hpass & Hcb & Hw & Hl & Hb). unfold reduce_order, reduced.
  destruct (orders_ r !! ref) as [o|] eqn:Ho; [|by exists r].
  pose proof (proj1 Hlive _ _ Ho) as (Href & Hrem & Hn). pose proof (Hpass _ _ Ho) as Hp. cbv beta in Hp. rewrite Hp. cbn [negb].
  destruct (Z.leb_spec (remaining o) n) as [Hle|Hlt]; [by apply remove_order_ok|].
  assert (Hwrap : wrap32 (remaining o - n) = remaining o - n) by (unfold wrap32; apply Z.mod_small; lia). rewrite Hwrap. cbv zeta.
  set (o' := o <| remaining := remaining o - n |>). set (live' := <[ref := o']> (orders_ r)).
  set (os := resting (stock o) (side_of_char (side o)) (o_price o) (delete ref (orders_ r))).
  assert (Hlive' : live_ok live').
  { split; [apply map_Forall_insert_2; [|apply Hlive]; split_and!; simpl; [done|lia..|done]|].
    unfold live'. rewrite map_size_insert, Ho. exact (proj2 Hlive). }
  assert (Hpass' : map_Forall (fun _ o => passes r (stock o) = true) live') by by apply map_Forall_insert_2.
  assert (Hold : resting (stock o) (side_of_char (side o)) (o_price o) (orders_ r) ≡ₚ o :: os).
  { rewrite (resting_delete _ _ _ ref o) by done. rewrite decide_True by (by apply at_own). reflexivity. }
  assert (Hos : forall p', is_nan p' = false -> deq p' (o_price o') = true ->
    resting (stock o') (side_of_char (side o')) p' live' ≡ₚ o' :: os).
  { intros p' Hp' Hd. change (o_price o') with (o_price o) in Hd. rewrite (resting_same _ _ p' (o_price o)) by done.
    unfold live'. rewrite resting_update, decide_True by (by apply (at_own o')). reflexivity. }
  assert (Hother : forall st' s' p', ~ at_level st' s' p' o' -> resting st' s' p' live' ≡ₚ resting st' s' p' (orders_ r)).
  { intros st' s' p' Ha. unfold live'. rewrite resting_update, (resting_delete st' s' p' ref o (orders_ r)) by done.
    rewrite !decide_False by done. reflexivity. }
  destruct (cons_bounds _ _ _ _ _ _ Hlive Hold) as (B1 & _ & B2 & B3).
  assert (Est : stored_level (stock o') (side_of_char (side o)) (o_price o') (r <| orders_ := live' |>) = aggregate (o :: os)).
  { transitivity (aggregate (resting (stock o) (side_of_char (side o)) (o_price o) (orders_ r))); [exact (Hl _ _ _ Hn)|by rewrite Hold]. }
  rewrite Est, aggregate_cons. cbn [default from_option id qty count].
  rewrite dsub_int by (apply exact_le; lia).
  set (i := mkLevelInfo (dZ (remaining o + shares_of os - n)) (Z.of_nat (length os) + 1)).
  assert (Hag : aggregate (o' :: os) = Some i) by (rewrite aggregate_cons; unfold i, o'; simpl; do 3 f_equal; lia).
  set (r1 := r <| orders_ := live' |>). pose proof (emit_set_put o' i ts r1 Hn Hw) as Eset.
  eexists. split; [exact Eset|]. split; [|fields Hcb].
  pose proof (replay_ok_put o' i ts r live' (o' :: os) Hr Hn Hlive' Hpass' Hos Hag Hother) as Hok.
  eapply replay_ok_same; [..|exact Hok]; fields Hcb.
Qed.

Lemma ddiv_finite_not_nan sx mx ex sy my ey : is_nan (ddiv (S754_finite sx mx ex) (S754_finite sy my ey)) = false.
Proof.
  unfold ddiv, SFdiv, SFdiv_core_binary. set (e' := Z.min _ _). set (m := match _ with Z0 => _ | Z.pos _ => _ | Z.neg _ => _ end).
  assert (Hm : 0 <= m) by (unfold m; destruct (ex - ey - e') eqn:E; [lia|apply Z.shiftl_nonneg; lia|lia]).
  pose proof (Z_div_pos m (Z.pos my) ltac:(lia) Hm) as Hq. unfold Z.div in Hq.
  destruct (Z.div_eucl m (Z.pos my)) as [q r]. by apply binary_round_aux_not_nan.
Qed.

(** A price read from a message is a number. *)
Lemma dollars_not_nan raw : 0 <= raw < 2 ^ 32 -> is_nan (dollars raw) = false.
Proof.
  intros H. unfold dollars. rewrite (dZ_int raw) by (unfold exact_int; lia).
  destruct raw as [|p|p]; [by vm_compute| |lia]. unfold int_double, whole. apply ddiv_finite_not_nan.
Qed.

(** ** Messages and sessions *)

(** A counter moves, nothing else. *)
Lemma leads_count (f : ITCHReplay -> ITCHReplay) x r live' :
  (forall r', orders_ (f r') = orders_ r' /\ l2_ (f r') = l2_ r' /\ callback_ (f r') = callback_ r' /\
     filter_ (f r') = filter_ r' /\ calls (f r') = calls r') ->
  leads x r live' -> leads (r' ← x; Ret (f r')) r live'.
Proof.
  intros Hf (r' & -> & Hok & Hfl & Hor). destruct (Hf r') as (E1 & E2 & E3 & E4 & E5). exists (f r'). split; [done|].
  split; [by eapply replay_ok_same|]. split; congruence.
Qed.

(** A message that was built is recognised, and does to the live orders what
    it says. *)
Lemma process_encoded x r :
  replay_ok r -> admissible (orders_ r) x ->
  exists r', process_message (encode x) r = Ret (true, r') /\ replay_ok r' /\ filter_ r' = filter_ r /\
    orders_ r' = l3_step (filter_ r) (orders_ r) x.
Proof.
  destruct x as [m ts]. intros Hr [Hts Hm]. cbn [fst snd] in *. unfold process_message, encode, l3_step. cbn [fst].
  assert (Hfin : forall x live', leads x r live' -> exists r', (r' ← x; Ret (true, r')) = Ret (true, r') /\
    replay_ok r' /\ filter_ r' = filter_ r /\ orders_ r' = live').
  { intros x live' (r' & -> & H). by exists r'. }
  destruct m as [ref sd shares st raw|ref n|ref n|ref|old_ref new_ref shares raw].
  - destruct Hm as (Href & Hsh & Hraw & Hnew & Hsize).
    destruct (add_order_fields ref sd shares st raw ts) as (El & Et & Es & E1 & E2 & E3 & E4 & E5); [done|lia|done..|].
    set (buf := make_add_order ref sd shares st raw ts) in *. clearbody buf. rewrite El, Es, Et. cbn -[handle_add_order]. apply Hfin. unfold handle_add_order. rewrite El, E1, E2, E3, E4, E5.
    apply (add_order_ok (order_of ref sd shares st raw)); try done. by apply dollars_not_nan.
  - destruct (reduce_fields ref n ts) as [(El & Et & Es & E1 & E2) _]; [by apply Hm..|done|].
    set (buf := make_order_executed ref n ts) in *. clearbody buf. rewrite El, Es, Et. cbn -[handle_order_executed]. apply Hfin. unfold handle_order_executed. rewrite El, E1, E2.
    apply (leads_count (fun r => r <| execute_count_ := wrap64 (execute_count_ r + 1) |>)); [done|]. by apply reduce_order_ok, Hm.
  - destruct (reduce_fields ref n ts) as [_ (El & Et & Es & E1 & E2)]; [by apply Hm..|done|].
    set (buf := make_order_cancel ref n ts) in *. clearbody buf. rewrite El, Es, Et. cbn -[handle_order_cancel]. apply Hfin. unfold handle_order_cancel. rewrite El, E1, E2.
    apply (leads_count (fun r => r <| cancel_count_ := wrap64 (cancel_count_ r + 1) |>)); [done|]. by apply reduce_order_ok, Hm.
  - destruct (delete_fields ref ts) as (El & Et & Es & E1); [done..|].
    set (buf := make_order_delete ref ts) in *. clearbody buf. rewrite El, Es, Et. cbn -[handle_order_delete]. apply Hfin. unfold handle_order_delete. rewrite El, E1.
    apply (leads_count (fun r => r <| delete_count_ := wrap64 (delete_count_ r + 1) |>)); [done|]. by apply remove_order_ok.
  - destruct Hm as (Ho & Hn & Hs & Hraw).
    destruct (replace_fields old_ref new_ref shares raw ts) as (El & Et & Es & E1 & E2 & E3 & E4); [done..|].
    set (buf := make_order_replace old_ref new_ref shares raw ts) in *. clearbody buf. rewrite El, Es, Et. cbn -[handle_order_replace]. apply Hfin. unfold handle_order_replace. rewrite El, E1, E2, E3, E4.
    apply (leads_count (fun r => r <| replace_count_ := wrap64 (replace_count_ r + 1) |>)); [done|]. by apply remove_order_ok.
Qed.

Lemma new_replay_ok filter : replay_ok (new_replay filter).
Proof.
  split_and!; [split; [apply map_Forall_empty|done]|apply map_Forall_empty|done|..].
  - intros st s. unfold sides_of. simpl. rewrite lookup_empty. destruct s; apply sm_wf_nil.
  - intros st s p _. unfold stored_level, sides_of, resting. simpl. rewrite lookup_empty, map_to_list_empty. by destruct s.
  - intros now st sym ex. split; [apply new_book_wf|]. intros s p _. unfold stored_level, sides_of. simpl.
    rewrite lookup_empty. by destruct s.
Qed.

(** A record of the file: the length of a message, then the message. *)
Definition frame (msg : bytes) : bytes := be_bytes 2 (Z.of_nat (length msg)) ++ msg.

Definition itch_file (xs : list (OrderMsg * Z)) : bytes := concat (map (fun x => frame (encode x)) xs).

Lemma encode_length x : (19 <= length (encode x) <= 36)%nat.
Proof.
  destruct x as [[ref sd shares st raw|ref n|ref n|ref|old_ref new_ref shares raw] ts]; [|simpl; lia..].
  assert (E : length (encode (Add ref sd shares st raw, ts)) = 36%nat); [|lia].
  unfold encode, make_add_order. cbv zeta. rewrite write_padded by (cbn; lia). pose proof (length_padded st) as Hl.
  by destruct (padded st) as [|c1 [|c2 [|c3 [|c4 [|c5 [|c6 [|c7 [|c8 [|]]]]]]]]].
Qed.

(** One turn of the loop, on a record. *)
Lemma replay_frame fuel msg rest n r :
  (0 < length msg < 256)%nat ->
  replay_loop (S fuel) (frame msg ++ rest) n r =
    ('(ok, r) ← process_message msg r; replay_loop fuel rest (if ok : bool then wrap64 (n + 1) else n) r).
Proof.
  intros Hl. unfold frame. set (len := Z.of_nat (length msg)). rewrite <-app_assoc. cbn [replay_loop].
  assert (Es : slice 0 2 (be_bytes 2 len ++ msg ++ rest) = Some (be_bytes 2 len)) by reflexivity.
  assert (Ed : drop 2 (be_bytes 2 len ++ msg ++ rest) = msg ++ rest) by reflexivity.
  assert (Er : ru16 0 (be_bytes 2 len) = Some len) by (apply read_be_slice; [done|unfold len; lia]).
  rewrite Es, Ed, Er. cbn [or_undef mbind res_bind]. rewrite (proj2 (Z.eqb_neq len 0)) by lia.
  unfold len. rewrite Nat2Z.id. unfold slice at 1. rewrite (proj2 (Nat.leb_le _ _)) by (rewrite length_app; lia).
  cbn [Nat.add]. rewrite drop_0, take_app_length, drop_app_length. done.
Qed.

Lemma replay_session xs fuel n r :
  replay_ok r -> session (filter_ r) (orders_ r) xs -> (length xs < fuel)%nat -> 0 <= n -> n + Z.of_nat (length xs) < 2 ^ 64 ->
  exists r', replay_loop fuel (itch_file xs) n r = Ret (n + Z.of_nat (length xs), r') /\ replay_ok r' /\
    orders_ r' = foldl (l3_step (filter_ r)) (orders_ r) xs.
Proof.
  revert fuel n r. induction xs as [|x xs IH]; intros [|fuel] n r Hr Hx Hf Hn Hb; [simpl in Hf; lia| |simpl in Hf; lia|].
  { exists r. rewrite Z.add_0_r. by split_and!. }
  destruct Hx as [Hadm Hx]. pose proof (encode_length x) as Hl. unfold itch_file. cbn [map concat].
  rewrite replay_frame by lia. destruct (process_encoded x r Hr Hadm) as (r1 & -> & Hok & Hfl & Hor).
  cbn [mbind res_bind]. rewrite <-Hor, <-Hfl in Hx. cbn [length] in *.
  rewrite wrap64_small by (unfold in_u64, two64; lia).
  destruct (IH fuel (n + 1) r1 Hok Hx) as (r' & E & Hok' & Hor'); [lia..|]. exists r'. fold (itch_file xs). rewrite E.
  split; [f_equal; f_equal; lia|]. split; [done|]. cbn [foldl]. by rewrite Hor', Hfl, Hor.
Qed.

Lemma itch_file_length xs : (length xs <= length (itch_file xs))%nat.
Proof.
  induction xs as [|x xs IH]; [done|]. unfold itch_file in *. cbn [map concat length]. rewrite length_app. unfold frame at 1.
  rewrite length_app, length_be_bytes. lia.
Qed.

(** C11: Replaying an ITCH file reconstructs the level 2 book.  For a file of
    add, execute, cancel, delete and replace records whose new orders have
    shares and numbers no live order has (at most 2^21 live at once), the
    replay reads every record and neither throws nor overflows; the orders it
    keeps are those of the order-by-order book; and at every stock, side and
    price the level holds the sum of the shares and the number of the orders
    resting there, the sums in doubles being exact, and is absent when there is
    none.  A book fed with the callbacks of one stock, as in the regression
    tests, is well formed and shows the same levels.  A replace removes its
    order and adds none: that is what the code does. *)
Theorem itch_replay_aggregates filter xs :
  session filter ∅ xs -> Z.of_nat (length xs) < 2 ^ 64 ->
  exists r, replay_file (Some (itch_file xs)) (new_replay filter) = Ret (Z.of_nat (length xs), r) /\
    orders_ r = foldl (l3_step filter) ∅ xs /\
    forall st s p, is_nan p = false ->
      stored_level st s p r = aggregate (resting st s p (orders_ r)) /\
      forall now sym ex, let b := book_of now st (new_book sym ex) (calls r) in
        book_wf b /\ info_of <$> level_at s p b = aggregate (resting st s p (orders_ r)).
Proof.
  intros Hx Hb. unfold replay_file. cbn [or_throw mbind res_bind]. pose proof (itch_file_length xs).
  destruct (replay_session xs (S (length (itch_file xs))) 0 (new_replay filter) (new_replay_ok filter) Hx) as (r & E & Hok & Hor);
    [lia..|].
  exists r. split; [exact E|]. split; [exact Hor|]. destruct Hok as (_ & _ & _ & _ & Hl & Hbk). intros st s p Hp.
  split; [by apply Hl|]. intros now sym ex. destruct (Hbk now st sym ex) as [W S]. split; [done|]. by rewrite S, Hl.
Qed.

(** ** Sessions *)

Definition aapl : bytes := $"AAPL    ".

(** Adds, an execution, a cancel, and a delete that empties a level. *)
Definition ex_session : list (OrderMsg * Z) :=
  [(Add 1 "B"%char 100 aapl 1500000, 10); (Add 2 "S"%char 200 aapl 1505000, 20); (Add 3 "B"%char 50 aapl 1500000, 30);
   (Execute 1 40, 40); (Cancel 2 100, 50); (Add 4 "S"%char 10 aapl 1510000, 60); (Delete 4, 70)].

Lemma ex_session_ok : session [] ∅ ex_session.
Proof. unfold ex_session. cbn [session]. split_and!; try done; by vm_compute. Qed.

Lemma itch_replay_aggregates_witness :
  exists r, replay_file (Some (itch_file ex_session)) (new_replay []) = Ret (7, r) /\
    stored_level $"AAPL" Bid (dZ 150) r = Some (mkLevelInfo (dZ 110) 2) /\
    level_at Bid (dZ 150) (book_of 0 $"AAPL" (new_book $"AAPL" $"ITCH") (calls r)) = Some (mkPriceLevel (dZ 150) (dZ 110) 2).
Proof.
  destruct (itch_replay_aggregates [] ex_session ex_session_ok ltac:(done)) as (r & E & Ho & H).
  exists r. split; [exact E|]. destruct (H $"AAPL" Bid (dZ 150) eq_refl) as [H1 _]. split.
  - rewrite H1, Ho. vm_compute. reflexivity.
  - assert (Er : replay_file (Some (itch_file ex_session)) (new_replay []) = Ret (7, r)) by exact E.
    clear -Er. vm_compute in Er. injection Er as <-. vm_compute. reflexivity.
Defined.

(** A replace takes the order out of the book and puts nothing in its place,
    though the feed has one at the new price. *)
Example replace_loses_the_order :
  (fun r => (size (orders_ r), stored_level $"AAPL" Bid (dZ 151) r, replace_count_ r)) <$>
    (snd <$> replay_file (Some (itch_file [(Add 1 "B"%char 100 aapl 1500000, 0); (Replace 1 2 100 1510000, 1)])) (new_replay []))
  = Ret (0%nat, None, 1).
Proof. vm_compute. reflexivity. Qed.

(** Orders without shares: deleting the first drops the level of both, and
    deleting the second throws. *)
Example empty_orders_throw :
  let xs := [(Add 1 "B"%char 0 aapl 1500000, 0); (Add 2 "B"%char 0 aapl 1500000, 0); (Delete 1, 1)] in
  (fun r => stored_level $"AAPL" Bid (dZ 150) (snd r)) <$> replay_file (Some (itch_file xs)) (new_replay []) = Ret None /\
  replay_file (Some (itch_file (xs ++ [(Delete 2, 2)]))) (new_replay []) = Throw.
Proof. split; vm_compute; reflexivity. Qed.

(** A number used again leaves the shares of the first order in its level. *)
Example reused_number_leaves_shares :
  (fun r => stored_level $"AAPL" Bid (dZ 150) (snd r)) <$>
    replay_file (Some (itch_file [(Add 1 "B"%char 100 aapl 1500000, 0); (Add 1 "B"%char 70 aapl 1510000, 1); (Delete 1, 2)])) (new_replay [])
  = Ret (Some (mkLevelInfo (dZ 100) 1)).
Proof. vm_compute. reflexivity. Qed.

(** A truncated add message is counted as processed and changes nothing; a
    truncated record ends the replay. *)
Example truncated_messages :
  let short := frame (take 20 (encode (Add 1 "B"%char 100 aapl 1500000, 0))) in
  replay_file (Some short) (new_replay []) = Ret (1, new_replay []) /\
  replay_file (Some (take 10 short)) (new_replay []) = Ret (0, new_replay []) /\
  replay_file None (new_replay []) = Throw.
Proof. split_and!; vm_compute; reflexivity. Qed.
