(* ===== verification/ReplayTests.v ===== *)
(** * The repository's regression tests (tests/replay/order_book_test.cpp)

    Each test function, as the list of the conditions it checks; the examples
    at the end evaluate them.  The tests read no clock that their conditions
    depend on: every reading is [t0]. *)

From Stdlib Require Import SpecFloat.
From S2P Require Import Prelude Float64 Types FixParser FixBuilder OrderBook ItchMessages ItchReplay.

(** [approx_eq] with its default tolerance, and with another. *)
Definition approx_eq_tol (a b tol : double) : bool := dlt (SFabs (dsub a b)) tol.
Definition approx_eq (a b : double) : bool := approx_eq_tol a b (dlit 1 1000000).

Definition t0 : Z := 1000.
Definition tm0 : tm := mktm 125 0 2 3 4 5.

(** [snap.bids[i]]: undefined past the end. *)
Definition level (l : list PriceLevel) (i : nat) (check : PriceLevel -> bool) : bool :=
  match l !! i with Some x => check x | None => false end.
Definition qty_is (l : list PriceLevel) (i : nat) (q : Z) : bool := level l i (fun x => approx_eq (lv_quantity x) (dZ q)).
Definition price_is (l : list PriceLevel) (i : nat) (p : double) : bool := level l i (fun x => approx_eq (lv_price x) p).
Definition count_is (l : list PriceLevel) (i : nat) (n : Z) : bool := level l i (fun x => lv_order_count x =? n).

(** The messages, one after the other. *)
Fixpoint process_all (msgs : list bytes) (r : ITCHReplay) : res ITCHReplay :=
  match msgs with
  | [] => Ret r
  | m :: msgs' => '(_, r) ← process_message m r; process_all msgs' r
  end.

Definition replayed (sym : bytes) (r : ITCHReplay) : OrderBook := foldl (wire t0) (new_book sym $"ITCH") (calls r).

(** ** Test 1: ITCH synthetic replay *)

Definition test_itch_synthetic : res (list bool) :=
  r ← process_all
        [make_add_order 1 "B"%char 100 $"AAPL    " 1500000 0; make_add_order 2 "S"%char 200 $"AAPL    " 1505000 0;
         make_add_order 3 "B"%char 50 $"AAPL    " 1495000 0; make_add_order 4 "S"%char 100 $"AAPL    " 1510000 0;
         make_order_executed 1 50 0; make_order_cancel 2 100 0] (new_replay []);
  let snap := get_snapshot (replayed $"AAPL" r) in
  let bids := sn_bids snap in let asks := sn_asks snap in
  Ret [bool_decide (snap_bid_depth snap = 2%nat); bool_decide (snap_ask_depth snap = 2%nat);
       approx_eq (snap_best_bid snap) (dZ 150); qty_is bids 0 50; count_is bids 0 1;
       price_is bids 1 (dlit 1495 10); qty_is bids 1 50;
       approx_eq (snap_best_ask snap) (dlit 1505 10); qty_is asks 0 100;
       price_is asks 1 (dZ 151); qty_is asks 1 100;
       approx_eq_tol (snap_spread_bps snap)
         (dmul (ddiv (dsub (dlit 1505 10) (dZ 150)) (dZ 150)) (dZ 10000)) (dlit 1 100);
       approx_eq (snap_mid_price snap) (ddiv (dadd (dZ 150) (dlit 1505 10)) (dZ 2))].

(** ** Test 2: ITCH order delete *)

Definition test_itch_order_delete : res (list bool) :=
  r1 ← process_all
         [make_add_order 10 "B"%char 300 $"MSFT    " 2000000 0; make_add_order 11 "B"%char 200 $"MSFT    " 2000000 0;
          make_add_order 12 "S"%char 100 $"MSFT    " 2005000 0] (new_replay []);
  r2 ← process_all [make_order_delete 10 0] r1;
  r3 ← process_all [make_order_delete 11 0] r2;
  let book r := replayed $"MSFT" r in
  let bids r := sn_bids (get_snapshot (book r)) in
  Ret [approx_eq (OrderBook.best_bid (book r1)) (dZ 200); qty_is (bids r1) 0 500; count_is (bids r1) 0 2;
       qty_is (bids r2) 0 200; count_is (bids r2) 0 1;
       bool_decide (bid_depth (book r3) = 0%nat); bool_decide (ask_depth (book r3) = 1%nat)].

(** ** Tests 3 to 5: FIX messages *)

Definition entry (type action : Z) (p : double) (q : Z) : MDEntry := mkMDEntry type action p (dZ q).
Definition bid0 (p : double) (q : Z) : MDEntry := entry MDEntryType_Bid 0 p q.
Definition ask0 (p : double) (q : Z) : MDEntry := entry MDEntryType_Ask 0 p q.

Definition test_fix_snapshot : ub (list bool) :=
  '(ok, msg) ← parse (build_snapshot $"BTCUSD"
     [bid0 (dlit 101250 1000) 500; bid0 (dZ 101) 1200; bid0 (dlit 100750 1000) 800;
      ask0 (dlit 101500 1000) 300; ask0 (dlit 101750 1000) 600; ask0 (dZ 102) 400] 1 true tm0 0);
  let book := apply_snapshot t0 msg (new_book $"BTCUSD" $"FIX") in
  let snap := get_snapshot book in
  Some [ok; bool_decide (msg_type msg = MarketDataSnapshot);
        bool_decide (snap_bid_depth snap = 3%nat); bool_decide (snap_ask_depth snap = 3%nat);
        approx_eq (snap_best_bid snap) (dlit 101250 1000); approx_eq (snap_best_ask snap) (dlit 101500 1000);
        qty_is (sn_bids snap) 0 500; qty_is (sn_bids snap) 1 1200; qty_is (sn_asks snap) 0 300;
        approx_eq (snap_mid_price snap) (ddiv (dadd (dlit 101250 1000) (dlit 101500 1000)) (dZ 2));
        snapshot_count_ book =? 1; update_count_ book =? 0].

Definition test_fix_incremental : ub (list bool) :=
  '(_, snap_msg) ← parse (build_snapshot $"BTCUSD" [bid0 (dlit 101250 1000) 500; ask0 (dlit 101500 1000) 300] 1 true tm0 0);
  let book := apply_snapshot t0 snap_msg (new_book $"BTCUSD" $"FIX") in
  '(ok, incr_msg) ← parse (build_incremental $"BTCUSD"
     [entry MDEntryType_Bid MDUpdateAction_Change (dlit 101250 1000) 750;
      entry MDEntryType_Ask MDUpdateAction_Delete (dlit 101500 1000) 0;
      entry MDEntryType_Ask MDUpdateAction_New (dlit 101600 1000) 450] 1 true tm0 0);
  let book := apply_update t0 incr_msg book in
  let snap := get_snapshot book in
  Some [ok; bool_decide (msg_type incr_msg = MarketDataIncremental);
        bool_decide (snap_bid_depth snap = 1%nat); bool_decide (snap_ask_depth snap = 1%nat);
        approx_eq (snap_best_bid snap) (dlit 101250 1000); qty_is (sn_bids snap) 0 750;
        approx_eq (snap_best_ask snap) (dlit 101600 1000); qty_is (sn_asks snap) 0 450;
        snapshot_count_ book =? 1; update_count_ book =? 1].

Definition test_snapshot_replaces : ub (list bool) :=
  '(_, msg1) ← parse (build_snapshot $"ETHUSDT" [bid0 (dZ 3000) 10; bid0 (dZ 2999) 20; ask0 (dZ 3001) 15] 1 true tm0 0);
  let book1 := apply_snapshot t0 msg1 (new_book $"ETHUSDT" $"FIX") in
  '(_, msg2) ← parse (build_snapshot $"ETHUSDT" [bid0 (dZ 3000) 5; ask0 (dlit 30015 10) 8] 1 true tm0 0);
  let book2 := apply_snapshot t0 msg2 book1 in
  Some [bool_decide (bid_depth book1 = 2%nat); bool_decide (bid_depth book2 = 1%nat);
        qty_is (sn_bids (get_snapshot book2)) 0 5].

(** ** Test 6: a real file *)

(** The callback keeps to the first stock it is called with; the report gives
    that stock's book. *)
Definition test_real_itch_file (contents : option bytes) : res (Z * option (bytes * OrderBook)) :=
  '(n, r) ← replay_file contents (new_replay []);
  Ret (n, (fun ev => (ev_stock ev, book_of t0 (ev_stock ev) (new_book [] $"ITCH") (calls r))) <$> head (calls r)).

(** ** Evaluation *)

Example replay_tests_pass :
  (forallb id <$> test_itch_synthetic) = Ret true /\ (forallb id <$> test_itch_order_delete) = Ret true.
Proof. split; vm_compute; reflexivity. Qed.

Example fix_tests_pass :
  (forallb id <$> test_fix_snapshot) = Some true /\ (forallb id <$> test_fix_incremental) = Some true /\
  (forallb id <$> test_snapshot_replaces) = Some true.
Proof. split_and!; vm_compute; reflexivity. Qed.

Example real_file_first_stock :
  ('(n, x) ← test_real_itch_file (Some (itch_file (ex_session ++ [(Add 9 "B"%char 5 $"MSFT" 100, 80)])));
   Ret (n, match x with Some (st, b) => Some (st, bid_depth b, ask_depth b) | None => None end))
  = Ret (8, Some ($"AAPL", 1%nat, 1%nat)).
Proof. vm_compute. reflexivity. Qed.
