(* ===== verification/Timing.v ===== *)
(** * Cycle counters (src/timing.hpp)

    Conversions of [TSCCalibrator] between time-stamp-counter cycles and
    nanoseconds, in 64-bit unsigned arithmetic.  Reading the counter and the
    clock is hardware: readings are arguments. *)

From Stdlib Require Import ZArith Lia.
From S2P Require Import Prelude.

Definition NS_PER_S : Z := 1000000000.

(** Division by a zero frequency is undefined. *)
Definition udiv (a b : Z) : ub Z := if b =? 0 then None else Some (a / b).

Definition cycles_to_ns (tsc_frequency cycles : Z) : ub Z := udiv (wrap64 (cycles * NS_PER_S)) tsc_frequency.
Definition ns_to_cycles (tsc_frequency ns : Z) : Z := wrap64 (ns * tsc_frequency) / NS_PER_S.

(** [calibrate], from the two counter readings and the signed duration of the
    sleep, which is converted to unsigned. *)
Definition calibrate (start_tsc end_tsc duration_ns : Z) : ub Z :=
  let tsc_elapsed := wrap64 (end_tsc - start_tsc) in
  udiv (wrap64 (tsc_elapsed * NS_PER_S)) (wrap64 duration_ns).

(** The destructor of [ScopedTimer]. *)
Definition scoped_ns (tsc_frequency start_tsc end_tsc : Z) : ub Z :=
  cycles_to_ns tsc_frequency (wrap64 (end_tsc - start_tsc)).

(** [measure_rdtsc_overhead], from its pairs of readings. *)
Definition measure_rdtsc_overhead (tsc_frequency : Z) (readings : list (Z * Z)) : ub Z :=
  let total := foldl (fun t '(s, e) => wrap64 (t + wrap64 (e - s))) 0 readings in
  cycles_to_ns tsc_frequency (total / Z.of_nat (length readings)).

(** a number of cycles whose nanosecond product fits 64 bits (about 6
    seconds at 3 GHz) converts to the exact floor, and converting back loses
    less than one nanosecond's worth of cycles. *)
Theorem tsc_roundtrip f c :
  0 < f < two64 -> 0 <= c -> c * NS_PER_S < two64 ->
  exists ns, cycles_to_ns f c = Some ns /\ ns = c * NS_PER_S / f /\
    c - f / NS_PER_S - 1 <= ns_to_cycles f ns <= c.
Proof.
  intros Hf Hc Hfit. exists (c * NS_PER_S / f). unfold cycles_to_ns, ns_to_cycles, udiv, NS_PER_S in *.
  rewrite (wrap64_small (c * _)) by (unfold in_u64; lia). rewrite (proj2 (Z.eqb_neq _ _)) by lia.
  split; [done|]. split; [done|]. set (ns := c * 1000000000 / f).
  pose proof (Z.div_mod (c * 1000000000) f ltac:(lia)) as Hd. pose proof (Z.mod_pos_bound (c * 1000000000) f ltac:(lia)) as Hm.
  fold ns in Hd. assert (0 <= ns) by (apply Z.div_pos; lia).
  rewrite wrap64_small by (unfold in_u64; nia).
  pose proof (Z.div_mod (ns * f) 1000000000 ltac:(lia)). pose proof (Z.mod_pos_bound (ns * f) 1000000000 ltac:(lia)).
  pose proof (Z.div_mod f 1000000000 ltac:(lia)). pose proof (Z.mod_pos_bound f 1000000000 ltac:(lia)).
  nia.
Qed.

Lemma tsc_roundtrip_witness : exists ns, cycles_to_ns 3000000000 7000 = Some ns /\ ns = 2333.
Proof.
  destruct (tsc_roundtrip 3000000000 7000 ltac:(unfold two64; lia) ltac:(lia) ltac:(unfold two64, NS_PER_S; lia))
    as (ns & H1 & H2 & _).
  exists ns. split; [done|]. rewrite H2. vm_compute. reflexivity.
Defined.

(** Beyond that the product wraps: at 3 GHz, a counter just over six seconds
    after reset reads as zero nanoseconds, as [now_ns] would return it. *)
Example now_ns_wraps : cycles_to_ns 3000000000 18446744074 = Some 0.
Proof. vm_compute. reflexivity. Qed.
