(* ===== verification/HdrHistogram.v ===== *)
(** * Latency histogram (src/hdr_histogram.hpp)

    [HDRHistogram]: linear buckets of width 10, at most 100000 of them, the
    last one collecting everything above.  The specification is the list of
    recorded values (clamped to [max_value_]): the counters, the extremes and
    the percentiles are stated of that list. *)

From Stdlib Require Import ZArith Lia Sorting.Sorted.
From S2P Require Import Prelude Float64.

Record HDRHistogram := mkHDR {
  max_value_ : Z;
  significant_figures_ : Z;
  unit_magnitude_ : Z;
  sub_bucket_count_ : Z;
  counts_ : list Z;
  total_count_ : Z;
  min_value_ : Z;
  max_value_recorded_ : Z;
}.
#[export] Instance HDR_settable : Settable HDRHistogram := fun h =>
  mkHDR (max_value_ h) (significant_figures_ h) (unit_magnitude_ h) (sub_bucket_count_ h) (counts_ h)
    (total_count_ h) (min_value_ h) (max_value_recorded_ h).

Definition calculate_bucket_count (max_value : Z) : Z :=
  Z.max (Z.min (max_value / 10) 100000) 1000.

(** The constructor.  [10 ^ significant_figures] is 0 for a negative exponent,
    as the truncation of [std::pow] is. *)
Definition new_hdr (max_value significant_figures : Z) : HDRHistogram :=
  {| max_value_ := max_value;
     significant_figures_ := significant_figures;
     unit_magnitude_ := wrap64 significant_figures;
     sub_bucket_count_ := 10 ^ significant_figures;
     counts_ := replicate (Z.to_nat (calculate_bucket_count max_value)) 0;
     total_count_ := 0;
     min_value_ := UINT64_MAX;
     max_value_recorded_ := 0 |}.

Definition value_to_index (h : HDRHistogram) (value : Z) : Z :=
  Z.min (value / 10) (Z.of_nat (length (counts_ h)) - 1).

Definition index_to_value (index : Z) : Z := wrap64 (index * 10 + 5).

Definition clamp (h : HDRHistogram) (value : Z) : Z :=
  if max_value_ h <? value then max_value_ h else value.

Definition record (h : HDRHistogram) (value : Z) : HDRHistogram :=
  let value := clamp h value in
  let index := value_to_index h value in
  if index <? Z.of_nat (length (counts_ h)) then
    h <| counts_ := alter (fun c => wrap64 (c + 1)) (Z.to_nat index) (counts_ h) |>
      <| total_count_ := wrap64 (total_count_ h + 1) |>
      <| min_value_ := if value <? min_value_ h then value else min_value_ h |>
      <| max_value_recorded_ := if max_value_recorded_ h <? value then value else max_value_recorded_ h |>
  else h.

(** The loop of [get_percentile] from bucket [i] on. *)
Fixpoint percentile_loop (target accumulated : Z) (i : Z) (counts : list Z) : option Z :=
  match counts with
  | [] => None
  | c :: counts =>
      let accumulated := wrap64 (accumulated + c) in
      if target <=? accumulated then Some (index_to_value i)
      else percentile_loop target accumulated (i + 1) counts
  end.

(** [static_cast<uint64_t>((percentile / 100.0) * total_count_ + 0.5)] *)
Definition target_count (percentile : double) (total : Z) : ub Z :=
  dtrunc (dadd (dmul (ddiv percentile (dZ 100)) (dZ total)) (dlit 1 2)).

Definition get_percentile (h : HDRHistogram) (percentile : double) : ub Z :=
  if total_count_ h =? 0 then Some 0
  else if dge percentile (dZ 100) then Some (max_value_recorded_ h)
  else if dle percentile dzero then Some (min_value_ h)
  else
    target ← target_count percentile (total_count_ h);
    Some (default (max_value_recorded_ h) (percentile_loop target 0 0 (counts_ h))).

Definition get_min (h : HDRHistogram) : Z := if min_value_ h =? UINT64_MAX then 0 else min_value_ h.
Definition get_max (h : HDRHistogram) : Z := max_value_recorded_ h.
Definition get_total_count (h : HDRHistogram) : Z := total_count_ h.

(** The loop over the non-empty buckets, by index. *)
Definition fold_buckets {A} (f : A -> Z -> Z -> A) (a : A) (counts : list Z) : A :=
  foldl (fun a '(i, c) => if 0 <? c then f a (Z.of_nat i) c else a) a (imap (fun i c => (i, c)) counts).

Definition bucket_sum (counts : list Z) : Z :=
  fold_buckets (fun sum i c => wrap64 (sum + wrap64 (index_to_value i * c))) 0 counts.

Definition get_mean (h : HDRHistogram) : double :=
  if total_count_ h =? 0 then dzero else ddiv (dZ (bucket_sum (counts_ h))) (dZ (total_count_ h)).

Definition get_std_dev (h : HDRHistogram) : double :=
  if total_count_ h =? 0 then dzero
  else
    let mean := get_mean h in
    let sum_squared_diff :=
      fold_buckets (fun acc i c =>
        let diff := dsub (dZ (index_to_value i)) mean in
        dadd acc (dmul (dmul diff diff) (dZ c))) dzero (counts_ h) in
    dsqrt (ddiv sum_squared_diff (dZ (total_count_ h))).

Definition hdr_reset (h : HDRHistogram) : HDRHistogram :=
  h <| counts_ := map (fun _ => 0) (counts_ h) |>
    <| total_count_ := 0 |> <| min_value_ := UINT64_MAX |> <| max_value_recorded_ := 0 |>.

Record Percentiles := mkPercentiles {
  p50 : Z; p90 : Z; p95 : Z; p99 : Z; p999 : Z; p9999 : Z;
  p_min : Z; p_max : Z; p_mean : double; p_std_dev : double;
}.

Definition get_common_percentiles (h : HDRHistogram) : ub Percentiles :=
  a ← get_percentile h (dZ 50);
  b ← get_percentile h (dZ 90);
  c ← get_percentile h (dZ 95);
  d ← get_percentile h (dZ 99);
  e ← get_percentile h (dlit 999 10);
  f ← get_percentile h (dlit 9999 100);
  Some {| p50 := a; p90 := b; p95 := c; p99 := d; p999 := e; p9999 := f;
          p_min := get_min h; p_max := get_max h; p_mean := get_mean h; p_std_dev := get_std_dev h |}.

(** ** The recorded values *)

Definition count_if (P : Z -> Prop) `{forall v, Decision (P v)} (vs : list Z) : Z :=
  Z.of_nat (length (filter P vs)).

Lemma count_if_cons (P : Z -> Prop) `{forall v, Decision (P v)} v vs :
  count_if P (v :: vs) = (if decide (P v) then 1 else 0) + count_if P vs.
Proof. unfold count_if. rewrite filter_cons. case_decide; simpl; lia. Qed.

Lemma count_if_snoc (P : Z -> Prop) `{forall v, Decision (P v)} v vs :
  count_if P (vs ++ [v]) = count_if P vs + (if decide (P v) then 1 else 0).
Proof. unfold count_if. rewrite filter_app, length_app, filter_cons, filter_nil. case_decide; simpl; lia. Qed.

Lemma count_if_bounds (P : Z -> Prop) `{forall v, Decision (P v)} vs :
  0 <= count_if P vs <= Z.of_nat (length vs).
Proof. unfold count_if. pose proof (length_filter P vs). lia. Qed.

Lemma count_if_perm (P : Z -> Prop) `{forall v, Decision (P v)} vs ws :
  vs ≡ₚ ws -> count_if P vs = count_if P ws.
Proof. intros E. unfold count_if. by rewrite E. Qed.

Lemma calculate_bucket_count_bounds m : 1000 <= calculate_bucket_count m <= 100000.
Proof. unfold calculate_bucket_count. lia. Qed.

(** The histogram represents the list of clamped values. *)
Record represents (h : HDRHistogram) (vs : list Z) : Prop := {
  rep_buckets : 1000 <= Z.of_nat (length (counts_ h)) <= 100000;
  rep_counts : forall i, (i < length (counts_ h))%nat ->
    counts_ h !! i = Some (count_if (fun v => value_to_index h v = Z.of_nat i) vs);
  rep_total : total_count_ h = Z.of_nat (length vs);
  rep_min : min_value_ h = foldr Z.min UINT64_MAX vs;
  rep_max : max_value_recorded_ h = foldr Z.max 0 vs;
  rep_values : Forall (fun v => 0 <= v <= max_value_ h) vs;
}.

Lemma foldr_min_snoc m v vs : foldr Z.min m (vs ++ [v]) = Z.min (foldr Z.min m vs) v.
Proof. induction vs as [|w vs IH]; simpl; [lia|]. rewrite IH. lia. Qed.

Lemma foldr_max_snoc m v vs : foldr Z.max m (vs ++ [v]) = Z.max (foldr Z.max m vs) v.
Proof. induction vs as [|w vs IH]; simpl; [lia|]. rewrite IH. lia. Qed.

Lemma value_to_index_range h v :
  (0 < length (counts_ h))%nat -> 0 <= v -> 0 <= value_to_index h v < Z.of_nat (length (counts_ h)).
Proof.
  intros Hl Hv. unfold value_to_index. pose proof (Z.div_pos v 10 Hv ltac:(lia)). lia.
Qed.

Lemma clamp_min h v : clamp h v = Z.min (max_value_ h) v.
Proof. unfold clamp. destruct (Z.ltb_spec (max_value_ h) v); lia. Qed.

Lemma new_hdr_represents m sf : represents (new_hdr m sf) [].
Proof.
  pose proof (calculate_bucket_count_bounds m). split; try done; simpl.
  - rewrite length_replicate. lia.
  - intros i Hi. rewrite length_replicate in Hi. by rewrite lookup_replicate_2.
Qed.

Lemma record_represents h vs v :
  represents h vs -> 0 <= max_value_ h -> 0 <= v -> Z.of_nat (length vs) + 1 < two64 ->
  represents (record h v) (vs ++ [Z.min (max_value_ h) v]).
Proof.
  intros [Hb Hc Ht Hmin Hmax Hv] H0 Hv0 Hlen. unfold record. rewrite clamp_min.
  set (w := Z.min (max_value_ h) v). assert (Hw : 0 <= w) by lia.
  pose proof (value_to_index_range h w ltac:(lia) Hw) as Hi.
  rewrite (proj2 (Z.ltb_lt _ _)) by lia. split; simpl.
  - by rewrite length_alter.
  - intros i Hil. rewrite length_alter in Hil.
    assert (Hsame : forall u, value_to_index (h <| counts_ := alter (fun c => wrap64 (c + 1))
              (Z.to_nat (value_to_index h w)) (counts_ h) |>) u = value_to_index h u).
    { intros u. unfold value_to_index at 1. simpl. by rewrite length_alter. }
    transitivity (Some (count_if (fun u => value_to_index h u = Z.of_nat i) (vs ++ [w]))).
    + rewrite count_if_snoc. destruct (decide (value_to_index h w = Z.of_nat i)) as [E|E].
      * rewrite E, Nat2Z.id, list_lookup_alter_eq, Hc by done. simpl. f_equal.
        pose proof (count_if_bounds (fun u => value_to_index h u = Z.of_nat i) vs).
        apply wrap64_small. unfold in_u64. lia.
      * rewrite list_lookup_alter_ne by lia. rewrite Hc by done. f_equal. lia.
    + f_equal. unfold count_if. do 2 f_equal. apply list_filter_iff. intros u.
      unfold value_to_index. simpl. by rewrite length_alter.
  - rewrite length_app, Ht. simpl. rewrite wrap64_small; unfold in_u64; lia.
  - rewrite foldr_min_snoc, Hmin. destruct (Z.ltb_spec w (foldr Z.min UINT64_MAX vs)); lia.
  - rewrite foldr_max_snoc, Hmax. destruct (Z.ltb_spec (foldr Z.max 0 vs) w); lia.
  - apply Forall_app. split; [done|]. constructor; [lia|constructor].
Qed.

Lemma record_max_value h v : max_value_ (record h v) = max_value_ h.
Proof. unfold record. by case_match. Qed.

Lemma foldl_represents h ws vs :
  represents h ws -> 0 <= max_value_ h -> Forall (fun v => 0 <= v) vs ->
  Z.of_nat (length ws) + Z.of_nat (length vs) < two64 ->
  represents (foldl record h vs) (ws ++ map (Z.min (max_value_ h)) vs).
Proof.
  intros Hh H0 Hvs. revert h ws Hh H0. induction Hvs as [|v vs Hv Hvs IH]; simpl; intros h ws Hh H0 Hl.
  - by rewrite app_nil_r.
  - rewrite (cons_middle _ ws), (app_assoc ws [_]). rewrite <-(record_max_value h v). apply IH.
    + rewrite record_max_value. apply record_represents; lia || done.
    + by rewrite record_max_value.
    + rewrite length_app. simpl. lia.
Qed.

Lemma recorded_represents cap sf vs :
  0 <= cap -> Forall (fun v => 0 <= v) vs -> Z.of_nat (length vs) < two64 ->
  represents (foldl record (new_hdr cap sf) vs) (map (Z.min cap) vs).
Proof. intros H1 H2 H3. apply (foldl_represents (new_hdr cap sf) [] vs); [apply new_hdr_represents|done..]. Qed.

(** ** Ranks *)

Section sorted.
Context (P : Z -> Prop) `{forall v, Decision (P v)} (HP : forall v w, v <= w -> P w -> P v).

Lemma count_none l : Forall (fun v => ~ P v) l -> count_if P l = 0.
Proof. unfold count_if. induction 1 as [|v l Hv Hl IH]; [done|]. by rewrite filter_cons, decide_False. Qed.

(** In a sorted list the elements below a bound are a prefix. *)
Lemma sorted_rank l n v :
  StronglySorted Z.le l -> l !! n = Some v -> if decide (P v) then Z.of_nat n < count_if P l else count_if P l <= Z.of_nat n.
Proof.
  intros Hl. revert n. induction Hl as [|w l Hl IH Hw]; [done|]. intros [|n]; simpl.
  - intros [= ->]. case_decide; rewrite count_if_cons.
    + pose proof (count_if_bounds P l). rewrite decide_True by done. lia.
    + rewrite decide_False by done. rewrite count_none; [lia|].
      eapply Forall_impl; [exact Hw|]. intros u Hu Hpu. by eapply HP in Hpu.
  - intros Hn. specialize (IH n Hn). pose proof (list_elem_of_lookup_2 _ _ _ Hn) as Hin.
    rewrite Forall_forall in Hw. specialize (Hw v Hin). rewrite count_if_cons.
    destruct (decide (P v)) as [Hpv|Hpv].
    + rewrite decide_True by by apply (HP w v). lia.
    + destruct (decide (P w)); lia.
Qed.
End sorted.

Section percentile.
Context (h : HDRHistogram) (vs : list Z) (Hh : represents h vs) (Hlen : Z.of_nat (length vs) < two64).

Definition below (i : Z) (v : Z) : Prop := value_to_index h v < i.
#[local] Instance below_dec i v : Decision (below i v) := ltac:(unfold below; apply _).

Lemma below_mono i v w : v <= w -> below i w -> below i v.
Proof. unfold below, value_to_index. pose proof (Z.div_le_mono v w 10 ltac:(lia)). lia. Qed.

Lemma below_step i : count_if (below (i + 1)) vs = count_if (below i) vs + count_if (fun v => value_to_index h v = i) vs.
Proof.
  clear Hh Hlen. induction vs as [|v l IH]; [done|]. rewrite !count_if_cons, IH. unfold below.
  repeat case_decide; lia.
Qed.

Lemma below_all : count_if (below (Z.of_nat (length (counts_ h)))) vs = Z.of_nat (length vs).
Proof.
  pose proof (rep_buckets _ _ Hh) as Hb. pose proof (rep_values _ _ Hh) as Hv. clear Hh Hlen.
  induction Hv as [|v l Hv Hl IH]; [done|]. rewrite count_if_cons, IH, decide_True; [simpl; lia|].
  unfold below. pose proof (value_to_index_range h v ltac:(lia) ltac:(lia)). lia.
Qed.

Lemma percentile_loop_spec target n i :
  (n + i = length (counts_ h))%nat -> count_if (below (Z.of_nat i)) vs < target <= Z.of_nat (length vs) ->
  exists j, percentile_loop target (count_if (below (Z.of_nat i)) vs) (Z.of_nat i) (drop i (counts_ h)) =
              Some (index_to_value j) /\
    count_if (below j) vs < target <= count_if (below (j + 1)) vs /\ 0 <= j < Z.of_nat (length (counts_ h)).
Proof.
  revert i. induction n as [|n IH]; intros i Hn Ht.
  - simpl in Hn. subst i. rewrite below_all in Ht. lia.
  - pose proof (rep_counts _ _ Hh i ltac:(lia)) as Hi. rewrite (drop_S _ _ _ Hi). simpl.
    pose proof (count_if_bounds (below (Z.of_nat i + 1)) vs) as Hb. rewrite <-below_step.
    rewrite wrap64_small by (unfold in_u64; lia).
    destruct (Z.leb_spec target (count_if (below (Z.of_nat i + 1)) vs)).
    + exists (Z.of_nat i). split_and!; [done|lia..].
    + replace (Z.of_nat i + 1) with (Z.of_nat (S i)) in * by lia. apply IH; lia.
Qed.

Lemma percentile_loop_none target n i :
  (n + i = length (counts_ h))%nat -> Z.of_nat (length vs) < target ->
  percentile_loop target (count_if (below (Z.of_nat i)) vs) (Z.of_nat i) (drop i (counts_ h)) = None.
Proof.
  revert i. induction n as [|n IH]; intros i Hn Ht.
  - by rewrite drop_ge by lia.
  - pose proof (rep_counts _ _ Hh i ltac:(lia)) as Hi. rewrite (drop_S _ _ _ Hi). simpl.
    pose proof (count_if_bounds (below (Z.of_nat i + 1)) vs) as Hb. rewrite <-below_step.
    rewrite wrap64_small by (unfold in_u64; lia).
    rewrite (proj2 (Z.leb_gt _ _)) by lia.
    replace (Z.of_nat i + 1) with (Z.of_nat (S i)) by lia. apply IH; lia.
Qed.

Lemma below_zero : count_if (below (Z.of_nat 0)) vs = 0.
Proof.
  pose proof (rep_buckets _ _ Hh) as Hb. apply count_none. eapply Forall_impl; [apply (rep_values _ _ Hh)|].
  intros v [Hv _]. unfold below. pose proof (value_to_index_range h v ltac:(lia) Hv). lia.
Qed.

Lemma percentile_rank target l :
  1 <= target <= Z.of_nat (length vs) -> l ≡ₚ vs -> StronglySorted Z.le l ->
  exists v, l !! Z.to_nat (target - 1) = Some v /\
    percentile_loop target 0 0 (counts_ h) = Some (index_to_value (value_to_index h v)).
Proof.
  intros Ht Hp Hs. destruct (percentile_loop_spec target (length (counts_ h)) 0) as (j & Hj & Hc & Hr);
    [lia|rewrite below_zero; lia|].
  rewrite below_zero in Hj. change (drop 0 (counts_ h)) with (counts_ h) in Hj. change (Z.of_nat 0) with 0 in Hj.
  destruct (lookup_lt_is_Some_2 l (Z.to_nat (target - 1))) as [v Hv]; [rewrite Hp; lia|].
  exists v. split; [done|]. rewrite Hj. do 2 f_equal.
  pose proof (sorted_rank (below j) (below_mono j) l _ v Hs Hv) as H1.
  pose proof (sorted_rank (below (j + 1)) (below_mono (j + 1)) l _ v Hs Hv) as H2.
  rewrite (count_if_perm (below j) l vs Hp) in H1. rewrite (count_if_perm (below (j + 1)) l vs Hp) in H2.
  unfold below at 1 in H1. unfold below at 1 in H2.
  repeat case_decide; lia.
Qed.
End percentile.

Lemma foldr_min_cap cap m ws :
  ws <> [] -> cap <= m -> Forall (fun v => v <= cap) ws -> foldr Z.min m ws = foldr Z.min cap ws.
Proof.
  intros Hne Hm Hws. induction Hws as [|w ws Hw Hws IH]; [done|]. simpl.
  destruct ws as [|u ws]; [simpl; lia|]. by rewrite IH.
Qed.

Lemma record_counts h v : length (counts_ (record h v)) = length (counts_ h).
Proof. unfold record. case_match; simpl; by rewrite ?length_alter. Qed.

Lemma map_zeros (l : list Z) : map (fun _ => 0) l = replicate (length l) 0.
Proof. induction l as [|z l IH]; simpl; [done|]. by rewrite IH. Qed.

Lemma records_reset cap sf vs : hdr_reset (foldl record (new_hdr cap sf) vs) = new_hdr cap sf.
Proof.
  apply (foldl_ind (fun h => hdr_reset h = new_hdr cap sf)).
  - unfold hdr_reset, new_hdr. simpl. f_equal. by rewrite map_zeros, length_replicate.
  - intros h v _ <-. unfold record. case_match; [|done]. unfold hdr_reset. simpl. f_equal.
    by rewrite !map_zeros, length_alter.
Qed.

(** after any sequence of records (fewer than 2^64), bucket [i] counts the
    clamped values whose bucket it is, the total is the number of values, the
    extremes are those of the clamped values, and resetting gives back the new
    histogram. *)
Theorem hdr_records cap sf vs :
  0 <= cap -> Forall (fun v => 0 <= v) vs -> Z.of_nat (length vs) < two64 ->
  let h := foldl record (new_hdr cap sf) vs in
  let ws := map (Z.min cap) vs in
  (forall i, (i < length (counts_ h))%nat ->
     counts_ h !! i = Some (count_if (fun v => value_to_index h v = Z.of_nat i) ws)) /\
  get_total_count h = Z.of_nat (length vs) /\
  get_max h = foldr Z.max 0 ws /\
  (ws <> [] -> cap < UINT64_MAX -> get_min h = foldr Z.min cap ws) /\
  hdr_reset h = new_hdr cap sf.
Proof.
  intros H1 H2 H3 h ws. pose proof (recorded_represents cap sf vs H1 H2 H3) as Hh. split_and!.
  - apply (rep_counts _ _ Hh).
  - unfold get_total_count, h. rewrite (rep_total _ _ Hh). by rewrite length_map.
  - apply (rep_max _ _ Hh).
  - intros Hne Hcap. unfold get_min, h. rewrite (rep_min _ _ Hh). fold ws.
    assert (Hle : Forall (fun v => v <= cap) ws) by (apply Forall_fmap, Forall_true; simpl; lia).
    rewrite (foldr_min_cap cap) by (done || lia).
    assert (foldr Z.min cap ws <= cap) by (clear; induction ws; simpl; lia).
    by rewrite (proj2 (Z.eqb_neq _ _)) by lia.
  - apply records_reset.
Qed.

(** C33: [get_percentile] strictly between 0 and 100 returns the midpoint of
    the bucket of an exact order statistic: with [t] the rounded target rank,
    the [t]-th smallest of the clamped values ([t] = 0 gives the midpoint of
    the first bucket, and a [t] above the number of values the maximum).  The
    midpoint is within 5 of that value when the value is below the last
    bucket. *)
Theorem percentile_order_statistic cap sf vs p t l :
  0 <= cap -> Forall (fun v => 0 <= v) vs -> vs <> [] -> Z.of_nat (length vs) < two64 ->
  dge p (dZ 100) = false -> dle p dzero = false ->
  target_count p (Z.of_nat (length vs)) = Some t ->
  l ≡ₚ map (Z.min cap) vs -> StronglySorted Z.le l ->
  let h := foldl record (new_hdr cap sf) vs in
  get_percentile h p =
    Some (if t <=? 0 then 5
          else match l !! Z.to_nat (t - 1) with
               | Some v => index_to_value (value_to_index h v)
               | None => get_max h
               end) /\
  (forall v, 0 <= v < 10 * (Z.of_nat (length (counts_ h)) - 1) ->
     v - 4 <= index_to_value (value_to_index h v) <= v + 5).
Proof.
  intros H1 H2 Hne H3 Hhi Hlo Ht Hp Hs h.
  pose proof (recorded_represents cap sf vs H1 H2 H3) as Hh. fold h in Hh.
  pose proof (rep_buckets _ _ Hh) as Hb. split.
  - unfold get_percentile. rewrite (rep_total _ _ Hh), length_map, Hhi, Hlo, Ht.
    rewrite (proj2 (Z.eqb_neq _ _)) by (destruct vs; [done|simpl; lia]). cbn [mbind option_bind]. f_equal.
    assert (Hlen : Z.of_nat (length (map (Z.min cap) vs)) < two64) by by rewrite length_map.
    destruct (Z.leb_spec t 0) as [Ht0|Ht0].
    + destruct (counts_ h) as [|c cs] eqn:Hc; [simpl in Hb; lia|]. simpl.
      rewrite (proj2 (Z.leb_le _ _)); [done|]. pose proof (wrap64_range (0 + c)). unfold in_u64 in *. lia.
    + destruct (decide (t <= Z.of_nat (length vs))) as [Hle|Hgt].
      * destruct (percentile_rank h _ Hh Hlen t l) as (v & -> & ->); [rewrite length_map; lia|done..].
      * rewrite (lookup_ge_None_2 l) by (rewrite Hp, length_map; lia).
        pose proof (percentile_loop_none h _ Hh Hlen t (length (counts_ h)) 0 ltac:(lia)) as Hn.
        rewrite (below_zero h _ Hh) in Hn. rewrite length_map in Hn. change (Z.of_nat 0) with 0 in Hn. rewrite drop_0 in Hn.
        by rewrite Hn by lia.
  - intros v Hv. unfold value_to_index. pose proof (Z.div_mod v 10 ltac:(lia)). pose proof (Z.mod_pos_bound v 10 ltac:(lia)).
    rewrite Z.min_l by lia. unfold index_to_value. rewrite wrap64_small; [lia|]. unfold in_u64, two64. lia.
Qed.

(** The percentile of a rank
    that rounds to zero is the midpoint of the first bucket whatever was
    recorded. *)
Example low_percentile :
  get_percentile (record (new_hdr 1000000000 3) 500000) (dZ 40) = Some 5.
Proof. vm_compute. reflexivity. Qed.

(** The histogram is announced for values up to one second, and its buckets
    end at one millisecond. *)
Example saturated_percentile :
  get_percentile (foldl record (new_hdr 1000000000 3) [5000000; 5000000]) (dZ 50) = Some 999995.
Proof. vm_compute. reflexivity. Qed.

Definition ex_values : list Z := [120; 45; 900; 45; 20000].

Lemma hdr_records_witness :
  let h := foldl record (new_hdr 15000 3) ex_values in
  get_total_count h = 5 /\ get_max h = 15000 /\ counts_ h !! 4%nat = Some 2.
Proof.
  destruct (hdr_records 15000 3 ex_values ltac:(lia) ltac:(repeat constructor; lia) ltac:(done)) as (Hc & Ht & Hm & _).
  split_and!; [exact Ht|exact Hm|]. rewrite Hc by (apply Nat.ltb_lt; vm_compute; reflexivity). vm_compute. reflexivity.
Defined.

Lemma percentile_order_statistic_witness :
  let h := foldl record (new_hdr 15000 3) ex_values in get_percentile h (dZ 50) = Some 125.
Proof.
  destruct (percentile_order_statistic 15000 3 ex_values (dZ 50) 3 [45; 45; 120; 900; 15000]
              ltac:(lia) ltac:(repeat constructor; lia) ltac:(done) ltac:(done)
              ltac:(vm_compute; reflexivity) ltac:(vm_compute; reflexivity) ltac:(vm_compute; reflexivity))
    as [E _]; [by apply (bool_decide_eq_true_1 _); vm_compute|repeat constructor; lia|].
  cbv zeta. etransitivity; [exact E|]. vm_compute. reflexivity.
Defined.
