(* ===== verification/QueueTracker.v ===== *)
(** * Queue push latency (src/queue_latency_tracker.hpp)

    [QueueLatencyTracker]: per-exchange counters, extremes and a ring of the
    last 10000 samples, from which percentiles are taken.  The counters are
    relaxed atomics; the model runs one [record] at a time.  The report's
    text is in [LatencyReports], the numbers it prints are here. *)

From Stdlib Require Import ZArith Lia Sorting.Sorted.
From stdpp Require Import sorting.
From S2P Require Import Prelude Float64 Timing.

Definition MAX_EXCHANGES : nat := 5.
Definition SAMPLE_BUFFER_SIZE : Z := 10000.

Record ExchangeStats := mkExchangeStats {
  ex_name : bytes;
  count : Z;
  total_ns : Z;
  min_ns : Z;
  max_ns : Z;
  samples : list Z;
  occupancy_samples : list Z;
  sample_index : Z;
}.
#[export] Instance ExchangeStats_settable : Settable ExchangeStats := fun s =>
  mkExchangeStats (ex_name s) (count s) (total_ns s) (min_ns s) (max_ns s) (samples s) (occupancy_samples s)
    (sample_index s).

Definition new_stats : ExchangeStats :=
  mkExchangeStats [] 0 0 UINT64_MAX 0 (replicate (Z.to_nat SAMPLE_BUFFER_SIZE) 0)
    (replicate (Z.to_nat SAMPLE_BUFFER_SIZE) 0) 0.

(** [ExchangeStats::record] *)
Definition record_stat (latency_ns queue_occupancy : Z) (s : ExchangeStats) : ExchangeStats :=
  let idx := Z.to_nat (sample_index s mod SAMPLE_BUFFER_SIZE) in
  s <| count := wrap64 (count s + 1) |>
    <| total_ns := wrap64 (total_ns s + latency_ns) |>
    <| min_ns := if latency_ns <? min_ns s then latency_ns else min_ns s |>
    <| max_ns := if max_ns s <? latency_ns then latency_ns else max_ns s |>
    <| sample_index := wrap64 (sample_index s + 1) |>
    <| samples := <[idx := latency_ns]> (samples s) |>
    <| occupancy_samples := <[idx := queue_occupancy]> (occupancy_samples s) |>.

Definition stat_mean_ns (s : ExchangeStats) : double :=
  if count s =? 0 then dzero else ddiv (dZ (total_ns s)) (dZ (count s)).

(** [ExchangeStats::reset] leaves [samples] and the name. *)
Definition reset_stat (s : ExchangeStats) : ExchangeStats :=
  s <| count := 0 |> <| total_ns := 0 |> <| min_ns := UINT64_MAX |> <| max_ns := 0 |> <| sample_index := 0 |>
    <| occupancy_samples := replicate (Z.to_nat SAMPLE_BUFFER_SIZE) 0 |>.

(** [exchanges_] is an array of [MAX_EXCHANGES] of which [exchange_count_] are
    registered. *)
Record Tracker := mkTracker { exchanges_ : list ExchangeStats; exchange_count_ : nat }.
#[export] Instance Tracker_settable : Settable Tracker := fun t => mkTracker (exchanges_ t) (exchange_count_ t).

(** The first registered exchange of that name. *)
Fixpoint find_name (name : bytes) (i : nat) (l : list ExchangeStats) : option nat :=
  match l with
  | [] => None
  | s :: l => if bool_decide (ex_name s = name) then Some i else find_name name (S i) l
  end.

Definition registered (t : Tracker) : list ExchangeStats := take (exchange_count_ t) (exchanges_ t).

Definition get_exchange_index (t : Tracker) (name : bytes) : nat := default 0%nat (find_name name 0 (registered t)).

Definition register_exchange (name : bytes) (t : Tracker) : nat * Tracker :=
  match find_name name 0 (registered t) with
  | Some i => (i, t)
  | None =>
      if (exchange_count_ t <? MAX_EXCHANGES)%nat then
        (exchange_count_ t,
         t <| exchanges_ := alter (fun s => s <| ex_name := name |>) (exchange_count_ t) (exchanges_ t) |>
           <| exchange_count_ := S (exchange_count_ t) |>)
      else (0%nat, t)
  end.

Definition new_tracker : Tracker :=
  foldl (fun t name => (register_exchange name t).2) (mkTracker (replicate MAX_EXCHANGES new_stats) 0)
    [$"Binance"; $"Coinbase"; $"Kraken"; $"Bybit"].

(** [record_operation]; the frequency is the calibrator's. *)
Definition record_operation (tsc_frequency : Z) (exchange : bytes) (start_tsc end_tsc queue_occupancy : Z)
    (t : Tracker) : ub Tracker :=
  if (start_tsc =? 0) || (end_tsc =? 0) then Some t
  else if end_tsc <=? start_tsc then Some t
  else
    latency_ns ← cycles_to_ns tsc_frequency (end_tsc - start_tsc);
    Some (t <| exchanges_ := alter (record_stat latency_ns queue_occupancy) (get_exchange_index t exchange)
                               (exchanges_ t) |>).

Definition get_stats (t : Tracker) (exchange : bytes) : option ExchangeStats :=
  exchanges_ t !! get_exchange_index t exchange.

Definition reset_tracker (t : Tracker) : Tracker :=
  t <| exchanges_ := imap (fun i s => if (i <? exchange_count_ t)%nat then reset_stat s else s) (exchanges_ t) |>.

Definition sample_count (s : ExchangeStats) : Z := Z.min (sample_index s) SAMPLE_BUFFER_SIZE.

(** The samples the reports look at. *)
Definition sample_window (s : ExchangeStats) : list Z := take (Z.to_nat (sample_count s)) (samples s).

Definition calculate_percentile (s : ExchangeStats) (percentile : Z) : ub Z :=
  let n := sample_count s in
  if n =? 0 then Some 0
  else
    let sorted_samples := merge_sort Z.le (sample_window s) in
    let idx := wrap64 (percentile * n) / 100 in
    sorted_samples !! Z.to_nat (if n <=? idx then n - 1 else idx).

(** The buckets of [print_histogram]. *)
Definition bucket_bounds : list Z := [50; 100; 250; 500; 1000; 5000; 10000; UINT64_MAX].

Fixpoint bucket_of (val : Z) (b : nat) (bounds : list Z) : option nat :=
  match bounds with
  | [] => None
  | bound :: bounds => if val <? bound then Some b else bucket_of val (S b) bounds
  end.

Definition bucket_counts (s : ExchangeStats) : list Z :=
  foldl (fun counts val =>
           match bucket_of val 0 bucket_bounds with
           | Some b => alter (fun c => wrap64 (c + 1)) b counts
           | None => counts
           end) (replicate 8 0) (sample_window s).

(** The occupancy numbers of [print_occupancy]: mean, least and greatest. *)
Definition occupancy_stats (s : ExchangeStats) : option (double * Z * Z) :=
  let n := sample_count s in
  if n =? 0 then None
  else
    let window := take (Z.to_nat n) (occupancy_samples s) in
    let sum := foldl (fun sum occ => dadd sum (dZ occ)) dzero window in
    let mn := foldl (fun m occ => if occ <? m then occ else m) UINT64_MAX window in
    let mx := foldl (fun m occ => if m <? occ then occ else m) 0 window in
    Some (ddiv sum (dZ n), mn, mx).

(** ** The ring of samples *)

(** Writing position [n mod N] of an array, for [n] = 0, 1, ...: the array
    holds the last [N] values written. *)
Definition last_values {A} (N : nat) (ls : list A) : list A := drop (length ls - N) ls.

Record ring_of {A} (N : nat) (buf ls : list A) : Prop := {
  ring_len : length buf = N;
  ring_perm : take (Nat.min (length ls) N) buf ≡ₚ last_values N ls;
  ring_at : forall j, (length ls - N <= j < length ls)%nat -> buf !! (j mod N)%nat = ls !! j;
}.

Lemma ring_of_nil {A} N (buf : list A) : length buf = N -> ring_of N buf [].
Proof. intros H. split; [done|done|]. simpl. lia. Qed.

Lemma ring_of_snoc {A} N (buf ls : list A) x :
  (0 < N)%nat -> ring_of N buf ls -> ring_of N (<[(length ls mod N)%nat := x]> buf) (ls ++ [x]).
Proof.
  intros HN [Hlen Hperm Hat]. pose proof (Nat.mod_upper_bound (length ls) N ltac:(lia)) as Hi.
  split.
  - by rewrite length_insert.
  - unfold last_values in *. rewrite length_app. simpl. destruct (decide (length ls < N)%nat) as [Hlt|Hge].
    + rewrite Nat.mod_small by done. rewrite Nat.min_l in * by lia.
      replace (length ls + 1 - N)%nat with 0%nat by lia. replace (length ls - N)%nat with 0%nat in Hperm by lia.
      rewrite drop_0 in *. rewrite Nat.add_1_r, (take_S_r _ _ x) by (apply list_lookup_insert_eq; lia).
      rewrite take_insert_ge by lia. by rewrite Hperm.
    + rewrite Nat.min_r in * by lia. set (i := (length ls mod N)%nat) in *.
      rewrite firstn_all2 in Hperm by lia. rewrite firstn_all2 by (rewrite length_insert; lia).
      destruct (lookup_lt_is_Some_2 ls (length ls - N)) as [y Hy]; [lia|].
      assert (Hbi : buf !! i = Some y).
      { rewrite <-Hy, <-(Hat (length ls - N)%nat) by lia. f_equal. unfold i.
        rewrite <-(Nat.Div0.mod_add (length ls - N) 1 N). by replace (length ls - N + 1 * N)%nat with (length ls) by lia. }
      rewrite (drop_S _ y) in Hperm by done.
      replace (length ls + 1 - N)%nat with (S (length ls - N)) by lia. rewrite drop_app_le by lia.
      rewrite insert_take_drop by lia. rewrite <-(take_drop_middle buf i y Hbi) in Hperm.
      rewrite <-!Permutation_middle in Hperm |- *. apply Permutation_cons_inv in Hperm.
      rewrite Hperm. by rewrite Permutation_app_comm.
  - rewrite length_app. simpl. intros j Hj. destruct (decide (j = length ls)) as [->|Hne].
    + rewrite list_lookup_insert_eq by lia. by rewrite list_lookup_middle.
    + rewrite list_lookup_insert_ne.
      * rewrite Hat by lia. by rewrite lookup_app_l by lia.
      * intros E. pose proof (Nat.div_mod_eq (length ls) N). pose proof (Nat.div_mod_eq j N).
        destruct (Nat.le_gt_cases (length ls / N) (j / N)) as [Hq|Hq].
        -- pose proof (Nat.mul_le_mono_l _ _ N Hq). lia.
        -- pose proof (Nat.mul_le_mono_l _ _ N Hq). lia.
Qed.

(** ** Statistics of a sequence of operations *)

Definition BUF : nat := Z.to_nat SAMPLE_BUFFER_SIZE.

Lemma BUF_Z : Z.of_nat BUF = 10000.
Proof. unfold BUF, SAMPLE_BUFFER_SIZE. by rewrite Z2Nat.id by lia. Qed.

#[local] Opaque BUF.

Definition sumz (l : list Z) : Z := foldr Z.add 0 l.

Record stats_of (s : ExchangeStats) (lat occ : list Z) : Prop := {
  so_len : length occ = length lat;
  so_samples : ring_of BUF (samples s) lat;
  so_occ : ring_of BUF (occupancy_samples s) occ;
  so_index : sample_index s = Z.of_nat (length lat);
  so_count : count s = Z.of_nat (length lat);
  so_total : total_ns s = wrap64 (sumz lat);
  so_min : min_ns s = foldr Z.min UINT64_MAX lat;
  so_max : max_ns s = foldr Z.max 0 lat;
}.

Lemma foldr_assoc_snoc (f : Z -> Z -> Z) e l x :
  (forall a b c, f a (f b c) = f (f a b) c) -> (forall a b, f a b = f b a) ->
  foldr f e (l ++ [x]) = f (foldr f e l) x.
Proof. intros Ha Hc. induction l as [|y l IH]; simpl; [apply Hc|]. by rewrite IH, Ha. Qed.

Lemma fresh_stats_of s :
  length (samples s) = BUF -> stats_of (reset_stat s) [] [].
Proof. intros Hl. split; try done; by apply ring_of_nil. Qed.

Lemma new_stats_of : stats_of new_stats [] [].
Proof. split; try done; by apply ring_of_nil. Qed.

Lemma sample_slot n : Z.to_nat (Z.of_nat n mod SAMPLE_BUFFER_SIZE) = (n mod BUF)%nat.
Proof. change SAMPLE_BUFFER_SIZE with 10000. rewrite <-BUF_Z, <-Nat2Z.inj_mod. by rewrite Nat2Z.id. Qed.

Lemma record_stats_of s lat occ l o :
  stats_of s lat occ -> Z.of_nat (length lat) + 1 < two64 -> stats_of (record_stat l o s) (lat ++ [l]) (occ ++ [o]).
Proof.
  intros [Hlen Hs Ho Hi Hc Ht Hmin Hmax] Hb. pose proof BUF_Z. unfold record_stat.
  split; cbn -[wrap64 Z.to_nat SAMPLE_BUFFER_SIZE].
  - rewrite !length_app. simpl. lia.
  - rewrite Hi, sample_slot. apply ring_of_snoc; [lia|done].
  - rewrite Hi, sample_slot, <-Hlen. apply ring_of_snoc; [lia|done].
  - rewrite Hi, length_app. simpl. rewrite wrap64_small by (unfold in_u64; lia). lia.
  - rewrite Hc, length_app. simpl. rewrite wrap64_small by (unfold in_u64; lia). lia.
  - rewrite Ht. unfold sumz. rewrite (foldr_assoc_snoc Z.add) by lia. unfold wrap64. by rewrite Zplus_mod_idemp_l.
  - rewrite (foldr_assoc_snoc Z.min) by lia. rewrite Hmin. destruct (Z.ltb_spec l (foldr Z.min UINT64_MAX lat)); lia.
  - rewrite (foldr_assoc_snoc Z.max) by lia. rewrite Hmax. destruct (Z.ltb_spec (foldr Z.max 0 lat) l); lia.
Qed.

Definition record_stats (ops : list (Z * Z)) (s : ExchangeStats) : ExchangeStats :=
  foldl (fun s '(l, o) => record_stat l o s) s ops.

Lemma record_stats_spec ops s lat occ :
  stats_of s lat occ -> Z.of_nat (length lat + length ops) < two64 ->
  stats_of (record_stats ops s) (lat ++ map fst ops) (occ ++ map snd ops).
Proof.
  revert s lat occ. induction ops as [|[l o] ops IH]; simpl; intros s lat occ Hs Hb; [by rewrite !app_nil_r|].
  rewrite (cons_middle l), (cons_middle o), !app_assoc. apply IH; [apply record_stats_of; [done|lia]|].
  rewrite length_app. simpl. lia.
Qed.

Lemma sample_window_perm s lat occ :
  stats_of s lat occ -> Z.of_nat (length (sample_window s)) = sample_count s /\
  sample_count s = Z.of_nat (Nat.min (length lat) BUF) /\ sample_window s ≡ₚ last_values BUF lat.
Proof.
  intros [Hlen Hs Ho Hi Hc Ht Hmin Hmax]. pose proof BUF_Z as HB. unfold sample_window.
  assert (Hn : sample_count s = Z.of_nat (Nat.min (length lat) BUF)).
  { unfold sample_count. change SAMPLE_BUFFER_SIZE with 10000. lia. }
  rewrite Hn, Nat2Z.id. split_and!; [|done|apply Hs]. rewrite length_take, (ring_len _ _ _ Hs). lia.
Qed.

(** after any operations (fewer than 2^64) on a fresh or reset exchange,
    the count, the total (modulo 2^64) and the extremes are those of all of
    them, and a percentile is the order statistic, at the truncated rank, of
    the last 10000 latencies. *)
Theorem tracker_percentile s ops p l :
  length (samples s) = Z.to_nat SAMPLE_BUFFER_SIZE -> ops <> [] -> Z.of_nat (length ops) < two64 -> 0 <= p <= 100 ->
  let t := record_stats ops (reset_stat s) in
  let w := last_values (Z.to_nat SAMPLE_BUFFER_SIZE) (map fst ops) in
  let n := Z.of_nat (length w) in
  l ≡ₚ w -> StronglySorted Z.le l ->
  count t = Z.of_nat (length ops) /\ total_ns t = wrap64 (sumz (map fst ops)) /\
  min_ns t = foldr Z.min UINT64_MAX (map fst ops) /\ max_ns t = foldr Z.max 0 (map fst ops) /\
  n = Z.min (Z.of_nat (length ops)) SAMPLE_BUFFER_SIZE /\
  calculate_percentile t p = l !! Z.to_nat (Z.min (p * n / 100) (n - 1)).
Proof.
  intros Hlen Hne Hb Hp t w n Hl Hsort.
  pose proof (record_stats_spec ops _ [] [] (fresh_stats_of s Hlen) Hb) as Ht. simpl in Ht. fold t in Ht.
  destruct (sample_window_perm t _ _ Ht) as (Hwl & Hn & Hperm). rewrite length_map in Hn. pose proof BUF_Z as HB.
  change (last_values BUF (map fst ops)) with w in Hperm.
  assert (Hwn : n = sample_count t) by (unfold n; rewrite <-Hwl; by rewrite Hperm).
  assert (0 < length ops)%nat by (destruct ops; [done|simpl; lia]).
  split_and!.
  - rewrite (so_count _ _ _ Ht). by rewrite length_map.
  - apply (so_total _ _ _ Ht).
  - apply (so_min _ _ _ Ht).
  - apply (so_max _ _ _ Ht).
  - rewrite Hwn, Hn. change SAMPLE_BUFFER_SIZE with 10000. lia.
  - unfold calculate_percentile. rewrite <-Hwn. rewrite (proj2 (Z.eqb_neq _ _)) by lia.
    assert (El : merge_sort Z.le (sample_window t) = l).
    { apply (StronglySorted_unique Z.le); [apply (StronglySorted_merge_sort _)|done|].
      rewrite merge_sort_Permutation. by rewrite Hperm, Hl. }
    rewrite El. rewrite wrap64_small by (unfold in_u64, two64; nia). f_equal. f_equal.
    destruct (Z.leb_spec n (p * n / 100)); lia.
Qed.

(** ** The printed histogram *)

(** Bucket [b] of the report covers the values from the previous bound up to
    its own. *)
Definition in_bucket (b : nat) (v : Z) : Prop :=
  default 0 ((0 :: bucket_bounds) !! b) <= v < default 0 (bucket_bounds !! b).
#[local] Instance in_bucket_dec b v : Decision (in_bucket b v) := ltac:(unfold in_bucket; apply _).

Lemma bucket_of_iff v b : 0 <= v -> bucket_of v 0 bucket_bounds = Some b <-> in_bucket b v.
Proof.
  intros Hv. unfold in_bucket, bucket_bounds, UINT64_MAX, two64. simpl.
  destruct (Z.ltb_spec v 50), (Z.ltb_spec v 100), (Z.ltb_spec v 250), (Z.ltb_spec v 500), (Z.ltb_spec v 1000),
    (Z.ltb_spec v 5000), (Z.ltb_spec v 10000), (Z.ltb_spec v (2 ^ 64 - 1)); try lia;
    (split; [intros [= <-]; simpl; lia|]); (do 8 (destruct b as [|b]; [simpl; try lia; done|])); simpl; lia.
Qed.

Definition tally (counts : list Z) (val : Z) : list Z :=
  match bucket_of val 0 bucket_bounds with
  | Some b => alter (fun c => wrap64 (c + 1)) b counts
  | None => counts
  end.

Lemma tally_counts l b :
  (b < 8)%nat -> Forall (fun v => 0 <= v) l -> Z.of_nat (length l) < two64 ->
  foldl tally (replicate 8 0) l !! b = Some (Z.of_nat (length (filter (in_bucket b) l))).
Proof.
  intros Hb. induction l as [|v l IH] using rev_ind; [intros _ _; by apply (lookup_replicate_2 8 0 b)|].
  rewrite Forall_app, length_app. intros [Hl Hv] Hlen. apply Forall_cons_1 in Hv as [Hv _]. simpl in Hlen.
  rewrite foldl_snoc, filter_app, length_app, filter_cons, filter_nil. specialize (IH Hl ltac:(lia)).
  unfold tally at 1. destruct (bucket_of v 0 bucket_bounds) as [b'|] eqn:E.
  - destruct (decide (b' = b)) as [->|Hne].
    + rewrite list_lookup_alter_eq, IH. rewrite decide_True by (apply (bucket_of_iff v b Hv); exact E). simpl. f_equal.
      pose proof (length_filter (in_bucket b) l). rewrite wrap64_small; unfold in_u64; lia.
    + rewrite list_lookup_alter_ne, IH by done. rewrite decide_False; [simpl; f_equal; lia|].
      intros Hin. apply (bucket_of_iff v b Hv) in Hin. congruence.
  - rewrite IH. rewrite decide_False; [simpl; f_equal; lia|]. intros Hin. apply (bucket_of_iff v b Hv) in Hin. congruence.
Qed.

(** each count of the printed histogram is the number of samples in the
    window that lie between the previous bound and the bucket's own. *)
Theorem histogram_counts s b :
  (b < 8)%nat -> Forall (fun v => 0 <= v) (sample_window s) -> Z.of_nat (length (samples s)) < two64 ->
  bucket_counts s !! b = Some (Z.of_nat (length (filter (in_bucket b) (sample_window s)))).
Proof.
  intros Hb Hv Hl. apply (tally_counts _ b Hb Hv).
  unfold sample_window. rewrite length_take. lia.
Qed.

(** ** Attribution *)

(** What an operation adds to the exchange of index [i]. *)
Definition op_sample (f : Z) (names : list bytes) (i : nat) (op : bytes * Z * Z * Z) : option (Z * Z) :=
  let '(e, start, stop, occ) := op in
  if (start =? 0) || (stop =? 0) || (stop <=? start) then None
  else if bool_decide (default 0%nat ((list_find (fun n => n = e) names) ≫= fun '(j, _) => Some j) = i)
       then ns ← cycles_to_ns f (stop - start); Some (ns, occ) else None.

Lemma find_name_list_find name i l :
  find_name name i l = '(j, _) ← list_find (fun n => n = name) (map ex_name l); Some (i + j)%nat.
Proof.
  revert i. induction l as [|s l IH]; intros i; simpl; [done|].
  destruct (decide (ex_name s = name)) as [E|E].
  - rewrite bool_decide_eq_true_2 by done. simpl. f_equal. lia.
  - rewrite bool_decide_eq_false_2 by done. rewrite IH.
    destruct (list_find _ (map ex_name l)) as [[j n]|]; simpl; [|done]. f_equal. lia.
Qed.

Lemma get_exchange_index_names t name :
  get_exchange_index t name =
    default 0%nat (list_find (fun n => n = name) (map ex_name (registered t)) ≫= fun '(j, _) => Some j).
Proof. unfold get_exchange_index. rewrite find_name_list_find. by destruct (list_find _ _) as [[j n]|]. Qed.

Definition run_ops (f : Z) (ops : list (bytes * Z * Z * Z)) (t : Tracker) : ub Tracker :=
  foldl (fun t '(e, start, stop, occ) => t ← t; record_operation f e start stop occ t) (Some t) ops.

Lemma map_name_alter g i l :
  (forall s, ex_name (g s) = ex_name s) -> map ex_name (alter g i l) = map ex_name l.
Proof.
  intros Hg. revert i. induction l as [|s l IH]; intros [|i]; simpl; [done|done|by rewrite Hg|].
  f_equal. apply IH.
Qed.

Lemma record_operation_stats f e start stop occ t i s :
  0 < f -> exchanges_ t !! i = Some s ->
  exists t', record_operation f e start stop occ t = Some t' /\
    map ex_name (exchanges_ t') = map ex_name (exchanges_ t) /\ exchange_count_ t' = exchange_count_ t /\
    exchanges_ t' !! i =
      Some (record_stats (option_list (op_sample f (map ex_name (registered t)) i (e, start, stop, occ))) s).
Proof.
  intros Hf Hi. unfold record_operation, op_sample.
  destruct ((start =? 0) || (stop =? 0)); simpl; [by exists t|].
  destruct (stop <=? start); simpl; [by exists t|].
  assert (Hc : exists ns, cycles_to_ns f (stop - start) = Some ns).
  { unfold cycles_to_ns, udiv. rewrite (proj2 (Z.eqb_neq _ _)) by lia. by eexists. }
  destruct Hc as [ns Hns]. rewrite Hns. simpl. eexists. split_and!; [done| |done|].
  - simpl. by apply map_name_alter.
  - simpl. rewrite get_exchange_index_names. case_bool_decide as E.
    + rewrite E, list_lookup_alter_eq, Hi. done.
    + by rewrite list_lookup_alter_ne, Hi.
Qed.

(** starting from a new tracker, the statistics of each registered
    exchange are those of exactly the valid operations recorded under its
    name; operations under an unregistered name go to the first exchange, and
    operations with a zero or non-increasing pair of counter readings to
    none. *)
Theorem tracker_attribution f ops i s :
  0 < f -> exchanges_ new_tracker !! i = Some s ->
  exists t, run_ops f ops new_tracker = Some t /\
    exchanges_ t !! i =
      Some (record_stats (omap (op_sample f [$"Binance"; $"Coinbase"; $"Kraken"; $"Bybit"] i) ops) s).
Proof.
  intros Hf Hi. unfold run_ops.
  assert (Hgen : exists t, run_ops f ops new_tracker = Some t /\
    map ex_name (exchanges_ t) = map ex_name (exchanges_ new_tracker) /\
    exchange_count_ t = exchange_count_ new_tracker /\
    exchanges_ t !! i =
      Some (record_stats (omap (op_sample f [$"Binance"; $"Coinbase"; $"Kraken"; $"Bybit"] i) ops) s)).
  { induction ops as [|[[[e st] en] occ] ops IH] using rev_ind; [by exists new_tracker|].
    destruct IH as (t & Ht & Hn & Hc & Hs). unfold run_ops in *. rewrite foldl_snoc, Ht. simpl.
    destruct (record_operation_stats f e st en occ t i _ Hf Hs) as (t' & -> & Hn' & Hc' & Hs').
    exists t'. split_and!; [done|by rewrite Hn', Hn|by rewrite Hc', Hc|]. rewrite Hs'. f_equal.
    assert (Hr : map ex_name (registered t) = [$"Binance"; $"Coinbase"; $"Kraken"; $"Bybit"]).
    { unfold registered. rewrite <-firstn_map, Hn, Hc. reflexivity. }
    rewrite Hr, omap_app. unfold record_stats. rewrite foldl_app. f_equal. }
  destruct Hgen as (t & Ht & _ & _ & Hs). by exists t.
Qed.

Lemma tracker_percentile_witness :
  calculate_percentile (record_stats [(300, 0); (100, 1); (200, 2)] new_stats) 50 = Some 200.
Proof.
  pose proof (tracker_percentile new_stats [(300, 0); (100, 1); (200, 2)] 50 [100; 200; 300]
    ltac:(vm_compute; reflexivity) ltac:(done) ltac:(vm_compute; reflexivity) ltac:(lia)) as H.
  assert (Hw : last_values (Z.to_nat SAMPLE_BUFFER_SIZE) (map fst [(300, 0); (100, 1); (200, 2)]) = [300; 100; 200])
    by (vm_compute; reflexivity).
  cbv zeta in H. rewrite Hw in H.
  destruct H as (_ & _ & _ & _ & _ & H); [by apply (bool_decide_eq_true_1 _); vm_compute|repeat constructor; lia|].
  etransitivity; [|etransitivity; [exact H|vm_compute; reflexivity]]. reflexivity.
Defined.

Lemma histogram_counts_witness :
  bucket_counts (record_stats [(300, 0); (70, 1); (260, 2)] new_stats) !! 3%nat = Some 2.
Proof.
  rewrite histogram_counts; [vm_compute; reflexivity|lia| |vm_compute; reflexivity].
  apply (bool_decide_eq_true_1 _). vm_compute. reflexivity.
Defined.

Definition binance_stats : ExchangeStats := new_stats <| ex_name := $"Binance" |>.

Lemma binance_first : exchanges_ new_tracker !! 0%nat = Some binance_stats.
Proof. reflexivity. Qed.

Lemma tracker_attribution_witness :
  exists t, run_ops 3000000000 [($"Kraken", 100, 700, 0); ($"Elsewhere", 100, 400, 1); ($"Kraken", 9, 9, 0)]
              new_tracker = Some t /\
    (count <$> exchanges_ t !! 0%nat) = Some 1 /\ (total_ns <$> exchanges_ t !! 0%nat) = Some 100.
Proof.
  destruct (tracker_attribution 3000000000 [($"Kraken", 100, 700, 0); ($"Elsewhere", 100, 400, 1); ($"Kraken", 9, 9, 0)]
    0 binance_stats ltac:(lia) binance_first) as (t & Ht & Hs).
  exists t. rewrite Hs. split_and!; [exact Ht|vm_compute; reflexivity..].
Defined.
