(* ===== verification/ExchangeQueue.v ===== *)
(** * Shared ticker queues (src/exchange_queue.hpp)

    [MutexSharedQueue] and [MPSCSharedQueue], the two implementations of
    [SharedQueue] chosen at compile time, with the drain into the market data
    map.  Their common behaviour is proved once against the queue interface:
    a mutex-protected [std::queue] never refuses, the lock-free ring refuses
    when it holds [QUEUE_SIZE] tickers and counts the refusals.

    Counter readings are arguments.  A mutex makes [push] and [drain_all] of
    the first queue atomic; for the second, [MpscRing] shows what interleaved
    calls do, and this file runs the calls one after the other. *)

From S2P Require Import Prelude Float64 Types Queues Timing QueueTracker MpscRing.

(** [MarketDataMap] *)
Abbreviation MarketDataMap := (gmap bytes TickerData).

Definition store_ticker (market_data : MarketDataMap) (ticker : TickerData) : MarketDataMap :=
  <[make_ticker_key (td_exchange ticker) (td_symbol ticker) := ticker]> market_data.

(** A ticker with the counter readings around its push. *)
Record Push := mkPush { ticker : TickerData; start_tsc : Z; end_tsc : Z }.

Section shared_queue.
Context {Q : Type} `{BoundedQueue Q TickerData} (tsc_frequency : Z).

Record SharedQueue := mkSharedQueue { queue_ : Q; dropped : Z; latency : Tracker }.
#[local] Instance SharedQueue_settable : Settable SharedQueue :=
  fun s => mkSharedQueue (queue_ s) (dropped s) (latency s).

(** [push]: both classes read the occupancy before they push, and record the
    operation whether it succeeded or not. *)
Definition sq_push (p : Push) (s : SharedQueue) : ub SharedQueue :=
  let exchange := td_exchange (ticker p) in
  let occupancy := q_size (queue_ s) in
  '(ok, q) ← q_push (ticker p) (queue_ s);
  t ← record_operation tsc_frequency exchange (start_tsc p) (end_tsc p) occupancy (latency s);
  Some (mkSharedQueue q (if ok : bool then dropped s else wrap64 (dropped s + 1)) t).

Fixpoint sq_push_all (ps : list Push) (s : SharedQueue) : ub SharedQueue :=
  match ps with
  | [] => Some s
  | p :: ps => s ← sq_push p s; sq_push_all ps s
  end.

(** [drain_all]: the map and the number of tickers drained. *)
Definition drain_all (fuel : nat) (market_data : MarketDataMap) (s : SharedQueue) :
    option (MarketDataMap * Z * SharedQueue) :=
  '((md, count), q) ← drain fuel (fun '(md, count) t => (store_ticker md t, wrap64 (count + 1))) (queue_ s) (market_data, 0);
  Some (md, count, s <| queue_ := q |>).

(** ** Behaviour *)

(** The last of a list of tickers with a key. *)
Definition last_with (key : bytes) (ts : list TickerData) : option TickerData :=
  last (filter (fun t => make_ticker_key (td_exchange t) (td_symbol t) = key) ts).

Lemma store_all_lookup ts md key :
  foldl store_ticker md ts !! key = match last_with key ts with Some t => Some t | None => md !! key end.
Proof.
  induction ts as [|t ts IH] using rev_ind; [done|].
  unfold last_with in *. rewrite foldl_snoc, filter_app, filter_cons, filter_nil.
  change (store_ticker ?m t) with (<[make_ticker_key (td_exchange t) (td_symbol t) := t]> m).
  destruct (decide (make_ticker_key (td_exchange t) (td_symbol t) = key)) as [<-|Hne].
  - rewrite lookup_insert_eq. by rewrite last_snoc.
  - rewrite lookup_insert_ne by done. by rewrite app_nil_r.
Qed.

Lemma drain_count ts md c :
  0 <= c -> c + Z.of_nat (length ts) < two64 ->
  foldl (fun '(md, count) t => (store_ticker md t, wrap64 (count + 1))) (md, c) ts =
    (foldl store_ticker md ts, c + Z.of_nat (length ts)).
Proof.
  revert md c. induction ts as [|t ts IH]; simpl; intros md c Hc Hl; [f_equal; lia|].
  rewrite wrap64_small by (unfold in_u64; lia). rewrite IH by lia. f_equal. lia.
Qed.

Lemma record_total f e a b o t : 0 < f -> exists t', record_operation f e a b o t = Some t'.
Proof.
  intros Hf. unfold record_operation. repeat (case_match; [by eexists|]).
  unfold cycles_to_ns, udiv. rewrite (proj2 (Z.eqb_neq _ _)) by lia. by eexists.
Qed.

(** The occupancies recorded while pushing. *)
Fixpoint occupancies (l xs : list TickerData) : list Z :=
  match xs with
  | [] => []
  | x :: xs => Z.of_nat (length l) :: occupancies (if q_room l then l ++ [x] else l) xs
  end.

Definition push_ops (ps : list Push) (occs : list Z) : list (bytes * Z * Z * Z) :=
  zip_with (fun p o => (td_exchange (ticker p), start_tsc p, end_tsc p, o)) ps occs.

Lemma sq_push_all_spec ps n s l t0 ops :
  0 < tsc_frequency -> q_holds (length ps + n) (queue_ s) l ->
  run_ops tsc_frequency ops t0 = Some (latency s) ->
  0 <= dropped s -> dropped s + Z.of_nat (length ps) < two64 ->
  let kept := accepted l (map ticker ps) in
  exists s', sq_push_all ps s = Some s' /\ q_holds n (queue_ s') kept /\
    dropped s' = dropped s + Z.of_nat (length l + length ps - length kept) /\
    (length kept <= length l + length ps)%nat /\
    run_ops tsc_frequency (ops ++ push_ops ps (occupancies l (map ticker ps))) t0 = Some (latency s').
Proof.
  intros Hf. revert s l ops. induction ps as [|p ps IH]; simpl; intros s l ops Hq Hlat Hd Hdl.
  - exists s. rewrite app_nil_r. split_and!; [done|done| |lia|done]. lia.
  - unfold sq_push. rewrite (q_size_holds _ _ _ Hq).
    destruct (record_total tsc_frequency (td_exchange (ticker p)) (start_tsc p) (end_tsc p) (Z.of_nat (length l))
                (latency s) Hf) as [t' Ht'].
    assert (Hops : run_ops tsc_frequency (ops ++ [(td_exchange (ticker p), start_tsc p, end_tsc p, Z.of_nat (length l))]) t0
                   = Some t').
    { unfold run_ops in *. rewrite foldl_snoc, Hlat. simpl. exact Ht'. }
    destruct (q_room l) eqn:Hr.
    + destruct (q_push_room _ _ _ (ticker p) Hq Hr) as (q' & -> & Hq'). simpl. rewrite Ht'. simpl.
      destruct (IH (mkSharedQueue q' (dropped s) t') (l ++ [ticker p]) _ Hq' Hops Hd ltac:(simpl; lia))
        as (s' & -> & H1 & H2 & H3 & H4).
      exists s'. rewrite length_app in H2, H3. simpl in H2, H3, H4. rewrite <-app_assoc in H4.
      split_and!; [done|done|rewrite H2; f_equal; f_equal; lia|lia|exact H4].
    + destruct (q_push_full _ _ _ (ticker p) Hq Hr) as (q' & -> & Hq'). simpl. rewrite Ht'. simpl.
      assert (Hw : wrap64 (dropped s + 1) = dropped s + 1) by (apply wrap64_small; unfold in_u64; lia).
      destruct (IH (mkSharedQueue q' (wrap64 (dropped s + 1)) t') l _
                  (q_holds_le _ _ _ _ (Nat.le_succ_diag_r _) Hq') Hops ltac:(simpl; lia) ltac:(simpl; lia))
        as (s' & -> & H1 & H2 & H3 & H4).
      exists s'. simpl in H2, H3, H4. rewrite Hw in H2. rewrite <-app_assoc in H4.
      split_and!; [done|done|rewrite H2; lia|lia|exact H4].
Qed.

(** Pushing any tickers into an empty queue and draining loses nothing but what
    the queue refuses: every refusal is counted, the drained count is the number
    of tickers kept, each key of the map then has the last kept ticker with that
    key (or what it had), the queue is left empty, and each operation is
    recorded under its exchange with the occupancy the push met. *)
Lemma push_then_drain ps n s md fuel :
  0 < tsc_frequency -> q_holds (length ps + n) (queue_ s) [] -> (length ps < fuel)%nat ->
  0 <= dropped s -> dropped s + Z.of_nat (length ps) < two64 ->
  let kept := accepted [] (map ticker ps) in
  exists s1 s2,
    sq_push_all ps s = Some s1 /\
    drain_all fuel md s1 = Some (foldl store_ticker md kept, Z.of_nat (length kept), s2) /\
    dropped s2 + Z.of_nat (length kept) = dropped s + Z.of_nat (length ps) /\ (length kept <= length ps)%nat /\
    q_holds n (queue_ s2) [] /\
    run_ops tsc_frequency (push_ops ps (occupancies [] (map ticker ps))) (latency s) = Some (latency s2).
Proof.
  intros Hf Hq Hfuel Hd0 Hl kept.
  destruct (sq_push_all_spec ps n s [] (latency s) [] Hf Hq eq_refl Hd0 Hl)
    as (s1 & Hs & Hq' & Hd & Hle & Hops). simpl in Hd, Hle, Hops. fold kept in Hq', Hd, Hle.
  destruct (drain_spec (fun '(md, count) t => (store_ticker md t, wrap64 (count + 1))) n (queue_ s1) kept (md, 0) fuel Hq'
              ltac:(lia)) as (q' & Hdr & Hq'').
  rewrite drain_count in Hdr by lia.
  exists s1, (s1 <| queue_ := q' |>). split_and!; [done| |simpl; lia|lia|done|done].
  unfold drain_all. by rewrite Hdr.
Qed.

(** The producers' pushes and the consumer's drains, one drain after each batch
    of pushes: the map at the end, and what each drain returned. *)
Fixpoint rounds (rs : list (list Push)) (md : MarketDataMap) (s : SharedQueue) :
    option (MarketDataMap * list Z * SharedQueue) :=
  match rs with
  | [] => Some (md, [], s)
  | ps :: rs =>
      s ← sq_push_all ps s;
      '(md, count, s) ← drain_all (S (length ps)) md s;
      '(md, counts, s) ← rounds rs md s;
      Some (md, count :: counts, s)
  end.

Lemma rounds_spec rs n s md :
  0 < tsc_frequency -> q_holds (length (concat rs) + n) (queue_ s) [] ->
  0 <= dropped s -> dropped s + Z.of_nat (length (concat rs)) < two64 ->
  let kept ps := accepted [] (map ticker ps) in
  exists s', rounds rs md s =
      Some (foldl store_ticker md (concat (map kept rs)), map (fun ps => Z.of_nat (length (kept ps))) rs, s') /\
    q_holds n (queue_ s') [] /\
    dropped s' + Z.of_nat (length (concat (map kept rs))) = dropped s + Z.of_nat (length (concat rs)).
Proof.
  intros Hf Hq Hd Hl kept. revert s md Hq Hd Hl. induction rs as [|ps rs IH]; simpl; intros s md Hq Hd Hl.
  { exists s. by split_and!. }
  rewrite length_app in Hq, Hl. rewrite <-Nat.add_assoc in Hq.
  destruct (push_then_drain ps (length (concat rs) + n) s md (S (length ps)) Hf Hq ltac:(lia) Hd ltac:(lia))
    as (s1 & s2 & -> & H2 & H3 & Hk & H4 & _). simpl. rewrite H2. simpl. fold (kept ps) in H3, Hk.
  destruct (IH s2 (foldl store_ticker md (kept ps)) H4 ltac:(lia) ltac:(lia)) as (s' & E & H5 & H6).
  fold (kept ps). rewrite E. simpl. exists s'. rewrite foldl_app, !length_app. split_and!; [done|done|lia].
Qed.
End shared_queue.
Arguments SharedQueue Q : clear implicits.

(** ** The two implementations *)

(** [MutexSharedQueue]: nothing is ever refused. *)
Definition MutexSharedQueue := SharedQueue (list TickerData).
Definition new_mutex_queue : MutexSharedQueue := mkSharedQueue [] 0 new_tracker.

(** [MPSCSharedQueue], with 4096 slots. *)
Definition QUEUE_BITS : nat := 12.
Definition MPSCSharedQueue := SharedQueue (@MRing TickerData).

Lemma QUEUE_BITS_ok : (1 <= QUEUE_BITS <= 61)%nat.
Proof. unfold QUEUE_BITS. lia. Qed.

#[export] Instance mpsc_shared : BoundedQueue (@MRing TickerData) TickerData := mpsc_queue QUEUE_BITS QUEUE_BITS_ok.

Definition new_mpsc_queue (d : TickerData) : MPSCSharedQueue := mkSharedQueue (new_mring QUEUE_BITS d) 0 new_tracker.

Lemma accepted_all (l ts : list TickerData) : accepted (Q := list TickerData) l ts = l ++ ts.
Proof. revert l. induction ts as [|t ts IH]; simpl; intros l; [by rewrite app_nil_r|]. rewrite IH. by rewrite <-app_assoc. Qed.

Lemma accepted_ring (l ts : list TickerData) :
  (length l <= 4096)%nat ->
  accepted (Q := @MRing TickerData) l ts = l ++ take (4096 - length l) ts.
Proof.
  assert (HM : MSize QUEUE_BITS = Z.of_nat 4096) by (vm_compute; reflexivity).
  generalize dependent 4096%nat. intros N HM.
  revert l. induction ts as [|t ts IH]; intros l Hl; [by rewrite take_nil, app_nil_r|].
  cbn [accepted q_room mpsc_shared mpsc_queue]. rewrite HM. destruct (Z.ltb_spec (Z.of_nat (length l)) (Z.of_nat N)).
  - rewrite IH by (rewrite length_app; simpl; lia). rewrite length_app. simpl.
    replace (N - length l)%nat with (S (N - (length l + 1))) by lia. by rewrite <-app_assoc.
  - rewrite IH by lia. by replace (N - length l)%nat with 0%nat by lia.
Qed.

Lemma new_mpsc_holds n d :
  Z.of_nat n + 1 < 2 ^ 62 -> q_holds n (new_mring QUEUE_BITS d) ([] : list TickerData).
Proof. intros Hn. exists []. split; [apply (new_mmachine_ok QUEUE_BITS QUEUE_BITS_ok d)|simpl; lia]. Qed.

Lemma mutex_rounds f rs md :
  0 < f -> Z.of_nat (length (concat rs)) + 1 < 2 ^ 62 ->
  exists s, rounds f rs md new_mutex_queue =
      Some (foldl store_ticker md (concat (map (map ticker) rs)), map (fun ps => Z.of_nat (length ps)) rs, s) /\
    queue_ s = [] /\ dropped s = 0.
Proof.
  intros Hf Hl. assert (H0 : q_holds (length (concat rs) + 0) (queue_ new_mutex_queue) []) by reflexivity.
  destruct (rounds_spec f rs 0 new_mutex_queue md Hf H0 ltac:(simpl; lia) ltac:(simpl; unfold two64; lia)) as (s & E & H1 & H2).
  assert (Ek : forall ps : list Push, accepted (Q := list TickerData) [] (map ticker ps) = map ticker ps)
    by (intros; by rewrite accepted_all).
  rewrite !(map_ext _ _ Ek) in E. exists s. split_and!; [rewrite E; do 3 f_equal|exact H1|].
  - apply map_ext. intros ps. by rewrite Ek, length_map.
  - rewrite (map_ext _ _ Ek), <-concat_map, length_map in H2. simpl in H2. lia.
Qed.

Lemma mpsc_rounds f rs d md :
  0 < f -> Z.of_nat (length (concat rs)) + 1 < 2 ^ 62 ->
  exists s, rounds f rs md (new_mpsc_queue d) =
      Some (foldl store_ticker md (concat (map (fun ps => take 4096 (map ticker ps)) rs)),
            map (fun ps => Z.of_nat (length ps `min` 4096)) rs, s) /\
    q_pop (queue_ s) = Some (None, queue_ s) /\
    dropped s = Z.of_nat (sum_list_with (fun ps => length ps - 4096)%nat rs).
Proof.
  intros Hf Hl.
  destruct (rounds_spec f rs 0 (new_mpsc_queue d) md Hf (new_mpsc_holds (length (concat rs) + 0) d ltac:(lia))
              ltac:(simpl; lia) ltac:(simpl; unfold two64; lia)) as (s & E & H1 & H2).
  assert (Ek : forall ps : list Push, accepted (Q := @MRing TickerData) [] (map ticker ps) = take 4096 (map ticker ps)).
  { intros ps. rewrite accepted_ring by apply Nat.le_0_l. reflexivity. }
  rewrite (map_ext _ _ Ek) in E. exists s. split_and!; [rewrite E; do 3 f_equal|by apply (q_pop_nil 0)|].
  - apply map_ext. intros ps. rewrite Ek, length_take, length_map. f_equal. lia.
  - rewrite (map_ext _ _ Ek) in H2. cbn [dropped new_mpsc_queue] in H2. clear -H2.
    assert (Es : (length (concat (map (fun ps => take 4096 (map ticker ps)) rs)) + sum_list_with (fun ps => length ps - 4096) rs
                  = length (concat rs))%nat); [|lia].
    clear. induction rs as [|ps rs IH]; [done|]. cbn [map concat sum_list_with].
    rewrite !length_app, length_take, length_map. lia.
Qed.

(** Batches within the capacity. *)
Lemma short_rounds rs :
  Forall (fun ps : list Push => (length ps <= 4096)%nat) rs ->
  map (fun ps => take 4096 (map ticker ps)) rs = map (map ticker) rs /\
  map (fun ps => Z.of_nat (length ps `min` 4096)) rs = map (fun ps => Z.of_nat (length ps)) rs /\
  sum_list_with (fun ps => length ps - 4096)%nat rs = 0%nat.
Proof.
  induction 1 as [|ps rs Hps _ (E1 & E2 & E3)]; [done|]. cbn [map sum_list_with]. rewrite E1, E2, E3.
  split_and!; [|f_equal; f_equal; lia|lia]. by rewrite take_ge by (by rewrite length_map).
Qed.

(** C30: the two queues under the same rounds, each a batch of pushes and a
    drain, from new queues and for fewer than 2^62 pushes in all.  The mutex
    queue keeps every ticker; the lock-free one keeps the first 4096 of each
    batch and counts the others as dropped; each drain returns the number of
    tickers kept and leaves the queue empty for the next round, and at the end
    each key of the map has the last kept ticker with that key, or what it had
    before.  So with at most 4096 pushes between drains the two are
    interchangeable: the same counts, the same map and no drop. *)
Theorem shared_queues_deliver f rs d md :
  0 < f -> Z.of_nat (length (concat rs)) + 1 < 2 ^ 62 ->
  let all ps := map ticker ps in
  let first ps := take 4096 (map ticker ps) in
  (exists s, rounds f rs md new_mutex_queue =
       Some (foldl store_ticker md (concat (map all rs)), map (fun ps => Z.of_nat (length ps)) rs, s) /\
     queue_ s = [] /\ dropped s = 0) /\
  (exists s, rounds f rs md (new_mpsc_queue d) =
       Some (foldl store_ticker md (concat (map first rs)), map (fun ps => Z.of_nat (length ps `min` 4096)) rs, s) /\
     q_pop (queue_ s) = Some (None, queue_ s) /\
     dropped s = Z.of_nat (sum_list_with (fun ps => length ps - 4096)%nat rs)) /\
  (Forall (fun ps => (length ps <= 4096)%nat) rs -> exists md' counts s s',
     rounds f rs md new_mutex_queue = Some (md', counts, s) /\
     rounds f rs md (new_mpsc_queue d) = Some (md', counts, s') /\ dropped s = 0 /\ dropped s' = 0) /\
  (forall ts key, foldl store_ticker md ts !! key =
     match last_with key ts with Some x => Some x | None => md !! key end).
Proof.
  intros Hf Hl all first.
  destruct (mutex_rounds f rs md Hf Hl) as (s & Hs & Hq & Hd).
  destruct (mpsc_rounds f rs d md Hf Hl) as (s' & Hs' & Hq' & Hd').
  split_and!; [by exists s|by exists s'| |intros ts key; apply store_all_lookup].
  intros Hall. destruct (short_rounds rs Hall) as (E1 & E2 & E3).
  eexists _, _, s, s'. split_and!; [exact Hs|rewrite Hs', E1, E2; done|exact Hd|by rewrite Hd', E3].
Qed.

Definition ex_ticker (e : bytes) (p : Z) : TickerData := mkTickerData $"BTCUSDT" e (dZ p) (dZ (p + 1)) (dZ 1) (dZ 1) 0 0.

Definition ex_pushes : list Push :=
  [mkPush (ex_ticker $"Binance" 100) 5 9; mkPush (ex_ticker $"Kraken" 101) 6 8; mkPush (ex_ticker $"Binance" 102) 10 12].

(** Two rounds, the second of them on the emptied queues. *)
Definition ex_rounds : list (list Push) := [ex_pushes; [mkPush (ex_ticker $"Kraken" 103) 14 15]].

Lemma shared_queues_deliver_witness :
  exists md s s', rounds 1 ex_rounds ∅ new_mutex_queue = Some (md, [3; 1], s) /\
    rounds 1 ex_rounds ∅ (new_mpsc_queue (ex_ticker [] 0)) = Some (md, [3; 1], s') /\ dropped s' = 0 /\
    md !! $"Kraken:BTCUSDT" = Some (ex_ticker $"Kraken" 103).
Proof.
  destruct (shared_queues_deliver 1 ex_rounds (ex_ticker [] 0) ∅ ltac:(lia) ltac:(vm_compute; reflexivity))
    as ((s & H1 & _) & _ & H3 & H4).
  destruct H3 as (md & counts & s1 & s' & E1 & E2 & _ & E4).
  { repeat (constructor; [apply Nat.leb_le; reflexivity|]). constructor. }
  rewrite H1 in E1. injection E1 as <- <- <-. eexists _, s, s'.
  split_and!; [exact H1|exact E2|exact E4|]. rewrite H4. vm_compute. reflexivity.
Defined.
