(* ===== verification/LatencyMonitor.v ===== *)
(** * Latency monitor (src/latency_measurement.hpp, src/latency_monitor.hpp)

    Messages are numbered when they enter, stamped at measurement points while
    they are active, and handed through a ring to a background thread that
    turns them into histograms of four metrics.  The mutexes make each
    operation atomic; counter readings are arguments; the ring is any
    implementation of the queue interface (the program's is a
    [BlockingSPSCRingBuffer] of 2^20 slots).  The thread is in
    [MonitorThread], the printed report and the CSV header in
    [LatencyReports]. *)

From Stdlib Require Import ZArith Lia.
From S2P Require Import Prelude Float64 Queues Timing HdrHistogram SpscRing.

(** ** Measurements *)

Inductive MeasurementPoint :=
  | WEBSOCKET_RECV | JSON_PARSED | QUEUE_ENQUEUED | QUEUE_DEQUEUED
  | ENGINE_RECEIVED | ARBITRAGE_CALCULATED | DASHBOARD_UPDATED.

#[export] Instance MeasurementPoint_eq_dec : EqDecision MeasurementPoint.
Proof. solve_decision. Defined.

Definition point_index (p : MeasurementPoint) : nat :=
  match p with
  | WEBSOCKET_RECV => 0 | JSON_PARSED => 1 | QUEUE_ENQUEUED => 2 | QUEUE_DEQUEUED => 3
  | ENGINE_RECEIVED => 4 | ARBITRAGE_CALCULATED => 5 | DASHBOARD_UPDATED => 6
  end.

Definition MAX_POINTS : nat := 7.

Record LatencyMeasurement := mkLatencyMeasurement {
  message_id : Z;
  timestamps : list Z;
  lm_symbol : bytes;
  lm_exchange : bytes;
}.
#[export] Instance LatencyMeasurement_settable : Settable LatencyMeasurement := fun m =>
  mkLatencyMeasurement (message_id m) (timestamps m) (lm_symbol m) (lm_exchange m).

Definition new_measurement : LatencyMeasurement := mkLatencyMeasurement 0 (replicate MAX_POINTS 0) [] [].

Definition record_point (point : MeasurementPoint) (ts : Z) (m : LatencyMeasurement) : LatencyMeasurement :=
  m <| timestamps := <[point_index point := ts]> (timestamps m) |>.

Definition get_timestamp (m : LatencyMeasurement) (point : MeasurementPoint) : Z :=
  default 0 (timestamps m !! point_index point).

Definition has_point (m : LatencyMeasurement) (point : MeasurementPoint) : bool := negb (get_timestamp m point =? 0).

Definition latency_cycles (m : LatencyMeasurement) (start stop : MeasurementPoint) : Z :=
  if negb (has_point m start) || negb (has_point m stop) then 0
  else
    let start_ts := get_timestamp m start in
    let end_ts := get_timestamp m stop in
    if start_ts <? end_ts then end_ts - start_ts else 0.

(** [LatencyStats] *)
Record LatencyStats := mkLatencyStats {
  ls_count : Z; ls_min_ns : Z; ls_max_ns : Z; ls_sum_ns : Z; ls_sum_squared_ns : Z;
}.

Definition new_latency_stats : LatencyStats := mkLatencyStats 0 UINT64_MAX 0 0 0.

Definition update_stats (latency_ns : Z) (s : LatencyStats) : LatencyStats :=
  {| ls_count := wrap64 (ls_count s + 1);
     ls_min_ns := if latency_ns <? ls_min_ns s then latency_ns else ls_min_ns s;
     ls_max_ns := if ls_max_ns s <? latency_ns then latency_ns else ls_max_ns s;
     ls_sum_ns := wrap64 (ls_sum_ns s + latency_ns);
     ls_sum_squared_ns := wrap64 (ls_sum_squared_ns s + wrap64 (latency_ns * latency_ns)) |}.

Definition ls_mean_ns (s : LatencyStats) : double :=
  if 0 <? ls_count s then ddiv (dZ (ls_sum_ns s)) (dZ (ls_count s)) else dzero.

Definition std_dev_ns (s : LatencyStats) : double :=
  if ls_count s =? 0 then dzero
  else
    let mean := ls_mean_ns s in
    let variance := dsub (ddiv (dZ (ls_sum_squared_ns s)) (dZ (ls_count s))) (dmul mean mean) in
    if dgt variance dzero then dsqrt variance else dzero.

Inductive LatencyMetric := PARSING | QUEUE_TRANSIT | ENGINE_PROCESSING | END_TO_END.

Definition all_metrics : list LatencyMetric := [PARSING; QUEUE_TRANSIT; ENGINE_PROCESSING; END_TO_END].

Definition metric_name (metric : LatencyMetric) : bytes :=
  match metric with
  | PARSING => $"Parsing" | QUEUE_TRANSIT => $"Queue Transit"
  | ENGINE_PROCESSING => $"Engine Processing" | END_TO_END => $"End-to-End"
  end.

Definition calculate_metric_cycles (m : LatencyMeasurement) (metric : LatencyMetric) : Z :=
  match metric with
  | PARSING => latency_cycles m WEBSOCKET_RECV JSON_PARSED
  | QUEUE_TRANSIT => latency_cycles m QUEUE_ENQUEUED QUEUE_DEQUEUED
  | ENGINE_PROCESSING => latency_cycles m ENGINE_RECEIVED ARBITRAGE_CALCULATED
  | END_TO_END => latency_cycles m WEBSOCKET_RECV DASHBOARD_UPDATED
  end.

(** ** The monitor *)

Record Config := mkConfig { enabled : bool; sample_buffer_size : Z; warmup_samples : Z; report_interval_ms : Z }.

Definition default_config : Config := mkConfig true 1048576 1000 5000.

Section monitor.
Context {Q : Type} `{BoundedQueue Q LatencyMeasurement}.

(** [histograms_] has one entry per metric, in the order of the enumeration. *)
Record Monitor := mkMonitor {
  config_ : Config;
  sample_buffer_ : option Q;
  next_message_id_ : Z;
  samples_collected_ : Z;
  rdtsc_overhead_ns_ : Z;
  active_measurements_ : gmap Z LatencyMeasurement;
  histograms_ : list HDRHistogram;
}.
#[local] Instance Monitor_settable : Settable Monitor := fun m =>
  mkMonitor (config_ m) (sample_buffer_ m) (next_message_id_ m) (samples_collected_ m) (rdtsc_overhead_ns_ m)
    (active_measurements_ m) (histograms_ m).

(** The constructor, with the empty ring and the measured overhead. *)
Definition new_monitor (config : Config) (buffer : Q) (overhead : Z) : Monitor :=
  if enabled config then
    mkMonitor config (Some buffer) 0 0 overhead ∅ (map (fun _ => new_hdr 10000000 3) all_metrics)
  else mkMonitor config None 0 0 0 ∅ [].

Definition start_measurement (symbol exchange : bytes) (m : Monitor) : Z * Monitor :=
  if enabled (config_ m) then
    let msg_id := next_message_id_ m in
    let measurement := mkLatencyMeasurement msg_id (timestamps new_measurement) symbol exchange in
    (msg_id, m <| next_message_id_ := wrap64 (msg_id + 1) |>
               <| active_measurements_ := <[msg_id := measurement]> (active_measurements_ m) |>)
  else (0, m).

Definition record_timestamp (message_id : Z) (point : MeasurementPoint) (timestamp : Z) (m : Monitor) : Monitor :=
  if negb (enabled (config_ m)) || (message_id =? 0) then m
  else m <| active_measurements_ := alter (record_point point timestamp) message_id (active_measurements_ m) |>.

Definition complete_measurement (message_id : Z) (m : Monitor) : ub Monitor :=
  if negb (enabled (config_ m)) || (message_id =? 0) then Some m
  else
    match active_measurements_ m !! message_id with
    | None => Some m
    | Some measurement =>
        let m := m <| active_measurements_ := delete message_id (active_measurements_ m) |> in
        match sample_buffer_ m with
        | None => Some m
        | Some b =>
            match q_push measurement b with
            | Some (_, b') => Some (m <| sample_buffer_ := Some b' |>)
            | None => None
            end
        end
    end.

(** What a sample adds to the histogram of a metric. *)
Definition metric_ns (tsc_frequency overhead : Z) (sample : LatencyMeasurement) (metric : LatencyMetric) : ub (option Z) :=
  let cycles := calculate_metric_cycles sample metric in
  if 0 <? cycles then
    ns ← cycles_to_ns tsc_frequency cycles;
    Some (Some (if overhead <? ns then ns - overhead else ns))
  else Some None.

Fixpoint record_metrics (tsc_frequency overhead : Z) (sample : LatencyMeasurement) (metrics : list LatencyMetric)
    (hs : list HDRHistogram) : ub (list HDRHistogram) :=
  match metrics, hs with
  | metric :: metrics, h :: hs =>
      ns ← metric_ns tsc_frequency overhead sample metric;
      hs' ← record_metrics tsc_frequency overhead sample metrics hs;
      Some (from_option (record h) h ns :: hs')
  | _, hs => Some hs
  end.

Definition process_sample (tsc_frequency : Z) (sample : LatencyMeasurement) (m : Monitor) : ub Monitor :=
  let sample_count := samples_collected_ m in
  let m1 := m <| samples_collected_ := wrap64 (sample_count + 1) |> in
  if sample_count <? warmup_samples (config_ m) then Some m1
  else
    hs ← record_metrics tsc_frequency (rdtsc_overhead_ns_ m) sample all_metrics (histograms_ m);
    Some (m1 <| histograms_ := hs |>).

Definition process_step (f : Z) (r : ub Monitor) (s : LatencyMeasurement) : ub Monitor :=
  m ← r; process_sample f s m.

(** [while (sample_buffer_->try_pop(sample)) process_sample(sample);] *)
Definition drain_samples (fuel : nat) (tsc_frequency : Z) (m : Monitor) : option Monitor :=
  b ← sample_buffer_ m;
  '(r, b') ← drain fuel (process_step tsc_frequency) b (Some m);
  m' ← r;
  Some (m' <| sample_buffer_ := Some b' |>).

Record StatsSnapshot := mkStatsSnapshot { metrics : list Percentiles; total_samples : Z; rdtsc_overhead_ns : Z }.

Definition get_stats (m : Monitor) : ub StatsSnapshot :=
  ps ← mapM get_common_percentiles (histograms_ m);
  Some (mkStatsSnapshot ps (samples_collected_ m) (rdtsc_overhead_ns_ m)).

(** ** The life of a measurement *)

Inductive MonitorOp :=
  | StartOp (symbol exchange : bytes)
  | RecordOp (id : Z) (point : MeasurementPoint) (timestamp : Z)
  | CompleteOp (id : Z).

Definition monitor_op (op : MonitorOp) (m : Monitor) : ub Monitor :=
  match op with
  | StartOp s e => Some (start_measurement s e m).2
  | RecordOp id p ts => Some (record_timestamp id p ts m)
  | CompleteOp id => complete_measurement id m
  end.

Fixpoint monitor_run (ops : list MonitorOp) (m : Monitor) : ub Monitor :=
  match ops with
  | [] => Some m
  | op :: ops => m' ← monitor_op op m; monitor_run ops m'
  end.

(** The last stamp of a message at a point, [0] when there is none. *)
Fixpoint stamp (id : Z) (p : MeasurementPoint) (ts : Z) (ops : list MonitorOp) : Z :=
  match ops with
  | [] => ts
  | RecordOp id' p' ts' :: ops => stamp id p (if decide (id' = id /\ p' = p) then ts' else ts) ops
  | _ :: ops => stamp id p ts ops
  end.

Lemma get_timestamp_record p q ts s :
  length (timestamps s) = MAX_POINTS ->
  get_timestamp (record_point p ts s) q = if decide (p = q) then ts else get_timestamp s q.
Proof.
  intros Hl. unfold get_timestamp, record_point. simpl. destruct (decide (p = q)) as [->|Hne].
  - rewrite list_lookup_insert_eq; [done|]. rewrite Hl. destruct q; simpl; unfold MAX_POINTS; lia.
  - rewrite list_lookup_insert_ne; [done|]. destruct p, q; done.
Qed.

(** Message [id] is active with these stamps. *)
Definition tracked (m : Monitor) (id : Z) (symbol exchange : bytes) (ts : MeasurementPoint -> Z) : Prop :=
  exists s, active_measurements_ m !! id = Some s /\
    message_id s = id /\ lm_symbol s = symbol /\ lm_exchange s = exchange /\
    length (timestamps s) = MAX_POINTS /\ forall p, get_timestamp s p = ts p.

Fixpoint starts (ops : list MonitorOp) : Z :=
  match ops with
  | [] => 0
  | StartOp _ _ :: ops => 1 + starts ops
  | _ :: ops => starts ops
  end.

Lemma complete_fields id m m' :
  complete_measurement id m = Some m' ->
  config_ m' = config_ m /\ next_message_id_ m' = next_message_id_ m /\
  (forall id', id' <> id -> active_measurements_ m' !! id' = active_measurements_ m !! id') /\
  (id = 0 -> active_measurements_ m' = active_measurements_ m).
Proof.
  unfold complete_measurement. destruct (_ || _) eqn:E; [by intros [= <-]|].
  apply orb_false_iff in E as [_ E]. apply Z.eqb_neq in E.
  destruct (_ !! id); [|by intros [= <-]]. simpl. destruct (sample_buffer_ m) as [b|].
  - destruct (q_push l b) as [[ok b']|]; [|done]. intros [= <-]. simpl. split_and!; [done|done| |done].
    intros id' Hne. by rewrite lookup_delete_ne.
  - intros [= <-]. simpl. split_and!; [done|done| |done]. intros id' Hne. by rewrite lookup_delete_ne.
Qed.
Lemma starts_nonneg ops : 0 <= starts ops.
Proof. induction ops as [|[] ops IH]; simpl; lia. Qed.

(** Operations on other messages leave a message alone. *)
Lemma tracked_run id sy ex ops m m' ts :
  enabled (config_ m) = true -> 0 < id < next_message_id_ m -> next_message_id_ m + starts ops < two64 ->
  CompleteOp id ∉ ops -> tracked m id sy ex ts -> monitor_run ops m = Some m' ->
  tracked m' id sy ex (fun p => stamp id p (ts p) ops) /\ enabled (config_ m') = true.
Proof.
  revert m ts. induction ops as [|op ops IH]; simpl; intros m ts Hen Hid Hn Hc Ht.
  - by intros [= <-].
  - intros (m1 & H1 & H2)%bind_Some. apply not_elem_of_cons in Hc as [Hop Hc].
    destruct op as [s e|id' p ts'|id']; simpl in *.
    + injection H1 as <-. unfold start_measurement in H2. rewrite Hen in H2. simpl in H2.
      pose proof (starts_nonneg ops) as Hs.
      eapply IH; [| | | | |exact H2]; simpl; [done| | |done|].
      * rewrite wrap64_small by (unfold in_u64; lia). lia.
      * rewrite wrap64_small by (unfold in_u64; lia). lia.
      * destruct Ht as (x & Hx & ?). exists x. simpl. rewrite lookup_insert_ne by lia. done.
    + injection H1 as <-. unfold record_timestamp in H2. rewrite Hen in H2. simpl in H2.
      destruct (Z.eqb_spec id' 0) as [->|Hne].
      * destruct (IH m ts Hen Hid Hn Hc Ht H2) as [HT ?]. split; [|done].
        destruct HT as (x & Hx & ? & ? & ? & ? & Hp). exists x. split_and!; try done.
        intros q. rewrite Hp. rewrite decide_False; [done|]. lia.
      * refine (IH _ (fun q => if decide (id' = id /\ p = q) then ts' else ts q) _ _ _ Hc _ H2); [done..|].
        destruct Ht as (x & Hx & H3 & H4 & H5 & H6 & Hp). simpl. destruct (decide (id' = id)) as [->|Hd].
        -- exists (record_point p ts' x). simpl. rewrite lookup_alter_eq, Hx. split_and!; try done.
           { by rewrite length_insert. }
           intros q. rewrite get_timestamp_record by done. rewrite Hp.
           destruct (decide (p = q)); [by rewrite decide_True|by rewrite decide_False by tauto].
        -- exists x. simpl. rewrite lookup_alter_ne by done. split_and!; try done.
           intros q. rewrite Hp. by rewrite decide_False by tauto.
    + destruct (complete_fields _ _ _ H1) as (Hcf & Hnx & Hoth & _).
      eapply IH; [| | | | |exact H2]; rewrite ?Hcf, ?Hnx; try done.
      destruct Ht as (x & Hx & ?). exists x. rewrite Hoth by congruence. done.
Qed.

(** a message is followed from start to completion whatever happens to
    the others in between: when it is completed, it is removed from the active
    messages and exactly one sample is offered to the ring, carrying its
    number, symbol and exchange and, for each measurement point, the last
    stamp recorded for it (0 for none). *)
Theorem measurement_lifecycle m symbol exchange id m1 ops m2 b :
  enabled (config_ m) = true -> 0 < next_message_id_ m -> next_message_id_ m + 1 + starts ops < two64 ->
  start_measurement symbol exchange m = (id, m1) -> CompleteOp id ∉ ops -> monitor_run ops m1 = Some m2 ->
  sample_buffer_ m2 = Some b ->
  exists s, message_id s = id /\ lm_symbol s = symbol /\ lm_exchange s = exchange /\
    (forall p, get_timestamp s p = stamp id p 0 ops) /\
    (forall ok b', q_push s b = Some (ok, b') ->
       complete_measurement id m2 =
         Some (m2 <| active_measurements_ := delete id (active_measurements_ m2) |> <| sample_buffer_ := Some b' |>)).
Proof.
  intros Hen Hid Hn Hst Hc Hrun Hb. pose proof (starts_nonneg ops). unfold start_measurement in Hst. rewrite Hen in Hst.
  injection Hst as Hid' Hm1. assert (Hw : wrap64 (next_message_id_ m + 1) = next_message_id_ m + 1).
  { apply wrap64_small. unfold in_u64. lia. }
  destruct (tracked_run id symbol exchange ops m1 m2 (fun _ => 0)) as [(s & Hs & H1 & H2 & H3 & H4 & H5) Hen'].
  - by rewrite <-Hm1.
  - rewrite <-Hm1. simpl. lia.
  - rewrite <-Hm1. simpl. lia.
  - done.
  - rewrite <-Hm1. exists (mkLatencyMeasurement id (timestamps new_measurement) symbol exchange).
    simpl. rewrite Hid', lookup_insert_eq. split_and!; try done. by intros [].
  - done.
  - exists s. split_and!; [done..|]. intros ok b' Hpush. unfold complete_measurement.
    rewrite Hen', (proj2 (Z.eqb_neq _ _)) by lia. simpl. rewrite Hs, Hb, Hpush. done.
Qed.

(** the first message started gets number 0, which the other operations
    take to mean "not measured": nothing is ever stamped on it, it is never
    completed, and its entry stays active for good. *)
Theorem first_message_lost config buffer overhead symbol exchange ops m :
  enabled config = true -> 1 + starts ops < two64 ->
  monitor_run (StartOp symbol exchange :: ops) (new_monitor config buffer overhead) = Some m ->
  tracked m 0 symbol exchange (fun _ => 0).
Proof.
  intros Hen Hn. simpl. unfold new_monitor, start_measurement. rewrite Hen. simpl. rewrite Hen. simpl.
  match goal with |- monitor_run ops ?m0 = _ -> _ => set (m1 := m0) end.
  assert (H1 : enabled (config_ m1) = true /\ 0 < next_message_id_ m1 /\ next_message_id_ m1 + starts ops < two64 /\
               tracked m1 0 symbol exchange (fun _ => 0)).
  { unfold m1. simpl. split_and!; [done|done|rewrite wrap64_small by (unfold in_u64, two64; lia); lia|].
    exists (mkLatencyMeasurement 0 (timestamps new_measurement) symbol exchange). simpl.
    rewrite lookup_insert_eq. split_and!; try done. by intros []. }
  clearbody m1. revert m1 H1. clear Hn. induction ops as [|op ops IH]; simpl; intros m1 (He & Hpos & Hb & Ht).
  - by intros [= <-].
  - intros (m2 & Hop & Hrun)%bind_Some. apply (IH m2); [|done]. pose proof (starts_nonneg ops).
    destruct op as [s e|id p ts|id]; simpl in *.
    + injection Hop as <-. unfold start_measurement. rewrite He. simpl.
      rewrite wrap64_small by (unfold in_u64; lia). split_and!; [done|lia|lia|].
      destruct Ht as (x & Hx & ?). exists x. simpl. by rewrite lookup_insert_ne by lia.
    + injection Hop as <-. unfold record_timestamp. rewrite He. simpl. destruct (Z.eqb_spec id 0); [done|].
      split_and!; [done..|]. destruct Ht as (x & Hx & ?). exists x. simpl. by rewrite lookup_alter_ne.
    + destruct (complete_fields _ _ _ Hop) as (Hcf & Hnx & Hoth & Hz). rewrite Hcf, Hnx. split_and!; [done..|].
      destruct Ht as (x & Hx & ?). exists x. split; [|done].
      destruct (decide (id = 0)) as [->|]; [by rewrite Hz|by rewrite Hoth].
Qed.

(** ** Processing *)

(** The values a list of samples contributes to a metric. *)
Definition metric_values (f overhead : Z) (metric : LatencyMetric) (ss : list LatencyMeasurement) : list Z :=
  omap (fun s => default None (metric_ns f overhead s metric)) ss.

Lemma metric_ns_total f overhead s metric :
  0 < f -> exists o, metric_ns f overhead s metric = Some o.
Proof.
  intros Hf. unfold metric_ns, cycles_to_ns, udiv. case_match; [|by eexists].
  rewrite (proj2 (Z.eqb_neq _ _)) by lia. simpl. by eexists.
Qed.

Lemma record_metrics_spec f overhead s mets hs :
  0 < f -> length mets = length hs ->
  exists hs', record_metrics f overhead s mets hs = Some hs' /\ length hs' = length hs /\
    forall i metric h, mets !! i = Some metric -> hs !! i = Some h ->
      hs' !! i = Some (foldl record h (metric_values f overhead metric [s])).
Proof.
  intros Hf. revert hs. induction mets as [|metric mets IH]; intros [|h hs] Hl; simpl in *; try done.
  - exists []. by split_and!.
  - destruct (metric_ns_total f overhead s metric Hf) as [o Ho]. rewrite Ho. simpl.
    destruct (IH hs ltac:(lia)) as (hs' & -> & Hl' & Hi). simpl. eexists. split_and!; [done|simpl; lia|].
    intros [|i] metric' h'; simpl; [|apply Hi]. intros [= <-] [= <-]. unfold metric_values. csimpl. rewrite Ho.
    by destruct o.
Qed.

Lemma process_all f ss m :
  0 < f -> length (histograms_ m) = length all_metrics -> 0 <= samples_collected_ m ->
  samples_collected_ m + Z.of_nat (length ss) < two64 ->
  exists m', foldl (process_step f) (Some m) ss = Some m' /\
    samples_collected_ m' = samples_collected_ m + Z.of_nat (length ss) /\
    sample_buffer_ m' = sample_buffer_ m /\ config_ m' = config_ m /\ rdtsc_overhead_ns_ m' = rdtsc_overhead_ns_ m /\
    active_measurements_ m' = active_measurements_ m /\ length (histograms_ m') = length all_metrics /\
    forall i metric h, all_metrics !! i = Some metric -> histograms_ m !! i = Some h ->
      histograms_ m' !! i = Some (foldl record h (metric_values f (rdtsc_overhead_ns_ m) metric
        (drop (Z.to_nat (warmup_samples (config_ m) - samples_collected_ m)) ss))).
Proof.
  intros Hf. revert m. induction ss as [|s ss IH]; intros m Hh Hc Hl.
  - exists m. simpl. split_and!; [done|lia|done..|]. intros i metric h _ Hi. by rewrite drop_nil.
  - cbn [foldl]. change (process_step f (Some m) s) with (process_sample f s m). unfold process_sample.
    cbn [length] in Hl |- *.
    assert (Hw : wrap64 (samples_collected_ m + 1) = samples_collected_ m + 1).
    { apply wrap64_small. unfold in_u64. lia. }
    destruct (Z.ltb_spec (samples_collected_ m) (warmup_samples (config_ m))) as [Hlt|Hge].
    + destruct (IH (m <| samples_collected_ := wrap64 (samples_collected_ m + 1) |>))
        as (m' & H1 & H2 & H3 & H4 & H5 & H6 & H7 & H8); [done|simpl; lia|simpl; lia|].
      exists m'. simpl in *. rewrite Hw in *. split_and!; [done|lia|done..|].
      intros i metric h Hi Hhi. rewrite (H8 i metric h Hi Hhi).
      replace (Z.to_nat (warmup_samples (config_ m) - samples_collected_ m)) with
        (S (Z.to_nat (warmup_samples (config_ m) - (samples_collected_ m + 1)))) by lia. done.
    + destruct (record_metrics_spec f (rdtsc_overhead_ns_ m) s all_metrics (histograms_ m) Hf (eq_sym Hh))
        as (hs & Hr & Hhl & Hhs).
      rewrite Hr. cbn [mbind option_bind].
      destruct (IH (m <| samples_collected_ := wrap64 (samples_collected_ m + 1) |> <| histograms_ := hs |>))
        as (m' & H1 & H2 & H3 & H4 & H5 & H6 & H7 & H8); [simpl; rewrite Hhl; exact Hh|simpl; lia|simpl; lia|].
      exists m'. simpl in *. rewrite Hw in *. split_and!; [done|lia|done..|].
      intros i metric h Hi Hhi. rewrite (H8 i metric _ Hi (Hhs i metric h Hi Hhi)).
      replace (Z.to_nat (warmup_samples (config_ m) - samples_collected_ m)) with 0%nat by lia.
      replace (Z.to_nat (warmup_samples (config_ m) - (samples_collected_ m + 1))) with 0%nat by lia.
      rewrite !drop_0. unfold metric_values. rewrite <-foldl_app. f_equal. f_equal.
      csimpl. by destruct (default None (metric_ns f (rdtsc_overhead_ns_ m) s metric)).
Qed.

(** draining the ring counts every sample it held, leaves it empty, and
    adds to each metric's histogram exactly the values of the samples past the
    warm-up whose two points were stamped in order: the cycles in nanoseconds,
    less the measurement overhead when they exceed it. *)
Theorem monitor_histograms f fuel m n b ss :
  0 < f -> length (histograms_ m) = length all_metrics -> 0 <= samples_collected_ m ->
  samples_collected_ m + Z.of_nat (length ss) < two64 ->
  sample_buffer_ m = Some b -> q_holds n b ss -> (length ss < fuel)%nat ->
  exists m' b', drain_samples fuel f m = Some m' /\ sample_buffer_ m' = Some b' /\ q_holds n b' [] /\
    samples_collected_ m' = samples_collected_ m + Z.of_nat (length ss) /\
    active_measurements_ m' = active_measurements_ m /\
    forall i metric h, all_metrics !! i = Some metric -> histograms_ m !! i = Some h ->
      histograms_ m' !! i = Some (foldl record h (metric_values f (rdtsc_overhead_ns_ m) metric
        (drop (Z.to_nat (warmup_samples (config_ m) - samples_collected_ m)) ss))).
Proof.
  intros Hf Hh Hc Hl Hb Hq Hfuel.
  destruct (process_all f ss m Hf Hh Hc Hl) as (m' & H1 & H2 & H3 & H4 & H5 & H6 & H7 & H8).
  destruct (drain_spec (process_step f) n b ss (Some m) fuel Hq Hfuel) as (b' & Hd & Hq').
  exists (m' <| sample_buffer_ := Some b' |>), b'. unfold drain_samples. rewrite Hb. simpl.
  rewrite Hd. simpl. rewrite H1. by split_and!.
Qed.
End monitor.

(** ** Witnesses *)

#[export] Instance MonitorOp_eq_dec : EqDecision MonitorOp.
Proof. solve_decision. Defined.

#[local] Instance small_ring : BoundedQueue (@Ring LatencyMeasurement) LatencyMeasurement := spsc_queue 2 ltac:(lia).

Definition ex_config : Config := mkConfig true 4 0 5000.

Definition ex_first : Monitor :=
  (start_measurement $"BTCUSDT" $"Binance" (new_monitor ex_config (new_ring 2 new_measurement) 10)).2.

(** A monitor that has numbered one message, with the smallest histograms. *)
Definition ex_monitor : Monitor :=
  mkMonitor ex_config (Some (new_ring 2 new_measurement)) 1 0 10 ∅ (map (fun _ => new_hdr 0 3) all_metrics).

Definition ex_ops : list MonitorOp :=
  [RecordOp 1 WEBSOCKET_RECV 100; StartOp $"ETHUSDT" $"Kraken"; RecordOp 2 WEBSOCKET_RECV 150;
   RecordOp 1 JSON_PARSED 400; CompleteOp 2].

Definition ex_started : Z * Monitor := start_measurement $"BTCUSDT" $"Kraken" ex_monitor.
Definition ex_ran : Monitor := default ex_monitor (monitor_run ex_ops ex_started.2).

Lemma measurement_lifecycle_witness :
  exists s, message_id s = 1 /\ get_timestamp s JSON_PARSED = 400 /\ get_timestamp s DASHBOARD_UPDATED = 0.
Proof.
  destruct (measurement_lifecycle ex_monitor $"BTCUSDT" $"Kraken" ex_started.1 ex_started.2 ex_ops ex_ran
              (default (new_ring 2 new_measurement) (sample_buffer_ ex_ran)))
    as (s & H1 & _ & _ & H4 & _); [vm_compute; reflexivity|vm_compute; reflexivity|vm_compute; reflexivity
      |vm_compute; reflexivity|by apply (bool_decide_eq_false_1 _); vm_compute|vm_compute; reflexivity
      |vm_compute; reflexivity|].
  exists s. rewrite H1, !H4. by vm_compute.
Defined.

Lemma first_message_lost_witness : tracked ex_first 0 $"BTCUSDT" $"Binance" (fun _ => 0).
Proof.
  apply (first_message_lost ex_config (new_ring 2 new_measurement) 10 $"BTCUSDT" $"Binance" []); reflexivity.
Defined.

Definition ex_full : Monitor := default ex_monitor (complete_measurement 1 ex_ran).

Lemma monitor_histograms_witness :
  exists m', drain_samples 3 1000000000 ex_full = Some m' /\ samples_collected_ m' = 2.
Proof.
  assert (Hq : exists ss, q_holds 0 (default (new_ring 2 new_measurement) (sample_buffer_ ex_full)) ss /\ length ss = 2%nat).
  { destruct (push_all_spec (Q := @Ring LatencyMeasurement)
      [mkLatencyMeasurement 2 [150; 0; 0; 0; 0; 0; 0] $"ETHUSDT" $"Kraken";
       mkLatencyMeasurement 1 [100; 400; 0; 0; 0; 0; 0] $"BTCUSDT" $"Kraken"] 0 (new_ring 2 new_measurement) [])
      as (r & q & Hp & Hq & _); [exists [], 0%nat; split; [apply new_ring_holds; lia|done]|].
    vm_compute in Hp. injection Hp as _ Hp. exists (accepted (Q := @Ring LatencyMeasurement) []
      [mkLatencyMeasurement 2 [150; 0; 0; 0; 0; 0; 0] $"ETHUSDT" $"Kraken";
       mkLatencyMeasurement 1 [100; 400; 0; 0; 0; 0; 0] $"BTCUSDT" $"Kraken"]). split; [|vm_compute; reflexivity].
    assert (E : default (new_ring 2 new_measurement) (sample_buffer_ ex_full) = q)
      by (rewrite <-Hp; vm_compute; reflexivity).
    rewrite E. exact Hq. }
  destruct Hq as (ss & Hq & Hl).
  destruct (monitor_histograms 1000000000 3 ex_full 0 _ ss ltac:(lia) ltac:(vm_compute; reflexivity)
    ltac:(vm_compute; done) ltac:(rewrite Hl; vm_compute; reflexivity) ltac:(vm_compute; reflexivity) Hq ltac:(lia))
    as (m' & b' & H1 & _ & _ & H2 & _).
  exists m'. split; [exact H1|]. rewrite H2, Hl. vm_compute. reflexivity.
Defined.
