(* ===== verification/MonitorThread.v ===== *)
(** * The latency monitor's thread (src/latency_monitor.hpp)

    [start], [stop] and [monitoring_loop] as a step machine that runs beside
    the threads that number, stamp and complete messages.  The operations of
    [LatencyMonitor] are steps of their own, a [push] and a [try_pop] of the
    ring are atomic (file [SpscRing] shows that they are linearised for one
    producer), and printing a report is counted. *)

From Stdlib Require Import ZArith Lia.
From S2P Require Import Prelude Queues Timing HdrHistogram SpscRing LatencyMonitor.

(** Where the thread is: at the test of [running_], in the loop over the ring
    (which notes whether it took anything), before the report, in the last
    loop, or at its end. *)
Inductive Pc := PTest | PPop (processed_any : bool) | PReport (processed_any : bool) | PFinal | PDone.

#[export] Instance Pc_eq_dec : EqDecision Pc.
Proof. solve_decision. Defined.

Section thread.
Context {Q : Type} `{BoundedQueue Q LatencyMeasurement} (tsc_frequency : Z).

#[local] Instance monitor_settable : Settable (@Monitor Q) := fun m =>
  mkMonitor (config_ m) (sample_buffer_ m) (next_message_id_ m) (samples_collected_ m) (rdtsc_overhead_ns_ m)
    (active_measurements_ m) (histograms_ m).

(** [offered]: the samples the ring has accepted; [taken]: those the thread has
    processed; [at_stop]: [offered] when [stop] was last called. *)
Record MonitorLife := mkMonitorLife {
  monitor : @Monitor Q;
  running_ : bool;
  monitor_thread_ : option Pc;
  joining : bool;
  reports : nat;
  offered : list LatencyMeasurement;
  taken : list LatencyMeasurement;
  at_stop : list LatencyMeasurement;
}.
#[local] Instance MonitorLife_settable : Settable MonitorLife := fun l =>
  mkMonitorLife (monitor l) (running_ l) (monitor_thread_ l) (joining l) (reports l) (offered l) (taken l) (at_stop l).

Definition new_monitor_life (m : @Monitor Q) : MonitorLife := mkMonitorLife m false None false 0 [] [] [].

(** ** Operations *)

Definition start (l : MonitorLife) : ub MonitorLife :=
  if negb (enabled (config_ (monitor l))) || running_ l then Some l
  else match monitor_thread_ l with
    | Some _ => None
    | None => Some (l <| running_ := true |> <| monitor_thread_ := Some PTest |>)
    end.

(** [stop] up to the join, and what follows it. *)
Definition stop (l : MonitorLife) : MonitorLife :=
  if running_ l then l <| running_ := false |> <| joining := true |> <| at_stop := offered l |> else l.

Definition join (l : MonitorLife) : option MonitorLife :=
  match joining l, monitor_thread_ l with
  | true, Some PDone => Some (l <| monitor_thread_ := None |> <| joining := false |> <| reports := S (reports l) |>)
  | _, _ => None
  end.

(** One [try_pop], and [process_sample] if it gave a sample. *)
Definition pop_sample (l : MonitorLife) : ub (MonitorLife * bool) :=
  b ← sample_buffer_ (monitor l);
  '(x, b) ← q_pop b;
  match x with
  | None => Some (l <| monitor := (monitor l) <| sample_buffer_ := Some b |> |>, false)
  | Some s =>
      m ← process_sample tsc_frequency s (monitor l);
      Some (l <| monitor := m <| sample_buffer_ := Some b |> |> <| taken := taken l ++ [s] |>, true)
  end.

(** A step of [monitoring_loop]; [due]: the report interval has passed. *)
Definition thread_step (due : bool) (l : MonitorLife) : ub MonitorLife :=
  let goto pc l := l <| monitor_thread_ := Some pc |> in
  match monitor_thread_ l with
  | Some PTest => Some (goto (if running_ l then PPop false else PFinal) l)
  | Some (PPop any) =>
      '(l, got) ← pop_sample l; Some (goto (if got : bool then PPop true else PReport any) l)
  | Some (PReport any) => Some (goto PTest (if due then l <| reports := S (reports l) |> else l))
  | Some PFinal => '(l, got) ← pop_sample l; Some (goto (if got : bool then PFinal else PDone) l)
  | Some PDone | None => Some l
  end.

(** [complete_measurement], and what the ring makes of the sample. *)
Definition complete (id : Z) (l : MonitorLife) : ub MonitorLife :=
  m ← complete_measurement id (monitor l);
  let accepted :=
    match active_measurements_ (monitor l) !! id, sample_buffer_ (monitor l) with
    | Some s, Some b =>
        if id =? 0 then [] else match q_push s b with Some (true, _) => [s] | _ => [] end
    | _, _ => []
    end in
  Some (l <| monitor := m |> <| offered := offered l ++ (if enabled (config_ (monitor l)) then accepted else []) |>).

(** A thread that stamps messages. *)
Definition on_monitor (f : @Monitor Q -> @Monitor Q) (l : MonitorLife) : MonitorLife :=
  l <| monitor := f (monitor l) |>.

Inductive monitor_step : MonitorLife -> MonitorLife -> Prop :=
  | step_start l l' : joining l = false -> start l = Some l' -> monitor_step l l'
  | step_stop l : joining l = false -> monitor_step l (stop l)
  | step_join l l' : join l = Some l' -> monitor_step l l'
  | step_thread due l l' : thread_step due l = Some l' -> monitor_step l l'
  | step_begin symbol exchange l :
      monitor_step l (on_monitor (fun m => snd (start_measurement symbol exchange m)) l)
  | step_record id point ts l : monitor_step l (on_monitor (record_timestamp id point ts) l)
  | step_complete id l l' : complete id l = Some l' -> monitor_step l l'.

(** ** Invariant *)

Context (m0 : @Monitor Q) (b0 : Q).
Context (Hf : 0 < tsc_frequency) (Hen : enabled (config_ m0) = true).
Context (Hb0 : sample_buffer_ m0 = Some b0) (Hempty : forall n, q_holds n b0 []).
Context (Hh0 : length (histograms_ m0) = length all_metrics) (Hc0 : samples_collected_ m0 = 0).

(** The histograms of the samples processed, the warm-up left out. *)
Definition recorded (m : @Monitor Q) (ss : list LatencyMeasurement) : Prop :=
  forall i metric h, all_metrics !! i = Some metric -> histograms_ m0 !! i = Some h ->
    histograms_ m !! i = Some (foldl record h (metric_values tsc_frequency (rdtsc_overhead_ns_ m0) metric
      (drop (Z.to_nat (warmup_samples (config_ m0))) ss))).

(** The thread exists from [start] to the join, and is past the test of
    [running_] only when [stop] waits for it. *)
Definition control (running joining : bool) (thread : option Pc) : bool :=
  match thread with
  | None => negb running && negb joining
  | Some PFinal | Some PDone => negb running && joining
  | Some _ => xorb running joining
  end.

Record life_ok (l : MonitorLife) : Prop := {
  ok_config : config_ (monitor l) = config_ m0 /\ rdtsc_overhead_ns_ (monitor l) = rdtsc_overhead_ns_ m0;
  ok_queue : exists b rest, sample_buffer_ (monitor l) = Some b /\ (forall n, q_holds n b rest) /\
    offered l = taken l ++ rest;
  ok_taken : length (histograms_ (monitor l)) = length all_metrics /\
    samples_collected_ (monitor l) = wrap64 (Z.of_nat (length (taken l))) /\
    (Z.of_nat (length (taken l)) < two64 -> recorded (monitor l) (taken l));
  ok_stop : at_stop l `prefix_of` offered l;
  ok_control : control (running_ l) (joining l) (monitor_thread_ l) = true;
  ok_done : monitor_thread_ l = Some PDone \/ running_ l = false /\ joining l = false ->
    at_stop l `prefix_of` taken l;
}.
Lemma new_monitor_ok : life_ok (new_monitor_life m0).
Proof.
  constructor; simpl; try done.
  - exists b0, []. by split_and!.
  - split_and!; [done|by rewrite Hc0|]. intros _ i metric h _ Hi. by rewrite Hi, drop_nil.
Qed.

Lemma process_sample_total s (m : @Monitor Q) :
  length (histograms_ m) = length all_metrics ->
  exists m', process_sample tsc_frequency s m = Some m' /\ sample_buffer_ m' = sample_buffer_ m /\
    config_ m' = config_ m /\ rdtsc_overhead_ns_ m' = rdtsc_overhead_ns_ m /\
    length (histograms_ m') = length all_metrics /\ samples_collected_ m' = wrap64 (samples_collected_ m + 1).
Proof.
  intros Hl. unfold process_sample. destruct (_ <? _); [by eexists|].
  destruct (record_metrics_spec tsc_frequency (rdtsc_overhead_ns_ m) s all_metrics (histograms_ m) Hf (eq_sym Hl))
    as (hs & -> & Hhl & _). simpl. eexists. split; [done|]. simpl. rewrite Hhl. by split_and!.
Qed.

Lemma process_sample_recorded s (m m' : @Monitor Q) ss :
  process_sample tsc_frequency s m = Some m' -> config_ m = config_ m0 ->
  rdtsc_overhead_ns_ m = rdtsc_overhead_ns_ m0 -> length (histograms_ m) = length all_metrics ->
  samples_collected_ m = Z.of_nat (length ss) -> Z.of_nat (length (ss ++ [s])) < two64 ->
  recorded m ss -> recorded m' (ss ++ [s]).
Proof.
  intros Hp Hc Ho Hl Hs Hlt Hr i metric h Hi Hh. rewrite length_app in Hlt. simpl in Hlt.
  destruct (process_all tsc_frequency [s] m Hf Hl ltac:(lia) ltac:(simpl; lia))
    as (m1 & H1 & _ & _ & _ & _ & _ & _ & H8).
  assert (m1 = m') as -> by (simpl in H1; congruence).
  rewrite (H8 _ _ _ Hi (Hr _ _ _ Hi Hh)), drop_app, Hc, Ho, Hs. unfold metric_values.
  by rewrite omap_app, foldl_app, Z2Nat.inj_sub, Nat2Z.id by lia.
Qed.

(** ** Preservation *)

Lemma pop_sample_ok l :
  life_ok l ->
  exists l' got, pop_sample l = Some (l', got) /\ life_ok l' /\
    monitor_thread_ l' = monitor_thread_ l /\ running_ l' = running_ l /\ joining l' = joining l /\
    offered l' = offered l /\ at_stop l' = at_stop l /\ (got = false -> taken l' = offered l') /\
    length (taken l') = (length (taken l) + Nat.b2n got)%nat.
Proof.
  intros [[Hc Ho] (b & rest & Hb & Hq & Hoff) (Hl & Hs & Hr) Hst Hj Hd].
  unfold pop_sample. rewrite Hb. cbn [mbind option_bind]. destruct rest as [|s rest].
  - rewrite (q_pop_nil _ _ (Hq 0%nat)). simpl. rewrite app_nil_r in Hoff. do 2 eexists.
    split_and!; [done| |done..|by rewrite Hoff|simpl; lia].
    constructor; simpl; try done. exists b, []. rewrite app_nil_r. by split_and!.
  - destruct (q_pop_cons _ _ _ _ (Hq 0%nat)) as (b' & Hpop & _). rewrite Hpop. simpl.
    destruct (process_sample_total s (monitor l) Hl) as (m' & Hp & E1 & E2 & E3 & E4 & E5). rewrite Hp. simpl.
    do 2 eexists. split_and!; [done| |try done..]; [|cbn; by rewrite length_app].
    constructor; simpl; try done.
    + split; congruence.
    + exists b', rest. split_and!; [done| |by rewrite <-app_assoc].
      intros n. destruct (q_pop_cons _ _ _ _ (Hq n)) as (b'' & Hpop' & Hq').
      rewrite Hpop in Hpop'. by injection Hpop' as <-.
    + split_and!; [done| |].
      * rewrite E5, Hs, length_app. simpl. unfold wrap64. rewrite Zplus_mod_idemp_l. f_equal. lia.
      * intros Hlt. assert (Hlt' : Z.of_nat (length (taken l)) < two64) by (rewrite length_app in Hlt; lia).
        change (recorded m' (taken l ++ [s])).
        apply (process_sample_recorded s (monitor l)); [done..| |done|by apply Hr].
        rewrite Hs. apply wrap64_small. unfold in_u64. lia.
    + intros H0. by apply prefix_app_r, Hd.
Qed.

(** A step that only moves the thread keeps the invariant if it keeps
    [control] and, for the end of the thread, has taken every sample. *)
Lemma thread_goto_ok pc due l :
  life_ok l -> control (running_ l) (joining l) (Some pc) = true -> (pc = PDone -> taken l = offered l) ->
  life_ok ((if due : bool then l <| reports := S (reports l) |> else l) <| monitor_thread_ := Some pc |>).
Proof.
  intros [H1 H2 H3 H4 H5 H6] Hc Ht. destruct due; constructor; try done.
  all: intros [[= ->]|[Hr Hj]]; [|apply H6; by right].
  all: change (at_stop l `prefix_of` taken l); by rewrite (Ht eq_refl).
Qed.

Lemma thread_step_ok due l :
  life_ok l -> exists l', thread_step due l = Some l' /\ life_ok l' /\ joining l' = joining l /\
    running_ l' = running_ l /\ offered l' = offered l.
Proof.
  intros Hl. pose proof (ok_control _ Hl) as Hc. unfold thread_step.
  destruct (monitor_thread_ l) as [[| | | |]|] eqn:Et; [| | | | |by exists l].
  - eexists. split_and!; [done| |done..]. apply (thread_goto_ok _ false); [done| |by destruct (running_ l)].
    simpl in Hc. by destruct (running_ l), (joining l).
  - destruct (pop_sample_ok l Hl) as (l' & got & -> & Hok & E1 & E2 & E3 & E4 & E5 & E6 & _).
    cbn [mbind option_bind]. eexists. split_and!; [done| |done..].
    apply (thread_goto_ok _ false); [done| |by destruct got]. rewrite E2, E3. by destruct got.
  - eexists. split_and!; [done| |by destruct due..]. by apply thread_goto_ok.
  - destruct (pop_sample_ok l Hl) as (l' & got & -> & Hok & E1 & E2 & E3 & E4 & E5 & E6 & _).
    cbn [mbind option_bind]. eexists. split_and!; [done| |done..].
    apply (thread_goto_ok _ false); [done| |destruct got; [done|]; intros _; by apply E6].
    rewrite E2, E3. by destruct got.
  - exists l. by split_and!.
Qed.

(** What the threads that stamp messages change: neither the ring nor the
    histograms. *)
Lemma same_monitor_ok (m : @Monitor Q) l :
  life_ok l -> config_ m = config_ (monitor l) -> rdtsc_overhead_ns_ m = rdtsc_overhead_ns_ (monitor l) ->
  sample_buffer_ m = sample_buffer_ (monitor l) -> histograms_ m = histograms_ (monitor l) ->
  samples_collected_ m = samples_collected_ (monitor l) -> life_ok (l <| monitor := m |>).
Proof.
  intros [H1 H2 H3 H4 H5 H6] E1 E2 E3 E4 E5.
  constructor; simpl; unfold recorded; rewrite ?E1, ?E2, ?E3, ?E4, ?E5; done.
Qed.

Lemma complete_ok id l :
  life_ok l -> exists l' more, complete id l = Some l' /\ life_ok l' /\ offered l' = offered l ++ more /\
    taken l' = taken l /\ monitor_thread_ l' = monitor_thread_ l /\ running_ l' = running_ l /\ joining l' = joining l.
Proof.
  intros Hl. destruct (ok_queue _ Hl) as (b & rest & Hb & Hq & Hoff). destruct (ok_config _ Hl) as [Hc _].
  unfold complete, complete_measurement. rewrite Hc, Hen, Hb. simpl.
  assert (Hsame : forall m, life_ok (l <| monitor := m |>) ->
    life_ok (l <| monitor := m |> <| offered := offered l ++ [] |>)).
  { intros m. by rewrite app_nil_r. }
  destruct (id =? 0), (active_measurements_ (monitor l) !! id) as [s|]; simpl.
  all: try (do 2 eexists; split_and!; [done|by apply Hsame, same_monitor_ok|done..]).
  rewrite Hb. destruct Hl as [H1 H2 H3 H4 H5 H6]. destruct (q_room rest) eqn:Er.
  - destruct (q_push_room _ _ _ s (Hq 1%nat) Er) as (b' & Hp & _). rewrite Hp. simpl.
    do 2 eexists. split_and!; [done| |done..]. constructor; simpl; try done; [|by apply prefix_app_r].
    exists b', (rest ++ [s]). split_and!; [done| |by rewrite Hoff, <-app_assoc].
    intros n. destruct (q_push_room _ _ _ s (Hq (S n)) Er) as (b'' & Hp' & Hq'). rewrite Hp in Hp'.
    by injection Hp' as <-.
  - destruct (q_push_full _ _ _ s (Hq 0%nat) Er) as (b' & Hp & _). rewrite Hp. simpl.
    do 2 eexists. split_and!; [done| |done..]. constructor; simpl; rewrite ?app_nil_r; try done.
    exists b', rest. split_and!; [done| |done].
    intros n. destruct (q_push_full _ _ _ s (Hq n) Er) as (b'' & Hp' & Hq'). rewrite Hp in Hp'.
    by injection Hp' as <-.
Qed.

Lemma monitor_step_ok l l' : life_ok l -> monitor_step l l' -> life_ok l'.
Proof.
  intros Hl Hs. pose proof (ok_control _ Hl) as Hc. destruct (ok_config _ Hl) as [Hcfg _].
  destruct Hs as [l l' Hj Hs|l Hj|l l' Hs|due l l' Hs|sy ex l|id pt ts l|id l l' Hs].
  - unfold start in Hs. rewrite Hcfg, Hen in Hs. simpl in Hs. destruct (running_ l) eqn:Er; [by injection Hs as <-|].
    destruct (monitor_thread_ l); [done|]. injection Hs as <-. destruct Hl as [H1 H2 H3 H4 H5 H6].
    constructor; simpl; try done. intros _. apply H6. by right.
  - unfold stop. destruct (running_ l) eqn:Er; [|done]. destruct Hl as [H1 H2 H3 H4 H5 H6].
    rewrite Hj in Hc. constructor; simpl; try done.
    + by destruct (monitor_thread_ l) as [[]|].
    + intros [Ht|[]]; [|done]. by rewrite Ht in Hc.
  - unfold join in Hs. destruct (joining l) eqn:Ej; [|done]. destruct (monitor_thread_ l) as [[]|] eqn:Et; try done.
    injection Hs as <-. destruct Hl as [H1 H2 H3 H4 H5 H6]. constructor; simpl; try done.
    intros _. apply H6. by left.
  - destruct (thread_step_ok due l Hl) as (l1 & H1 & H2 & _). congruence.
  - apply same_monitor_ok; try done; unfold start_measurement; by rewrite Hcfg, Hen.
  - apply same_monitor_ok; try done; unfold record_timestamp; by case_match.
  - destruct (complete_ok id l Hl) as (l1 & more & H1 & H2 & _). congruence.
Qed.

Lemma monitor_reachable_ok l : rtc monitor_step (new_monitor_life m0) l -> life_ok l.
Proof.
  intros Hr. pattern l. refine (rtc_ind_r _ _ _ _ _ Hr); [exact new_monitor_ok|].
  intros l1 l2 _ Hs Hl. by apply (monitor_step_ok l1).
Qed.

(** ** The end of the thread *)

(** The thread's steps with nothing else in between. *)
Fixpoint thread_run (n : nat) (l : MonitorLife) : ub MonitorLife :=
  match n with
  | O => Some l
  | S n => l' ← thread_step false l; thread_run n l'
  end.

(** An upper bound on the thread's steps to its end, [running_] being false. *)
Definition thread_measure (l : MonitorLife) : nat :=
  length (offered l) - length (taken l) +
  match monitor_thread_ l with
  | Some (PPop _) => 4 | Some (PReport _) => 3 | Some PTest => 2 | Some PFinal => 1 | _ => 0
  end.

Lemma thread_ends l :
  life_ok l -> joining l = true ->
  exists n l', (n <= thread_measure l)%nat /\ thread_run n l = Some l' /\ life_ok l' /\ joining l' = true /\
    monitor_thread_ l' = Some PDone /\ offered l' = offered l.
Proof.
  remember (thread_measure l) as k eqn:Ek. revert l Ek.
  induction k as [k IH] using lt_wf_ind. intros l -> Hl Hj.
  destruct (decide (monitor_thread_ l = Some PDone)) as [Hd|Hd].
  { exists 0%nat, l. split_and!; [lia|done..]. }
  destruct (thread_step_ok false l Hl) as (l1 & Hs & Hl1 & Hj1 & Hr1 & Ho1).
  assert (Hm : (thread_measure l1 < thread_measure l)%nat).
  { pose proof (ok_control _ Hl) as Hc. rewrite Hj in Hc. unfold thread_step in Hs. unfold thread_measure.
    destruct (ok_queue _ Hl1) as (_ & rest & _ & _ & Hq). apply (f_equal length) in Hq. rewrite length_app in Hq.
    rewrite Ho1 in *. destruct (monitor_thread_ l) as [[| | | |]|] eqn:Et; try done.
    - simpl in Hc. destruct (running_ l); [done|]. injection Hs as <-. simpl. lia.
    - destruct (pop_sample_ok l Hl) as (l' & got & E & _ & _ & _ & _ & _ & _ & _ & Hn).
      rewrite E in Hs. injection Hs as <-. simpl in *. destruct got; simpl in *; lia.
    - injection Hs as <-. simpl. lia.
    - destruct (pop_sample_ok l Hl) as (l' & got & E & _ & _ & _ & _ & _ & _ & _ & Hn).
      rewrite E in Hs. injection Hs as <-. simpl in *. destruct got; simpl in *; lia.
    - simpl in Hc. by rewrite andb_false_r in Hc. }
  destruct (IH _ Hm l1 eq_refl Hl1) as (n & l2 & Hn & Hrun & Hl2 & Hj2 & Hd2 & Ho2); [congruence|].
  exists (S n), l2. split_and!; [lia| |done|done|done|congruence]. simpl. by rewrite Hs.
Qed.

(** C32: whatever the calls of [start], [stop], the instrumentation and the
    steps of the thread, the thread never fails, and a [stop] that waits
    returns: left to itself the thread reaches its end within four steps more
    than the samples still in the ring.  Once it has returned, every sample
    the ring had accepted before the call has been processed, the samples
    being taken in the order they were accepted; the counter is their number,
    and each metric's histogram holds the values of exactly these samples, the
    warm-up left out.  Samples accepted later stay in the ring until the next
    [start]. *)
Theorem stop_drains l :
  rtc monitor_step (new_monitor_life m0) l ->
  (forall due, exists l', thread_step due l = Some l') /\
  (joining l = true -> exists n l' l'', (n <= thread_measure l)%nat /\ thread_run n l = Some l' /\
    join l' = Some l'' /\ monitor_thread_ l'' = None) /\
  (running_ l = false -> joining l = false ->
    monitor_thread_ l = None /\ at_stop l `prefix_of` taken l /\
    (exists b rest, sample_buffer_ (monitor l) = Some b /\ (forall n, q_holds n b rest) /\
      offered l = taken l ++ rest) /\
    samples_collected_ (monitor l) = wrap64 (Z.of_nat (length (taken l))) /\
    (Z.of_nat (length (taken l)) < two64 -> recorded (monitor l) (taken l))).
Proof.
  intros Hr%monitor_reachable_ok. split_and!.
  - intros due. destruct (thread_step_ok due l Hr) as (l' & Hs & _). by exists l'.
  - intros Hj. destruct (thread_ends l Hr Hj) as (n & l' & Hn & Hrun & _ & Hj' & Hd & _).
    exists n, l', (l' <| monitor_thread_ := None |> <| joining := false |> <| reports := S (reports l') |>).
    split_and!; [done|done| |done]. unfold join. by rewrite Hj', Hd.
  - intros Hrun Hj. pose proof (ok_control _ Hr) as Hc. rewrite Hrun, Hj in Hc.
    destruct (ok_taken _ Hr) as (_ & Hs & Hrec). split_and!; [| |by apply Hr|done|done].
    + by destruct (monitor_thread_ l) as [[]|].
    + apply (ok_done _ Hr). by right.
Qed.

Lemma thread_run_reachable n l l' : thread_run n l = Some l' -> rtc monitor_step l l'.
Proof.
  revert l. induction n as [|n IH]; intros l; simpl; [by intros [= <-]|].
  destruct (thread_step false l) as [l1|] eqn:E; [|done]. simpl. intros Hr%IH.
  apply (rtc_l _ _ l1); [by apply (step_thread false)|done].
Qed.
End thread.

(** ** Witness: one message, completed before [stop] *)

#[local] Instance witness_ring : BoundedQueue (@Ring LatencyMeasurement) LatencyMeasurement := spsc_queue 2 ltac:(lia).

Definition ex_l0 : MonitorLife := new_monitor_life ex_monitor.
Definition ex_l1 : MonitorLife := default ex_l0 (start ex_l0).
Definition ex_l2 : MonitorLife := on_monitor (fun m => snd (start_measurement $"BTCUSDT" $"Kraken" m)) ex_l1.
Definition ex_l3 : MonitorLife := on_monitor (record_timestamp 1 WEBSOCKET_RECV 100) ex_l2.
Definition ex_l4 : MonitorLife := on_monitor (record_timestamp 1 JSON_PARSED 400) ex_l3.
Definition ex_l5 : MonitorLife := default ex_l0 (complete 1 ex_l4).
Definition ex_l6 : MonitorLife := stop ex_l5.
Definition ex_l7 : MonitorLife := default ex_l0 (thread_run 1000000000 3 ex_l6).
Definition ex_l8 : MonitorLife := default ex_l0 (join ex_l7).

Lemma stop_drains_witness :
  monitor_thread_ ex_l8 = None /\ at_stop ex_l8 `prefix_of` taken ex_l8 /\ length (at_stop ex_l8) = 1%nat /\
  samples_collected_ (monitor ex_l8) = 1.
Proof.
  assert (Hr : rtc (monitor_step 1000000000) ex_l0 ex_l8).
  { apply (rtc_l _ _ ex_l1); [by apply step_start; vm_compute|].
    apply (rtc_l _ _ ex_l2); [apply step_begin|].
    apply (rtc_l _ _ ex_l3); [apply step_record|].
    apply (rtc_l _ _ ex_l4); [apply step_record|].
    apply (rtc_l _ _ ex_l5); [apply (step_complete _ 1); vm_compute; reflexivity|].
    apply (rtc_l _ _ ex_l6); [apply step_stop; vm_compute; reflexivity|].
    transitivity ex_l7; [apply (thread_run_reachable _ 3); vm_compute; reflexivity|].
    apply rtc_once, step_join. vm_compute. reflexivity. }
  destruct (stop_drains 1000000000 ex_monitor (new_ring 2 new_measurement) ltac:(lia) eq_refl eq_refl)
    with (l := ex_l8) as (_ & _ & H3); [|done|done|exact Hr|].
  - intros n. exists [], 0%nat. split; [apply new_ring_holds; lia|done].
  - destruct H3 as (H1 & H2 & _ & H4 & _); [vm_compute; reflexivity..|].
    split_and!; [exact H1|exact H2|vm_compute; reflexivity|]. rewrite H4. vm_compute. reflexivity.
Defined.
