(* ===== verification/LatencyIntegration.v ===== *)
(** * The documented integration of the latency monitor
    (src/latency_integration_example.hpp)

    The calls the example tells a feed client and the engine to make for a
    message, in their order, and what the monitor records of them. *)

From Stdlib Require Import ZArith Lia.
From S2P Require Import Prelude Float64 Types Queues Timing HdrHistogram SpscRing LatencyMonitor.

Section integration.
Context {Q : Type} `{BoundedQueue Q LatencyMeasurement}.

(** [TickerDataWithLatency] *)
Record TickerDataWithLatency := mkTickerDataWithLatency { ticker : TickerData; latency_msg_id : Z }.

(** [example_websocket_integration]: what is added around the parsing, with the
    two counter readings. *)
Definition websocket_ops (symbol exchange : bytes) (id t_recv t_parsed : Z) : list MonitorOp :=
  [StartOp symbol exchange; RecordOp id WEBSOCKET_RECV t_recv; RecordOp id JSON_PARSED t_parsed].

(** [example_minimal_integration_engine]: the body it gives for
    [update_market_data]. *)
Definition engine_ops (t : TickerDataWithLatency) (t_received t_calculated : Z) : list MonitorOp :=
  [RecordOp (latency_msg_id t) ENGINE_RECEIVED t_received;
   RecordOp (latency_msg_id t) ARBITRAGE_CALCULATED t_calculated; CompleteOp (latency_msg_id t)].

(** The measurement the calls build. *)
Definition integrated (symbol exchange : bytes) (id t1 t2 t3 t4 : Z) : LatencyMeasurement :=
  mkLatencyMeasurement id [t1; t2; 0; 0; t3; t4; 0] symbol exchange.

Lemma integrated_cycles symbol exchange id t1 t2 t3 t4 :
  0 < t1 < t2 -> 0 < t3 < t4 ->
  map (calculate_metric_cycles (integrated symbol exchange id t1 t2 t3 t4)) all_metrics = [t2 - t1; 0; t4 - t3; 0].
Proof.
  intros H1 H2. unfold calculate_metric_cycles, latency_cycles, has_point, get_timestamp. simpl.
  rewrite !(proj2 (Z.eqb_neq _ 0)) by lia. simpl. by rewrite !(proj2 (Z.ltb_lt _ _)) by lia.
Qed.

(** The documented calls push one sample, and of the four metrics it has
    parsing and engine processing: the end-to-end latency is never recorded,
    since its last point is [DASHBOARD_UPDATED], and neither is the time in
    the queue. *)
Theorem integration_sample symbol exchange t t1 t2 t3 t4 m b n ss :
  let id := latency_msg_id t in
  enabled (config_ m) = true -> next_message_id_ m = id -> id <> 0 ->
  sample_buffer_ m = Some b -> q_holds (S n) b ss -> q_room ss = true ->
  0 < t1 < t2 -> 0 < t3 < t4 ->
  exists m' b' s, monitor_run (websocket_ops symbol exchange id t1 t2 ++ engine_ops t t3 t4) m = Some m' /\
    sample_buffer_ m' = Some b' /\ q_holds n b' (ss ++ [s]) /\ message_id s = id /\ lm_exchange s = exchange /\
    active_measurements_ m' !! id = None /\
    map (calculate_metric_cycles s) all_metrics = [t2 - t1; 0; t4 - t3; 0].
Proof.
  intros id He Hid Hne Hb Hq Hr H1 H2. set (s := integrated symbol exchange id t1 t2 t3 t4).
  destruct (q_push_room n b ss s Hq Hr) as (b' & Hp & Hq'). destruct m as [cfg buf nid cnt ov act hs].
  simpl in He, Hid, Hb. subst buf. revert Hp Hne. unfold s, id in *. rewrite <-Hid. clear s id. intros Hp Hne%Z.eqb_neq.
  eexists _, b', (integrated symbol exchange nid t1 t2 t3 t4).
  cbn [app websocket_ops engine_ops monitor_run monitor_op mbind option_bind]. rewrite <-Hid.
  unfold start_measurement. cbn. rewrite He. cbn.
  unfold record_timestamp at 4. cbn. rewrite He, Hne. cbn.
  unfold record_timestamp at 3. cbn. rewrite He, Hne. cbn.
  unfold record_timestamp at 2. cbn. rewrite He, Hne. cbn.
  unfold record_timestamp. cbn. rewrite He, Hne. cbn.
  unfold complete_measurement. cbn. rewrite He, Hne. cbn. rewrite !lookup_alter_eq, lookup_insert_eq. cbn.
  match goal with |- context [q_push ?x b] => change x with (integrated symbol exchange nid t1 t2 t3 t4) end. rewrite Hp. cbn. split_and!; try done.
  - by rewrite Hid.
  - cbn. by rewrite lookup_delete_eq.
  - by apply integrated_cycles.
Qed.
End integration.

(** ** Witness *)

#[local] Instance integration_ring : BoundedQueue (@Ring LatencyMeasurement) LatencyMeasurement := spsc_queue 2 ltac:(lia).

Definition ex_ticker (id : Z) : TickerDataWithLatency := mkTickerDataWithLatency (mkTickerData $"BTCUSDT" $"Binance" (dZ 1) (dZ 2) (dZ 1) (dZ 1) 0 0) id.

Lemma integration_sample_witness :
  exists m' s, monitor_run (websocket_ops [] $"Binance" 1 100 400 ++ engine_ops (ex_ticker 1) 500 900) ex_monitor = Some m' /\
    map (calculate_metric_cycles s) all_metrics = [300; 0; 400; 0].
Proof.
  destruct (integration_sample [] $"Binance" (ex_ticker 1) 100 400 500 900 ex_monitor (new_ring 2 new_measurement) 0 [])
    as (m' & b' & s & H1 & _ & _ & _ & _ & _ & H2); [reflexivity|reflexivity|done|reflexivity| |reflexivity|lia|lia|].
  - exists [], 0%nat. split; [apply new_ring_holds; lia|done].
  - by exists m', s.
Defined.
