(* ===== verification/LatencyReports.v ===== *)
(** * Printed latency reports (src/queue_latency_tracker.hpp,
    src/latency_monitor.hpp)

    The texts [print_report], [print_histogram] and [print_occupancy] of the
    queue tracker and [print_report] of the latency monitor write, from the
    numbers [QueueTracker] and [LatencyMonitor] compute.  [std::cout] has its
    default flags on entry.  [None] is undefined behaviour or an exception
    nothing catches, such as a [std::string] of a negative length. *)

From Stdlib Require Import ZArith Lia.
From S2P Require Import Prelude Float64 IntDouble Rounding Str Fmt Timing HdrHistogram QueueTracker LatencyMonitor.

Definition line (s : bytes) : bytes := s ++ [NL].

(** ** Queue tracker: the table *)

Definition QUEUE_TYPE (use_mpsc_queue : bool) : bytes :=
  if use_mpsc_queue then $"MPSC Lock-Free" else $"Shared Mutex".

Definition format_time (ns : Z) : bytes :=
  if ns <? 1000 then setw_right 4 (dec_of ns) ++ $"ns"
  else if ns <? 1000000 then setw_right 4 (fmt_fixed 1 (ddiv (dZ ns) (dZ 1000))) ++ $"us"
  else setw_right 4 (fmt_fixed 1 (ddiv (dZ ns) (dZ 1000000))) ++ $"ms".

Definition table_row (ex : ExchangeStats) : ub bytes :=
  if count ex =? 0 then Some []
  else
    p99 ← calculate_percentile ex 99;
    median ← calculate_percentile ex 50;
    Some (line ($"║ " ++ setw_left 10 (ex_name ex) ++ $" │ " ++ setw_right 9 (dec_of (count ex)) ++ $" │ " ++
                setw_right 10 (format_time median) ++ $" │ " ++ setw_right 10 (format_time (min_ns ex)) ++ $" │ " ++
                setw_right 10 (format_time (max_ns ex)) ++ $" │ " ++ setw_right 9 (format_time p99) ++ $" ║")).

(** ** Queue tracker: the histogram *)

Definition bucket_labels : list bytes :=
  [$"   <50ns"; $" 50-100ns"; $"100-250ns"; $"250-500ns"; $"  0.5-1us"; $"    1-5us"; $"   5-10us"; $"    >10us"].

Definition BAR_WIDTH : Z := 40.

(** [std::string(n, c)] *)
Definition string_of (n : Z) (c : ascii) : ub bytes := if n <? 0 then None else Some (replicate (Z.to_nat n) c).

Definition max_bucket (counts : list Z) : Z := foldl (fun m c => if m <? c then c else m) 0 counts.

Definition bar_length (max_count c : Z) : ub Z :=
  n ← (if 0 <? max_count then dtrunc (dmul (ddiv (dZ c) (dZ max_count)) (dZ BAR_WIDTH)) else Some 0);
  Some (if (0 <? c) && (n =? 0) then 1 else n).

Definition percent (c samples : Z) : double :=
  if 0 <? samples then dmul (ddiv (dZ c) (dZ samples)) (dZ 100) else dzero.

Definition histogram_row (samples max_count : Z) (b : nat) (c : Z) : ub bytes :=
  let label := default [] (bucket_labels !! b) in
  if (c =? 0) && (0 <? b)%nat && (b <? 7)%nat then
    blank ← string_of BAR_WIDTH " "%char;
    Some (line ($"  │ " ++ label ++ $" │" ++ blank ++ $"│   0 │"))
  else
    n ← bar_length max_count c;
    bar ← string_of n "#"%char;
    rest ← string_of (BAR_WIDTH - n) " "%char;
    Some (line ($"  │ " ++ label ++ $" │" ++ bar ++ rest ++ $"│" ++ setw_right 4 (dec_of c) ++ $" │ " ++
                setw_right 5 (fmt_fixed 1 (percent c samples)) ++ $"%")).

Definition rule : bytes := $"─────────────────────────────────────────────────────────────".

Fixpoint histogram_rows (samples max_count : Z) (b : nat) (counts : list Z) : ub bytes :=
  match counts with
  | [] => Some []
  | c :: counts' => r ← histogram_row samples max_count b c; rs ← histogram_rows samples max_count (S b) counts'; Some (r ++ rs)
  end.

Definition exchange_histogram (ex : ExchangeStats) : ub bytes :=
  let n := sample_count ex in
  if n =? 0 then Some []
  else
    let counts := bucket_counts ex in
    let max_count := max_bucket counts in
    if max_count =? 0 then Some []
    else
      rows ← histogram_rows n max_count 0 counts;
      Some ([NL] ++ line ($"  " ++ ex_name ex ++ $" latency distribution (" ++ dec_of n ++ $" samples)") ++
            line ($"  ┌" ++ rule ++ $"┐") ++ rows ++ line ($"  └" ++ rule ++ $"┘")).

(** ** Queue tracker: the occupancy *)

Definition occupancy_row (ex : ExchangeStats) : bytes :=
  match occupancy_stats ex with
  | None => []
  | Some (mean, mn, mx) =>
      line ($"  │ " ++ setw_left 10 (ex_name ex) ++ $" │ " ++ setw_right 10 (fmt_fixed 1 mean) ++ $" │ " ++
            setw_right 8 (dec_of mn) ++ $" │ " ++ setw_right 8 (dec_of mx) ++ $"     │")
  end.

Definition print_occupancy (t : Tracker) : bytes :=
  [NL] ++ line $"  Queue Occupancy at Push Time (head-to-tail distance)" ++
  line $"  ┌────────────────────────────────────────────────────┐" ++
  line $"  │ Exchange   │    Mean    │    Min   │    Max       │" ++
  line $"  ├────────────────────────────────────────────────────┤" ++
  concat (map occupancy_row (registered t)) ++
  line $"  └────────────────────────────────────────────────────┘".

(** ** Queue tracker: the report *)

Fixpoint print_each (f : ExchangeStats -> ub bytes) (l : list ExchangeStats) : ub bytes :=
  match l with
  | [] => Some []
  | ex :: l' => s ← f ex; ss ← print_each f l'; Some (s ++ ss)
  end.

Definition print_histogram (t : Tracker) : ub bytes := print_each exchange_histogram (registered t).

Definition print_report (use_mpsc_queue : bool) (t : Tracker) : ub bytes :=
  rows ← print_each table_row (registered t);
  histogram ← print_histogram t;
  Some ([NL] ++
    line $"╔═══════════════════════════════════════════════════════════════════════════╗" ++
    line ($"║           QUEUE PUSH LATENCY (" ++ setw_left 20 (QUEUE_TYPE use_mpsc_queue) ++ $")                      ║") ++
    line $"╠═══════════════════════════════════════════════════════════════════════════╣" ++
    line $"║ Exchange   │   Count   │   Median   │     Min    │     Max    │    P99    ║" ++
    line $"╠═══════════════════════════════════════════════════════════════════════════╣" ++
    rows ++
    line $"╚═══════════════════════════════════════════════════════════════════════════╝" ++
    histogram ++ print_occupancy t).

(** ** Latency monitor *)

Definition ns_row (label : bytes) (ns : Z) : bytes := line (label ++ setw_right 10 (dec_of ns) ++ $" ns").

Definition metric_report (metric : LatencyMetric) (p : Percentiles) : ub bytes :=
  mean ← dtrunc (p_mean p);
  std_dev ← dtrunc (p_std_dev p);
  Some (line (metric_name metric ++ $" Latency:") ++
    ns_row $"  Min:    " (p_min p) ++ ns_row $"  Mean:   " mean ++
    ns_row $"  P50:    " (p50 p) ++ ns_row $"  P90:    " (p90 p) ++ ns_row $"  P95:    " (p95 p) ++
    ns_row $"  P99:    " (p99 p) ++ ns_row $"  P99.9:  " (p999 p) ++ ns_row $"  P99.99: " (p9999 p) ++
    ns_row $"  Max:    " (p_max p) ++ ns_row $"  StdDev: " std_dev ++ [NL]).

(** The metrics are those of the snapshot, in the order of the enumeration; a
    disabled monitor has none. *)
Fixpoint metric_reports (metrics : list LatencyMetric) (ps : list Percentiles) : ub bytes :=
  match metrics, ps with
  | metric :: metrics', p :: ps' => r ← metric_report metric p; rs ← metric_reports metrics' ps'; Some (r ++ rs)
  | _, _ => Some []
  end.

Definition monitor_report (dropped_samples : Z) (stats : StatsSnapshot) : ub bytes :=
  body ← metric_reports all_metrics (metrics stats);
  Some ([NL] ++ line $"========== Latency Report ==========" ++
    line ($"Total Samples: " ++ dec_of (total_samples stats)) ++
    line ($"Dropped Samples: " ++ dec_of dropped_samples) ++
    line ($"RDTSC Overhead: " ++ dec_of (rdtsc_overhead_ns stats) ++ $" ns") ++
    line $"====================================" ++ [NL] ++ body ++
    line $"====================================" ++ [NL]).

(** [export_to_csv]: the file's content when it can be opened; only the header
    is written. *)
Definition csv_header : bytes :=
  $"message_id,symbol,exchange," ++
  $"recv_ns,parsed_ns,enqueued_ns,dequeued_ns,engine_ns,calculated_ns,dashboard_ns," ++
  line $"parse_latency_ns,queue_latency_ns,engine_latency_ns,end_to_end_ns".
Definition export_to_csv (opens : bool) : option bytes := if opens then Some csv_header else None.

(** ** The histogram is printed *)

Lemma max_bucket_spec counts :
  0 <= max_bucket counts /\ (forall c, c ∈ counts -> c <= max_bucket counts) /\
  (max_bucket counts = 0 \/ max_bucket counts ∈ counts).
Proof.
  unfold max_bucket. induction counts as [|c counts IH] using rev_ind.
  { simpl. split; [done|]. split; [by intros c ?%elem_of_nil|by left]. }
  rewrite foldl_snoc. destruct IH as (H1 & H2 & H3). set (m := foldl _ 0 counts) in *.
  destruct (Z.ltb_spec m c).
  - split; [lia|]. split; [|right; apply elem_of_app; right; apply list_elem_of_here].
    intros c' [Hc'|Hc']%elem_of_app; [pose proof (H2 c' Hc'); lia|apply list_elem_of_singleton in Hc'; lia].
  - split; [done|]. split.
    + intros c' [Hc'|Hc']%elem_of_app; [by apply H2|apply list_elem_of_singleton in Hc'; lia].
    + destruct H3 as [|H3]; [by left|right; apply elem_of_app; by left].
Qed.

(** A bar fits its cell, and shows when its bucket is not empty. *)
Lemma bar_length_fits max_count c :
  0 <= c <= max_count -> 0 < max_count < 2 ^ 53 ->
  exists n, bar_length max_count c = Some n /\ 0 <= n <= BAR_WIDTH /\ (0 < c -> 1 <= n).
Proof.
  intros Hc Hm. unfold bar_length. rewrite (proj2 (Z.ltb_lt 0 max_count)) by lia.
  destruct (trunc_at_most BAR_WIDTH (dmul (ddiv (dZ c) (dZ max_count)) (dZ BAR_WIDTH))) as (n & -> & Hn).
  { apply mul_at_most; [apply div_at_most_one; lia|done]. }
  { done. }
  cbn [mbind option_bind]. eexists. split; [done|]. unfold BAR_WIDTH in *.
  destruct (Z.ltb_spec 0 c), (Z.eqb_spec n 0); cbn [andb]; lia.
Qed.

(** The cell between the label and the count. *)
Definition bar_cell (n : Z) : bytes := replicate (Z.to_nat n) "#"%char ++ replicate (Z.to_nat (BAR_WIDTH - n)) " "%char.

Lemma bar_cell_width n : 0 <= n <= BAR_WIDTH -> length (bar_cell n) = 40%nat.
Proof. intros Hn. unfold bar_cell. rewrite length_app, !length_replicate. unfold BAR_WIDTH in *. lia. Qed.

Lemma histogram_row_prints samples max_count b c :
  0 <= c <= max_count -> 0 < max_count < 2 ^ 53 ->
  exists n rest, histogram_row samples max_count b c =
    Some ($"  │ " ++ default [] (bucket_labels !! b) ++ $" │" ++ bar_cell n ++ $"│" ++ rest) /\
    0 <= n <= BAR_WIDTH /\ (0 < c <-> 0 < n).
Proof.
  intros Hc Hm. unfold histogram_row. destruct (bar_length_fits max_count c Hc Hm) as (n & En & Hn & Hpos).
  destruct ((c =? 0) && (0 <? b)%nat && (b <? 7)%nat) eqn:E.
  - bool_to_prop. exists 0, ($"   0 │" ++ [NL]). split; [|unfold BAR_WIDTH; lia].
    change (string_of BAR_WIDTH " "%char) with (Some (bar_cell 0)). cbn [mbind option_bind]. unfold line. by rewrite <-!app_assoc.
  - rewrite En. cbn [mbind option_bind]. unfold string_of. rewrite (proj2 (Z.ltb_ge n 0)), (proj2 (Z.ltb_ge _ 0)) by lia.
    cbn [mbind option_bind]. exists n. eexists. split; [unfold line, bar_cell; rewrite <-!app_assoc; reflexivity|].
    split; [done|]. split; [intros H1; specialize (Hpos H1); lia|]. intros H1.
    destruct (Z.eq_dec c 0) as [->|]; [|lia]. exfalso.
    unfold bar_length in En. rewrite (proj2 (Z.ltb_lt 0 max_count)) in En by lia.
    destruct (int_parts max_count Hm) as (m & E' & _). rewrite E' in En. simpl in En. injection En as <-. lia.
Qed.

(** The histogram of an exchange is always printed.  Whatever samples were
    recorded, each bar is as long as its bucket's share of the fullest one:
    never longer than its cell of 40 columns, so that the padding is never of
    negative length, and at least one column exactly when the bucket holds a
    sample. *)
Theorem histogram_bars (ex : ExchangeStats) b c :
  Forall (fun v => 0 <= v) (sample_window ex) -> Z.of_nat (length (samples ex)) < 2 ^ 53 ->
  bucket_counts ex !! b = Some c -> max_bucket (bucket_counts ex) <> 0 ->
  exists n rest, histogram_row (sample_count ex) (max_bucket (bucket_counts ex)) b c =
    Some ($"  │ " ++ default [] (bucket_labels !! b) ++ $" │" ++ bar_cell n ++ $"│" ++ rest) /\
    length (bar_cell n) = 40%nat /\ (0 < c <-> 0 < n) /\ is_Some (exchange_histogram ex).
Proof.
  intros Hv Hl Hc Hmax.
  assert (Hwin : Z.of_nat (length (sample_window ex)) < 2 ^ 53) by (unfold sample_window; rewrite length_take; lia).
  assert (Hlen : length (bucket_counts ex) = 8%nat).
  { assert (H : forall l cs, length (foldl tally cs l) = length cs).
    { induction l as [|v l IH]; intros cs; simpl; [done|]. rewrite IH. unfold tally. destruct (bucket_of _ _ _); [by rewrite length_alter|done]. }
    apply (H (sample_window ex) (replicate 8 0)). }
  assert (Hbound : forall i x, bucket_counts ex !! i = Some x -> 0 <= x < 2 ^ 53).
  { intros i x Hx. assert (Hi : (i < 8)%nat) by (rewrite <-Hlen; by eapply lookup_lt_Some).
    pose proof (tally_counts (sample_window ex) i Hi Hv ltac:(unfold two64; lia)) as Ht.
    change (foldl tally (replicate 8 0) (sample_window ex)) with (bucket_counts ex) in Ht.
    rewrite Hx in Ht. injection Ht as ->. split; [lia|].
    apply (Z.le_lt_trans _ (Z.of_nat (length (sample_window ex)))); [|done]. apply inj_le, length_filter. }
  destruct (max_bucket_spec (bucket_counts ex)) as (Hm0 & Hmall & Hmin).
  assert (Hm : 0 < max_bucket (bucket_counts ex) < 2 ^ 53).
  { split; [lia|]. destruct Hmin as [|[i Hi]%list_elem_of_lookup]; [done|]. by apply (Hbound i). }
  assert (Hall : forall i x, bucket_counts ex !! i = Some x -> 0 <= x <= max_bucket (bucket_counts ex)).
  { intros i x Hx. split; [by apply (Hbound i)|]. apply Hmall. by apply list_elem_of_lookup_2 in Hx. }
  destruct (histogram_row_prints (sample_count ex) (max_bucket (bucket_counts ex)) b c (Hall b c Hc) Hm) as (n & rest & E & Hn & Hiff).
  exists n, rest. split; [done|]. split; [by apply bar_cell_width|]. split; [done|].
  unfold exchange_histogram. case_match; [by eexists|]. case_match; [by eexists|].
  assert (Hrows : forall cs i, (forall x, x ∈ cs -> 0 <= x <= max_bucket (bucket_counts ex)) ->
    is_Some (histogram_rows (sample_count ex) (max_bucket (bucket_counts ex)) i cs)).
  { induction cs as [|x cs IH]; intros i Hx; [by eexists|]. cbn [histogram_rows].
    destruct (histogram_row_prints (sample_count ex) (max_bucket (bucket_counts ex)) i x) as (n' & rest' & -> & _);
      [apply Hx, list_elem_of_here|done|].
    destruct (IH (S i)) as [rs ->]; [intros y Hy; apply Hx; by right|]. by eexists. }
  destruct (Hrows (bucket_counts ex) 0%nat) as [rows ->].
  { intros x [i Hx]%list_elem_of_lookup. by apply (Hall i). }
  by eexists.
Qed.

(** ** Examples *)

Example ex_times :
  map format_time [7; 999; 1000; 123456; 999999; 2500000] =
  [$"   7ns"; $" 999ns"; $" 1.0us"; $"123.5us"; $"1000.0us"; $" 2.5ms"].
Proof. by vm_compute. Qed.

(** Three samples, two of them in one bucket. *)
Definition ex_samples : ExchangeStats :=
  record_stat 20000 9 (record_stat 70 4 (record_stat 80 2 (mkExchangeStats $"Kraken" 0 0 UINT64_MAX 0 [0; 0; 0] [0; 0; 0] 0))).

Example ex_rows :
  map (fun b => (fun s => length s) <$> histogram_row 3 2 b (default 0 (bucket_counts ex_samples !! b))) [0%nat; 1%nat; 7%nat] =
  [Some 77%nat; Some 78%nat; Some 78%nat].
Proof. by vm_compute. Qed.

Example ex_occupancy : occupancy_row ex_samples = line $"  │ Kraken     │        5.0 │        2 │        9     │".
Proof. by vm_compute. Qed.

Example ex_table : table_row ex_samples = Some (line $"║ Kraken     │         3 │       80ns │       70ns │     20.0us │    20.0us ║").
Proof. by vm_compute. Qed.

Lemma histogram_bars_witness :
  exists n rest, histogram_row 3 2 1 2 =
    Some ($"  │ " ++ $" 50-100ns" ++ $" │" ++ bar_cell n ++ $"│" ++ rest) /\ length (bar_cell n) = 40%nat.
Proof.
  destruct (histogram_bars ex_samples 1 2) as (n & rest & E & H & _);
    [by apply (bool_decide_eq_true_1 _); vm_compute|by vm_compute|by vm_compute|by vm_compute|].
  exists n, rest. split; [exact E|exact H].
Defined.

(** What the monitor prints for a metric without samples. *)
Example ex_metric :
  is_Some (monitor_report 0 (mkStatsSnapshot [] 5 12)) /\ monitor_report 0 (mkStatsSnapshot [] 5 12) = Some (
    [NL] ++ line $"========== Latency Report ==========" ++ line $"Total Samples: 5" ++ line $"Dropped Samples: 0" ++
    line $"RDTSC Overhead: 12 ns" ++ line $"====================================" ++ [NL] ++
    line $"====================================" ++ [NL]).
Proof. split; [by eexists|by vm_compute]. Qed.
