(* ===== verification/TickLogger.v ===== *)
(** * Tick logger (src/tick_logger.hpp, src/tick_logger.cpp)

    [TickLogger] turns best-bid/offer ticks into lines of the InfluxDB line
    protocol and streams them to QuestDB from a background thread.  The model
    is a machine: loggers append to the pending buffer at any time, the writer
    swaps it out and sends it over a connection that may fail to open, accept
    part of a buffer, or break.  What the network answers is the environment's
    choice. *)

From Stdlib Require Import ZArith Lia.
From S2P Require Import Prelude Float64 Str Fmt Types OrderBook ArbEngine QueryProtocol.

(** ** One line *)

(** [%.*s] stops at a NUL byte; the names are shorter than 2^31. *)
Definition ilp_line (t : BboTick) : bytes :=
  $"order_book,exchange=" ++ c_str (tk_exchange t) ++ $",symbol=" ++ c_str (tk_symbol t) ++
  $" bid=" ++ fmt_g 6 (tk_bid t) ++ $",ask=" ++ fmt_g 6 (tk_ask t) ++
  $",mid=" ++ fmt_g 6 (tk_mid t) ++ $",spread_bps=" ++ fmt_g 6 (tk_spread t) ++
  $" " ++ dec_of (tk_ts_ns t) ++ [NL].

(** [snprintf] returns the length of the whole line; a line that does not fit
    the 256-byte buffer is given up. *)
Definition log_bbo (t : BboTick) (pending : list bytes) : list bytes :=
  let line := ilp_line t in
  let n := Z.of_nat (length line) in
  if (n <=? 0) || (256 <=? n) then pending else pending ++ [line].

(** ** The writer *)

(** [flush_batch]'s send loop: the results of the calls to [send], each
    accepting at most what it is given.  [None] when the results run out: the
    thread is still in [send]. *)
Fixpoint flush_loop (results : list Z) (sent : nat) (buf : bytes) : option (bytes * bool) :=
  if (sent <? length buf)%nat then
    match results with
    | [] => None
    | n :: results =>
        if n <=? 0 then Some (take sent buf, false)
        else flush_loop results (sent + Nat.min (Z.to_nat n) (length buf - sent)) buf
    end
  else Some (take sent buf, true).

Definition flush_batch (results : list Z) (lines : list bytes) : option (bytes * bool) :=
  flush_loop results 0 (concat lines).

(** Where the writer is: at the test of [running_], in [wait_for], about to
    send, or returned. *)
Inductive WriterPc := WTop | WWait | WSend | WDone.

(** What became of a batch. *)
Inductive Outcome :=
  | BatchSent                      (* accepted whole by the connection *)
  | BatchCut (accepted : bytes)    (* the connection broke after these bytes *)
  | BatchDropped.                  (* no connection could be opened *)

(** [streams] are the bytes accepted by the connections opened so far, the
    last one first; [fd_open] tells whether it is still open.  [logged] and
    [history] are ghosts: the lines appended so far and the batches taken, in
    order, with their outcomes. *)
Record TickLogger := mkTickLogger {
  running_ : bool;
  pending_ : list bytes;
  batch : list bytes;
  wpc : WriterPc;
  fd_open : bool;
  streams : list bytes;
  logged : list bytes;
  history : list (list bytes * Outcome);
}.
#[export] Instance TickLogger_settable : Settable TickLogger := fun l =>
  mkTickLogger (running_ l) (pending_ l) (batch l) (wpc l) (fd_open l) (streams l) (logged l) (history l).

(** The constructor starts the writer. *)
Definition new_logger : TickLogger := mkTickLogger true [] [] WTop false [] [] [].

Inductive LAct :=
  | Log (t : BboTick)                            (* [log_bbo], any thread *)
  | Shutdown                                     (* the destructor's store to [running_] *)
  | Top                                          (* the loop's test *)
  | Wake (timed_out : bool)                      (* [wait_for] returns *)
  | Send (connects : bool) (results : list Z).   (* connect, flush, clear *)

(** [wait_for] returns when its predicate holds or after 200 ms; the lock is
    held while the buffers are swapped. *)
Definition wake (timed_out : bool) (l : TickLogger) : option TickLogger :=
  match pending_ l with
  | [] => if timed_out || negb (running_ l) then Some (l <| wpc := WTop |>) else None
  | p => Some (l <| batch := p |> <| pending_ := [] |> <| wpc := WSend |>)
  end.

(** The connection a batch goes to: an open one, or a new one if it connects. *)
Definition ensure_connected (connects : bool) (l : TickLogger) : option (bytes * list bytes) :=
  match fd_open l, streams l with
  | true, s :: rest => Some (s, rest)
  | _, rest => if connects then Some ([], rest) else None
  end.

Definition send_step (connects : bool) (results : list Z) (l : TickLogger) : option TickLogger :=
  match ensure_connected connects l with
  | None =>
      Some (l <| batch := [] |> <| wpc := WTop |> <| history := history l ++ [(batch l, BatchDropped)] |>)
  | Some (stream, rest) =>
      '(accepted, ok) ← flush_batch results (batch l);
      Some (l <| batch := [] |> <| wpc := WTop |> <| fd_open := ok |> <| streams := (stream ++ accepted) :: rest |>
              <| history := history l ++ [(batch l, if ok : bool then BatchSent else BatchCut accepted)] |>)
  end.

Definition logger_act (a : LAct) (l : TickLogger) : option TickLogger :=
  match a with
  | Log t => Some (l <| pending_ := log_bbo t (pending_ l) |> <| logged := log_bbo t (logged l) |>)
  | Shutdown => Some (l <| running_ := false |>)
  | Top => match wpc l with WTop => Some (l <| wpc := if running_ l then WWait else WDone |>) | _ => None end
  | Wake timed_out => match wpc l with WWait => wake timed_out l | _ => None end
  | Send connects results => match wpc l with WSend => send_step connects results l | _ => None end
  end.

Definition lstep (l l' : TickLogger) : Prop := exists a, logger_act a l = Some l'.

(** ** Lines *)

Definition plain (s : bytes) : Prop := (NUL ∉ s) /\ (NL ∉ s).

Lemma line_bounds t pending :
  log_bbo t pending = pending \/
  log_bbo t pending = pending ++ [ilp_line t] /\ (length (ilp_line t) < 256)%nat.
Proof.
  unfold log_bbo. destruct (_ || _) eqn:E; [by left|right]. bool_to_prop. split; [done|lia].
Qed.

Lemma fmt_no_nl v : NL ∉ fmt_g 6 v.
Proof. by apply fmt_g_not_in. Qed.

Lemma dec_no_nl n : 0 <= n -> NL ∉ dec_of n.
Proof.
  intros Hn Hin. pose proof (dec_of_digits n Hn) as Hd. rewrite Forall_forall in Hd. by apply Hd in Hin.
Qed.

(** A buffer of whole lines: each ends with its only newline. *)
Definition whole_line (s : bytes) : Prop := framed s /\ (length s < 256)%nat.

Lemma ilp_line_framed t :
  (NL ∉ tk_exchange t) -> (NL ∉ tk_symbol t) -> 0 <= tk_ts_ns t -> framed (ilp_line t).
Proof.
  intros He Hs Hts. unfold ilp_line.
  exists ($"order_book,exchange=" ++ c_str (tk_exchange t) ++ $",symbol=" ++ c_str (tk_symbol t) ++
    $" bid=" ++ fmt_g 6 (tk_bid t) ++ $",ask=" ++ fmt_g 6 (tk_ask t) ++
    $",mid=" ++ fmt_g 6 (tk_mid t) ++ $",spread_bps=" ++ fmt_g 6 (tk_spread t) ++ $" " ++ dec_of (tk_ts_ns t)).
  split; [by rewrite <-!app_assoc|].
  rewrite !not_elem_of_app. split_and!; try apply fmt_no_nl; try (by apply (bool_decide_eq_true_1 _)).
  - intros H%c_str_incl. done.
  - intros H%c_str_incl. done.
  - by apply dec_no_nl.
Qed.

(** ** Streams *)

(** What the connections received, from the fate of the batches. *)
Definition outcome_bytes (h : list bytes * Outcome) : bytes :=
  match h.2 with BatchSent => concat h.1 | BatchCut a => a | BatchDropped => [] end.

Lemma flush_loop_spec results sent buf a ok :
  (sent <= length buf)%nat -> flush_loop results sent buf = Some (a, ok) ->
  a `prefix_of` buf /\ (ok = true <-> a = buf).
Proof.
  revert sent. induction results as [|n results IH]; simpl; intros sent Hs.
  - destruct (Nat.ltb_spec sent (length buf)); [done|]. intros [= <- <-]. rewrite take_ge by lia. done.
  - destruct (Nat.ltb_spec sent (length buf)) as [Hlt|Hge]; [|intros [= <- <-]; by rewrite take_ge by lia].
    destruct (n <=? 0); [|apply IH; lia]. intros [= <- <-]. split; [apply prefix_take|]. split; [done|].
    intros E. apply (f_equal length) in E. rewrite length_take in E. lia.
Qed.

(** The loop ends: enough positive results always finish the buffer. *)
Lemma flush_loop_ends results sent buf :
  Forall (fun n => 0 < n) results -> (sent <= length buf)%nat -> (length buf <= sent + length results)%nat ->
  flush_loop results sent buf = Some (buf, true).
Proof.
  intros Hr. revert sent. induction Hr as [|n results Hn Hr IH]; simpl; intros sent Hs Hl.
  - destruct (Nat.ltb_spec sent (length buf)); [lia|]. by rewrite take_ge by lia.
  - destruct (Nat.ltb_spec sent (length buf)); [|by rewrite take_ge by lia].
    rewrite (proj2 (Z.leb_gt _ _)) by done. apply IH; lia.
Qed.

Definition logger_ok (l : TickLogger) : Prop :=
  logged l = concat (map fst (history l)) ++ batch l ++ pending_ l /\
  concat (rev (streams l)) = concat (map outcome_bytes (history l)) /\
  Forall (fun h => match h.2 with BatchCut a => a `prefix_of` concat h.1 /\ a <> concat h.1 | _ => True end) (history l) /\
  (wpc l <> WSend -> batch l = []) /\ (fd_open l = true -> streams l <> []).

Lemma log_bbo_app t l1 l2 : log_bbo t (l1 ++ l2) = l1 ++ log_bbo t l2.
Proof. unfold log_bbo. case_match; [done|]. by rewrite app_assoc. Qed.

Lemma logger_step_ok l l' : logger_ok l -> lstep l l' -> logger_ok l'.
Proof.
  intros (H1 & H2 & H3 & H4 & H5) (a & Ha). destruct a as [t| | |timed_out|connects results]; simpl in Ha.
  - injection Ha as <-. unfold logger_ok. simpl. split_and!; try done.
    by rewrite H1, !log_bbo_app.
  - injection Ha as <-. by split_and!.
  - destruct (wpc l) eqn:E; try done. injection Ha as <-. split_and!; try done. intros _. by apply H4.
  - destruct (wpc l) eqn:E; try done. unfold wake in Ha.
    destruct (pending_ l) as [|p ps] eqn:Ep.
    + destruct (_ || _); [|done]. injection Ha as <-. unfold logger_ok. simpl. rewrite Ep. split_and!; try done. intros _. by apply H4.
    + injection Ha as <-. unfold logger_ok. simpl. split_and!; try done.
      rewrite H1, (H4 ltac:(done)). simpl. by rewrite app_nil_r.
  - destruct (wpc l) eqn:E; try done. unfold send_step in Ha.
    destruct (ensure_connected connects l) as [[s rest]|] eqn:Ec.
    + apply bind_Some in Ha as ([acc ok] & Hf & [= <-]).
      destruct (flush_loop_spec _ _ _ _ _ (Nat.le_0_l _) Hf) as [Hp Hok]. unfold logger_ok. simpl.
      assert (Hst : concat (rev (streams l)) = concat (rev rest) ++ s).
      { unfold ensure_connected in Ec. destruct (fd_open l) eqn:Eo.
        - destruct (streams l) as [|s' r'] eqn:Es; [by destruct (H5 eq_refl)|]. injection Ec as <- <-.
          simpl. rewrite concat_app. simpl. by rewrite app_nil_r.
        - assert (Ec' : (if connects then Some ([], streams l) else None) = Some (s, rest)) by by destruct (streams l).
          destruct connects; [|done]. injection Ec' as <- <-. by rewrite app_nil_r. }
      split_and!; try done.
      * rewrite H1, map_app, concat_app. simpl. by rewrite app_nil_r, <-app_assoc.
      * rewrite concat_app. simpl. rewrite app_nil_r, map_app, concat_app, <-H2, Hst. simpl.
        rewrite app_nil_r, <-app_assoc. do 2 f_equal. destruct ok; [|done]. by apply Hok.
      * apply Forall_app. split; [done|]. constructor; [|constructor]. simpl. destruct ok; [done|].
        split; [done|]. intros Eb. by apply Hok in Eb.
    + injection Ha as <-. unfold logger_ok. simpl. split_and!; try done.
      * rewrite H1, map_app, concat_app. simpl. by rewrite app_nil_r, <-app_assoc.
      * rewrite map_app, concat_app. simpl. by rewrite app_nil_r.
      * apply Forall_app. split; [done|]. constructor; [by split|constructor].
Qed.

Lemma reachable_logger l : rtc lstep new_logger l -> logger_ok l.
Proof.
  intros Hr. eapply (rtc_invariant lstep logger_ok); [intros ? ?; apply logger_step_ok|exact Hr|].
  by split_and!.
Qed.

(** C31: in every interleaving of loggers, writer, shutdown and network
    behaviour: each line logged is in exactly one place, in order (in a batch
    already handled, in the batch being sent, or pending); the bytes received
    by all the connections together are those of the batches sent, in order,
    with a proper prefix of a batch where a connection broke; so no line is
    sent twice or out of order. *)
Theorem tick_stream l :
  rtc lstep new_logger l ->
  logged l = concat (map fst (history l)) ++ batch l ++ pending_ l /\
  concat (rev (streams l)) = concat (map outcome_bytes (history l)) /\
  (forall b a, (b, BatchCut a) ∈ history l -> exists rest, concat b = a ++ rest /\ rest <> []).
Proof.
  intros Hr. destruct (reachable_logger l Hr) as (H1 & H2 & H3 & _). split_and!; [done|done|].
  intros b a Hin. rewrite Forall_forall in H3. destruct (H3 _ Hin) as [[rest Hp] Hne].
  simpl in *. exists rest. split; [done|]. intros ->. by rewrite app_nil_r in Hp.
Qed.

(** a tick of names without newlines is enqueued as one line of the
    protocol (ended by its only newline, shorter than 256 bytes), or, when it
    does not fit the buffer, not at all; and a batch goes out whole as soon as
    the socket keeps accepting bytes. *)
Theorem tick_lines t pending results :
  (NL ∉ tk_exchange t) -> (NL ∉ tk_symbol t) -> 0 <= tk_ts_ns t ->
  Forall whole_line pending -> Forall (fun n => 0 < n) results ->
  (length (concat (log_bbo t pending)) <= length results)%nat ->
  Forall whole_line (log_bbo t pending) /\
  (log_bbo t pending = pending <-> (256 <= length (ilp_line t))%nat) /\
  flush_batch results (log_bbo t pending) = Some (concat (log_bbo t pending), true).
Proof.
  intros He Hs Hts Hp Hr Hl. pose proof (ilp_line_framed t He Hs Hts) as Hf. split_and!.
  - destruct (line_bounds t pending) as [->|[-> Hb]]; [done|]. apply Forall_app. split; [done|]. constructor; [by split|constructor].
  - split.
    + intros E. destruct (line_bounds t pending) as [_|[E' Hb]].
      * unfold log_bbo in E. destruct (_ || _) eqn:Eb.
        -- apply orb_true_iff in Eb as [Eb|Eb]; bool_to_prop; [|lia]. destruct Hf as (body & Hbd & _).
           rewrite Hbd, length_app in Eb. simpl in Eb. lia.
        -- apply (f_equal length) in E. rewrite length_app in E. simpl in E. lia.
      * rewrite E in E'. apply (f_equal length) in E'. rewrite length_app in E'. simpl in E'. lia.
    + intros Hge. unfold log_bbo. rewrite (proj2 (Z.leb_le 256 _)) by lia. by rewrite orb_true_r.
  - apply flush_loop_ends; [done|lia|done].
Qed.

(** ** Examples and witnesses *)

Definition ex_tick : BboTick := mkBboTick $"Binance" $"BTC" (dlit 6543210 100) (dlit 654330 10) (dlit 6543255 100) (dlit 137 100) 1715000000000000000.

(** The header's example prints the prices with two decimals; [%g] keeps six
    significant digits. *)
Example ex_line : ilp_line ex_tick =
  $"order_book,exchange=Binance,symbol=BTC bid=65432.1,ask=65433,mid=65432.6,spread_bps=1.37 1715000000000000000" ++ [NL].
Proof. vm_compute. reflexivity. Qed.

(** Lines logged before the destructor runs may never be sent. *)
Example shutdown_loses_pending :
  exists l, rtc lstep new_logger l /\ wpc l = WDone /\ pending_ l = [ilp_line ex_tick] /\ streams l = [].
Proof.
  eexists. split; [|split_and!].
  - eapply rtc_l; [exists (Log ex_tick); reflexivity|]. eapply rtc_l; [exists Shutdown; reflexivity|].
    eapply rtc_l; [exists Top; reflexivity|]. apply rtc_refl.
  - reflexivity.
  - vm_compute. reflexivity.
  - reflexivity.
Qed.

Fixpoint run_logger (acts : list LAct) (l : TickLogger) : option TickLogger :=
  match acts with [] => Some l | a :: acts => l' ← logger_act a l; run_logger acts l' end.

Lemma run_logger_rtc acts l l' : run_logger acts l = Some l' -> rtc lstep l l'.
Proof.
  revert l. induction acts as [|a acts IH]; simpl; intros l; [by intros [= ->]|].
  intros (l1 & H1 & H2)%bind_Some. eapply rtc_l; [by exists a|by apply IH].
Qed.

(** One batch goes through, the next breaks after 20 bytes. *)
Definition ex_acts : list LAct :=
  [Log ex_tick; Top; Wake false; Send true [100; 100]; Log ex_tick; Top; Log ex_tick; Wake false; Send true [20; -1]].

Lemma tick_stream_witness :
  exists l, run_logger ex_acts new_logger = Some l /\
    concat (rev (streams l)) = ilp_line ex_tick ++ take 20 (ilp_line ex_tick).
Proof.
  destruct (run_logger ex_acts new_logger) as [l|] eqn:E; [|by vm_compute in E].
  exists l. split; [done|]. pose proof (run_logger_rtc _ _ _ E) as Hr.
  destruct (tick_stream l Hr) as (_ & -> & _). vm_compute in E. injection E as <-. vm_compute. reflexivity.
Defined.

Lemma tick_lines_witness :
  flush_batch (replicate 120 1) (log_bbo ex_tick []) = Some (ilp_line ex_tick, true).
Proof.
  destruct (tick_lines ex_tick [] (replicate 120 1)) as (_ & _ & H).
  - by apply (bool_decide_eq_false_1 _); vm_compute.
  - by apply (bool_decide_eq_false_1 _); vm_compute.
  - done.
  - constructor.
  - by apply Forall_replicate.
  - apply Nat.leb_le. vm_compute. reflexivity.
  - etransitivity; [exact H|]. vm_compute. reflexivity.
Defined.
